(* ===== verification/_CoqProject ===== *)
-Q . S2P
Prelude.v
Types.v
Crdt.v
Crypto.v
Values.v
Unicode.v
Pow.v
Ratchet.v
RatchetProtocol.v
Session.v
Epoch.v
Handles.v
Dht.v
Gossip.v
Topics.v
Post.v
Tables.v
Listing.v
Paging.v
Metadata.v
Messages.v
Connections.v
Ingest.v
Delivery.v
Groups.v
GroupProps.v
Protocol.v
Float64.v
Abuse.v
Moderation.v
Migrations.v
Store.v
Posting.v
Feeds.v
Threads.v
Mentions.v
NodeDht.v
HandleNode.v
Profiles.v
Notifications.v
Bip39.v
Keystore.v
IdentityNode.v
Video.v
MediaPipeline.v
Transport.v
Config.v
Rpc.v
Server.v
Lifecycle.v
Api.v
ApiRouter.v
ApiPosts.v
ApiMessages.v
