(* ===== verification/Prelude.v ===== *)
(** * Ephemera: a model of the node and its correctness

    Ephemera is a peer-to-peer social network in Rust: nodes hold keys and
    handles, exchange encrypted messages, gossip posts, look each other up in
    a distributed hash table, keep what they know in one SQLite file and
    serve a local client over JSON-RPC.  This library translates the crates
    into executable definitions, proves what makes them correct and, where
    the code falls short of what it says, what it does instead.  Paths below
    are under [src/crates]; a crate is named without its prefix [ephemera-].

    ** Files

    Foundations:
    - [Prelude] (this file): results and the state-and-error monad [SE] with
      its notations [let?] and [let!], triples for fallible methods, machine
      integers, byte strings and integer codes, stable sorting, list and
      relation lemmas, the tactics [guards] and [bprop], the hint database
      [eph].
    - [Types] ([types]: errors, TTLs, hybrid timestamps, content ids, the XOR
      metric) and [Values] (the wire format of signatures, qualities, hashes
      of streams from [crypto/hash.rs]); [Unicode], Rust strings as scalar values with their UTF-8
      bytes, and [hex]; [Float64], the doubles of Rust; [Tables], SQL tables
      as maps from the primary key; [Listing] and [Paging], [ORDER BY ..
      LIMIT] and the cursors of feeds.
    - [Migrations] ([store/migrations.rs] and the scripts of
      [store/metadata.rs]); [Metadata], the rows the message tables hold.

    Keys and messages:
    - [Crypto]: the wrappers of [crypto] over third-party primitives (class
      [Primitives], with [PrimitiveLaws] and the instance [Toy]); [Pow]:
      [crypto/pow.rs], [abuse/pow.rs]; [Epoch]: [crypto/epoch.rs],
      [epoch_crypto.rs].
    - [Bip39], [Keystore] ([crypto/keystore.rs], [export.rs], [device.rs],
      [keys.rs], [identity.rs]) and [IdentityNode]
      ([node/services/identity.rs]).
    - [Ratchet] ([message/encryption.rs], [prekey.rs], [x3dh.rs],
      [ratchet.rs]), [RatchetProtocol] (two parties over lossy first-in
      first-out channels, as a step relation), [Session]
      ([message/session.rs]).
    - [Messages] ([message/conversation.rs], [request.rs], [sealed.rs],
      [dead_drop.rs], [service.rs], [service_extra.rs]); [Connections]
      ([social/connection.rs], [block.rs] and their stores).
    - [Ingest]: what the running node does with messages and connections
      ([node/services/social.rs], [message_ingest.rs], [background.rs]);
      [Delivery]: both ends of an exchange; [Threads]: what clients are shown
      of it, blocks and mutes.

    The network:
    - [Gossip]: [gossip], handlers with an outbox and a network of them,
      and [Topics], the names of its topics;
      [Dht]: [dht]; [NodeDht] and [HandleNode] ([node/services/dht.rs],
      [dht_query.rs], [services/handle.rs] and their tasks); [Handles]
      ([social/handle.rs], [handle_validation.rs]).
    - [Protocol]: [protocol]; [Transport]: [transport], the pool, the peers
      of the QUIC transport with their tasks, and the class [Transport].
    - [Crdt]: [crdt], with the class [JoinLaws].

    Social data:
    - [Post] ([post]) and [Posting] (the posts of the node:
      [node/services/post.rs], [gossip_ingest.rs], [lib.rs], reports).
    - [Feeds] and [Mentions] ([social/store], [node/services/feed.rs]);
      [Profiles] ([social/profile.rs], [invite.rs], the profile service);
      [Notifications]; [Groups] and [GroupProps] ([social/group.rs],
      [group_chat.rs], their stores and the operations of the node).
    - [Abuse]: [abuse]; [Moderation]: [mod].
    - [Store]: [store/content_store.rs], [gc.rs], [media_store.rs],
      [media/chunker.rs], [node/services/media.rs]; [Video] and
      [MediaPipeline]: [media].

    The process:
    - [Config]: [config], [events], [node/startup.rs]; [Lifecycle]:
      [node/lib.rs], [network.rs], [services/mod.rs] and how [cli] builds its
      node; [Rpc]: [node/rpc.rs], [rpc_auth.rs], [debug_log.rs].
    - [Api] ([node/api]: every handler, over the class [Backend] of service
      calls), [ApiRouter] (which names there are and what any answer can
      be), [ApiPosts] and [ApiMessages] (the handlers of posts and messages
      over [Posting], [Ingest] and [Threads]); [Server]: [client/server.rs],
      [commands.rs].

    ** How state and effects are modelled

    A [&mut self] method is a function that returns the new state with its
    result, written in [SE] where it can fail part-way; a shared lock held for
    one update is one atomic function, and tasks that run beside each other
    are a step relation over such functions ([Lifecycle], [Transport],
    [Gossip]).  Clocks, random draws, shuffles, the answers of the system and
    the set of connected peers are arguments, one for each time they are
    read.  [HashMap] and [HashSet] are [gmap] and [gset]; where code iterates
    over one, no property depends on the order.  A [BTreeMap] is an
    association list in key order, and [Vec] a list.  Unsigned integers are
    [N], signed ones [Z], with their wrap-around written out ([add64],
    [as_i64]), as the release profile has no overflow checks; a panic is a
    result of its own where it can happen.

    Third-party code is a parameter with its documented behaviour as a class
    of laws beside it, and a concrete instance for the witnesses:
    [Primitives], [Blake3Hasher], [KeyConversion], [KeyFormats] (ciphers,
    curves, hashes, key derivation), [Hex], [Json], [DhtJson], [PostJson], [Canonical],
    [SealedJson], [EnvelopeJson] (serde), [Toml], [CharClass], [ImageCrate],
    [Mp4Crate], [Frontend] (embedded files).  [Backend], [PostContext],
    [MessageContext] and [Transport] are interfaces within the program.

    ** What the theorems show

    - Messaging: X3DH agrees; in every reachable state of the two-party
      protocol the next message decrypts, across losses and ratchet steps;
      the first message and sealed messages arrive; the conversation list
      refines a map; the message and connection tables stay well formed under
      everything the node does ([node_tables_invariant]); a request, its
      acceptance and a direct message reach the other node
      ([connection_handshake], [plaintext_dm_delivered]); a message sent
      through the API of one node is read through that of another, but no
      more than a hundred characters of it ([rpc_message_roundtrip]).
    - Network: at quiescence everyone connected has what anyone has
      ([gossip_floods]); the iterative lookup ends with the nearest nodes;
      conflicts over handles settle the same way in any order; a query is
      answered by whoever has the record; profiles reach peers; the tables
      of the transport agree with its tasks in every interleaving.
    - Posts: a created post is accepted, shown and fetched as it was written,
      through the API too ([rpc_post_roundtrip]); deleted posts stay deleted
      on every path; feeds and their pages show exactly what they should, or
      what keeps them from it; reactions are counted; reports give their
      verdict.
    - Groups: the tables keep their invariant, and who has no role in a group
      changes nothing in it.
    - Keys: mnemonics decode to what was encoded and to nothing else; what
      the services hold of an identity agrees; destroyed epochs stay
      destroyed within a manager.
    - Media: boxes of user data are blanked and nothing else
      ([strip_refines_boxes], a refinement of an abstract walk), uploads hold
      no metadata, and what is served over HTTP is what was uploaded.
    - Storage: chunks and garbage collection are exact; the schema is the
      same however often a start was cut short ([migrations_converge]).
    - Process: the rate limiter admits at most its bound; start and shutdown
      keep the node's parts in step ([lifecycle_invariant]); every request is
      answered with a result or one of the documented codes, and only the
      token opens the endpoint ([rpc_errors], [rpc_guarded]); the advertised
      methods are those that exist ([capabilities_exact]).

    Where the code does otherwise than it says, a theorem or lemma shows it:
    [gossip_poisoning], [post_id_squatting], [renew_invalidates],
    [restart_is_deaf], [forged_acceptance], [mute_wraps], [stale_open] and
    others.

    ** Fuel

    Functions whose recursion is not structural take fuel, and for each a
    lemma says how much is enough.  Mining ([find_counter]): anything past
    the least solution ([pow_generate_verifies], [register_valid]).  Cutting
    a byte string into frames, slices or chunks ([drain], [slices],
    [chunks], [extract_from]): its length.  Reading a feed page by page
    ([read_feed], [read_cards]): one more than its items.  The walks over the
    boxes of a video ([strip_boxes_recursive], [scan_for_metadata_boxes]):
    the length of the file while positions do not wrap ([strip_runs]); for
    the file of [strip_diverges] no fuel is enough, as the loop never ends.
    [pseudonyms_from] counts up to the index the file holds.  The ratchet
    skips as many messages as the header asks for, and the termination of the
    lookup is a bound on the number of its steps.

    ** Not modelled

    - Code that is not here: QUIC and its handshakes, SQLite beyond the
      statements used, the codecs of images and videos, the text of JSON,
      TOML and error messages of other crates.
    - Input and output errors of the file system, poisoned locks, allocation
      failures, constant-time comparison and zeroisation on drop.
    - Display, Debug and serde implementations, accessors, log lines, and
      plain data that nothing reads (the payload structs of
      [protocol/messages.rs]).
    - The command line's argument parsing and printing; windows, tray and deep
      links of the desktop shell, and its JavaScript frontend.
    - Modules that are compiled into no crate: [node/subsystems.rs] and the
      mobile and platform modules of [client].
    - Test utilities and fuzz targets. *)
From stdpp Require Export base numbers list gmap strings fin_maps.
From Stdlib Require Export Ascii.
From Stdlib Require Export Sorting.Sorted Sorting.Permutation.

(* ------------------------------------------------------------------ *)
(** ** Results *)

(** Rust's [Result<T, E>]. *)
Inductive result (E T : Type) : Type :=
| Ok (t : T)
| Err (e : E).
Arguments Ok {E T} _.
Arguments Err {E T} _.

Definition result_bind {E T U} (r : result E T) (k : T → result E U) : result E U :=
  match r with Ok t => k t | Err e => Err e end.

Definition result_map {E T U} (f : T → U) (r : result E T) : result E U :=
  match r with Ok t => Ok (f t) | Err e => Err e end.

(** [map_err] of the Rust standard library. *)
Definition map_err {E F T} (f : E → F) (r : result E T) : result F T :=
  match r with Ok t => Ok t | Err e => Err (f e) end.

(** [ok_or] of the Rust standard library. *)
Definition ok_or {E T} (o : option T) (e : E) : result E T :=
  match o with Some t => Ok t | None => Err e end.

Definition is_ok {E T} (r : result E T) : bool :=
  match r with Ok _ => true | Err _ => false end.

Declare Scope eph_scope.
Delimit Scope eph_scope with eph.
Notation "'let?' x ':=' r 'in' k" := (result_bind r (fun x => k))
  (at level 10, x pattern, r at level 100, k at level 200) : eph_scope.
Open Scope eph_scope.

#[global] Instance result_eq_dec {E T} `{EqDecision E, EqDecision T} : EqDecision (result E T).
Proof. solve_decision. Defined.

Lemma bind_ok_unit {E} (r : result E unit) {U} (k : result E U) (u : U) :
  (let? _ := r in k) = Ok u ↔ r = Ok tt ∧ k = Ok u.
Proof. destruct r as [[]|]; simpl; naive_solver. Qed.

(** A [&mut self] method that can fail part-way: it returns the state it
    leaves behind together with its result. *)
Definition SE (S E T : Type) : Type := S → S * result E T.

Definition se_ret {S E T} (t : T) : SE S E T := λ s, (s, Ok t).
Definition se_bind {S E T U} (m : SE S E T) (k : T → SE S E U) : SE S E U :=
  λ s, match m s with
       | (s', Ok t) => k t s'
       | (s', Err e) => (s', Err e)
       end.
(** [?] applied to a result that does not touch the state. *)
Definition se_lift {S E T} (r : result E T) : SE S E T := λ s, (s, r).
Definition se_get {S E} : SE S E S := λ s, (s, Ok s).
Definition se_modify {S E} (f : S → S) : SE S E unit := λ s, (f s, Ok tt).
Definition se_map_err {S E F T} (f : E → F) (m : SE S E T) : SE S F T := λ s, let '(s', r) := m s in (s', map_err f r).
(** An operation on a part of the state. *)
Definition se_zoom {S T E A} (get : S → T) (set : T → S → S) (m : SE T E A) : SE S E A := λ s,
  let '(t, r) := m (get s) in (set t s, r).

Notation "'let!' x ':=' m 'in' k" := (se_bind m (fun x => k))
  (at level 10, x pattern, m at level 100, k at level 200) : eph_scope.

(** What a computation that succeeds went through. *)
Lemma se_bind_ok {S E A B} (m : SE S E A) (k : A → SE S E B) s s' b :
  se_bind m k s = (s', Ok b) → ∃ s1 a, m s = (s1, Ok a) ∧ k a s1 = (s', Ok b).
Proof. unfold se_bind. destruct (m s) as [s1 [a|]]; [eauto|done]. Qed.
Lemma se_lift_ok {S E A} (r : result E A) (s s' : S) a : se_lift r s = (s', Ok a) → s' = s ∧ r = Ok a.
Proof. by intros [= -> ->]. Qed.
Lemma se_map_err_ok {S E F A} (f : E → F) (m : SE S E A) s s' a : se_map_err f m s = (s', Ok a) → m s = (s', Ok a).
Proof. unfold se_map_err. destruct (m s) as [s1 [x|]]; [by intros [= -> ->]|done]. Qed.
Lemma map_err_ok {E F A} (f : E → F) (r : result E A) a : map_err f r = Ok a → r = Ok a.
Proof. destruct r; [by intros [= ->]|done]. Qed.

(** Triples for fallible methods.  [triple R P m Q]: run from a state in [P],
    [m] moves the state by [R]-steps whether or not it fails, and when it
    succeeds its result and state are in [Q]. *)
Section triple.
Context {S E : Type} (R : S → S → Prop).

Definition triple {A} (P : S → Prop) (m : SE S E A) (Q : A → S → Prop) : Prop :=
  ∀ s, P s → rtc R s (m s).1 ∧ (∀ a, (m s).2 = Ok a → Q a (m s).1).

Lemma triple_bind {A B} P (m : SE S E A) Q (k : A → SE S E B) Q' :
  triple P m Q → (∀ a, triple (Q a) (k a) Q') → triple P (se_bind m k) Q'.
Proof.
  intros Hm Hk s Hs. unfold se_bind. destruct (Hm s Hs) as [HR HQ].
  destruct (m s) as [s' [a|e]]; simpl in *; [|done].
  destruct (Hk a s' (HQ a eq_refl)) as [HR' HQ']. split; [by etrans|done].
Qed.

Lemma triple_lift {A} (P : S → Prop) (r : result E A) :
  triple P (se_lift r) (λ a s, r = Ok a ∧ P s).
Proof. intros s Hs. split; [reflexivity|]. simpl. by intros a ->. Qed.

Lemma triple_get (P : S → Prop) : triple P se_get (λ a s, a = s ∧ P s).
Proof. intros s Hs. split; [reflexivity|]. simpl. by intros a [= <-]. Qed.

Lemma triple_modify (P : S → Prop) f (Q : unit → S → Prop) :
  (∀ s, P s → rtc R s (f s) ∧ Q tt (f s)) → triple P (se_modify f) Q.
Proof. intros Hf s Hs. simpl. destruct (Hf s Hs). split; [done|]. by intros [] _. Qed.

Lemma triple_ret {A} (P : S → Prop) (a : A) (Q : A → S → Prop) :
  (∀ s, P s → Q a s) → triple P (se_ret a) Q.
Proof. intros HQ s Hs. split; [reflexivity|]. simpl. intros a' [= <-]. auto. Qed.

Lemma triple_err {A} (P : S → Prop) (e : E) (Q : A → S → Prop) : triple P (se_lift (Err e)) Q.
Proof. intros s Hs. split; [reflexivity|done]. Qed.

Lemma triple_conseq {A} (P P' : S → Prop) (m : SE S E A) (Q Q' : A → S → Prop) :
  triple P m Q → (∀ s, P' s → P s) → (∀ a s, Q a s → Q' a s) → triple P' m Q'.
Proof. intros Hm HP HQ s Hs. destruct (Hm s (HP s Hs)) as [? Hq]. split; [done|]. eauto. Qed.
End triple.

(* ------------------------------------------------------------------ *)
(** ** Machine integers *)

(** Unsigned integers are [N]; the release profile of the workspace has no
    overflow checks, so [+] on [u64] wraps. *)
Definition u64_modulus : N := 2 ^ 64.
Definition u64_max : N := u64_modulus - 1.
Definition wrap64 (n : N) : N := n mod u64_modulus.
Definition add64 (a b : N) : N := wrap64 (a + b).
Definition sat_add64 (a b : N) : N := N.min (a + b) u64_max.
Definition u64 (n : N) : Prop := (n < u64_modulus)%N.
(** [+] on [u32]. *)
Definition add32 (a b : N) : N := (a + b) mod 2 ^ 32.

(** [as i64] of a [u64], [as u64] of an [i64], and [+] on [i64], wrapping. *)
Definition as_i64 (n : N) : Z := if (n <? 2 ^ 63)%N then Z.of_N n else (Z.of_N n - 2 ^ 64)%Z.
Definition as_u64 (z : Z) : N := Z.to_N (z mod 2 ^ 64).
Definition add_i64 (a b : Z) : Z := as_i64 (Z.to_N ((a + b) mod 2 ^ 64)).
Definition i64 (z : Z) : Prop := (- 2 ^ 63 ≤ z < 2 ^ 63)%Z.

Lemma as_i64_small n : (n < 2 ^ 63)%N → as_i64 n = Z.of_N n.
Proof. intros Hn. unfold as_i64. by rewrite (proj2 (N.ltb_lt _ _) Hn). Qed.

Lemma as_i64_range n : u64 n → i64 (as_i64 n).
Proof. unfold u64, u64_modulus, i64, as_i64. destruct (N.ltb_spec n (2 ^ 63)); lia. Qed.

Lemma add_i64_range a b : i64 (add_i64 a b).
Proof.
  unfold add_i64. apply as_i64_range. unfold u64, u64_modulus.
  pose proof (Z.mod_pos_bound (a + b) (2 ^ 64) ltac:(lia)). lia.
Qed.

Lemma add_i64_small a b : (0 ≤ a + b < 2 ^ 63)%Z → add_i64 a b = (a + b)%Z.
Proof.
  intros H. unfold add_i64. rewrite Z.mod_small by lia. rewrite as_i64_small by lia. lia.
Qed.

Lemma as_u64_of_N n : u64 n → as_u64 (Z.of_N n) = n.
Proof. unfold u64, u64_modulus, as_u64. intros H. rewrite Z.mod_small by lia. lia. Qed.

Lemma as_u64_i64 n : u64 n → as_u64 (as_i64 n) = n.
Proof.
  unfold u64, u64_modulus, as_u64, as_i64. intros H. destruct (N.ltb_spec n (2 ^ 63)).
  - rewrite Z.mod_small by lia. lia.
  - replace (Z.of_N n - 2 ^ 64)%Z with (Z.of_N n + (-1) * 2 ^ 64)%Z by lia.
    rewrite Z.mod_add by lia. rewrite Z.mod_small by lia. lia.
Qed.

Lemma add64_small a b : u64 (a + b) → add64 a b = (a + b)%N.
Proof. intros H. unfold add64, wrap64. by apply N.mod_small. Qed.

Lemma add64_u64 a b : u64 (add64 a b).
Proof. unfold u64, add64, wrap64, u64_modulus. apply N.mod_lt. lia. Qed.

Lemma sat_add64_u64 a b : u64 (sat_add64 a b).
Proof. unfold u64, sat_add64, u64_max, u64_modulus. lia. Qed.

(* ------------------------------------------------------------------ *)
(** ** Byte strings *)

(** Bytes are [N] below 256; [\[u8; n\]] is a list of length [n]. *)
Abbreviation bytes := (list N).
Definition byte_ok (b : N) : Prop := (b < 256)%N.
Definition array (n : nat) (b : bytes) : Prop := length b = n ∧ Forall byte_ok b.

(** The derived [Ord] on byte arrays and vectors: lexicographic. *)
Fixpoint bytes_cmp (a b : bytes) : comparison :=
  match a, b with
  | [], [] => Eq
  | [], _ :: _ => Lt
  | _ :: _, [] => Gt
  | x :: a', y :: b' =>
      match N.compare x y with Eq => bytes_cmp a' b' | c => c end
  end.
Definition bytes_ltb (a b : bytes) : bool :=
  match bytes_cmp a b with Lt => true | _ => false end.
Definition bytes_leb (a b : bytes) : bool :=
  match bytes_cmp a b with Gt => false | _ => true end.

Lemma bytes_cmp_refl a : bytes_cmp a a = Eq.
Proof. induction a as [|x a IH]; simpl; [done|]. by rewrite N.compare_refl. Qed.

Lemma bytes_cmp_eq a b : bytes_cmp a b = Eq ↔ a = b.
Proof.
  split; [|intros ->; apply bytes_cmp_refl].
  revert b; induction a as [|x a IH]; intros [|y b]; simpl; try done.
  destruct (N.compare_spec x y) as [->| |]; try done.
  intros H. by rewrite (IH b H).
Qed.

Lemma bytes_cmp_antisym a b : bytes_cmp b a = CompOpp (bytes_cmp a b).
Proof.
  revert b; induction a as [|x a IH]; intros [|y b]; simpl; try done.
  rewrite (N.compare_antisym x y). destruct (N.compare x y); simpl; auto.
Qed.

Lemma bytes_cmp_lt_trans a b c :
  bytes_cmp a b = Lt → bytes_cmp b c = Lt → bytes_cmp a c = Lt.
Proof.
  revert b c; induction a as [|x a IH]; intros [|y b] [|z c]; simpl; try done.
  destruct (N.compare_spec x y) as [->|Hxy|]; try done;
    destruct (N.compare_spec y z) as [->|Hyz|]; try done; intros H1 H2.
  - by apply (IH b c).
  - by apply N.compare_lt_iff in Hxy as ->.
  - by rewrite (proj2 (N.compare_lt_iff x z)) by lia.
Qed.

Lemma bytes_ltb_irrefl a : bytes_ltb a a = false.
Proof. unfold bytes_ltb. by rewrite bytes_cmp_refl. Qed.

Lemma bytes_ltb_trans a b c :
  bytes_ltb a b = true → bytes_ltb b c = true → bytes_ltb a c = true.
Proof.
  unfold bytes_ltb.
  destruct (bytes_cmp a b) eqn:E1, (bytes_cmp b c) eqn:E2; try done.
  by rewrite (bytes_cmp_lt_trans a b c E1 E2).
Qed.

Lemma bytes_ltb_total a b : bytes_ltb a b = true ∨ a = b ∨ bytes_ltb b a = true.
Proof.
  unfold bytes_ltb. rewrite (bytes_cmp_antisym a b).
  destruct (bytes_cmp a b) eqn:E; simpl; auto.
  apply bytes_cmp_eq in E. auto.
Qed.

Lemma bytes_leb_lteq a b : bytes_leb a b = true ↔ bytes_ltb a b = true ∨ a = b.
Proof.
  unfold bytes_leb, bytes_ltb. rewrite <- (bytes_cmp_eq a b).
  destruct (bytes_cmp a b); naive_solver.
Qed.

Lemma bytes_leb_negb a b : bytes_leb a b = negb (bytes_ltb b a).
Proof.
  unfold bytes_leb, bytes_ltb. rewrite (bytes_cmp_antisym a b).
  by destruct (bytes_cmp a b).
Qed.

Lemma bytes_leb_trans a b c :
  bytes_leb a b = true → bytes_leb b c = true → bytes_leb a c = true.
Proof.
  rewrite !bytes_leb_lteq. intros [H1| ->] [H2| ->]; eauto using bytes_ltb_trans.
Qed.

Lemma bytes_leb_total a b : bytes_leb a b = true ∨ bytes_leb b a = true.
Proof. rewrite !bytes_leb_lteq. destruct (bytes_ltb_total a b) as [|[]]; auto. Qed.

Lemma bytes_leb_antisym a b : bytes_leb a b = true → bytes_leb b a = true → a = b.
Proof.
  rewrite !bytes_leb_lteq. intros [H1| ->] [H2|H2]; auto.
  by pose proof (bytes_ltb_trans _ _ _ H1 H2) as H; rewrite bytes_ltb_irrefl in H.
Qed.

(** The bytes of an ASCII byte-string literal. *)
Definition bstr (s : string) : bytes := N_of_ascii <$> String.list_ascii_of_string s.

(** Big-endian encodings: [to_be_bytes] and [from_be_bytes]. *)
Fixpoint be_bytes (k : nat) (n : N) : bytes :=
  match k with
  | O => []
  | S k' => be_bytes k' (n / 256) ++ [n mod 256]%N
  end.
Definition be_value (b : bytes) : N := foldl (λ acc x, (acc * 256 + x)%N) 0%N b.
(** [to_le_bytes]. *)
Fixpoint le_bytes (k : nat) (n : N) : bytes :=
  match k with
  | O => []
  | S k' => (n mod 256)%N :: le_bytes k' (n / 256)
  end.

Lemma length_be_bytes k n : length (be_bytes k n) = k.
Proof. revert n; induction k as [|k IH]; intros n; simpl; [done|]. rewrite length_app, IH. simpl. lia. Qed.

Lemma length_le_bytes k n : length (le_bytes k n) = k.
Proof. revert n; induction k as [|k IH]; intros n; simpl; [done|]. by rewrite IH. Qed.

Lemma be_value_app a x : be_value (a ++ [x]) = (be_value a * 256 + x)%N.
Proof. unfold be_value. by rewrite foldl_app. Qed.

Lemma be_value_cons b rest : be_value (b :: rest) = (b * 256 ^ N.of_nat (length rest) + be_value rest)%N.
Proof.
  induction rest as [|x rest IH] using rev_ind.
  - unfold be_value. simpl. change (256 ^ N.of_nat 0)%N with 1%N. lia.
  - change (b :: rest ++ [x]) with ((b :: rest) ++ [x]).
    rewrite !be_value_app, IH, length_app. simpl.
    rewrite Nat.add_1_r, Nat2N.inj_succ, N.pow_succ_r'. lia.
Qed.

Lemma be_value_lt b : Forall byte_ok b → (be_value b < 256 ^ N.of_nat (length b))%N.
Proof.
  induction 1 as [|x b Hx Hb IH]; [done|]. unfold byte_ok in Hx.
  rewrite be_value_cons. cbn [length]. rewrite Nat2N.inj_succ, N.pow_succ_r'. nia.
Qed.

Lemma be_value_bytes k n : (n < 256 ^ N.of_nat k)%N → be_value (be_bytes k n) = n.
Proof.
  revert n; induction k as [|k IH]; intros n Hn.
  - simpl in *. change (256 ^ N.of_nat 0)%N with 1%N in Hn. unfold be_value; simpl. lia.
  - cbn [be_bytes]. rewrite be_value_app, IH.
    + rewrite N.mul_comm. symmetry. apply N.div_mod. lia.
    + apply N.Div0.div_lt_upper_bound. rewrite Nat2N.inj_succ, N.pow_succ_r' in Hn. lia.
Qed.

Lemma be_bytes_ok k n : Forall byte_ok (be_bytes k n).
Proof.
  revert n; induction k as [|k IH]; intros n; simpl; [constructor|].
  apply Forall_app; split; [apply IH|]. constructor; [|constructor].
  unfold byte_ok. apply N.mod_lt. lia.
Qed.

Lemma le_bytes_inj k n m :
  (n < 256 ^ N.of_nat k)%N → (m < 256 ^ N.of_nat k)%N → le_bytes k n = le_bytes k m → n = m.
Proof.
  revert n m; induction k as [|k IH]; intros n m Hn Hm Heq.
  - change (256 ^ N.of_nat 0)%N with 1%N in *. lia.
  - cbn [le_bytes] in Heq. injection Heq as Hmod Hdiv.
    rewrite Nat2N.inj_succ, N.pow_succ_r' in Hn, Hm.
    apply IH in Hdiv; [|apply N.Div0.div_lt_upper_bound; lia..].
    rewrite (N.div_mod n 256), (N.div_mod m 256) by lia. by rewrite Hmod, Hdiv.
Qed.

(* ------------------------------------------------------------------ *)
(** ** Stable sorting *)

(** [slice::sort_by] / [sort_by_key] are stable sorts; every stable sort
    returns the same list, so an insertion sort stands for them. *)
Section stable_sort.
Context {A : Type} (leb : A → A → bool).

Fixpoint sinsert (x : A) (l : list A) : list A :=
  match l with
  | [] => [x]
  | y :: l' => if leb x y then x :: l else y :: sinsert x l'
  end.

Fixpoint stable_sort (l : list A) : list A :=
  match l with
  | [] => []
  | x :: l' => sinsert x (stable_sort l')
  end.

Lemma sinsert_perm x l : sinsert x l ≡ₚ x :: l.
Proof.
  induction l as [|y l IH]; simpl; [done|].
  destruct (leb x y); [done|]. rewrite IH. apply Permutation_swap.
Qed.

Lemma stable_sort_perm l : stable_sort l ≡ₚ l.
Proof. induction l as [|x l IH]; simpl; [done|]. by rewrite sinsert_perm, IH. Qed.

Lemma length_stable_sort l : length (stable_sort l) = length l.
Proof. apply Permutation_length, stable_sort_perm. Qed.

Context (leb_total : ∀ x y, leb x y = true ∨ leb y x = true).
Context (leb_trans : ∀ x y z, leb x y = true → leb y z = true → leb x z = true).

Lemma sinsert_sorted x l :
  StronglySorted (λ a b, leb a b = true) l → StronglySorted (λ a b, leb a b = true) (sinsert x l).
Proof.
  induction 1 as [|y l Hs IH Hall]; simpl; [repeat constructor|].
  destruct (leb x y) eqn:E.
  - constructor; [by constructor|]. constructor; [done|].
    eapply Forall_impl; [exact Hall|]. simpl; eauto.
  - constructor; [done|]. rewrite sinsert_perm. constructor; [|done].
    by destruct (leb_total x y) as [H|H]; [congruence|].
Qed.

Lemma stable_sort_sorted l : StronglySorted (λ a b, leb a b = true) (stable_sort l).
Proof. induction l; simpl; [constructor|]. by apply sinsert_sorted. Qed.

End stable_sort.

(* ------------------------------------------------------------------ *)
(** ** Lists and maps *)

Lemma sorted_take {A} (R : A → A → Prop) n l : StronglySorted R l → StronglySorted R (take n l).
Proof.
  intros Hs. revert n; induction Hs as [|x l Hs IH Hall]; intros [|n]; simpl; constructor; [done|].
  rewrite Forall_forall in *. intros y Hy. apply Hall. rewrite <- (take_drop n l). set_solver.
Qed.

Lemma sorted_weaken {A} (R S : A → A → Prop) l :
  (∀ x y, R x y → S x y) → StronglySorted R l → StronglySorted S l.
Proof. intros HRS Hs. induction Hs; constructor; [done|]. eapply Forall_impl; eauto. Qed.

Lemma sorted_take_drop {A} (R : A → A → Prop) n l x y :
  StronglySorted R l → x ∈ take n l → y ∈ drop n l → R x y.
Proof.
  intros Hs. revert n; induction Hs as [|z l Hs IH Hall]; intros [|n] Hx Hy; simpl in *;
    try (by apply not_elem_of_nil in Hx).
  apply elem_of_cons in Hx as [->|Hx]; [|eauto].
  rewrite Forall_forall in Hall. apply Hall. rewrite <- (take_drop n l). set_solver.
Qed.

Lemma size_list_to_set_le {A} `{Countable A} (l : list A) : size (list_to_set l : gset A) ≤ length l.
Proof.
  induction l as [|x l IH]; [rewrite list_to_set_nil, size_empty; simpl; lia|].
  rewrite list_to_set_cons. cbn [length]. destruct (decide (x ∈@{gset A} list_to_set l)) as [Hin|Hin].
  - rewrite subseteq_union_1_L; [lia|]. set_solver.
  - rewrite size_union by set_solver. rewrite size_singleton. lia.
Qed.

(** [Iterator::position]. *)
Definition position {A} (p : A → bool) (l : list A) : option nat := fst <$> list_find (λ x, p x = true) l.

Lemma rtc_preserve {A} (P : A → Prop) (R : A → A → Prop) x y :
  (∀ x y, P x → R x y → P y) → P x → rtc R x y → P y.
Proof. intros HP Hx Hr. induction Hr; eauto. Qed.

Lemma Permutation_take_drop {A} n (l : list A) : l ≡ₚ take n l ++ drop n l.
Proof. by rewrite take_drop. Qed.

(** Number of distinct keys: a list without repetition inside a finite set. *)
Lemma NoDup_length_le {A} `{Countable A} (l : list A) (X : gset A) :
  NoDup l → (∀ x, x ∈ l → x ∈ X) → length l ≤ size X.
Proof.
  intros Hnd Hsub. rewrite <- (size_list_to_set (C:=gset A) l Hnd).
  apply subseteq_size. intros x Hx. apply Hsub. by apply elem_of_list_to_set in Hx.
Qed.

(* ------------------------------------------------------------------ *)
(** ** Automation *)

(** Case analysis on the guards of a handler, keeping the equations. *)
Ltac guards := repeat (case_match; simplify_eq/=).

(** Turn boolean comparisons in hypotheses and goal into propositions. *)
Ltac bprop :=
  repeat match goal with
  | H : (_ <? _)%N = true |- _ => apply N.ltb_lt in H
  | H : (_ <? _)%N = false |- _ => apply N.ltb_ge in H
  | H : (_ <=? _)%N = true |- _ => apply N.leb_le in H
  | H : (_ <=? _)%N = false |- _ => apply N.leb_gt in H
  | H : (_ =? _)%N = true |- _ => apply N.eqb_eq in H
  | H : (_ =? _)%N = false |- _ => apply N.eqb_neq in H
  | H : (_ <? _)%Z = true |- _ => apply Z.ltb_lt in H
  | H : (_ <? _)%Z = false |- _ => apply Z.ltb_ge in H
  | H : (_ <=? _)%Z = true |- _ => apply Z.leb_le in H
  | H : (_ <=? _)%Z = false |- _ => apply Z.leb_gt in H
  | H : (_ =? _)%Z = true |- _ => apply Z.eqb_eq in H
  | H : (_ =? _)%Z = false |- _ => apply Z.eqb_neq in H
  | H : (_ <? _)%nat = true |- _ => apply Nat.ltb_lt in H
  | H : (_ <? _)%nat = false |- _ => apply Nat.ltb_ge in H
  | H : (_ <=? _)%nat = true |- _ => apply Nat.leb_le in H
  | H : (_ <=? _)%nat = false |- _ => apply Nat.leb_gt in H
  | H : (_ && _) = true |- _ => apply andb_true_iff in H as [? ?]
  | H : (_ || _) = false |- _ => apply orb_false_iff in H as [? ?]
  | H : negb _ = true |- _ => apply negb_true_iff in H
  | H : negb _ = false |- _ => apply negb_false_iff in H
  | H : bool_decide _ = true |- _ => apply bool_decide_eq_true in H
  | H : bool_decide _ = false |- _ => apply bool_decide_eq_false in H
  end.

Create HintDb eph.
#[export] Hint Resolve add64_u64 sat_add64_u64 be_bytes_ok bytes_cmp_refl bytes_ltb_irrefl : eph.
