(* ===== verification/Types.v ===== *)
(** * Shared value types: [crates/ephemera-types/src]

    TTLs and expiries ([ttl.rs]), wall-clock and hybrid logical timestamps
    ([timestamp.rs]), content ids ([id.rs]), node ids with the XOR metric
    ([identity.rs]) and the workspace error type ([error.rs]).  A call of
    [Timestamp::now()] is an argument [now] of the definition. *)
From S2P Require Import Prelude.
From stdpp Require Export pretty.

(* ------------------------------------------------------------------ *)
(** ** Errors *)

Inductive EphemeraError :=
| SignatureInvalid (reason : string)
| InvalidKey (reason : string)
| EncryptionError (reason : string)
| KeyDerivationError (reason : string)
| KeystoreError (reason : string)
| InvalidTtl (value_secs min_secs max_secs : N)
| TimestampSkew (remote_secs local_secs : N)
| ContentExpired
| InvalidContent (reason : string)
| ContentNotFound (id : string)
| InvalidPow (reason : string)
| NetworkTimeout (duration_ms : N)
| PeerConnectionFailed (reason : string)
| GossipError (reason : string)
| DhtError (reason : string)
| StorageError (reason : string)
| StorageQuotaExceeded (used_bytes max_bytes : N)
| ConfigError (reason : string)
| Io (source : string)
| ContentRejectedBySafetyFilter
| InvalidModerationVote (reason : string)
| RateLimited (retry_after_secs : N)
| SerializationError (reason : string).

(** The [#[error(...)]] display strings. *)
Definition error_display (e : EphemeraError) : string :=
  match e with
  | SignatureInvalid r => "signature verification failed: " +:+ r
  | InvalidKey r => "invalid key: " +:+ r
  | EncryptionError r => "encryption error: " +:+ r
  | KeyDerivationError r => "key derivation failed: " +:+ r
  | KeystoreError r => "keystore error: " +:+ r
  | InvalidTtl v lo hi =>
      "invalid TTL: " +:+ pretty v +:+ "s (must be " +:+ pretty lo +:+ "s..=" +:+ pretty hi +:+ "s)"
  | TimestampSkew r l =>
      "timestamp too far in future: " +:+ pretty r +:+ "s vs local " +:+ pretty l +:+ "s"
  | ContentExpired => "content expired"
  | InvalidContent r => "invalid content: " +:+ r
  | ContentNotFound i => "content not found: " +:+ i
  | InvalidPow r => "invalid proof of work: " +:+ r
  | NetworkTimeout d => "network timeout after " +:+ pretty d +:+ "ms"
  | PeerConnectionFailed r => "peer connection failed: " +:+ r
  | GossipError r => "gossip error: " +:+ r
  | DhtError r => "DHT error: " +:+ r
  | StorageError r => "storage error: " +:+ r
  | StorageQuotaExceeded u m =>
      "storage quota exceeded: used " +:+ pretty u +:+ " of " +:+ pretty m +:+ " bytes"
  | ConfigError r => "configuration error: " +:+ r
  | Io s => "I/O error: " +:+ s
  | ContentRejectedBySafetyFilter => "content rejected by safety filter"
  | InvalidModerationVote r => "invalid moderation vote: " +:+ r
  | RateLimited r => "rate limited: retry after " +:+ pretty r +:+ "s"
  | SerializationError r => "serialization error: " +:+ r
  end.

Definition is_transient (e : EphemeraError) : bool :=
  match e with
  | NetworkTimeout _ | PeerConnectionFailed _ | RateLimited _ => true
  | _ => false
  end.

Definition is_security_violation (e : EphemeraError) : bool :=
  match e with
  | SignatureInvalid _ | InvalidPow _ | ContentRejectedBySafetyFilter => true
  | _ => false
  end.

(* ------------------------------------------------------------------ *)
(** ** TTL and expiry *)

Definition MIN_TTL_SECS : N := 3600.
Definition MAX_TTL_SECS : N := 30 * 24 * 3600.
Definition CLOCK_SKEW_TOLERANCE_SECS : N := 5 * 60.
Definition TOMBSTONE_RETENTION_MULTIPLIER : N := 3.

(** [pub struct Ttl(u64)]: the field is private, [from_secs] is the checked
    constructor. *)
Record Ttl := MkTtl { ttl_secs : N }.

Definition from_secs (secs : N) : result EphemeraError Ttl :=
  if negb ((MIN_TTL_SECS <=? secs)%N && (secs <=? MAX_TTL_SECS)%N)
  then Err (InvalidTtl secs MIN_TTL_SECS MAX_TTL_SECS)
  else Ok (MkTtl secs).

Definition one_hour : Ttl := MkTtl MIN_TTL_SECS.
Definition one_day : Ttl := MkTtl (24 * 3600).
Definition one_week : Ttl := MkTtl (7 * 24 * 3600).
Definition ttl_max : Ttl := MkTtl MAX_TTL_SECS.

(** [Display for Ttl]. *)
Definition ttl_display (t : Ttl) : string :=
  let hours := (ttl_secs t / 3600)%N in
  if (24 <=? hours)%N && (hours mod 24 =? 0)%N
  then pretty (hours / 24)%N +:+ "d" else pretty hours +:+ "h".

Record Expiry := MkExpiry { created_at : N; expiry_ttl : Ttl }.

Definition expires_at_secs (e : Expiry) : N := add64 (created_at e) (ttl_secs (expiry_ttl e)).

Definition is_expired_at (e : Expiry) (now : N) : bool := (expires_at_secs e <? now)%N.

Definition tombstone_expires_at_secs (e : Expiry) : N :=
  add64 (expires_at_secs e) (wrap64 (TOMBSTONE_RETENTION_MULTIPLIER * ttl_secs (expiry_ttl e))).

Definition is_timestamp_acceptable (now remote_ts : N) : bool :=
  (remote_ts <=? add64 now CLOCK_SKEW_TOLERANCE_SECS)%N.

Definition is_ttl_valid (now created : N) (ttl : Ttl) : bool :=
  let deadline := add64 (add64 created (ttl_secs ttl)) CLOCK_SKEW_TOLERANCE_SECS in
  (now <=? deadline)%N.

Definition ttl_wf (t : Ttl) : Prop := (MIN_TTL_SECS ≤ ttl_secs t ≤ MAX_TTL_SECS)%N.

(* ------------------------------------------------------------------ *)
(** ** Hybrid logical timestamps *)

(** [pub struct HlcTimestamp(u64)]: wall seconds in the upper 48 bits, a
    counter in the lower 16. *)
Definition COUNTER_BITS : N := 16.
Definition COUNTER_MASK : N := N.shiftl 1 COUNTER_BITS - 1.

Definition hlc_new (wall_secs counter : N) : N :=
  N.lor (wrap64 (N.shiftl wall_secs COUNTER_BITS)) counter.
Definition wall_secs (h : N) : N := N.shiftr h COUNTER_BITS.
Definition counter (h : N) : N := N.land h COUNTER_MASK.

(** [u16::checked_add(1)]. *)
Definition checked_succ16 (c : N) : option N := if (c =? 65535)%N then None else Some (c + 1)%N.

Definition hlc_update (now_secs self remote : N) : N :=
  let local_wall := wall_secs self in
  let remote_wall := wall_secs remote in
  let max_wall := N.max (N.max now_secs local_wall) remote_wall in
  let c :=
    if (max_wall =? local_wall)%N && (max_wall =? remote_wall)%N
    then checked_succ16 (N.max (counter self) (counter remote))
    else if (max_wall =? local_wall)%N then checked_succ16 (counter self)
    else if (max_wall =? remote_wall)%N then checked_succ16 (counter remote)
    else Some 0%N in
  match c with
  | Some c => hlc_new max_wall c
  | None => hlc_new (sat_add64 max_wall 1) 0
  end.

(* ------------------------------------------------------------------ *)
(** ** Content ids *)

Definition BLAKE3_HASH_LEN : nat := 32.
Definition CONTENT_HASH_VERSION : N := 1.

Record ContentId := MkContentId { version : N; hash : bytes }.

#[global] Instance ContentId_eq_dec : EqDecision ContentId.
Proof. solve_decision. Defined.
#[global] Instance ContentId_countable : Countable ContentId.
Proof.
  refine (inj_countable' (λ c, (version c, hash c)) (λ p, MkContentId p.1 p.2) _).
  by intros [].
Defined.

Definition from_hash (h : bytes) : ContentId := MkContentId CONTENT_HASH_VERSION h.
Definition from_digest (d : bytes) : ContentId := from_hash d.

Definition from_wire_bytes (b : bytes) : option ContentId :=
  if negb (Nat.eqb (length b) (BLAKE3_HASH_LEN + 1)) then None
  else match b with
       | v :: rest =>
           if negb (v =? CONTENT_HASH_VERSION)%N then None else Some (MkContentId v rest)
       | [] => None
       end.

Definition to_wire_bytes (c : ContentId) : bytes := version c :: hash c.

(* ------------------------------------------------------------------ *)
(** ** Node ids and the XOR metric *)

(** [NodeId::xor_distance]: bytewise XOR of two 32-byte arrays. *)
Definition xor_distance (a b : bytes) : bytes := zip_with N.lxor a b.

(** [u8::leading_zeros]. *)
Definition byte_leading_zeros (b : N) : nat := 8 - N.to_nat (N.size b).

Fixpoint first_set_bit (byte_idx : nat) (dist : bytes) : option nat :=
  match dist with
  | [] => None
  | b :: rest =>
      if negb (b =? 0)%N then Some (byte_idx * 8 + byte_leading_zeros b)
      else first_set_bit (S byte_idx) rest
  end.

Definition leading_zeros_distance (a b : bytes) : option nat := first_set_bit 0 (xor_distance a b).

(* ------------------------------------------------------------------ *)
(** ** Content vocabulary ([content.rs]) *)

Inductive ContentKind :=
| Text | Photo | Video | Audio | CheckIn | Reply | Reaction | Repost
| ProfileUpdate | ConnectionEvent.

Definition supports_media (k : ContentKind) : bool :=
  match k with Text | Photo | Video | Audio | Reply => true | _ => false end.

Definition is_social_event (k : ContentKind) : bool :=
  match k with ProfileUpdate | ConnectionEvent => true | _ => false end.

(* ------------------------------------------------------------------ *)
(** ** Lemmas: TTLs *)

Lemma from_secs_ok s t : from_secs s = Ok t ↔ t = MkTtl s ∧ ttl_wf t.
Proof.
  unfold from_secs, ttl_wf.
  destruct (_ <=? s)%N eqn:E1, (s <=? _)%N eqn:E2; simpl; bprop; split;
    intros H; simplify_eq/=; try (split; [done|lia]);
    destruct H as [-> ?]; simpl in *; auto; lia.
Qed.

Lemma ttl_wf_u64 t : ttl_wf t → (ttl_secs t < 2592001)%N.
Proof. unfold ttl_wf, MAX_TTL_SECS. lia. Qed.

Lemma expires_at_secs_small e :
  ttl_wf (expiry_ttl e) → (created_at e < 2 ^ 63)%N →
  expires_at_secs e = (created_at e + ttl_secs (expiry_ttl e))%N.
Proof.
  intros Ht%ttl_wf_u64 Hc. unfold expires_at_secs. apply add64_small.
  unfold u64, u64_modulus. lia.
Qed.

(* ------------------------------------------------------------------ *)
(** ** Lemmas: hybrid logical timestamps *)

Lemma hlc_new_arith w c :
  (w < 2 ^ 48)%N → (c < 2 ^ 16)%N → hlc_new w c = (w * 65536 + c)%N.
Proof.
  intros Hw Hc. unfold hlc_new, wrap64, COUNTER_BITS.
  rewrite N.shiftl_mul_pow2. change (2 ^ 16)%N with 65536%N in *.
  rewrite N.mod_small by (unfold u64_modulus; lia).
  rewrite <- N.lxor_lor, <- N.add_nocarry_lxor; [done|..];
    (apply N.bits_inj; intros n; rewrite N.land_spec, N.bits_0;
     replace (w * 65536)%N with (N.shiftl w 16) by (rewrite N.shiftl_mul_pow2; lia);
     destruct (decide (n < 16)%N) as [Hn|Hn];
     [by rewrite N.shiftl_spec_low
     |apply andb_false_intro2; destruct (decide (c = 0%N)) as [->|Hc0];
       [apply N.bits_0
       |apply N.bits_above_log2;
        apply N.lt_le_trans with 16%N; [apply N.log2_lt_pow2; lia|lia]]]).
Qed.

Lemma wall_secs_arith h : wall_secs h = (h / 65536)%N.
Proof. unfold wall_secs, COUNTER_BITS. by rewrite N.shiftr_div_pow2. Qed.

Lemma counter_arith h : counter h = (h mod 65536)%N.
Proof.
  unfold counter. change COUNTER_MASK with (N.ones 16). by rewrite N.land_ones.
Qed.

Lemma hlc_split h : h = (wall_secs h * 65536 + counter h)%N.
Proof. rewrite wall_secs_arith, counter_arith. pose proof (N.div_mod h 65536). lia. Qed.

Lemma counter_lt h : (counter h < 65536)%N.
Proof. rewrite counter_arith. apply N.mod_lt. lia. Qed.

(** The value [update] packs, as arithmetic: the counter step, including the
    overflow into the wall part, is a successor of the packed number. *)
Lemma hlc_bump w c :
  (w * 65536 + c + 1 < u64_modulus)%N → (c < 65536)%N →
  match checked_succ16 c with
  | Some c' => hlc_new w c'
  | None => hlc_new (sat_add64 w 1) 0
  end = (w * 65536 + c + 1)%N.
Proof.
  unfold u64_modulus. intros Hb Hc. unfold checked_succ16.
  destruct (c =? 65535)%N eqn:E; bprop.
  - subst c. unfold sat_add64, u64_max, u64_modulus.
    rewrite N.min_l by lia. rewrite hlc_new_arith by lia. lia.
  - rewrite hlc_new_arith by lia. lia.
Qed.

Lemma hlc_update_arith now self remote :
  (now < 2 ^ 48)%N → (N.max self remote + 1 < u64_modulus)%N →
  hlc_update now self remote = N.max (N.max self remote + 1) (now * 65536).
Proof.
  intros Hnow Hfit. unfold hlc_update, u64_modulus in *.
  pose proof (hlc_split self) as Hs. pose proof (hlc_split remote) as Hr.
  pose proof (counter_lt self) as Hcs. pose proof (counter_lt remote) as Hcr.
  set (ws := wall_secs self) in *. set (cs := counter self) in *.
  set (wr := wall_secs remote) in *. set (cr := counter remote) in *.
  set (m := N.max (N.max now ws) wr).
  destruct (m =? ws)%N eqn:E1, (m =? wr)%N eqn:E2; simpl; bprop;
    try (rewrite hlc_bump by (unfold u64_modulus; lia)); try rewrite hlc_new_arith by lia; lia.
Qed.

(* ------------------------------------------------------------------ *)
(** ** Lemmas: the XOR metric *)

Lemma xor_distance_comm a b : xor_distance a b = xor_distance b a.
Proof.
  unfold xor_distance. revert b; induction a as [|x a IH]; intros [|y b]; simpl; try done.
  by rewrite N.lxor_comm, IH.
Qed.

Lemma length_xor_distance a b : length a = length b → length (xor_distance a b) = length a.
Proof. intros H. unfold xor_distance. rewrite length_zip_with. lia. Qed.

(** For a fixed target the distance identifies the node. *)
Lemma xor_distance_inj t a b :
  length a = length t → length b = length t →
  xor_distance a t = xor_distance b t → a = b.
Proof.
  unfold xor_distance. revert a b.
  induction t as [|z t IH]; intros [|x a] [|y b] Ha Hb Heq; simpl in *; try done.
  injection Heq as Hxy Hrest. f_equal; [|apply IH; auto with lia].
  rewrite <- (N.lxor_0_r x), <- (N.lxor_0_r y), <- (N.lxor_nilpotent z).
  by rewrite <- !N.lxor_assoc, Hxy.
Qed.

Lemma first_set_bit_None k d : first_set_bit k d = None ↔ Forall (λ b, b = 0%N) d.
Proof.
  revert k; induction d as [|b d IH]; intros k; simpl; [by split|].
  rewrite Forall_cons. destruct (b =? 0)%N eqn:E; simpl; bprop.
  - rewrite IH. naive_solver.
  - naive_solver.
Qed.

Lemma first_set_bit_lt k d i :
  Forall byte_ok d → first_set_bit k d = Some i → i < 8 * (k + length d).
Proof.
  revert k; induction d as [|b d IH]; intros k Hok H; simpl in *; [done|].
  apply Forall_cons in Hok as [Hb Hok].
  destruct (b =? 0)%N eqn:E; simpl in *; bprop.
  - apply IH in H; [lia|done].
  - injection H as <-. unfold byte_leading_zeros.
    enough (0 < N.to_nat (N.size b)) by lia.
    destruct b; [done|]. simpl. lia.
Qed.

Lemma log2_byte a : byte_ok a → (N.log2 a < 8)%N.
Proof.
  unfold byte_ok. intros Ha. destruct (decide (a = 0%N)) as [->|Hne]; [done|].
  apply N.log2_lt_pow2; [lia|done].
Qed.

Lemma lxor_byte a b : byte_ok a → byte_ok b → byte_ok (N.lxor a b).
Proof.
  intros Ha%log2_byte Hb%log2_byte. unfold byte_ok.
  destruct (decide (N.lxor a b = 0%N)) as [->|Hne]; [lia|].
  change 256%N with (2 ^ 8)%N. apply N.log2_lt_pow2; [lia|].
  pose proof (N.log2_lxor a b). lia.
Qed.

Lemma xor_distance_ok a b :
  Forall byte_ok a → Forall byte_ok b → Forall byte_ok (xor_distance a b).
Proof.
  unfold xor_distance. intros Ha; revert b; induction Ha as [|x a Hx Ha IH]; intros b Hb;
    destruct Hb as [|y b Hy Hb]; simpl; auto using Forall_nil, Forall_cons_2, lxor_byte.
Qed.

Lemma leading_zeros_distance_None a b :
  length a = length b → leading_zeros_distance a b = None ↔ a = b.
Proof.
  intros Hlen. unfold leading_zeros_distance, xor_distance. rewrite first_set_bit_None.
  revert b Hlen; induction a as [|x a IH]; intros [|y b] Hlen; simpl in *; try done.
  rewrite Forall_cons, IH, N.lxor_eq_0_iff by lia. naive_solver.
Qed.

(** The wire form of a content id. *)
Lemma wire_roundtrip c :
  version c = CONTENT_HASH_VERSION → length (hash c) = BLAKE3_HASH_LEN →
  from_wire_bytes (to_wire_bytes c) = Some c.
Proof.
  destruct c as [v h]; simpl. intros -> Hh. unfold from_wire_bytes, to_wire_bytes; simpl.
  by rewrite Hh.
Qed.

Lemma wire_canonical b c : from_wire_bytes b = Some c → to_wire_bytes c = b.
Proof. unfold from_wire_bytes, to_wire_bytes. intros H. by guards. Qed.

#[export] Hint Resolve xor_distance_ok lxor_byte counter_lt : eph.

(* ------------------------------------------------------------------ *)
(** ** Properties *)

(** [HlcTimestamp::update], over all its branches and with the counter
    overflow carried into the wall part, computes the closed form
    [max (max self remote + 1) (now << 16)]: the result is strictly above both
    timestamps, its wall part is not behind the wall clock, and it is the
    least such value. *)
Theorem hlc_update_spec (now self remote : N)
  (Hnow : (now < 2 ^ 48)%N) (Hfit : (N.max self remote + 1 < u64_modulus)%N) :
  let r := hlc_update now self remote in
  r = N.max (N.max self remote + 1) (N.shiftl now 16) ∧
  (self < r)%N ∧ (remote < r)%N ∧ (now ≤ wall_secs r)%N ∧
  (∀ h, (self < h)%N → (remote < h)%N → (now ≤ wall_secs h)%N → (r ≤ h)%N).
Proof.
  cbv zeta. rewrite hlc_update_arith by done. rewrite N.shiftl_mul_pow2.
  change (2 ^ 16)%N with 65536%N. setoid_rewrite wall_secs_arith.
  split_and!; [lia|lia|lia|..].
  - apply N.div_le_lower_bound; lia.
  - intros h H1 H2 H3. assert (now * 65536 ≤ h)%N by (pose proof (N.mul_div_le h 65536); lia). lia.
Qed.

Theorem hlc_update_spec_witness :
  hlc_update 100 (hlc_new 100 65535) (hlc_new 100 7) = hlc_new 101 0.
Proof.
  destruct (hlc_update_spec 100 (hlc_new 100 65535) (hlc_new 100 7)) as [H _];
    [vm_compute; reflexivity..|].
  rewrite H. vm_compute. reflexivity.
Defined.
