(* ===== verification/Crdt.v ===== *)
(** * Replicated data types: [crates/ephemera-crdt/src]

    The hybrid clock ([clock.rs]), the grow-only counter ([gcounter.rs]), the
    last-writer-wins register ([lwwregister.rs]) and the observed-remove set
    ([orset.rs]).  A [BTreeMap] is a [gmap]; a [for] loop over a map or set is
    a fold over its elements. *)
From S2P Require Import Prelude Types.

(* ------------------------------------------------------------------ *)
(** ** Interface: state-based merge *)

(** What the replication layer needs from a state-based CRDT on the states
    [wf] holds of: [merge] is a join. *)
Class JoinLaws {S : Type} (wf : S → Prop) (join : S → S → S) : Prop := {
  join_wf a b : wf a → wf b → wf (join a b);
  join_comm a b : wf a → wf b → join a b = join b a;
  join_assoc a b c : wf a → wf b → wf c → join (join a b) c = join a (join b c);
  join_idem a : wf a → join a a = a
}.

(** Merging a list of received states into a replica. *)
Definition merge_all {S} (join : S → S → S) (s : S) (l : list S) : S := foldl join s l.

Section join_facts.
Context {S : Type} {wf : S → Prop} {join : S → S → S} `{!JoinLaws wf join}.

Lemma merge_all_wf s l : wf s → Forall wf l → wf (merge_all join s l).
Proof.
  unfold merge_all. intros Hs Hl; revert s Hs; induction Hl; intros s Hs; simpl; [done|].
  apply IHHl. by apply join_wf.
Qed.

Lemma merge_all_swap s x y :
  wf s → wf x → wf y → join (join s x) y = join (join s y) x.
Proof. intros Hs Hx Hy.
  by rewrite !(join_assoc (wf:=wf)), (join_comm (wf:=wf) (join:=join) x y) by done. Qed.

(** Delivery order does not matter. *)
Lemma merge_all_perm s l1 l2 :
  wf s → Forall wf l1 → l1 ≡ₚ l2 → merge_all join s l1 = merge_all join s l2.
Proof.
  intros Hs Hl Hp. unfold merge_all. revert s Hs Hl.
  induction Hp; intros s Hs Hl; simpl; [done|..].
  - apply Forall_cons in Hl as [? ?]. apply IHHp; [by apply (join_wf (wf:=wf))|done].
  - apply Forall_cons in Hl as [? [? ?]%Forall_cons]. by rewrite merge_all_swap.
  - rewrite IHHp1 by done. apply IHHp2; [done|]. by rewrite <- Hp1.
Qed.

(** Nor does duplicated delivery. *)
Lemma merge_all_dup s l x :
  wf s → Forall wf l → x ∈ l → wf x → join (merge_all join s l) x = merge_all join s l.
Proof.
  unfold merge_all. intros Hs Hl Hx Hwx. revert s Hs.
  induction Hl as [|y l Hy Hl IH]; intros s Hs; [by apply not_elem_of_nil in Hx|].
  apply elem_of_cons in Hx as [<-|Hx]; simpl; [|apply IH; [done|by apply (join_wf (wf:=wf))]].
  clear IH Hy. revert s Hs. induction Hl as [|z l Hz Hl IH]; intros s Hs; simpl.
  - by rewrite (join_assoc (wf:=wf)), (join_idem (wf:=wf)) by done.
  - rewrite merge_all_swap by done. apply IH. by apply (join_wf (wf:=wf)).
Qed.
End join_facts.

(* ------------------------------------------------------------------ *)
(** ** Hybrid clock *)

Module HybridClock.

(** [HybridClock { latest }]. *)
Definition new (now_secs : N) : N := hlc_new now_secs 0.

Definition from_timestamp (ts : N) : N := ts.

(** [self.latest.counter() + 1] is a [u16] addition: it wraps in the release
    profile and panics in a checked build. *)
Definition tick (now_wall latest : N) : N :=
  let local_wall := wall_secs latest in
  if (local_wall <? now_wall)%N then hlc_new now_wall 0
  else hlc_new local_wall ((counter latest + 1) mod 65536).

Definition update (now_wall latest remote : N) : N := hlc_update now_wall latest remote.

(** What a node does with its clock: stamp a local event, or absorb a remote
    timestamp, each at some wall-clock reading. *)
Inductive event :=
| Tick (now_wall : N)
| Recv (now_wall remote : N).

Definition step (latest : N) (e : event) : N :=
  match e with
  | Tick now => tick now latest
  | Recv now remote => update now latest remote
  end.

(** The timestamps a run of the clock issues. *)
Fixpoint run (latest : N) (es : list event) : list N :=
  match es with
  | [] => []
  | e :: es' => let t := step latest e in t :: run t es'
  end.

(** Readings fit the 48-bit wall part and no tick meets a full counter. *)
Fixpoint safe (latest : N) (es : list event) : Prop :=
  match es with
  | [] => True
  | e :: es' =>
      match e with
      | Tick now =>
          (latest < u64_modulus)%N ∧ (now < 2 ^ 48)%N ∧
          ¬ (counter latest = 65535%N ∧ (now ≤ wall_secs latest)%N)
      | Recv now remote => (now < 2 ^ 48)%N ∧ (N.max latest remote + 1 < u64_modulus)%N
      end ∧ safe (step latest e) es'
  end.

Lemma tick_arith now latest :
  (latest < u64_modulus)%N → (now < 2 ^ 48)%N →
  tick now latest =
    if (wall_secs latest <? now)%N then (now * 65536)%N
    else if (counter latest =? 65535)%N then (latest - 65535)%N else (latest + 1)%N.
Proof.
  unfold u64_modulus. intros Hl Hn. unfold tick.
  pose proof (hlc_split latest) as Hs. pose proof (counter_lt latest) as Hc.
  destruct (wall_secs latest <? now)%N eqn:E1; bprop.
  - rewrite hlc_new_arith by lia. lia.
  - destruct (counter latest =? 65535)%N eqn:E2; bprop.
    + rewrite E2 in *. change ((65535 + 1) mod 65536)%N with 0%N.
      rewrite hlc_new_arith by lia. lia.
    + rewrite N.mod_small by lia. rewrite hlc_new_arith by lia. lia.
Qed.

Lemma tick_increases now latest :
  (latest < u64_modulus)%N → (now < 2 ^ 48)%N →
  (latest < tick now latest)%N ↔ ¬ (counter latest = 65535%N ∧ (now ≤ wall_secs latest)%N).
Proof.
  intros Hl Hn. rewrite tick_arith by done.
  pose proof (hlc_split latest) as Hs. pose proof (counter_lt latest) as Hc.
  destruct (wall_secs latest <? now)%N eqn:E1, (counter latest =? 65535)%N eqn:E2; bprop; lia.
Qed.

Lemma step_increases latest e es : safe latest (e :: es) → (latest < step latest e)%N.
Proof.
  simpl. destruct e as [now|now remote]; simpl; intros [H _].
  - apply tick_increases; tauto.
  - unfold update. rewrite hlc_update_arith by tauto. lia.
Qed.

Lemma run_sorted latest es :
  safe latest es → StronglySorted N.lt (run latest es) ∧ Forall (N.lt latest) (run latest es).
Proof.
  revert latest; induction es as [|e es IH]; intros latest Hs; [repeat constructor|].
  pose proof (step_increases latest e es Hs) as Hlt. destruct Hs as [_ Hs].
  apply IH in Hs as [Hsort Hall]. simpl. split; [by constructor|].
  constructor; [done|]. eapply Forall_impl; [exact Hall|]. simpl. lia.
Qed.
End HybridClock.

(* ------------------------------------------------------------------ *)
(** ** Grow-only counter *)

Module GCounter.
Section gcounter.
Context {A : Type} `{Countable A}.

(** [GCounter { counts: BTreeMap<A, u64> }]. *)
Abbreviation t := (gmap A N).

Definition new : t := ∅.

Definition increment (c : t) (actor : A) (amount : N) : t :=
  <[actor := sat_add64 (default 0%N (c !! actor)) amount]> c.

Definition value (c : t) : N := map_fold (λ _ n acc, add64 acc n) 0%N c.

Definition actor_value (c : t) (actor : A) : N := default 0%N (c !! actor).

Definition merge (self other : t) : t :=
  map_fold (λ actor count acc, <[actor := N.max (default 0%N (acc !! actor)) count]> acc) self other.

Definition actor_count (c : t) : nat := size c.

(** The counter a set of replicas agrees on. *)
Definition leq (a b : t) : Prop := ∀ i, (actor_value a i ≤ actor_value b i)%N.

Lemma merge_lookup self other i :
  merge self other !! i = union_with (λ x y, Some (N.max x y)) (self !! i) (other !! i).
Proof.
  unfold merge. revert i.
  refine (map_fold_weak_ind (λ acc o, ∀ i, acc !! i = union_with _ (self !! i) (o !! i)) _ _ _ _ _).
  - intros i. rewrite lookup_empty. by destruct (self !! i).
  - intros j x o acc Hj IH i. destruct (decide (j = i)) as [->|Hne].
    + rewrite !lookup_insert_eq, IH, Hj. destruct (self !! i); simpl; [done|]. f_equal. lia.
    + by rewrite !lookup_insert_ne, IH by done.
Qed.

Lemma merge_union_with self other :
  merge self other = union_with (λ x y, Some (N.max x y)) self other.
Proof. apply map_eq. intros i. by rewrite merge_lookup, lookup_union_with. Qed.

#[global] Instance merge_laws : JoinLaws (λ _, True) merge.
Proof.
  split; intros; rewrite ?merge_union_with; auto; apply map_eq; intros i;
    rewrite ?lookup_union_with, ?merge_lookup.
  - destruct (a !! i), (b !! i); simpl; try done. by rewrite N.max_comm.
  - destruct (a !! i), (b !! i), (c !! i); simpl; try done. by rewrite N.max_assoc.
  - destruct (a !! i); simpl; [|done]. by rewrite N.max_id.
Qed.

Lemma merge_actor a b i : actor_value (merge a b) i = N.max (actor_value a i) (actor_value b i).
Proof.
  unfold actor_value. rewrite merge_lookup.
  destruct (a !! i), (b !! i); simpl; lia.
Qed.

Lemma increment_actor c i j n :
  actor_value (increment c i n) j =
    if decide (i = j) then sat_add64 (actor_value c i) n else actor_value c j.
Proof.
  unfold actor_value, increment. case_decide; subst.
  - by rewrite lookup_insert_eq.
  - by rewrite lookup_insert_ne.
Qed.

(** Replicas of one counter: actor [r] increments its own copy, and any copy
    may be merged into another. *)
Inductive op := Inc (r : A) (amount : N) | Sync (dst src : A).

Definition step (s : A → t) (o : op) : A → t :=
  match o with
  | Inc r n => λ x, if decide (x = r) then increment (s r) r n else s x
  | Sync d r => λ x, if decide (x = d) then merge (s d) (s r) else s x
  end.

Definition run (s : A → t) (ops : list op) : A → t := foldl step s ops.

(** What actor [r] has added, saturating like [u64::saturating_add]. *)
Definition total (r : A) (ops : list op) : N :=
  foldl (λ acc o, match o with
                  | Inc x n => if decide (x = r) then sat_add64 acc n else acc
                  | Sync _ _ => acc end) 0%N ops.

Lemma run_snoc s ops o : run s (ops ++ [o]) = step (run s ops) o.
Proof. unfold run. by rewrite foldl_app. Qed.

Lemma total_snoc r ops o :
  total r (ops ++ [o]) =
    match o with Inc x n => if decide (x = r) then sat_add64 (total r ops) n else total r ops
    | Sync _ _ => total r ops end.
Proof. unfold total. by rewrite foldl_app. Qed.

(** Every copy is below what the owner added, the owner's copy is exact. *)
Definition replicas_ok (s : A → t) (tot : A → N) : Prop :=
  ∀ r, actor_value (s r) r = tot r ∧ ∀ x, (actor_value (s x) r ≤ tot r)%N.

Lemma replicas_invariant ops :
  Forall (λ o, match o with Inc _ n => u64 n | _ => True end) ops →
  replicas_ok (run (λ _, new) ops) (λ r, total r ops) ∧ ∀ r, u64 (total r ops).
Proof.
  induction ops as [|o ops IH] using rev_ind; intros Hn.
  { split; [|by intros r; unfold u64, total, u64_modulus; simpl]. intros r.
    by unfold run, total, actor_value, new; simpl. }
  apply Forall_app in Hn as [Hn Ho]. apply Forall_singleton in Ho.
  destruct (IH Hn) as [HI Hu]. rewrite run_snoc.
  split; [intros r; specialize (HI r) as [Hown Hle]
         |intros r; rewrite total_snoc; destruct o; [case_decide|]; auto using sat_add64_u64].
  rewrite total_snoc. destruct o as [y n|d y]; simpl.
  - pose proof (Hu r) as Hur. unfold u64, u64_modulus in Hur.
    split; [|intros x; specialize (Hle x)]; repeat case_decide; subst;
      rewrite ?increment_actor; repeat case_decide; subst; try done;
      try (rewrite Hown; done);
      unfold sat_add64, u64_max, u64_modulus; lia.
  - split; [|intros x; pose proof (Hle x)]; case_decide; subst; rewrite ?merge_actor; auto;
      pose proof (Hle y); pose proof (Hle d); lia.
Qed.
End gcounter.
End GCounter.

(* ------------------------------------------------------------------ *)
(** ** Last-writer-wins register *)

Module Lww.
Section lww.
Context {V : Type}.

(** [LwwRegister { value, timestamp }]. *)
Record t := Mk { value : V; timestamp : N }.

Definition new (v : V) (ts : N) : t := Mk v ts.

Definition set (self : t) (v : V) (ts : N) : t * bool :=
  if (timestamp self <? ts)%N then (Mk v ts, true) else (self, false).

Definition merge (self other : t) : t :=
  if (timestamp self <? timestamp other)%N then Mk (value other) (timestamp other) else self.

(** Writes stamped so that a timestamp determines the value. *)
Definition stamped (f : N → V) (r : t) : Prop := value r = f (timestamp r).

Lemma merge_eq a b : merge a b = if (timestamp a <? timestamp b)%N then b else a.
Proof. unfold merge. by destruct b. Qed.

Lemma merge_timestamp a b : timestamp (merge a b) = N.max (timestamp a) (timestamp b).
Proof. rewrite merge_eq. destruct (_ <? _)%N eqn:E; bprop; lia. Qed.

Lemma stamped_inj f a b : stamped f a → stamped f b → timestamp a = timestamp b → a = b.
Proof. unfold stamped. destruct a, b; simpl. congruence. Qed.

Lemma merge_stamped f a b : stamped f a → stamped f b → stamped f (merge a b).
Proof. rewrite merge_eq. by destruct (_ <? _)%N. Qed.

#[global] Instance merge_laws f : JoinLaws (stamped f) merge.
Proof.
  split; intros.
  - by apply merge_stamped.
  - apply (stamped_inj f); [by apply merge_stamped..|]. rewrite !merge_timestamp. lia.
  - apply (stamped_inj f); [repeat apply merge_stamped; done..|].
    rewrite !merge_timestamp. lia.
  - apply (stamped_inj f); [by apply merge_stamped|done|]. rewrite !merge_timestamp. lia.
Qed.

Lemma merge_comm_iff a b : merge a b = merge b a ↔ timestamp a ≠ timestamp b ∨ a = b.
Proof.
  rewrite !merge_eq.
  destruct (timestamp a <? timestamp b)%N eqn:E1, (timestamp b <? timestamp a)%N eqn:E2;
    bprop; try lia; (split; [|naive_solver lia]); intros ?; auto; left; lia.
Qed.
End lww.
Arguments t : clear implicits.
End Lww.

(* ------------------------------------------------------------------ *)
(** ** Observed-remove set *)

Module OrSet.
Section orset.
Context {A V : Type} `{Countable A, Countable V}.

(** [UniqueTag { actor, seq }]. *)
Abbreviation tag := (A * N)%type.

(** [OrSet { entries, counters }]. *)
Record t := Mk { entries : gmap V (gset tag); counters : gmap A N }.

Definition new : t := Mk ∅ ∅.

Definition add (s : t) (actor : A) (v : V) : t * tag :=
  let seq := add64 (default 0%N (counters s !! actor)) 1 in
  let tg := (actor, seq) in
  (Mk (<[v := {[tg]} ∪ default ∅ (entries s !! v)]> (entries s))
      (<[actor := seq]> (counters s)), tg).

Definition remove (s : t) (v : V) : t * bool :=
  (Mk (delete v (entries s)) (counters s), bool_decide (is_Some (entries s !! v))).

Definition contains (s : t) (v : V) : bool :=
  match entries s !! v with Some tags => negb (bool_decide (tags = ∅)) | None => false end.

Definition elements (s : t) : gset V := dom (filter (λ kv, kv.2 ≠ ∅) (entries s)).

Definition len (s : t) : nat := size (filter (λ kv : V * gset tag, kv.2 ≠ ∅) (entries s)).

Definition is_empty (s : t) : bool := Nat.eqb (len s) 0.

Definition merge_entry (other : gmap V (gset tag)) (v : V) (acc : gmap V (gset tag)) :
    gmap V (gset tag) :=
  let local_tags := default ∅ (acc !! v) in
  let remote_tags := default ∅ (other !! v) in
  let merged := local_tags ∪ remote_tags in
  if decide (merged = ∅) then delete v acc else <[v := merged]> acc.

Definition merge (self other : t) : t :=
  let all_values := dom (entries self) ∪ dom (entries other) in
  Mk (set_fold (merge_entry (entries other)) (entries self) all_values)
     (GCounter.merge (counters self) (counters other)).

(** Tags are live, and no actor's counter is behind a tag of that actor. *)
Definition wf (s : t) : Prop :=
  (∀ v tags, entries s !! v = Some tags → tags ≠ ∅) ∧
  (∀ v tags a n, entries s !! v = Some tags → (a, n) ∈ tags →
     (n ≤ GCounter.actor_value (counters s) a)%N).

Definition tags_of (s : t) (v : V) : gset tag := default ∅ (entries s !! v).

Lemma merge_entry_lookup other x acc v :
  merge_entry other x acc !! v =
    if decide (x = v) then
      let u := default ∅ (acc !! v) ∪ default ∅ (other !! v) in
      if decide (u = ∅) then None else Some u
    else acc !! v.
Proof.
  unfold merge_entry. cbv zeta. destruct (decide (x = v)) as [->|Hne].
  - destruct (decide (_ = ∅)); [by rewrite lookup_delete_eq|by rewrite lookup_insert_eq].
  - destruct (decide (_ = ∅)); [by apply lookup_delete_ne|by apply lookup_insert_ne].
Qed.

Lemma merge_entries_lookup self other v :
  entries (merge self other) !! v =
    let u := tags_of self v ∪ tags_of other v in if decide (u = ∅) then None else Some u.
Proof.
  simpl. unfold tags_of.
  assert (Hgen : ∀ X : gset V,
    set_fold (merge_entry (entries other)) (entries self) X !! v =
      if decide (v ∈ X) then
        let u := default ∅ (entries self !! v) ∪ default ∅ (entries other !! v) in
        if decide (u = ∅) then None else Some u
      else entries self !! v).
  { refine (set_fold_ind_L (λ acc (X : gset V), acc !! v = _) _ _ _ _).
    - by rewrite decide_False by set_solver.
    - intros x X acc Hx IH. rewrite merge_entry_lookup, IH.
      destruct (decide (x = v)) as [->|Hne], (decide (v ∈ X)); try done.
      + by rewrite (decide_True (P:=v ∈ _)) by set_solver.
      + by rewrite (decide_True (P:=v ∈ _)) by set_solver.
      + by rewrite (decide_False (P:=v ∈ _)) by set_solver. }
  rewrite Hgen. simpl. case_decide as Hv; [done|].
  apply not_elem_of_union in Hv as [Hv1%not_elem_of_dom Hv2%not_elem_of_dom].
  rewrite Hv1, Hv2. simpl. by rewrite decide_True by set_solver.
Qed.

Lemma merge_tags self other v : tags_of (merge self other) v = tags_of self v ∪ tags_of other v.
Proof.
  unfold tags_of at 1. rewrite merge_entries_lookup. simpl. case_decide as E; simpl; [|done].
  by rewrite E.
Qed.

Lemma wf_lookup s v : wf s →
  entries s !! v = if decide (tags_of s v = ∅) then None else Some (tags_of s v).
Proof.
  intros [Hne _]. unfold tags_of. destruct (entries s !! v) as [T|] eqn:E; simpl.
  - rewrite decide_False; [done|]. by apply (Hne v).
  - by rewrite decide_True.
Qed.

Lemma ext s1 s2 : wf s1 → wf s2 → (∀ v, tags_of s1 v = tags_of s2 v) →
  counters s1 = counters s2 → s1 = s2.
Proof.
  intros H1 H2 Ht Hc. destruct s1 as [e1 c1], s2 as [e2 c2]; simpl in *. f_equal; [|done].
  apply map_eq. intros v. pose proof (wf_lookup _ v H1) as E1. pose proof (wf_lookup _ v H2) as E2.
  simpl in *. by rewrite E1, E2, Ht.
Qed.

Lemma wf_tags s v a n : wf s → (a, n) ∈ tags_of s v → (n ≤ GCounter.actor_value (counters s) a)%N.
Proof.
  unfold tags_of. intros [_ Hb] Hin. destruct (entries s !! v) eqn:E; simpl in Hin.
  - by eapply Hb.
  - by apply not_elem_of_empty in Hin.
Qed.

Lemma wf_intro s :
  (∀ v tags, entries s !! v = Some tags → tags ≠ ∅) →
  (∀ v a n, (a, n) ∈ tags_of s v → (n ≤ GCounter.actor_value (counters s) a)%N) → wf s.
Proof.
  intros H1 H2. split; [done|]. intros v tags a n Hl Hin. apply (H2 v).
  unfold tags_of. by rewrite Hl.
Qed.

Lemma new_wf : wf new.
Proof. split; intros v tags; simpl; rewrite lookup_empty; done. Qed.

Lemma merge_wf a b : wf a → wf b → wf (merge a b).
Proof.
  intros Ha Hb. apply wf_intro.
  - intros v tags. rewrite merge_entries_lookup. simpl. case_decide; naive_solver.
  - intros v x n. rewrite merge_tags.
    change (counters (merge a b)) with (GCounter.merge (counters a) (counters b)).
    rewrite GCounter.merge_actor. intros [Hin|Hin]%elem_of_union; apply wf_tags in Hin; auto; simpl; lia.
Qed.

#[global] Instance merge_laws : JoinLaws wf merge.
Proof.
  split; intros; auto using merge_wf.
  - apply ext; auto using merge_wf.
    + intros v. rewrite !merge_tags. set_solver.
    + simpl. by apply (join_comm (JoinLaws:=GCounter.merge_laws)).
  - apply ext; auto using merge_wf.
    + intros v. rewrite !merge_tags. set_solver.
    + simpl. by apply (join_assoc (JoinLaws:=GCounter.merge_laws)).
  - apply ext; auto using merge_wf.
    + intros v. rewrite !merge_tags. set_solver.
    + simpl. by apply (join_idem (JoinLaws:=GCounter.merge_laws)).
Qed.

Lemma contains_tags s v : contains s v = negb (bool_decide (tags_of s v = ∅)).
Proof. unfold contains, tags_of. destruct (entries s !! v); simpl; [done|]. by rewrite bool_decide_true. Qed.

Lemma merge_contains a b v : contains (merge a b) v = contains a v || contains b v.
Proof.
  rewrite !contains_tags, merge_tags. repeat case_bool_decide; simpl; try done; set_solver.
Qed.

Lemma add_tags s a v w :
  tags_of (add s a v).1 w =
    if decide (v = w) then {[(add s a v).2]} ∪ tags_of s w else tags_of s w.
Proof.
  unfold tags_of, add; simpl. case_decide; subst.
  - by rewrite lookup_insert_eq.
  - by rewrite lookup_insert_ne.
Qed.

Lemma add_wf s a v :
  wf s → (GCounter.actor_value (counters s) a < u64_max)%N → wf (add s a v).1.
Proof.
  unfold u64_max, u64_modulus. intros Hs Hc.
  assert (Hc' : add64 (default 0%N (counters s !! a)) 1 =
                (GCounter.actor_value (counters s) a + 1)%N).
  { apply add64_small. unfold u64, u64_modulus, GCounter.actor_value in *. lia. }
  apply wf_intro.
  - intros w tags. simpl. intros [[-> <-]|[? E]]%lookup_insert_Some; [set_solver|].
    by apply (proj1 Hs w).
  - intros w x n. rewrite add_tags. simpl. rewrite Hc'.
    unfold GCounter.actor_value at 2. intros Hin.
    assert (Hor : (x = a ∧ n = (GCounter.actor_value (counters s) a + 1)%N) ∨ (x, n) ∈ tags_of s w)
      by (case_decide; set_solver).
    destruct (decide (a = x)) as [->|Hne];
      [rewrite lookup_insert_eq|rewrite lookup_insert_ne by done]; simpl;
      destruct Hor as [[? ->]|Hor]; subst; try done; apply wf_tags in Hor; auto;
      unfold GCounter.actor_value in *; lia.
Qed.

Lemma remove_wf s v : wf s → wf (remove s v).1.
Proof.
  intros [H1 H2]. split; simpl.
  - intros w tags [_ E]%lookup_delete_Some. by apply (H1 w).
  - intros w tags a n [_ E]%lookup_delete_Some. by apply (H2 w).
Qed.

Lemma add_fresh s a v w :
  wf s → (GCounter.actor_value (counters s) a < u64_max)%N → (add s a v).2 ∉ tags_of s w.
Proof.
  unfold u64_max, u64_modulus. intros Hs Hc Hin. simpl in Hin. apply wf_tags in Hin; [|done].
  rewrite add64_small in Hin; unfold u64, u64_modulus, GCounter.actor_value in *; lia.
Qed.

(** The observers agree with [contains]. *)
Lemma elements_spec s v : v ∈ elements s ↔ contains s v = true.
Proof.
  unfold elements. rewrite contains_tags, elem_of_dom. unfold tags_of. split.
  - intros [T [Hl Hne]%map_lookup_filter_Some]. rewrite Hl. simpl in *. by rewrite bool_decide_false.
  - intros Hc. destruct (entries s !! v) as [T|] eqn:E; simpl in Hc.
    + exists T. apply map_lookup_filter_Some. split; [done|]. simpl. by case_bool_decide.
    + by rewrite bool_decide_true in Hc.
Qed.
End orset.
Arguments t A V {_ _ _ _}.
End OrSet.

(* ------------------------------------------------------------------ *)
(** ** Properties *)

(** Replicated counting is exact: whatever increments the actors make on
    their own copies and however copies are merged into each other, merging
    the copies of the actors [rs] into any replica yields, for each of them,
    exactly what that actor added, and never more for anybody else. *)
Theorem gcounter_convergence {A} `{Countable A} (ops : list (GCounter.op (A:=A))) (x : A) (rs : list A)
  (Hn : Forall (λ o, match o with GCounter.Inc _ n => u64 n | _ => True end) ops) :
  let s := GCounter.run (λ _, GCounter.new) ops in
  let m := merge_all GCounter.merge (s x) (s <$> rs) in
  (∀ r, r ∈ rs → GCounter.actor_value m r = GCounter.total r ops) ∧
  (∀ r, (GCounter.actor_value m r ≤ GCounter.total r ops)%N).
Proof.
  intros s m. pose proof (proj1 (GCounter.replicas_invariant ops Hn)) as Hinv.
  fold s in Hinv.
  assert (Hm : ∀ c l, (∀ r, (GCounter.actor_value c r ≤ GCounter.total r ops)%N) →
    ∀ r, (GCounter.actor_value c r ≤ GCounter.actor_value (merge_all GCounter.merge c (s <$> l)) r
          ≤ GCounter.total r ops)%N ∧
         (r ∈ l → GCounter.actor_value (merge_all GCounter.merge c (s <$> l)) r = GCounter.total r ops)).
  { intros c l; revert c; induction l as [|y l IH]; intros c Hc r.
    - simpl. specialize (Hc r). split; [lia|]. by intros Hin%not_elem_of_nil.
    - assert (Hc' : ∀ z, (GCounter.actor_value (GCounter.merge c (s y)) z ≤ GCounter.total z ops)%N).
      { intros z. rewrite GCounter.merge_actor. specialize (Hc z).
        destruct (Hinv z) as [_ Hz]. specialize (Hz y). lia. }
      destruct (IH _ Hc' r) as [Hb Hin]. rewrite GCounter.merge_actor in Hb.
      change (merge_all GCounter.merge c (s <$> y :: l)) with
        (merge_all GCounter.merge (GCounter.merge c (s y)) (s <$> l)).
      split; [lia|]. intros [->|Hr]%elem_of_cons; [|by apply Hin].
      destruct (Hinv y) as [Hy _]. lia. }
  assert (H0 : ∀ r, (GCounter.actor_value (s x) r ≤ GCounter.total r ops)%N) by (intros r; apply Hinv).
  split; intros r; [intros Hr; by apply Hm|apply (Hm _ rs H0 r)].
Qed.

Theorem gcounter_convergence_witness :
  let ops := [GCounter.Inc 1%N 5%N; GCounter.Sync 2%N 1%N; GCounter.Inc 2%N 7%N; GCounter.Inc 1%N 1%N] in
  GCounter.actor_value
    (merge_all GCounter.merge (GCounter.run (λ _, GCounter.new) ops 3%N)
       (GCounter.run (λ _, GCounter.new) ops <$> [1; 2]%N)) 1%N = 6%N.
Proof.
  intros ops.
  refine (eq_trans (proj1 (gcounter_convergence ops 3%N [1; 2]%N _) 1%N _) _).
  - repeat constructor.
  - constructor.
  - vm_compute. reflexivity.
Defined.

(** A set of last-writer-wins registers whose timestamps determine their
    values converges: replicas that merge the same writes in any order hold
    the same register, whose timestamp is the greatest one seen. *)
Theorem lww_convergence {V} (f : N → V) (s : Lww.t V) (l1 l2 : list (Lww.t V))
  (Hs : Lww.stamped f s) (Hl : Forall (Lww.stamped f) l1) (Hp : l1 ≡ₚ l2) :
  merge_all Lww.merge s l1 = merge_all Lww.merge s l2 ∧
  Lww.timestamp (merge_all Lww.merge s l1) = foldl N.max (Lww.timestamp s) (Lww.timestamp <$> l1) ∧
  Lww.value (merge_all Lww.merge s l1) = f (Lww.timestamp (merge_all Lww.merge s l1)).
Proof.
  split; [by apply (merge_all_perm (JoinLaws0:=Lww.merge_laws f))|].
  split; [|by apply (merge_all_wf (JoinLaws0:=Lww.merge_laws f))].
  clear Hs Hl Hp. unfold merge_all. revert s.
  induction l1 as [|x l IH]; intros s; simpl; [done|]. by rewrite IH, Lww.merge_timestamp.
Qed.

Theorem lww_convergence_witness :
  merge_all Lww.merge (Lww.new 10%N 1%N) [Lww.new 30%N 3%N; Lww.new 20%N 2%N] =
  merge_all Lww.merge (Lww.new 10%N 1%N) [Lww.new 20%N 2%N; Lww.new 30%N 3%N].
Proof.
  apply (lww_convergence (λ t, t * 10)%N).
  - reflexivity.
  - repeat constructor.
  - constructor.
Defined.

(** Merging two registers commutes exactly when their timestamps differ
    or the registers are equal: on a tie between different values each side
    keeps its own value, and the replicas never agree. *)
Theorem lww_commutes_iff {V} (a b : Lww.t V) :
  (Lww.merge a b = Lww.merge b a ↔ Lww.timestamp a ≠ Lww.timestamp b ∨ a = b) ∧
  (Lww.timestamp a = Lww.timestamp b → Lww.merge a b = a ∧ Lww.merge b a = b).
Proof.
  split; [apply Lww.merge_comm_iff|]. intros Heq. rewrite !Lww.merge_eq, Heq.
  by rewrite N.ltb_irrefl.
Qed.

Theorem lww_commutes_iff_witness :
  Lww.merge (Lww.new 1%N 5%N) (Lww.new 2%N 5%N) = Lww.new 1%N 5%N ∧
  Lww.merge (Lww.new 2%N 5%N) (Lww.new 1%N 5%N) = Lww.new 2%N 5%N.
Proof. apply (proj2 (lww_commutes_iff (Lww.new 1%N 5%N) (Lww.new 2%N 5%N))). reflexivity. Defined.

(** Well-formed OR-Sets form a join semilattice under [merge]: replicas
    that receive the same states in any order, with any of them repeated,
    hold the same set, and a value is visible after a merge exactly when one
    of the two sides showed it. *)
Theorem orset_convergence {A V} `{Countable A, Countable V} (s : OrSet.t A V) (l1 l2 : list (OrSet.t A V))
  (Hs : OrSet.wf s) (Hl : Forall OrSet.wf l1) (Hp : l1 ≡ₚ l2) :
  merge_all OrSet.merge s l1 = merge_all OrSet.merge s l2 ∧
  OrSet.wf (merge_all OrSet.merge s l1) ∧
  (∀ d, d ∈ l1 → OrSet.merge (merge_all OrSet.merge s l1) d = merge_all OrSet.merge s l1) ∧
  (∀ v, v ∈ OrSet.elements (merge_all OrSet.merge s l1) ↔
        v ∈ OrSet.elements s ∨ ∃ d, d ∈ l1 ∧ v ∈ OrSet.elements d).
Proof.
  split; [by apply (merge_all_perm (wf:=OrSet.wf))|].
  split; [by apply (merge_all_wf (wf:=OrSet.wf))|].
  split.
  { intros d Hd. apply (merge_all_dup (wf:=OrSet.wf)); try done.
    rewrite Forall_forall in Hl. by apply Hl. }
  intros v. clear Hp Hs. unfold merge_all. revert s.
  induction Hl as [|x l Hx Hl IH]; intros s; simpl; [set_solver|].
  rewrite IH. setoid_rewrite elem_of_cons.
  rewrite !OrSet.elements_spec, OrSet.merge_contains, orb_true_iff.
  setoid_rewrite OrSet.elements_spec. naive_solver.
Qed.

Theorem orset_convergence_witness :
  let a := (OrSet.add OrSet.new 1%N 7%N).1 in let b := (OrSet.add OrSet.new 2%N 8%N).1 in
  merge_all OrSet.merge OrSet.new [a; b] = merge_all OrSet.merge OrSet.new [b; a].
Proof.
  intros a b. apply (orset_convergence OrSet.new [a; b] [b; a]).
  - apply OrSet.new_wf.
  - repeat constructor; apply OrSet.add_wf; try apply OrSet.new_wf; vm_compute; reflexivity.
  - apply Permutation_swap.
Defined.

(** Every add issues a tag no entry of the set carries, makes the value
    visible and leaves the other values alone; add, remove and merge keep the
    set well formed. *)
Theorem orset_add_fresh {A V} `{Countable A, Countable V} (s : OrSet.t A V) (a : A) (v : V)
  (Hs : OrSet.wf s) (Hc : (GCounter.actor_value (OrSet.counters s) a < u64_max)%N) :
  let '(s', tg) := OrSet.add s a v in
  OrSet.wf s' ∧ OrSet.wf (OrSet.remove s v).1 ∧ (∀ w, tg ∉ OrSet.tags_of s w) ∧
  OrSet.contains s' v = true ∧ OrSet.contains (OrSet.remove s v).1 v = false ∧
  (∀ w, w ≠ v → OrSet.contains s' w = OrSet.contains s w).
Proof.
  pose proof (OrSet.add_wf s a v Hs Hc) as Hwf. pose proof (λ w, OrSet.add_fresh s a v w Hs Hc) as Hf.
  pose proof (OrSet.add_tags s a v) as Ht.
  destruct (OrSet.add s a v) as [s' tg]; simpl in *.
  split_and!; [done|by apply OrSet.remove_wf|done|..].
  - rewrite OrSet.contains_tags, Ht, decide_True by done. by rewrite bool_decide_false by set_solver.
  - unfold OrSet.contains; simpl. by rewrite lookup_delete_eq.
  - intros w Hw. by rewrite !OrSet.contains_tags, Ht, decide_False by done.
Qed.

Theorem orset_add_fresh_witness :
  OrSet.contains (OrSet.add (OrSet.add OrSet.new 1%N 7%N).1 1%N 8%N).1 8%N = true.
Proof.
  apply (orset_add_fresh (OrSet.add OrSet.new 1%N 7%N).1 1%N 8%N).
  - apply OrSet.add_wf; [apply OrSet.new_wf|vm_compute; reflexivity].
  - vm_compute. reflexivity.
Defined.

(** A removal does not survive replication: merging the state a replica
    had before its own [remove], even one whose every tag that remove
    observed, makes the removed value visible again, on both sides. *)
Theorem orset_remove_undone {A V} `{Countable A, Countable V} (s : OrSet.t A V) (v : V)
  (Hv : OrSet.contains s v = true) :
  OrSet.contains (OrSet.remove s v).1 v = false ∧
  OrSet.contains (OrSet.merge (OrSet.remove s v).1 s) v = true ∧
  OrSet.contains (OrSet.merge s (OrSet.remove s v).1) v = true.
Proof.
  rewrite !OrSet.merge_contains, Hv, orb_true_r. split; [|done].
  unfold OrSet.contains; simpl. by rewrite lookup_delete_eq.
Qed.

Theorem orset_remove_undone_witness :
  let s := (OrSet.add OrSet.new 1%N 7%N).1 in
  OrSet.contains (OrSet.merge (OrSet.remove s 7%N).1 s) 7%N = true.
Proof. intros s. apply (orset_remove_undone s 7%N). vm_compute. reflexivity. Defined.

(** Over any run of local ticks and received timestamps whose values fit
    the 48-bit wall part, the clock issues strictly increasing timestamps,
    each above the clock's starting value; a tick increases the clock unless
    its 16-bit counter is full and the wall clock has not moved, and then it
    sets the clock back by 65535. *)
Theorem clock_run_increasing (latest : N) (es : list HybridClock.event)
  (Hsafe : HybridClock.safe latest es) :
  StronglySorted N.lt (HybridClock.run latest es) ∧
  Forall (N.lt latest) (HybridClock.run latest es) ∧
  (∀ now, (latest < u64_modulus)%N → (now < 2 ^ 48)%N →
     ((latest < HybridClock.tick now latest)%N ↔
        ¬ (counter latest = 65535%N ∧ (now ≤ wall_secs latest)%N)) ∧
     (counter latest = 65535%N → (now ≤ wall_secs latest)%N →
        HybridClock.tick now latest = (latest - 65535)%N)).
Proof.
  destruct (HybridClock.run_sorted latest es Hsafe) as [H1 H2]. split_and!; [done..|].
  intros now Hl Hn. split; [by apply HybridClock.tick_increases|]. intros Hc Hw.
  rewrite HybridClock.tick_arith, Hc by done. destruct (_ <? _)%N eqn:E; bprop; [lia|done].
Qed.

Theorem clock_run_increasing_witness :
  StronglySorted N.lt
    (HybridClock.run (HybridClock.new 100)
       [HybridClock.Tick 100; HybridClock.Recv 101 (hlc_new 105 3); HybridClock.Tick 90]).
Proof.
  apply (clock_run_increasing (HybridClock.new 100)
       [HybridClock.Tick 100; HybridClock.Recv 101 (hlc_new 105 3); HybridClock.Tick 90]).
  vm_compute. repeat (split; try reflexivity); intros [H ?]; discriminate H.
Defined.
