(* ===== verification/Crypto.v ===== *)
(** * Cryptographic wrappers: [crates/ephemera-crypto/src]

    The crate wraps third-party primitives.  The primitives are the
    parameters [Primitives]; what the code relies on about them is
    [PrimitiveLaws]; the wrappers ([encryption.rs], [dh.rs], [keys.rs],
    [signing.rs]) are definitions over them.  Randomness (nonces, fresh
    secrets) is an argument.  [Toy] instantiates the parameters with concrete
    functions, for evaluation. *)
From S2P Require Import Prelude Types.

(** Third-party functions; a failing one returns its error's display string. *)
Class Primitives := {
  (** [Hkdf::<Sha256>::new(salt, ikm).expand(info, &mut okm)], 32-byte [okm] *)
  hkdf_sha256 : bytes → option bytes → bytes → result string bytes;
  (** [PublicKey::from(&StaticSecret::from(secret))] of x25519-dalek *)
  x25519_public : bytes → bytes;
  (** [StaticSecret::diffie_hellman] *)
  x25519_shared : bytes → bytes → bytes;
  (** [XChaCha20Poly1305::encrypt] and [decrypt]: key, nonce, text *)
  xchacha_encrypt : bytes → bytes → bytes → result string bytes;
  xchacha_decrypt : bytes → bytes → bytes → result string bytes;
  (** [blake3::hash] and [blake3::keyed_hash] *)
  blake3_hash : bytes → bytes;
  blake3_keyed_hash : bytes → bytes → bytes;
  (** ed25519-dalek: verifying key of a seed, signing, verification; a key
      that is no curve point has no verifier *)
  ed25519_public : bytes → bytes;
  ed25519_sign : bytes → bytes → bytes;
  ed25519_verify : bytes → option (bytes → bytes → bool);
  (** [Argon2id] with the fixed parameters of [pow.rs]: password, salt *)
  argon2id : bytes → bytes → bytes
}.

(** Documented behaviour of the primitives. *)
Class PrimitiveLaws `{Primitives} : Prop := {
  hkdf_total ikm salt info : ∃ okm, hkdf_sha256 ikm salt info = Ok okm ∧ length okm = 32;
  x25519_comm a b : x25519_shared a (x25519_public b) = x25519_shared b (x25519_public a);
  x25519_public_len a : length a = 32 → length (x25519_public a) = 32;
  xchacha_total k n p : ∃ c, xchacha_encrypt k n p = Ok c ∧ length c = length p + 16;
  xchacha_correct k n p c : xchacha_encrypt k n p = Ok c → xchacha_decrypt k n c = Ok p;
  blake3_len m : length (blake3_hash m) = 32;
  ed25519_correct seed m :
    ∃ v, ed25519_verify (ed25519_public seed) = Some v ∧ v m (ed25519_sign seed m) = true;
  ed25519_sign_len seed m : length (ed25519_sign seed m) = 64
}.

(* ------------------------------------------------------------------ *)
(** ** Errors *)

Inductive CryptoError :=
| CSignatureInvalid
| CEncryptionFailed (reason : string)
| CDecryptionFailed (reason : string)
| CInvalidKey (reason : string).

(** [impl From<CryptoError> for EphemeraError]. *)
Definition crypto_to_ephemera (e : CryptoError) : EphemeraError :=
  match e with
  | CSignatureInvalid => SignatureInvalid "signature verification failed"
  | CEncryptionFailed r => EncryptionError r
  | CDecryptionFailed r => EncryptionError r
  | CInvalidKey r => InvalidKey r
  end.

Section wrappers.
Context `{Primitives}.

(* ------------------------------------------------------------------ *)
(** ** Key derivation *)

Definition hkdf_derive (ikm : bytes) (salt : option bytes) (info : bytes) :
    result EphemeraError bytes :=
  map_err (λ e, KeyDerivationError ("HKDF expansion failed: " +:+ e)) (hkdf_sha256 ikm salt info).

Definition EPOCH_INFO_PREFIX : bytes := bstr "ephemera-epoch".

Definition derive_epoch_key (master_secret : bytes) (epoch : N) : result EphemeraError bytes :=
  hkdf_derive master_secret None (EPOCH_INFO_PREFIX ++ le_bytes 8 epoch).

(* ------------------------------------------------------------------ *)
(** ** X25519 *)

Record X25519KeyPair := MkKeyPair { secret : bytes; public : bytes }.

(** [X25519KeyPair::generate] with the random secret drawn, and
    [from_secret_bytes]. *)
Definition generate (random_secret : bytes) : X25519KeyPair :=
  MkKeyPair random_secret (x25519_public random_secret).
Definition from_secret_bytes (b : bytes) : X25519KeyPair := MkKeyPair b (x25519_public b).

Definition x25519_diffie_hellman (our_secret their_public : bytes) : bytes :=
  x25519_shared our_secret their_public.

(* ------------------------------------------------------------------ *)
(** ** Authenticated encryption *)

Definition NONCE_LEN : nat := 24.
Definition TAG_LEN : nat := 16.

Definition encrypt (key nonce plaintext : bytes) : result EphemeraError bytes :=
  map_err (λ e, EncryptionError ("XChaCha20-Poly1305 encryption failed: " +:+ e))
    (xchacha_encrypt key nonce plaintext).

Definition decrypt (key nonce ciphertext : bytes) : result EphemeraError bytes :=
  map_err (λ e, EncryptionError ("XChaCha20-Poly1305 decryption failed: " +:+ e))
    (xchacha_decrypt key nonce ciphertext).

(** [seal], with the nonce [generate_nonce] drew. *)
Definition seal (nonce key plaintext : bytes) : result EphemeraError bytes :=
  let? ciphertext := encrypt key nonce plaintext in
  Ok (nonce ++ ciphertext).

Definition open (key sealed : bytes) : result EphemeraError bytes :=
  if (length sealed <? NONCE_LEN + TAG_LEN) then
    Err (EncryptionError ("sealed message too short: " +:+ pretty (length sealed) +:+
                          " bytes (minimum " +:+ pretty (NONCE_LEN + TAG_LEN) +:+ ")"))
  else
    let nonce := take NONCE_LEN sealed in
    let ciphertext := drop NONCE_LEN sealed in
    decrypt key nonce ciphertext.

(* ------------------------------------------------------------------ *)
(** ** Signatures *)

Definition verify_signature (public_key message signature : bytes) : result CryptoError unit :=
  match ed25519_verify public_key with
  | None => Err (CInvalidKey "invalid Ed25519 public key")
  | Some verify =>
      if verify message signature then Ok tt else Err CSignatureInvalid
  end.

(** [SigningKeyPair { seed }]. *)
Definition public_key (seed : bytes) : bytes := ed25519_public seed.
Definition sign (seed message : bytes) : bytes := ed25519_sign seed message.

(* ------------------------------------------------------------------ *)
(** ** Lemmas *)

Context `{!PrimitiveLaws}.

Lemma hkdf_derive_total ikm salt info :
  ∃ k, hkdf_derive ikm salt info = Ok k ∧ length k = 32.
Proof. destruct (hkdf_total ikm salt info) as (k & E & Hl). exists k. unfold hkdf_derive. by rewrite E. Qed.

Lemma seal_total nonce key p :
  ∃ c, seal nonce key p = Ok c ∧ length c = length nonce + (length p + TAG_LEN).
Proof.
  destruct (xchacha_total key nonce p) as (c & E & Hl). exists (nonce ++ c).
  unfold seal, encrypt. rewrite E. split; [done|]. by rewrite length_app, Hl.
Qed.

Lemma open_seal nonce key p c :
  length nonce = NONCE_LEN → seal nonce key p = Ok c → open key c = Ok p.
Proof.
  intros Hn. unfold seal, encrypt. destruct (xchacha_encrypt key nonce p) as [ct|] eqn:E; [|done].
  simpl. intros [= <-]. destruct (xchacha_total key nonce p) as (ct' & E' & Hl).
  rewrite E in E'. injection E' as <-. unfold open.
  rewrite length_app, Hl, Hn, (proj2 (Nat.ltb_ge _ _)) by (unfold TAG_LEN; lia).
  rewrite take_app_length', drop_app_length' by done. unfold decrypt.
  by rewrite (xchacha_correct _ _ _ _ E).
Qed.

Lemma verify_sign seed m : verify_signature (public_key seed) m (sign seed m) = Ok tt.
Proof.
  destruct (ed25519_correct seed m) as (v & E & Hv). unfold verify_signature, public_key, sign.
  by rewrite E, Hv.
Qed.
End wrappers.

(* ------------------------------------------------------------------ *)
(** ** A concrete instance *)

Module Toy.

(** A 32-byte mixing function (not a secure hash). *)
Definition mix (m : bytes) : bytes :=
  be_bytes 32 (foldl (λ acc x, N.land (acc * 1099511628211 + x + 7) (N.ones 256)) 14695981039346656037%N m).

Arguments mix : simpl never.

Definition tag (k n p : bytes) : bytes := take 16 (mix (k ++ n ++ p)).

#[export] Instance toy : Primitives := {|
  hkdf_sha256 ikm salt info := Ok (mix (ikm ++ default [] salt ++ info));
  x25519_public s := s;
  x25519_shared a b := zip_with N.lxor a b;
  xchacha_encrypt k n p := Ok (p ++ tag k n p);
  xchacha_decrypt k n c :=
    let p := take (length c - 16) c in
    if bool_decide (drop (length c - 16) c = tag k n p) then Ok p else Err "aead::Error"%string;
  blake3_hash := mix;
  blake3_keyed_hash k m := mix (k ++ m);
  ed25519_public s := s;
  ed25519_sign s m := mix (s ++ m) ++ mix (m ++ s);
  ed25519_verify k := Some (λ m s, bool_decide (s = mix (k ++ m) ++ mix (m ++ k)));
  argon2id pw salt := N.lxor (N.of_nat (length pw mod 7)) <$> salt
|}.

Lemma length_mix m : length (mix m) = 32.
Proof. apply length_be_bytes. Qed.

Lemma length_tag k n p : length (tag k n p) = 16.
Proof. unfold tag. by rewrite length_take, length_mix. Qed.

#[export] Instance toy_laws : PrimitiveLaws.
Proof.
  split; simpl.
  - intros ikm salt info. eexists. split; [done|apply length_mix].
  - intros a. induction a as [|x a IH]; intros [|y b]; simpl; try done.
    rewrite N.lxor_comm. f_equal. apply IH.
  - done.
  - intros k n p. eexists. split; [done|].
    by rewrite length_app, length_tag.
  - intros k n p c [= <-]. rewrite length_app, length_tag, Nat.add_sub.
    by rewrite take_app_length, drop_app_length, bool_decide_true.
  - done.
  - intros seed m. eexists. split; [done|]. by apply bool_decide_eq_true.
  - done.
Qed.
End Toy.

#[export] Hint Resolve @open_seal @verify_sign : eph.
