(* ===== verification/Values.v ===== *)
(** * Values on the wire and in streams

    What is left of [crates/ephemera-types] (signatures with their wire
    format in [identity.rs], the qualities of [content.rs]) and the hashing of
    streams in [crates/ephemera-crypto/src/hash.rs]. *)
From S2P Require Import Prelude Types Crypto.

(* ------------------------------------------------------------------ *)
(** ** Signatures *)

Definition ED25519_SIGNATURE_LEN : nat := 64.
Definition Signature : Type := bytes.

Definition from_slice (b : bytes) : option Signature := if length b =? ED25519_SIGNATURE_LEN then Some b else None.

(** Why a value is refused: the error of an element of the sequence, or a
    length. *)
Inductive DeError (E : Type) := Element (e : E) | InvalidLength (n : nat).
Arguments Element {E} _.
Arguments InvalidLength {E} _.

Definition visit_bytes {E} (v : bytes) : result (DeError E) Signature := ok_or (from_slice v) (InvalidLength (length v)).

(** The elements are read one by one, no more than one past the length. *)
Fixpoint collect {E} (read : bytes) (seq : list (result E N)) : result (DeError E) bytes :=
  match seq with
  | [] => Ok read
  | Err e :: _ => Err (Element e)
  | Ok b :: seq =>
      if ED25519_SIGNATURE_LEN <=? length read then Err (InvalidLength (length read + 1)) else collect (read ++ [b]) seq
  end.
Definition visit_seq {E} (seq : list (result E N)) : result (DeError E) Signature :=
  let? b := collect [] seq in ok_or (from_slice b) (InvalidLength (length b)).

Lemma collect_spec {E} read l : length read ≤ ED25519_SIGNATURE_LEN →
  collect (E := E) read (Ok <$> l) =
    if length read + length l <=? ED25519_SIGNATURE_LEN then Ok (read ++ l) else Err (InvalidLength (ED25519_SIGNATURE_LEN + 1)).
Proof.
  revert read. induction l as [|b l IH]; intros read Hr; cbn -[Nat.leb].
  - by rewrite Nat.add_0_r, app_nil_r, (proj2 (Nat.leb_le _ _)).
  - destruct (Nat.leb_spec ED25519_SIGNATURE_LEN (length read)) as [Hl|Hl].
    + assert (Hn : length read = ED25519_SIGNATURE_LEN) by lia. rewrite Hn.
      destruct (Nat.leb_spec (ED25519_SIGNATURE_LEN + S (length l)) ED25519_SIGNATURE_LEN); [lia|done].
    + rewrite IH by (rewrite length_app; cbn; lia). rewrite length_app, <- app_assoc. cbn [length app].
      by replace (length read + 1 + length l) with (length read + S (length l)) by lia.
Qed.

(** Both formats take exactly the sequences of sixty-four bytes, as they are,
    and give the length of what they refuse, one past the limit at most when
    it is read element by element. *)
Lemma signature_format {E} (b : bytes) :
  visit_seq (E := E) (Ok <$> b) =
    (if length b =? ED25519_SIGNATURE_LEN then Ok b else Err (InvalidLength (length b `min` (ED25519_SIGNATURE_LEN + 1)))) ∧
  visit_bytes (E := E) b = (if length b =? ED25519_SIGNATURE_LEN then Ok b else Err (InvalidLength (length b))).
Proof.
  unfold visit_seq, visit_bytes, from_slice. rewrite collect_spec by (cbn; lia). cbn [length app Nat.add]. split; [|by case_match].
  destruct (Nat.leb_spec (length b) ED25519_SIGNATURE_LEN) as [Hl|Hl]; cbn [result_bind].
  - case_match; [done|]. cbn [ok_or]. do 2 f_equal. lia.
  - rewrite (proj2 (Nat.eqb_neq _ _)) by lia. do 2 f_equal. lia.
Qed.

(* ------------------------------------------------------------------ *)
(** ** Qualities of images *)

Inductive Quality := Thumbnail | Low | Standard | High.
Definition max_image_width (q : Quality) : N :=
  match q with Thumbnail => 150 | Low => 480 | Standard => 1080 | High => 2048 end%N.

(* ------------------------------------------------------------------ *)
(** ** Hashing a stream *)

(** [blake3::Hasher]; its documentation: the hash of what was fed in, however
    it was cut. *)
Class Blake3Hasher `{Primitives} := {
  Hasher : Type;
  hasher_new : Hasher;
  hasher_update : bytes → Hasher → Hasher;
  hasher_finalize : Hasher → bytes;
  hasher_spec (cs : list bytes) : hasher_finalize (foldl (λ h c, hasher_update c h) hasher_new cs) = blake3_hash (concat cs)
}.

Section hashing.
Context `{Blake3Hasher}.

Definition content_id_from_bytes (data : bytes) : ContentId := from_hash (blake3_hash data).
Definition finalize_content_id (h : Hasher) : ContentId := from_hash (hasher_finalize h).
Definition finalize_bytes (h : Hasher) : bytes := hasher_finalize h.
Definition wire_bytes_ct_eq (a b : ContentId) : bool := (version a =? version b)%N && bool_decide (hash a = hash b).
Definition verify_content_id (data : bytes) (expected : ContentId) : bool := wire_bytes_ct_eq (content_id_from_bytes data) expected.

(** A stream has the content id of the whole, and only that verifies. *)
Lemma stream_verifies (chunks : list bytes) (c : ContentId) :
  verify_content_id (concat chunks) c = true ↔ c = finalize_content_id (foldl (λ h c, hasher_update c h) hasher_new chunks).
Proof.
  unfold verify_content_id, wire_bytes_ct_eq, content_id_from_bytes, finalize_content_id. rewrite hasher_spec.
  rewrite andb_true_iff, N.eqb_eq, bool_decide_eq_true. destruct c as [v h]. cbn. split; [by intros [<- <-]|by intros [= -> ->]].
Qed.
End hashing.

(** A hasher that keeps what it was fed. *)
Module HasherToy.
Import Toy.
#[export] Instance hasher : Blake3Hasher (H := Toy.toy).
Proof.
  refine {| Hasher := bytes; hasher_new := []; hasher_update c h := h ++ c; hasher_finalize := blake3_hash |}.
  intros cs. f_equal. change (concat cs) with ([] ++ concat cs). generalize (@nil N). induction cs as [|c cs IH]; intros h; cbn; [by rewrite app_nil_r|].
  by rewrite IH, <- app_assoc.
Defined.
End HasherToy.
