(* ===== verification/Unicode.v ===== *)
(** * Text

    A Rust [&str] is the list of its Unicode scalar values; [utf8] gives its
    bytes, and [str::len] counts those.  The character predicates are the
    [is_ascii_*] methods of [char]. *)
From S2P Require Import Prelude.

Abbreviation str := (list N).

Definition utf8_char (c : N) : bytes :=
  (if c <? 128 then [c]
   else if c <? 2048 then [192 + c / 64; 128 + c mod 64]
   else if c <? 65536 then [224 + c / 4096; 128 + (c / 64) mod 64; 128 + c mod 64]
   else [240 + c / 262144; 128 + (c / 4096) mod 64; 128 + (c / 64) mod 64; 128 + c mod 64])%N.

Definition as_bytes (s : str) : bytes := flat_map utf8_char s.
Definition str_len (s : str) : nat := length (as_bytes s).

(** [String::from_utf8]: well-formed sequences only, shortest form, no
    surrogates, nothing above U+10FFFF. *)
Definition cont (b : N) : bool := (128 <=? b)%N && (b <=? 191)%N.
Definition in_range (lo hi b : N) : bool := (lo <=? b)%N && (b <=? hi)%N.
Definition second3 (b0 b1 : N) : bool :=
  ((b0 =? 224) && in_range 160 191 b1 || (b0 =? 237) && in_range 128 159 b1 ||
   (in_range 225 236 b0 || in_range 238 239 b0) && cont b1)%N.
Definition second4 (b0 b1 : N) : bool :=
  ((b0 =? 240) && in_range 144 191 b1 || (b0 =? 244) && in_range 128 143 b1 ||
   in_range 241 243 b0 && cont b1)%N.

Fixpoint from_utf8 (b : bytes) : option str :=
  match b with
  | [] => Some []
  | b0 :: r1 =>
      if (b0 <? 128)%N then (b0 ::.) <$> from_utf8 r1
      else match r1 with
      | [] => None
      | b1 :: r2 =>
          if in_range 194 223 b0 && cont b1
          then (((b0 - 192) * 64 + (b1 - 128))%N ::.) <$> from_utf8 r2
          else match r2 with
          | [] => None
          | b2 :: r3 =>
              if second3 b0 b1 && cont b2
              then (((b0 - 224) * 4096 + (b1 - 128) * 64 + (b2 - 128))%N ::.) <$> from_utf8 r3
              else match r3 with
              | [] => None
              | b3 :: r4 =>
                  if second4 b0 b1 && cont b2 && cont b3
                  then (((b0 - 240) * 262144 + (b1 - 128) * 4096 + (b2 - 128) * 64 + (b3 - 128))%N ::.)
                         <$> from_utf8 r4
                  else None
              end
          end
      end
  end.

(** A Unicode scalar value: what a Rust [char] holds. *)
Definition scalar (c : N) : Prop := (c < 55296 ∨ 57344 ≤ c < 1114112)%N.

Definition is_ascii_lowercase (c : N) : bool := (97 <=? c)%N && (c <=? 122)%N.
Definition is_ascii_uppercase (c : N) : bool := (65 <=? c)%N && (c <=? 90)%N.
Definition is_ascii_digit (c : N) : bool := (48 <=? c)%N && (c <=? 57)%N.
Definition underscore : N := 95.

Definition to_ascii_lowercase (s : str) : str :=
  (λ c, if is_ascii_uppercase c then (c + 32)%N else c) <$> s.

(** [str::contains] for a string needle. *)
Fixpoint starts_with (needle s : str) : bool :=
  match needle, s with
  | [], _ => true
  | a :: needle', b :: s' => (a =? b)%N && starts_with needle' s'
  | _ :: _, [] => false
  end.
Fixpoint contains (needle s : str) : bool :=
  starts_with needle s || match s with [] => false | _ :: s' => contains needle s' end.

Definition lit (s : string) : str := bstr s.

Definition ascii (c : N) : Prop := (c < 128)%N.

(** [char::is_whitespace], the White_Space property. *)
Definition is_whitespace (c : N) : bool :=
  in_range 9 13 c || in_range 8192 8202 c ||
  existsb (N.eqb c) [32; 133; 160; 5760; 8232; 8233; 8239; 8287; 12288]%N.

(** [str::trim]. *)
Fixpoint trim_start (s : str) : str :=
  match s with [] => [] | c :: s' => if is_whitespace c then trim_start s' else s end.
Definition trim (s : str) : str := rev (trim_start (rev (trim_start s))).

(** [str::split_whitespace]; [cur] is the word so far, backwards. *)
Fixpoint split_words (cur s : str) : list str :=
  match s with
  | [] => match cur with [] => [] | _ => [rev cur] end
  | c :: s' =>
      if is_whitespace c then match cur with [] => split_words [] s' | _ => rev cur :: split_words [] s' end
      else split_words (c :: cur) s'
  end.
Definition split_whitespace (s : str) : list str := split_words [] s.

(** [str::lines]: each line ends in a line feed, which goes away with a
    carriage return before it. *)
Definition strip_cr (cur : str) : str := match cur with 13%N :: r => rev r | _ => rev cur end.
Fixpoint lines_from (cur s : str) : list str :=
  match s with
  | [] => match cur with [] => [] | _ => [rev cur] end
  | c :: s' => if (c =? 10)%N then strip_cr cur :: lines_from [] s' else lines_from (c :: cur) s'
  end.
Definition lines (s : str) : list str := lines_from [] s.

(** [slice::join] with one character. *)
Fixpoint join (sep : N) (ls : list str) : str :=
  match ls with [] => [] | [l] => l | l :: ls => l ++ sep :: join sep ls end.

(** The [hex] crate; [decode] refuses odd lengths and other characters. *)
Class Hex := {
  hex_encode : bytes → str;
  hex_decode : str → option bytes
}.
Class HexLaws `{Hex} : Prop := {
  hex_decode_encode b : Forall byte_ok b → hex_decode (hex_encode b) = Some b
}.

(** [hex::encode] writes two lower-case digits a byte. *)
Definition is_hex_digit (c : N) : bool := is_ascii_digit c || in_range 97 102 c.
Class HexOutput `{Hex} : Prop := {
  hex_encode_digits b : Forall byte_ok b → Forall (λ c, is_hex_digit c = true) (hex_encode b);
  length_hex_encode b : length (hex_encode b) = 2 * length b
}.

(** An ASCII string as a [string]. *)
Definition show (s : str) : string := String.string_of_list_ascii (ascii_of_N <$> s).

(** Lower-case hexadecimal, two digits a byte: a concrete instance. *)
Module HexToy.
Definition digit (d : N) : N := (if d <? 10 then 48 + d else 87 + d)%N.
Definition value (c : N) : option N :=
  (if is_ascii_digit c then Some (c - 48)
   else if in_range 97 102 c then Some (c - 87)
   else if in_range 65 70 c then Some (c - 55) else None)%N.
Definition encode (b : bytes) : str := flat_map (λ x, [digit (x / 16); digit (x mod 16)])%N b.
Fixpoint decode (s : str) : option bytes :=
  match s with
  | [] => Some []
  | [_] => None
  | c :: d :: s' =>
      match value c, value d, decode s' with
      | Some x, Some y, Some b => Some ((x * 16 + y)%N :: b)
      | _, _, _ => None
      end
  end.
#[export] Instance hex : Hex := {| hex_encode := encode; hex_decode := decode |}.

Lemma value_digit d : (d < 16)%N → value (digit d) = Some d.
Proof.
  intros Hd. unfold digit, value, is_ascii_digit, in_range. destruct (N.ltb_spec d 10).
  - assert ((48 <=? 48 + d) && (48 + d <=? 57) = true)%N as -> by (rewrite andb_true_iff, !N.leb_le; lia).
    f_equal. lia.
  - assert ((48 <=? 87 + d) && (87 + d <=? 57) = false)%N as -> by (rewrite andb_false_iff, !N.leb_gt; lia).
    assert ((97 <=? 87 + d) && (87 + d <=? 102) = true)%N as -> by (rewrite andb_true_iff, !N.leb_le; lia).
    f_equal. lia.
Qed.

#[export] Instance hex_laws : HexLaws.
Proof.
  split. intros b. change (hex_decode (hex_encode b)) with (decode (encode b)).
  induction 1 as [|x b Hx Hb IH]; [done|]. change (encode (x :: b)) with (digit (x / 16) :: digit (x mod 16) :: encode b).
  unfold byte_ok in Hx. pose proof (N.div_mod x 16 ltac:(lia)). pose proof (N.mod_lt x 16 ltac:(lia)).
  generalize dependent (x / 16)%N. generalize dependent (x mod 16)%N. intros r Hr q Hq.
  cbn [decode]. rewrite !value_digit, IH by lia. do 2 f_equal. lia.
Qed.

Lemma digit_hex d : (d < 16)%N → is_hex_digit (digit d) = true.
Proof.
  intros Hd. unfold digit, is_hex_digit, is_ascii_digit, in_range. apply orb_true_iff.
  rewrite !andb_true_iff, !N.leb_le. destruct (N.ltb_spec d 10); lia.
Qed.

#[export] Instance hex_output : HexOutput.
Proof.
  split.
  - intros b Hb. change (hex_encode b) with (encode b). induction Hb as [|x b Hx Hb IH]; [constructor|].
    change (encode (x :: b)) with (digit (x / 16) :: digit (x mod 16) :: encode b). unfold byte_ok in Hx.
    constructor; [|constructor; [|done]]; apply digit_hex; [apply N.Div0.div_lt_upper_bound; lia|by apply N.mod_lt].
  - intros b. change (hex_encode b) with (encode b). induction b as [|x b IH]; [done|].
    change (encode (x :: b)) with (digit (x / 16) :: digit (x mod 16) :: encode b). cbn [length]. lia.
Qed.
End HexToy.

Lemma as_bytes_ascii s : Forall ascii s → as_bytes s = s.
Proof.
  unfold as_bytes, ascii. induction 1 as [|c s Hc Hs IH]; simpl; [done|].
  rewrite IH. unfold utf8_char. by rewrite (proj2 (N.ltb_lt c 128) Hc).
Qed.

Lemma str_len_ascii s : Forall ascii s → str_len s = length s.
Proof. intros H. unfold str_len. by rewrite as_bytes_ascii. Qed.

Lemma lowercase_ascii c : is_ascii_lowercase c = true → ascii c.
Proof. unfold is_ascii_lowercase, ascii. intros H. bprop. lia. Qed.

Lemma digit_ascii c : is_ascii_digit c = true → ascii c.
Proof. unfold is_ascii_digit, ascii. intros H. bprop. lia. Qed.

(** A two-character needle is two adjacent occurrences. *)
Lemma contains_pair a b s :
  contains [a; b] s = true ↔ ∃ i, s !! i = Some a ∧ s !! S i = Some b.
Proof.
  induction s as [|x s IH]; simpl.
  - split; [done|]. intros (i & ? & _). by rewrite lookup_nil in *.
  - rewrite orb_true_iff, andb_true_iff, N.eqb_eq, IH. split.
    + intros [[<- H]|(i & ? & ?)].
      * destruct s as [|y s]; [done|]. rewrite andb_true_iff, N.eqb_eq in H. destruct H as [<- _].
        by exists 0.
      * by exists (S i).
    + intros ([|i] & H1 & H2); simpl in *.
      * injection H1 as ->. left. split; [done|]. destruct s as [|y s]; [done|].
        simpl in H2. injection H2 as ->. by rewrite N.eqb_refl.
      * right. by exists i.
Qed.

(** Closes a goal about the range of an encoded byte. *)
Ltac byte_range :=
  unfold second3, second4, cont, in_range;
  repeat rewrite ?andb_true_iff, ?orb_true_iff, ?andb_false_iff, ?orb_false_iff, ?N.leb_le,
    ?N.leb_gt, ?N.eqb_eq, ?N.eqb_neq, ?N.ltb_ge;
  lia.

(** Decoding one encoded character. *)
Lemma from_utf8_char c s : scalar c → from_utf8 (utf8_char c ++ s) = (c ::.) <$> from_utf8 s.
Proof.
  unfold scalar, utf8_char. intros Hc.
  destruct (N.ltb_spec c 128).
  { simpl. by rewrite (proj2 (N.ltb_lt c 128)). }
  pose proof (N.div_mod c 64 ltac:(lia)) as E1. pose proof (N.mod_lt c 64 ltac:(lia)).
  set (r := (c mod 64)%N) in *. set (q := (c / 64)%N) in *. clearbody r.
  destruct (N.ltb_spec c 2048).
  { clearbody q. cbn [app from_utf8].
    assert ((192 + q <? 128)%N = false) as -> by byte_range.
    assert (in_range 194 223 (192 + q) = true) as -> by byte_range.
    assert (cont (128 + r) = true) as -> by byte_range.
    cbn [andb]. by replace ((192 + q - 192) * 64 + (128 + r - 128))%N with c by lia. }
  pose proof (N.div_mod q 64 ltac:(lia)) as E2. pose proof (N.mod_lt q 64 ltac:(lia)).
  assert (c / 4096 = q / 64)%N as -> by (unfold q; by rewrite N.Div0.div_div).
  assert (c / 262144 = q / 64 / 64)%N as -> by (unfold q; by rewrite !N.Div0.div_div).
  set (t := (q mod 64)%N) in *. set (p := (q / 64)%N) in *. clearbody q t.
  destruct (N.ltb_spec c 65536).
  { clearbody p. cbn [app from_utf8].
    assert ((224 + p <? 128)%N = false) as -> by byte_range.
    assert (in_range 194 223 (224 + p) = false) as -> by byte_range.
    assert (second3 (224 + p) (128 + t) = true) as -> by byte_range.
    assert (cont (128 + r) = true) as -> by byte_range.
    cbn [andb]. by replace ((224 + p - 224) * 4096 + (128 + t - 128) * 64 + (128 + r - 128))%N with c by lia. }
  pose proof (N.div_mod p 64 ltac:(lia)) as E3. pose proof (N.mod_lt p 64 ltac:(lia)).
  set (u := (p mod 64)%N) in *. set (o := (p / 64)%N) in *. clearbody p u o. cbn [app from_utf8].
  assert ((240 + o <? 128)%N = false) as -> by byte_range.
  assert (in_range 194 223 (240 + o) = false) as -> by byte_range.
  assert (second3 (240 + o) (128 + u) = false) as -> by byte_range.
  assert (second4 (240 + o) (128 + u) = true) as -> by byte_range.
  assert (cont (128 + t) = true) as -> by byte_range.
  assert (cont (128 + r) = true) as -> by byte_range.
  cbn [andb].
  by replace ((240 + o - 240) * 262144 + (128 + u - 128) * 4096 + (128 + t - 128) * 64 + (128 + r - 128))%N
    with c by lia.
Qed.

Lemma from_utf8_as_bytes s : Forall scalar s → from_utf8 (as_bytes s) = Some s.
Proof.
  unfold as_bytes. induction 1 as [|c s Hc Hs IH]; [done|]. cbn [flat_map].
  by rewrite from_utf8_char, IH.
Qed.

#[export] Hint Resolve lowercase_ascii digit_ascii : eph.

(* ------------------------------------------------------------------ *)
(** ** Lines *)

Lemma lines_from_word cur l s : Forall (λ c, c ≠ 10%N) l → lines_from cur (l ++ s) = lines_from (rev l ++ cur) s.
Proof.
  intros Hl. revert cur. induction Hl as [|c l Hc Hl IH]; intros cur; [done|]. cbn [app lines_from].
  rewrite (proj2 (N.eqb_neq c 10) Hc), IH. cbn [rev]. by rewrite <- app_assoc.
Qed.

Lemma strip_cr_rev l : Forall (λ c, c ≠ 13%N) l → strip_cr (rev l) = l.
Proof.
  intros Hl%List.Forall_rev. unfold strip_cr. rewrite <- (rev_involutive l) at 2. destruct Hl as [|c r Hc Hr]; [done|].
  by repeat case_match.
Qed.

Definition plain_line (l : str) : Prop := l ≠ [] ∧ Forall (λ c, c ≠ 10%N) l ∧ Forall (λ c, c ≠ 13%N) l.

Lemma lines_join ls : Forall plain_line ls → lines (join 10 ls) = ls.
Proof.
  unfold lines. induction 1 as [|l ls (Hne & Hlf & Hcr) Hls IH]; [done|]. destruct ls as [|l' ls].
  - cbn [join]. rewrite <- (app_nil_r l) at 1. rewrite lines_from_word by done. rewrite app_nil_r. cbn [lines_from].
    destruct (rev l) as [|c r] eqn:E; [by apply (f_equal (@rev N)) in E; rewrite rev_involutive in E|].
    by rewrite <- E, rev_involutive.
  - cbn [join] in *. rewrite lines_from_word by done. cbn [lines_from N.eqb Pos.eqb]. rewrite app_nil_r, strip_cr_rev by done.
    by rewrite IH.
Qed.

Lemma trim_start_plain s : Forall (λ c, is_whitespace c = false) s → trim_start s = s.
Proof. destruct 1 as [|c s Hc Hs]; [done|]. cbn [trim_start]. by rewrite Hc. Qed.

Lemma trim_plain s : Forall (λ c, is_whitespace c = false) s → trim s = s.
Proof.
  intros Hs. unfold trim. rewrite (trim_start_plain s Hs). rewrite trim_start_plain by (by apply List.Forall_rev).
  apply rev_involutive.
Qed.

Lemma hex_digit_plain c : is_hex_digit c = true → is_whitespace c = false ∧ c ≠ 10%N ∧ c ≠ 13%N.
Proof.
  unfold is_hex_digit, is_ascii_digit, in_range, is_whitespace. rewrite orb_true_iff, !andb_true_iff, !N.leb_le. intros Hc.
  split; [|lia]. unfold in_range. rewrite !orb_false_iff, !andb_false_iff, !N.leb_gt. split; [lia|].
  cbn [existsb]. rewrite !orb_false_iff, !N.eqb_neq. lia.
Qed.

Lemma trim_hex `{HexOutput} b : Forall byte_ok b → trim (hex_encode b) = hex_encode b.
Proof. intros Hb. apply trim_plain. eapply Forall_impl; [by apply hex_encode_digits|]. intros c Hc. by apply hex_digit_plain in Hc as [? _]. Qed.
