(* ===== verification/Pow.v ===== *)
(** * Proof of work: [crates/ephemera-crypto/src/pow.rs] and
    [crates/ephemera-abuse/src/pow.rs]

    The two crates mine stamps with different hashes (Argon2id and BLAKE3) and
    different tests for leading zero bits.  The mining loops run under fuel;
    [OutOfFuel] is a loop still running and [Panics] a failed [assert!]. *)
From S2P Require Import Prelude Types Crypto.
From Stdlib Require SpecFloat.

Inductive abort := Panics | OutOfFuel.

(** The mining loop of both crates: [counter] runs over the [u64]s, wrapping. *)
Fixpoint find_counter (p : N → bool) (fuel : nat) (counter : N) : option N :=
  match fuel with
  | O => None
  | S fuel => if p counter then Some counter else find_counter p fuel (add64 counter 1)
  end.

(** [has_leading_zeros]: whole zero bytes, then a mask on the next one. *)
Definition has_leading_zeros (hash : bytes) (difficulty : N) : bool :=
  let full_bytes := N.to_nat (difficulty / 8) in
  let remaining_bits := (difficulty mod 8)%N in
  forallb (λ byte, byte =? 0)%N (take (Nat.min full_bytes (length hash)) hash) &&
  negb ((0 <? remaining_bits)%N && (full_bytes <? length hash) &&
        let mask := N.land (N.shiftl 255 (8 - remaining_bits)) 255 in
        negb (N.land (hash !!! full_bytes) mask =? 0)%N).

(** [ProofOfWork::count_leading_zeros] of the abuse crate. *)
Fixpoint count_leading_zeros (hash : bytes) : N :=
  match hash with
  | [] => 0
  | byte :: rest =>
      if (byte =? 0)%N then 8 + count_leading_zeros rest else N.of_nat (byte_leading_zeros byte)
  end.

Section argon.
Context `{Primitives}.

Record PowStamp := MkStamp { challenge : bytes; nonce : bytes; difficulty : N }.

#[global] Instance PowStamp_eq_dec : EqDecision PowStamp.
Proof. solve_decision. Defined.

Definition pow_hash (challenge nonce : bytes) : bytes := argon2id challenge nonce.

(** [nonce[..8].copy_from_slice(&counter.to_le_bytes())] on a zeroed array. *)
Definition nonce_of (size : nat) (counter : N) : bytes := le_bytes 8 counter ++ replicate (size - 8) 0%N.

Definition solves (challenge : bytes) (difficulty counter : N) : bool :=
  has_leading_zeros (pow_hash challenge (nonce_of 16 counter)) difficulty.

Definition generate_pow (fuel : nat) (challenge : bytes) (difficulty : N) : result abort PowStamp :=
  if negb (difficulty <=? 256)%N then Err Panics
  else match find_counter (solves challenge difficulty) fuel 0 with
       | Some counter => Ok (MkStamp challenge (nonce_of 16 counter) difficulty)
       | None => Err OutOfFuel
       end.

Definition verify_pow (stamp : PowStamp) (expected_challenge : bytes) (min_difficulty : N) :
    result EphemeraError unit :=
  if negb (bool_decide (challenge stamp = expected_challenge)) then Err (InvalidPow "challenge mismatch")
  else if (difficulty stamp <? min_difficulty)%N then
    Err (InvalidPow ("difficulty " +:+ pretty (difficulty stamp) +:+ " is below minimum " +:+
                     pretty min_difficulty))
  else
    let hash := pow_hash (challenge stamp) (nonce stamp) in
    if negb (has_leading_zeros hash (difficulty stamp)) then
      Err (InvalidPow "hash does not meet difficulty requirement")
    else Ok tt.
End argon.

(** The abuse crate's stamps. *)
Module ProofOfWork.
Section blake.
Context `{Primitives}.

Definition IDENTITY_CREATION : N := 24.
Definition POST_CREATION : N := 16.
Definition REACTION : N := 12.
Definition MESSAGE_REQUEST : N := 22.
Definition CONNECTION_REQUEST : N := 18.
Definition DM_MUTUAL : N := 14.

(** [PowDifficulty::adjusted] on [u32]s. *)
Definition adjusted (base recent_actions : N) : N :=
  let multiplier :=
    (if recent_actions <=? 10 then 0 else if recent_actions <=? 50 then 1
     else if recent_actions <=? 200 then 2 else 3)%N in
  N.min (add32 base multiplier) 30.

Record PowChallenge := MkChallenge { data : bytes; ch_difficulty : N }.
Record stamp := Mk { s_nonce : bytes; s_hash : bytes; s_difficulty : N }.

Inductive AbuseError :=
| PowInvalid (reason : string)
| RateLimited (action : string) (retry_after_secs : N)
| InsufficientReputation (required current : SpecFloat.spec_float).

Definition compute_hash (data nonce : bytes) : bytes := blake3_hash (data ++ nonce).

Definition ok_counter (c : PowChallenge) (counter : N) : bool :=
  (ch_difficulty c <=? count_leading_zeros (compute_hash (data c) (nonce_of 32 counter)))%N.

Definition generate (fuel : nat) (c : PowChallenge) : option stamp :=
  (λ counter, Mk (nonce_of 32 counter) (compute_hash (data c) (nonce_of 32 counter)) (ch_difficulty c))
    <$> find_counter (ok_counter c) fuel 0.

Definition verify (challenge_data : bytes) (s : stamp) : result AbuseError unit :=
  let hash := compute_hash challenge_data (s_nonce s) in
  if negb (bool_decide (hash = s_hash s)) then Err (PowInvalid "hash mismatch")
  else
    let zeros := count_leading_zeros hash in
    if (zeros <? s_difficulty s)%N then
      Err (PowInvalid ("insufficient difficulty: need " +:+ pretty (s_difficulty s) +:+
                       " leading zeros, got " +:+ pretty zeros))
    else Ok tt.
End blake.
End ProofOfWork.

(* ------------------------------------------------------------------ *)
(** ** Lemmas: the mining loop *)

Lemma find_counter_some p fuel k c :
  find_counter p fuel k = Some c → p c = true.
Proof. revert k; induction fuel as [|fuel IH]; intros k H; simpl in H; [done|]. case_match; naive_solver. Qed.

(** Below the wrap-around the loop finds the least solution, given fuel. *)
Lemma find_counter_first p fuel k c :
  p c = true → (k ≤ c)%N → u64 c → N.to_nat (c - k) < fuel →
  ∃ c0, find_counter p fuel k = Some c0 ∧ (k ≤ c0 ≤ c)%N ∧ p c0 = true ∧
        ∀ i, (k ≤ i < c0)%N → p i = false.
Proof.
  intros Hp. revert k; induction fuel as [|fuel IH]; intros k Hk Hc Hf; [lia|]. simpl.
  destruct (p k) eqn:E.
  - exists k. split_and!; try done; lia.
  - assert (k ≠ c) by congruence.
    assert (Hadd : add64 k 1 = (k + 1)%N) by (apply add64_small; unfold u64, u64_modulus in *; lia).
    rewrite Hadd. destruct (IH (k + 1)%N) as (c0 & ? & ? & ? & Hmin); [lia|done|lia|].
    exists c0. split_and!; try done; try lia. intros i Hi.
    destruct (decide (i = k)) as [->|]; [done|]. apply Hmin. lia.
Qed.

(* ------------------------------------------------------------------ *)
(** ** Lemmas: leading zero bits *)

Lemma forallb_take_cons (b : N) rest n :
  forallb (λ x, x =? 0)%N (take (S n) (b :: rest)) = (b =? 0)%N && forallb (λ x, x =? 0)%N (take n rest).
Proof. done. Qed.

Lemma has_leading_zeros_cons b rest d :
  (8 ≤ d)%N → has_leading_zeros (b :: rest) d = (b =? 0)%N && has_leading_zeros rest (d - 8).
Proof.
  intros Hd. unfold has_leading_zeros.
  assert (Ed : (d = 1 * 8 + (d - 8))%N) by lia. rewrite Ed at 1 2 3 4 5.
  rewrite N.div_add_l by done. replace ((1 * 8 + (d - 8)) mod 8)%N with ((d - 8) mod 8)%N.
  2: { rewrite N.add_comm. by rewrite N.Div0.mod_add. }
  rewrite N2Nat.inj_add. change (N.to_nat 1) with 1. cbn [Nat.add length].
  rewrite <- Nat.succ_min_distr, forallb_take_cons, andb_assoc. done.
Qed.

(** The mask test on one byte, over all bytes and widths. *)
Lemma mask_bits b r :
  byte_ok b → (r < 8)%N →
  (N.land b (N.land (N.shiftl 255 (8 - r)) 255) =? 0)%N = (b <? 2 ^ (8 - r))%N ∧
  (r <=? N.of_nat (byte_leading_zeros b))%N = (b <? 2 ^ (8 - r))%N.
Proof.
  intros Hb Hr.
  assert (Hall : forallb (λ r, forallb (λ b,
    let b := N.of_nat b in let r := N.of_nat r in
    eqb (N.land b (N.land (N.shiftl 255 (8 - r)) 255) =? 0)%N (b <? 2 ^ (8 - r))%N &&
    eqb (r <=? N.of_nat (byte_leading_zeros b))%N (b <? 2 ^ (8 - r))%N) (seq 0 256)) (seq 0 8) = true)
    by (vm_compute; reflexivity).
  rewrite forallb_forall in Hall. unfold byte_ok in Hb.
  specialize (Hall (N.to_nat r)). rewrite in_seq in Hall. specialize (Hall ltac:(lia)).
  rewrite forallb_forall in Hall. specialize (Hall (N.to_nat b)). rewrite in_seq in Hall.
  specialize (Hall ltac:(lia)). cbv zeta in Hall. rewrite !N2Nat.id in Hall.
  apply andb_true_iff in Hall as [H1%eqb_prop H2%eqb_prop]. done.
Qed.

Lemma has_leading_zeros_small b rest d :
  byte_ok b → (d < 8)%N → has_leading_zeros (b :: rest) d = (b <? 2 ^ (8 - d))%N.
Proof.
  intros Hb Hd. unfold has_leading_zeros. rewrite N.div_small, N.mod_small by done. simpl.
  destruct (mask_bits b d Hb Hd) as [Hm _]. destruct (0 <? d)%N eqn:E; bprop; simpl.
  - by rewrite Hm, negb_involutive.
  - assert (d = 0%N) as -> by lia. symmetry. apply N.ltb_lt. done.
Qed.

Lemma pow256 n : (256 ^ n = 2 ^ (8 * n))%N.
Proof. change 256%N with (2 ^ 8)%N. by rewrite N.pow_mul_r. Qed.

Lemma lt_head b v m k :
  (v < 2 ^ m)%N → (m ≤ k)%N → (b * 2 ^ m + v < 2 ^ k ↔ b < 2 ^ (k - m))%N.
Proof.
  intros Hv Hk. replace (2 ^ k)%N with (2 ^ (k - m) * 2 ^ m)%N
    by (rewrite <- N.pow_add_r; f_equal; lia).
  assert (0 < 2 ^ m)%N by (apply N.neq_0_lt_0, N.pow_nonzero; done). nia.
Qed.

Lemma has_leading_zeros_count hash d :
  Forall byte_ok hash → (d ≤ 8 * N.of_nat (length hash))%N →
  has_leading_zeros hash d = (d <=? count_leading_zeros hash)%N.
Proof.
  intros Hok. revert d; induction Hok as [|b rest Hb Hok IH]; intros d Hd.
  { simpl in Hd. by assert (d = 0%N) as -> by lia. }
  cbn [length count_leading_zeros] in *. destruct (decide (8 ≤ d)%N) as [H8|H8].
  - rewrite has_leading_zeros_cons by done. destruct (b =? 0)%N eqn:E; simpl.
    + rewrite IH by lia. apply eq_true_iff_eq. rewrite !N.leb_le. lia.
    + symmetry. apply N.leb_gt. unfold byte_leading_zeros. bprop.
      destruct b; [done|]. simpl. lia.
  - rewrite has_leading_zeros_small by (done || lia).
    destruct (mask_bits b d Hb ltac:(lia)) as [_ <-].
    destruct (b =? 0)%N eqn:E; [|done]. bprop. subst b. cbn [byte_leading_zeros].
    apply eq_true_iff_eq. rewrite !N.leb_le. change (N.of_nat (byte_leading_zeros 0)) with 8%N. lia.
Qed.

Lemma has_leading_zeros_value hash d :
  Forall byte_ok hash → (d ≤ 8 * N.of_nat (length hash))%N →
  has_leading_zeros hash d = (be_value hash <? 2 ^ (8 * N.of_nat (length hash) - d))%N.
Proof.
  intros Hok. revert d; induction Hok as [|b rest Hb Hok IH]; intros d Hd.
  { simpl in Hd. by assert (d = 0%N) as -> by lia. }
  pose proof (be_value_lt rest Hok) as Hr. rewrite pow256 in Hr.
  rewrite be_value_cons, pow256. cbn [length] in *. rewrite Nat2N.inj_succ in *.
  set (m := (8 * N.of_nat (length rest))%N) in *.
  apply eq_true_iff_eq. rewrite N.ltb_lt. destruct (decide (8 ≤ d)%N) as [H8|H8].
  - rewrite has_leading_zeros_cons, andb_true_iff, IH, N.ltb_lt, N.eqb_eq by lia.
    replace (8 * N.succ (N.of_nat (length rest)) - d)%N with (m - (d - 8))%N by lia.
    split; [intros [-> ?]; lia|]. intros Hlt.
    assert (2 ^ (m - (d - 8)) ≤ 2 ^ m)%N by (apply N.pow_le_mono_r; lia).
    assert (b = 0%N) as -> by nia. split; [done|lia].
  - rewrite has_leading_zeros_small, N.ltb_lt by (done || lia).
    rewrite lt_head by (done || lia).
    by replace (8 * N.succ (N.of_nat (length rest)) - d - m)%N with (8 - d)%N by lia.
Qed.

(* ------------------------------------------------------------------ *)
(** ** Properties *)

(** The mask test of the crypto crate, the bit counter of the abuse crate
    and the numeric meaning agree: a hash of [n] bytes passes difficulty [d]
    exactly when it counts at least [d] leading zero bits, exactly when the
    number it spells in big-endian is below [2 ^ (8 n - d)]. *)
Theorem leading_zeros_agree (hash : bytes) (d : N)
  (Hok : Forall byte_ok hash) (Hd : (d ≤ 8 * N.of_nat (length hash))%N) :
  has_leading_zeros hash d = (d <=? count_leading_zeros hash)%N ∧
  has_leading_zeros hash d = (be_value hash <? 2 ^ (8 * N.of_nat (length hash) - d))%N.
Proof. split; [by apply has_leading_zeros_count|by apply has_leading_zeros_value]. Qed.

Lemma leading_zeros_agree_witness : has_leading_zeros [0; 31; 255]%N 11 = true.
Proof.
  destruct (leading_zeros_agree [0; 31; 255]%N 11) as [H _].
  - repeat constructor.
  - vm_compute. discriminate.
  - rewrite H. vm_compute. reflexivity.
Defined.

Section mining.
Context `{Primitives}.

(** What [verify_pow] accepts. *)
Lemma verify_pow_ok s ch d :
  verify_pow s ch d = Ok tt ↔
  challenge s = ch ∧ (d ≤ difficulty s)%N ∧
  has_leading_zeros (pow_hash (challenge s) (nonce s)) (difficulty s) = true.
Proof.
  unfold verify_pow. case_bool_decide; simpl; [|naive_solver].
  destruct (difficulty s <? d)%N eqn:E; bprop; [split; [done|lia]|].
  destruct (has_leading_zeros _ _); naive_solver.
Qed.

Lemma generate_pow_ok fuel ch d s :
  generate_pow fuel ch d = Ok s →
  challenge s = ch ∧ difficulty s = d ∧ has_leading_zeros (pow_hash ch (nonce s)) d = true.
Proof.
  unfold generate_pow. case_match; [done|].
  destruct (find_counter _ _ _) as [c|] eqn:E; [|done]. intros [= <-]. simpl.
  split_and!; try done. by apply find_counter_some in E.
Qed.

Lemma generate_pow_enough fuel ch d c :
  (d ≤ 256)%N → solves ch d c = true → u64 c → N.to_nat c < fuel →
  ∃ s, generate_pow fuel ch d = Ok s.
Proof.
  intros Hd Hs Hc Hf. unfold generate_pow. rewrite (proj2 (N.leb_le d 256) Hd). simpl.
  destruct (find_counter_first (solves ch d) fuel 0 c Hs) as (c0 & -> & _); [lia|done|lia|]. by eexists.
Qed.

(** Mining ends as soon as a solution exists: with fuel past some [u64]
    counter that solves the challenge, [generate_pow] returns the stamp of the
    least such counter; [verify_pow] accepts it for its challenge at every
    minimum up to its difficulty, and refuses it for every other challenge and
    every higher minimum. *)
Theorem pow_generate_verifies (fuel : nat) (ch : bytes) (d c : N)
  (Hd : (d ≤ 256)%N) (Hs : solves ch d c = true) (Hc : u64 c) (Hf : N.to_nat c < fuel) :
  ∃ c0 s, generate_pow fuel ch d = Ok s ∧ s = MkStamp ch (nonce_of 16 c0) d ∧
    (c0 ≤ c)%N ∧ (∀ i, (i < c0)%N → solves ch d i = false) ∧
    (∀ ch' k, verify_pow s ch' k = Ok tt ↔ ch' = ch ∧ (k ≤ d)%N).
Proof.
  destruct (find_counter_first (solves ch d) fuel 0 c Hs) as (c0 & E & Hle & Hp & Hmin);
    [lia|done|lia|].
  exists c0, (MkStamp ch (nonce_of 16 c0) d). split_and!; try done; try lia.
  - unfold generate_pow. rewrite (proj2 (N.leb_le d 256) Hd). simpl. by rewrite E.
  - intros i Hi. apply Hmin. lia.
  - intros ch' k. rewrite verify_pow_ok. simpl. unfold solves in Hp. naive_solver.
Qed.
End mining.

Lemma pow_generate_verifies_witness :
  ∃ s, generate_pow (H:=Toy.toy) 500 [1%N] 5 = Ok s ∧ verify_pow (H:=Toy.toy) s [1%N] 5 = Ok tt.
Proof.
  assert (Hx : ∃ c, (c < 500)%N ∧ solves (H:=Toy.toy) [1%N] 5 c = true).
  { destruct (find_counter (solves (H:=Toy.toy) [1%N] 5) 400 0) as [c|] eqn:E;
      [|vm_compute in E; discriminate].
    exists c. split; [|by apply find_counter_some in E]. vm_compute in E. injection E as <-. done. }
  destruct Hx as (c & Hc & Hx).
  destruct (pow_generate_verifies (H:=Toy.toy) 500 [1%N] 5 c) as (c0 & s & E & _ & _ & _ & V);
    [discriminate|exact Hx|unfold u64, u64_modulus; lia|lia|].
  exists s. split; [exact E|]. apply V. by split.
Defined.
