(* ===== verification/Ratchet.v ===== *)
(** * Key agreement and double ratchet: [crates/ephemera-message/src]

    One-shot public-key encryption ([encryption.rs]), X3DH ([x3dh.rs],
    [prekey.rs]), the double ratchet ([ratchet.rs]) and the persistence of
    ratchet sessions ([session.rs]).  [generate()] takes the fresh secret as
    an argument, [seal] its nonce. *)
From S2P Require Import Prelude Types Crypto.

(* ------------------------------------------------------------------ *)
(** ** Errors *)

Inductive MessageError :=
| BodyTooLarge (got max : N)
| Encryption (e : CryptoError)
| InvalidRequestState (expected got : string)
| MInvalidTtl (e : EphemeraError)
| ConversationNotFound (peer_id : string)
| NotAllowed (reason : string)
| Store (e : string)
| Database (e : string)
| Deserialization (e : string)
| Expired
| InvalidPrekeyBundle (reason : string)
| X3dhFailed (reason : string)
| RatchetError (reason : string).

(* ------------------------------------------------------------------ *)
(** ** One-shot encryption to a public key *)

Module MessageEncryption.
Section enc.
Context `{Primitives}.

Definition HKDF_INFO : bytes := bstr "ephemera-message-v1".
Definition MIN_CIPHERTEXT_LEN : nat := 32 + 24 + 16.

Definition derive_key (shared_secret : bytes) : bytes := blake3_keyed_hash shared_secret HKDF_INFO.

Definition encrypt_message (fresh nonce plaintext recipient_pubkey : bytes) :
    result MessageError bytes :=
  let ephemeral := generate fresh in
  let shared_secret := x25519_diffie_hellman (secret ephemeral) recipient_pubkey in
  let encryption_key := derive_key shared_secret in
  let? sealed := map_err (λ e, Encryption (CEncryptionFailed (error_display e)))
                   (seal nonce encryption_key plaintext) in
  Ok (public ephemeral ++ sealed).

Definition decrypt_message (ciphertext our_secret : bytes) : result MessageError bytes :=
  if (length ciphertext <? MIN_CIPHERTEXT_LEN) then
    Err (Encryption (CDecryptionFailed "ciphertext too short"))
  else
    let ephemeral_pub := take 32 ciphertext in
    let shared_secret := x25519_diffie_hellman our_secret ephemeral_pub in
    let encryption_key := derive_key shared_secret in
    map_err (λ e, Encryption (CDecryptionFailed (error_display e)))
      (open encryption_key (drop 32 ciphertext)).
End enc.
End MessageEncryption.

(* ------------------------------------------------------------------ *)
(** ** X3DH *)

Module X3dh.
Section x3dh.
Context `{Primitives}.

Definition X3DH_INFO : bytes := bstr "ephemera-x3dh-v1".
Definition X3DH_SALT : bytes := replicate 32 0%N.

Record PrekeyBundle := MkBundle {
  identity_key : bytes;
  identity_x25519 : bytes;
  signed_prekey : bytes;
  signed_prekey_signature : bytes;
  one_time_prekey : option bytes
}.

(** [generate_prekey_bundle], with its fresh secrets. *)
Definition generate_prekey_bundle (signing_key identity_x25519_pub : bytes)
    (include_one_time : bool) (fresh_spk fresh_otk : bytes) : PrekeyBundle :=
  let identity_key := public_key signing_key in
  let signed_prekey := public (generate fresh_spk) in
  let signature := sign signing_key signed_prekey in
  let one_time := if include_one_time then Some (public (generate fresh_otk)) else None in
  MkBundle identity_key identity_x25519_pub signed_prekey signature one_time.

Definition validate_prekey_bundle (b : PrekeyBundle) : result MessageError unit :=
  map_err (λ _, InvalidPrekeyBundle "signed prekey signature verification failed")
    (verify_signature (identity_key b) (signed_prekey b) (signed_prekey_signature b)).

Record X3dhInitialMessage := MkInitial {
  im_identity_key : bytes;
  im_identity_x25519 : bytes;
  im_ephemeral_key : bytes;
  im_signed_prekey_used : bytes;
  im_one_time_prekey_used : option bytes
}.

Definition x3dh_initiate (fresh our_identity_x25519 our_identity_x25519_pub our_identity_ed25519 : bytes)
    (their_bundle : PrekeyBundle) : result MessageError (bytes * X3dhInitialMessage) :=
  let ephemeral := generate fresh in
  let dh1 := x25519_diffie_hellman our_identity_x25519 (signed_prekey their_bundle) in
  let dh2 := x25519_diffie_hellman (secret ephemeral) (identity_x25519 their_bundle) in
  let dh3 := x25519_diffie_hellman (secret ephemeral) (signed_prekey their_bundle) in
  let dh_concat := dh1 ++ dh2 ++ dh3 in
  let '(dh_concat, one_time_prekey_used) :=
    match one_time_prekey their_bundle with
    | Some otpk =>
        let dh4 := x25519_diffie_hellman (secret ephemeral) otpk in
        (dh_concat ++ dh4, Some otpk)
    | None => (dh_concat, None)
    end in
  let? shared_secret := map_err (λ e, X3dhFailed ("HKDF derivation failed: " +:+ error_display e))
                          (hkdf_derive dh_concat (Some X3DH_SALT) X3DH_INFO) in
  Ok (shared_secret,
      MkInitial our_identity_ed25519 our_identity_x25519_pub (public ephemeral)
        (signed_prekey their_bundle) one_time_prekey_used).

Definition x3dh_respond (our_identity_x25519 our_signed_prekey_secret : bytes)
    (our_one_time_prekey_secret : option bytes) (initial_msg : X3dhInitialMessage) :
    result MessageError bytes :=
  let dh1 := x25519_diffie_hellman our_signed_prekey_secret (im_identity_x25519 initial_msg) in
  let dh2 := x25519_diffie_hellman our_identity_x25519 (im_ephemeral_key initial_msg) in
  let dh3 := x25519_diffie_hellman our_signed_prekey_secret (im_ephemeral_key initial_msg) in
  let dh_concat := dh1 ++ dh2 ++ dh3 in
  let? dh_concat :=
    match im_one_time_prekey_used initial_msg with
    | Some _ =>
        let? otp_secret := ok_or our_one_time_prekey_secret
          (X3dhFailed "initiator used one-time prekey but no matching secret") in
        Ok (dh_concat ++ x25519_diffie_hellman otp_secret (im_ephemeral_key initial_msg))
    | None => Ok dh_concat
    end in
  map_err (λ e, X3dhFailed ("HKDF derivation failed: " +:+ error_display e))
    (hkdf_derive dh_concat (Some X3DH_SALT) X3DH_INFO).

Context `{!PrimitiveLaws}.

Lemma agreement (seed_b ik_a ik_b spk otk fresh id_a : bytes) (with_otk : bool) :
  let bundle := generate_prekey_bundle seed_b (x25519_public ik_b) with_otk spk otk in
  ∃ ss im, x3dh_initiate fresh ik_a (x25519_public ik_a) id_a bundle = Ok (ss, im) ∧
    x3dh_respond ik_b spk (if with_otk then Some otk else None) im = Ok ss ∧ length ss = 32 ∧
    im_one_time_prekey_used im = (if with_otk then Some (x25519_public otk) else None).
Proof.
  intros bundle.
  unfold x3dh_initiate, x3dh_respond, bundle, x25519_diffie_hellman; simpl.
  rewrite (x25519_comm ik_a spk), (x25519_comm fresh ik_b), (x25519_comm fresh spk).
  destruct with_otk; simpl; rewrite ?(x25519_comm fresh otk);
    (match goal with |- context [hkdf_derive ?i ?s ?f] =>
      destruct (hkdf_derive_total i s f) as (k & E & Hl) end;
     rewrite E; simpl; eexists k, _; split; [done|]; simpl; by rewrite E).
Qed.
End x3dh.
End X3dh.

(* ------------------------------------------------------------------ *)
(** ** Double ratchet *)

Module Ratchet.
Section ratchet.
Context `{Primitives}.

Definition CHAIN_INFO : bytes := bstr "ephemera-chain-v1".
Definition MSG_KEY_INFO : bytes := bstr "ephemera-msg-v1".
Definition RATCHET_INFO : bytes := bstr "ephemera-ratchet-v1".

Record MessageHeader := MkHeader {
  ratchet_key : bytes;
  message_number : N;
  previous_chain_length : N
}.

Record RatchetState := MkRatchet {
  root_key : bytes;
  send_chain_key : bytes;
  recv_chain_key : bytes;
  send_ratchet_key : X25519KeyPair;
  recv_ratchet_pubkey : option bytes;
  send_count : N;
  recv_count : N;
  previous_send_count : N
}.

Definition kdf_rk (root_key dh_output : bytes) : result MessageError (bytes * bytes) :=
  let ikm := root_key ++ dh_output in
  let? new_root := map_err (λ e, RatchetError ("root KDF failed: " +:+ error_display e))
                     (hkdf_derive ikm None RATCHET_INFO) in
  let? chain_key := map_err (λ e, RatchetError ("chain KDF failed: " +:+ error_display e))
                      (hkdf_derive ikm None CHAIN_INFO) in
  Ok (new_root, chain_key).

Definition kdf_ck (chain_key : bytes) : result MessageError (bytes * bytes) :=
  let? new_chain := map_err (λ e, RatchetError ("chain advance failed: " +:+ error_display e))
                      (hkdf_derive chain_key None CHAIN_INFO) in
  let? message_key := map_err (λ e, RatchetError ("message key derivation failed: " +:+ error_display e))
                        (hkdf_derive chain_key None MSG_KEY_INFO) in
  Ok (new_chain, message_key).

Definition init_sender (fresh shared_secret their_ratchet_key : bytes) :
    result MessageError RatchetState :=
  let our_ratchet := generate fresh in
  let dh_out := x25519_diffie_hellman (secret our_ratchet) their_ratchet_key in
  let? (root_key, send_chain_key) := kdf_rk shared_secret dh_out in
  Ok (MkRatchet root_key send_chain_key (replicate 32 0%N) our_ratchet
        (Some their_ratchet_key) 0 0 0).

Definition init_receiver (shared_secret : bytes) (our_ratchet_key : X25519KeyPair) : RatchetState :=
  MkRatchet shared_secret (replicate 32 0%N) (replicate 32 0%N) our_ratchet_key None 0 0 0.

Definition from_persisted (root send_ck recv_ck send_ratchet_secret : bytes)
    (recv_pub : option bytes) (sc rc ps : N) : RatchetState :=
  MkRatchet root send_ck recv_ck (from_secret_bytes send_ratchet_secret) recv_pub sc rc ps.

(** Assignments to single fields of [&mut self]. *)
Definition set_send_chain_key k s :=
  MkRatchet (root_key s) k (recv_chain_key s) (send_ratchet_key s) (recv_ratchet_pubkey s)
    (send_count s) (recv_count s) (previous_send_count s).
Definition set_recv_chain_key k s :=
  MkRatchet (root_key s) (send_chain_key s) k (send_ratchet_key s) (recv_ratchet_pubkey s)
    (send_count s) (recv_count s) (previous_send_count s).
Definition set_root_key k s :=
  MkRatchet k (send_chain_key s) (recv_chain_key s) (send_ratchet_key s) (recv_ratchet_pubkey s)
    (send_count s) (recv_count s) (previous_send_count s).
Definition set_send_ratchet_key p s :=
  MkRatchet (root_key s) (send_chain_key s) (recv_chain_key s) p (recv_ratchet_pubkey s)
    (send_count s) (recv_count s) (previous_send_count s).
Definition incr_send_count s :=
  MkRatchet (root_key s) (send_chain_key s) (recv_chain_key s) (send_ratchet_key s)
    (recv_ratchet_pubkey s) (add32 (send_count s) 1) (recv_count s) (previous_send_count s).
Definition incr_recv_count s :=
  MkRatchet (root_key s) (send_chain_key s) (recv_chain_key s) (send_ratchet_key s)
    (recv_ratchet_pubkey s) (send_count s) (add32 (recv_count s) 1) (previous_send_count s).
Definition begin_dh_step their_new s :=
  MkRatchet (root_key s) (send_chain_key s) (recv_chain_key s) (send_ratchet_key s)
    (Some their_new) 0 0 (send_count s).

Abbreviation M := (SE RatchetState MessageError).

Definition encrypt_message (nonce plaintext : bytes) : M (MessageHeader * bytes) :=
  let! self := se_get in
  let! (new_chain_key, message_key) := se_lift (kdf_ck (send_chain_key self)) in
  let! _ := se_modify (set_send_chain_key new_chain_key) in
  let header := MkHeader (public (send_ratchet_key self)) (send_count self)
                  (previous_send_count self) in
  let! ciphertext :=
    se_lift (map_err (λ e, RatchetError ("encryption failed: " +:+ error_display e))
               (seal nonce message_key plaintext)) in
  let! _ := se_modify incr_send_count in
  se_ret (header, ciphertext).

Definition dh_ratchet_step (fresh their_new_ratchet_key : bytes) : M unit :=
  let! _ := se_modify (begin_dh_step their_new_ratchet_key) in
  let! self := se_get in
  let dh_recv := x25519_diffie_hellman (secret (send_ratchet_key self)) their_new_ratchet_key in
  let! (new_root, recv_chain_key) := se_lift (kdf_rk (root_key self) dh_recv) in
  let! _ := se_modify (set_root_key new_root) in
  let! _ := se_modify (set_recv_chain_key recv_chain_key) in
  let! _ := se_modify (set_send_ratchet_key (generate fresh)) in
  let! self := se_get in
  let dh_send := x25519_diffie_hellman (secret (send_ratchet_key self)) their_new_ratchet_key in
  let! (new_root2, send_chain_key) := se_lift (kdf_rk (root_key self) dh_send) in
  let! _ := se_modify (set_root_key new_root2) in
  se_modify (set_send_chain_key send_chain_key).

(** The body of [while self.recv_count < header.message_number], run [n]
    times. *)
Fixpoint skip (n : nat) : M unit :=
  match n with
  | O => se_ret tt
  | S n' =>
      let! self := se_get in
      let! (new_ck, _skipped_mk) := se_lift (kdf_ck (recv_chain_key self)) in
      let! _ := se_modify (set_recv_chain_key new_ck) in
      let! _ := se_modify incr_recv_count in
      skip n'
  end.

Definition decrypt_message (fresh : bytes) (header : MessageHeader) (ciphertext : bytes) : M bytes :=
  let! self := se_get in
  let need_dh_step :=
    match recv_ratchet_pubkey self with
    | Some existing => negb (bool_decide (existing = ratchet_key header))
    | None => true
    end in
  let! _ := if need_dh_step then dh_ratchet_step fresh (ratchet_key header) else se_ret tt in
  let! self := se_get in
  let! _ := skip (N.to_nat (message_number header - recv_count self)) in
  let! self := se_get in
  let! (new_chain_key, message_key) := se_lift (kdf_ck (recv_chain_key self)) in
  let! _ := se_modify (set_recv_chain_key new_chain_key) in
  let! _ := se_modify incr_recv_count in
  se_lift (map_err (λ e, RatchetError ("decryption failed: " +:+ error_display e))
             (open message_key ciphertext)).

(* ---- closed forms ---- *)

Context `{!PrimitiveLaws}.

Definition hk (ikm info : bytes) : bytes :=
  match hkdf_derive ikm None info with Ok k => k | Err _ => [] end.
Definition adv (ck : bytes) : bytes := hk ck CHAIN_INFO.
Definition mkey (ck : bytes) : bytes := hk ck MSG_KEY_INFO.
Definition chain (n : N) (ck : bytes) : bytes := Nat.iter (N.to_nat n) adv ck.

Lemma hk_eq ikm info : hkdf_derive ikm None info = Ok (hk ikm info).
Proof. unfold hk. by destruct (hkdf_derive_total ikm None info) as (k & -> & _). Qed.

Lemma kdf_ck_eq ck : kdf_ck ck = Ok (adv ck, mkey ck).
Proof. unfold kdf_ck. by rewrite !hk_eq. Qed.

Lemma kdf_rk_eq r d : kdf_rk r d = Ok (hk (r ++ d) RATCHET_INFO, hk (r ++ d) CHAIN_INFO).
Proof. unfold kdf_rk. by rewrite !hk_eq. Qed.

Lemma chain_succ n ck : chain (n + 1) ck = adv (chain n ck).
Proof. unfold chain. replace (N.to_nat (n + 1)) with (S (N.to_nat n)) by lia. done. Qed.

Lemma chain_add n m ck : chain n (chain m ck) = chain (m + n) ck.
Proof.
  unfold chain. rewrite N2Nat.inj_add, Nat.add_comm. generalize (N.to_nat n) as k.
  induction k as [|k IH]; simpl; [done|]. by rewrite IH.
Qed.

Lemma encrypt_message_eq nonce p s :
  ∃ c, seal nonce (mkey (send_chain_key s)) p = Ok c ∧
    encrypt_message nonce p s =
      (incr_send_count (set_send_chain_key (adv (send_chain_key s)) s),
       Ok (MkHeader (public (send_ratchet_key s)) (send_count s) (previous_send_count s), c)).
Proof.
  destruct (seal_total nonce (mkey (send_chain_key s)) p) as (c & Hc & _). exists c. split; [done|].
  unfold encrypt_message, se_bind, se_get, se_lift, se_modify, se_ret. simpl.
  rewrite kdf_ck_eq. simpl. by rewrite Hc.
Qed.

Definition after_dh (fresh their : bytes) (s : RatchetState) : RatchetState :=
  let d1 := x25519_diffie_hellman (secret (send_ratchet_key s)) their in
  let root1 := hk (root_key s ++ d1) RATCHET_INFO in
  let d2 := x25519_diffie_hellman fresh their in
  MkRatchet (hk (root1 ++ d2) RATCHET_INFO) (hk (root1 ++ d2) CHAIN_INFO)
    (hk (root_key s ++ d1) CHAIN_INFO) (generate fresh) (Some their) 0 0 (send_count s).

Lemma dh_ratchet_step_eq fresh their s :
  dh_ratchet_step fresh their s = (after_dh fresh their s, Ok tt).
Proof.
  unfold dh_ratchet_step, se_bind, se_get, se_lift, se_modify. simpl.
  rewrite kdf_rk_eq. simpl. by rewrite kdf_rk_eq.
Qed.

Definition set_recv (ck : bytes) (n : N) (s : RatchetState) : RatchetState :=
  MkRatchet (root_key s) (send_chain_key s) ck (send_ratchet_key s)
    (recv_ratchet_pubkey s) (send_count s) n (previous_send_count s).

Lemma skip_eq n s :
  (recv_count s + N.of_nat n < 2 ^ 32)%N →
  skip n s = (set_recv (chain (N.of_nat n) (recv_chain_key s)) (recv_count s + N.of_nat n) s, Ok tt).
Proof.
  revert s; induction n as [|n IH]; intros s Hn.
  - unfold chain; simpl. rewrite N.add_0_r. by destruct s.
  - replace (N.of_nat (S n)) with (1 + N.of_nat n)%N in * by lia.
    rewrite <- (chain_add (N.of_nat n) 1). cbn [skip]. unfold se_bind at 1, se_get. cbv beta iota.
    unfold se_bind at 1, se_lift. rewrite kdf_ck_eq. cbv beta iota.
    unfold se_bind, se_modify. cbv beta iota.
    rewrite IH; [|simpl; unfold add32; rewrite N.mod_small; lia].
    simpl. unfold set_recv; simpl. unfold add32. rewrite (N.mod_small _ (2 ^ 32)) by lia.
    f_equal. f_equal. lia.
Qed.

(** The state a decryption works in after the optional DH step. *)
Definition prepared (fresh : bytes) (h : MessageHeader) (s : RatchetState) : RatchetState :=
  if bool_decide (recv_ratchet_pubkey s = Some (ratchet_key h)) then s
  else after_dh fresh (ratchet_key h) s.

Lemma prepare_eq fresh h s :
  (if match recv_ratchet_pubkey s with
      | Some existing => negb (bool_decide (existing = ratchet_key h))
      | None => true end
   then dh_ratchet_step fresh (ratchet_key h) else se_ret tt) s = (prepared fresh h s, Ok tt).
Proof.
  unfold prepared. destruct (recv_ratchet_pubkey s) as [k|].
  - destruct (decide (k = ratchet_key h)) as [->|Hne].
    + by rewrite !bool_decide_true.
    + rewrite (bool_decide_false (k = _)), bool_decide_false by congruence.
      apply dh_ratchet_step_eq.
  - rewrite bool_decide_false by done. apply dh_ratchet_step_eq.
Qed.

Lemma init_sender_eq fresh shared their :
  ∃ s, init_sender fresh shared their = Ok s ∧
    send_chain_key s = hk (shared ++ x25519_diffie_hellman fresh their) CHAIN_INFO ∧
    send_ratchet_key s = generate fresh ∧ send_count s = 0%N.
Proof. unfold init_sender. rewrite kdf_rk_eq. by eexists. Qed.

Lemma prepared_same fresh h s : recv_ratchet_pubkey s = Some (ratchet_key h) → prepared fresh h s = s.
Proof. intros Hk. unfold prepared. by rewrite bool_decide_true. Qed.

Lemma decrypt_message_eq fresh h c s :
  let s1 := prepared fresh h s in
  (recv_count s1 ≤ message_number h)%N → (message_number h + 1 < 2 ^ 32)%N →
  let ck := chain (message_number h - recv_count s1) (recv_chain_key s1) in
  decrypt_message fresh h c s =
    (set_recv (adv ck) (message_number h + 1) s1,
     map_err (λ e, RatchetError ("decryption failed: " +:+ error_display e)) (open (mkey ck) c)).
Proof.
  intros s1 Hle Hlt ck. unfold decrypt_message, se_bind, se_get. cbv beta iota.
  pose proof (prepare_eq fresh h s) as Hpre. fold s1 in Hpre.
  rewrite Hpre. cbv beta iota. rewrite skip_eq by lia. cbv beta iota.
  rewrite N2Nat.id. unfold se_lift, se_modify. simpl. rewrite kdf_ck_eq. cbv beta iota.
  fold ck. unfold set_recv, incr_recv_count, set_recv_chain_key; simpl. unfold add32.
  replace (recv_count s1 + (message_number h - recv_count s1))%N with (message_number h) by lia.
  by rewrite N.mod_small by lia.
Qed.
End ratchet.
End Ratchet.

(* ------------------------------------------------------------------ *)
(** ** Properties *)

Section properties.
Context `{Primitives} `{!PrimitiveLaws}.

(** A message encrypted to a public key decrypts under the matching
    secret to the plaintext; a ciphertext shorter than an ephemeral key, a
    nonce and a tag is refused without any decryption. *)
Lemma encryption_roundtrip (fresh nonce p sk : bytes)
  (Hf : length fresh = 32) (Hn : length nonce = NONCE_LEN) :
  (∃ c, MessageEncryption.encrypt_message fresh nonce p (x25519_public sk) = Ok c ∧
        length c = 32 + 24 + length p + 16 ∧
        MessageEncryption.decrypt_message c sk = Ok p) ∧
  (∀ c, length c < 72 →
     MessageEncryption.decrypt_message c sk = Err (Encryption (CDecryptionFailed "ciphertext too short"))).
Proof.
  split.
  - unfold MessageEncryption.encrypt_message, MessageEncryption.decrypt_message, x25519_diffie_hellman.
    simpl. rewrite x25519_comm.
    set (key := MessageEncryption.derive_key _).
    destruct (seal_total nonce key p) as (c & Hc & Hl). rewrite Hc. simpl.
    pose proof (x25519_public_len fresh Hf) as Hp.
    exists (x25519_public fresh ++ c). split; [done|].
    rewrite length_app, Hl, Hp, Hn. unfold NONCE_LEN, TAG_LEN. split; [lia|].
    rewrite (proj2 (Nat.ltb_ge _ _)) by (unfold MessageEncryption.MIN_CIPHERTEXT_LEN; lia).
    rewrite take_app_length', drop_app_length' by done. fold key.
    by rewrite (open_seal nonce key p c Hn Hc).
  - intros c Hc. unfold MessageEncryption.decrypt_message.
    by rewrite (proj2 (Nat.ltb_lt _ _)) by done.
Qed.

(** C12. X3DH agreement: for a bundle a responder publishes, with or without a
    one-time prekey, the bundle validates, the initiator derives a shared
    secret, and the responder derives the same one from the initial message
    and its own secrets; when a one-time prekey was used and its secret is
    gone, the responder refuses. *)
Theorem x3dh_agreement (seed_b ik_a ik_b spk otk fresh id_a : bytes) (with_otk : bool) :
  let bundle := X3dh.generate_prekey_bundle seed_b (x25519_public ik_b) with_otk spk otk in
  X3dh.validate_prekey_bundle bundle = Ok tt ∧
  ∃ ss im, X3dh.x3dh_initiate fresh ik_a (x25519_public ik_a) id_a bundle = Ok (ss, im) ∧
    length ss = 32 ∧
    X3dh.x3dh_respond ik_b spk (if with_otk then Some otk else None) im = Ok ss ∧
    (with_otk = true → X3dh.x3dh_respond ik_b spk None im =
       Err (X3dhFailed "initiator used one-time prekey but no matching secret")).
Proof.
  intros bundle. split.
  { unfold X3dh.validate_prekey_bundle, bundle; simpl. by rewrite verify_sign. }
  destruct (X3dh.agreement seed_b ik_a ik_b spk otk fresh id_a with_otk)
    as (ss & im & Ei & Er & Hl & Ho).
  exists ss, im. split_and!; try done. intros ->. unfold X3dh.x3dh_respond. by rewrite Ho.
Qed.

(** Until its first reply arrives, an initiator accepts messages nobody
    needed a key for: its receiving chain starts from 32 zero bytes, and its
    peer key is set to the peer's public prekey, so whoever knows that public
    key can seal any plaintext under a key that does not depend on the shared
    secret, and [decrypt_message] returns it as authentic. *)
Theorem initiator_accepts_unkeyed (fresh shared prekey_pub fresh' nonce p : bytes) (n : N) (s : Ratchet.RatchetState)
  (Hs : Ratchet.init_sender fresh shared prekey_pub = Ok s)
  (Hn : length nonce = NONCE_LEN) (Hlt : (n + 1 < 2 ^ 32)%N) :
  ∃ forged, seal nonce (Ratchet.mkey (Ratchet.chain n (replicate 32 0%N))) p = Ok forged ∧
    (Ratchet.decrypt_message fresh' (Ratchet.MkHeader prekey_pub n 0) forged s).2 = Ok p.
Proof.
  unfold Ratchet.init_sender in Hs. rewrite Ratchet.kdf_rk_eq in Hs. simpl in Hs. injection Hs as <-.
  set (key := Ratchet.mkey _). destruct (seal_total nonce key p) as (c & Hc & _).
  exists c. split; [done|].
  match goal with |- (Ratchet.decrypt_message _ ?h _ ?s).2 = _ =>
    pose proof (Ratchet.decrypt_message_eq fresh' h c s) as D;
    assert (Hprep : Ratchet.prepared fresh' h s = s) by (by apply Ratchet.prepared_same) end.
  cbv zeta in D. rewrite Hprep in D. simpl in D. rewrite N.sub_0_r in D.
  rewrite (D ltac:(lia) Hlt).
  change (map_err (λ e, RatchetError ("decryption failed: " +:+ error_display e)) (open key c) = Ok p).
  by rewrite (open_seal nonce key p c Hn Hc).
Qed.
End properties.

Section witnesses.
Import Toy.

Theorem x3dh_agreement_witness :
  X3dh.validate_prekey_bundle
    (X3dh.generate_prekey_bundle (replicate 32 1%N) (x25519_public (replicate 32 2%N)) true
       (replicate 32 3%N) (replicate 32 4%N)) = Ok tt.
Proof.
  apply (x3dh_agreement (replicate 32 1%N) (replicate 32 9%N) (replicate 32 2%N)
    (replicate 32 3%N) (replicate 32 4%N) (replicate 32 5%N) (replicate 32 6%N) true).
Defined.

Theorem initiator_accepts_unkeyed_witness :
  ∃ forged, ∀ shared s,
    Ratchet.init_sender (replicate 32 5%N) shared (replicate 32 3%N) = Ok s →
    (Ratchet.decrypt_message (replicate 32 6%N) (Ratchet.MkHeader (replicate 32 3%N) 0 0) forged s).2
      = Ok [42]%N.
Proof.
  eexists. intros shared s Hs.
  destruct (initiator_accepts_unkeyed (replicate 32 5%N) shared (replicate 32 3%N) (replicate 32 6%N)
              (replicate 24 0%N) [42]%N 0%N s Hs) as (c & Hc & Hd); [reflexivity..|].
  rewrite <- Hd. f_equal. simpl in Hc. injection Hc as <-. reflexivity.
Defined.
End witnesses.
