(* ===== verification/RatchetProtocol.v ===== *)
(** * Two parties running the double ratchet

    [Ratchet.encrypt_message] and [Ratchet.decrypt_message] composed into a
    two-party system: each direction is a queue of messages in flight, in
    order, from which the network may lose messages.  The invariant says which
    party made the last Diffie-Hellman step and how the queues relate to the
    chains; it is kept by every step, and every delivered message decrypts. *)
From S2P Require Import Prelude Types Crypto Ratchet.
From Stdlib Require Import Relations.Relation_Operators.
Import Ratchet.

Section protocol.
Context `{Primitives}.

(** A message in flight, with the plaintext its sender encrypted. *)
Record msg := MkMsg { hdr : MessageHeader; ct : bytes; plain : bytes }.

(** The two parties and the messages in flight in each direction. *)
Record world := MkWorld {
  pa : RatchetState; pb : RatchetState;
  ab : list msg; ba : list msg
}.

Definition swap (w : world) : world := MkWorld (pb w) (pa w) (ba w) (ab w).

(** Steps of the party on the left; [step] closes them under symmetry. *)
Inductive lstep (w : world) : world → Prop :=
| step_send nonce p s' h c :
    length nonce = NONCE_LEN → (send_count (pa w) + 1 < 2 ^ 32)%N →
    encrypt_message nonce p (pa w) = (s', Ok (h, c)) →
    lstep w (MkWorld s' (pb w) (ab w ++ [MkMsg h c p]) (ba w))
| step_recv fresh m q s' r :
    ba w = m :: q →
    x25519_public fresh ≠ public (send_ratchet_key (pa w)) →
    decrypt_message fresh (hdr m) (ct m) (pa w) = (s', r) →
    lstep w (MkWorld s' (pb w) (ab w) q)
| step_lose m q :
    ba w = m :: q → lstep w (MkWorld (pa w) (pb w) (ab w) q).

Inductive step (w w' : world) : Prop :=
| step_left : lstep w w' → step w w'
| step_right : lstep (swap w) (swap w') → step w w'.

Definition reachable : world → world → Prop := clos_refl_trans_1n world step.

(** The session as [X3DH] leaves it: the initiator has a sender's state for
    the responder's signed prekey, the responder a receiver's state. *)
Definition initial (shared : bytes) (prekey_secret : bytes) (w : world) : Prop :=
  ∃ fresh, init_sender fresh shared (x25519_public prekey_secret) = Ok (pa w) ∧
    pb w = init_receiver shared (from_secret_bytes prekey_secret) ∧
    ab w = [] ∧ ba w = [].

(* ---- invariant ---- *)

(** Messages of one sending chain, numbered increasingly from [lo] below
    [hi], each opening to its plaintext under its chain position's key. *)
Inductive stream (pub c0 : bytes) (hi : N) : N → list msg → Prop :=
| stream_nil lo : (lo ≤ hi)%N → stream pub c0 hi lo []
| stream_cons lo m q :
    ratchet_key (hdr m) = pub →
    (lo ≤ message_number (hdr m) < hi)%N →
    open (mkey (chain (message_number (hdr m)) c0)) (ct m) = Ok (plain m) →
    stream pub c0 hi (message_number (hdr m) + 1) q →
    stream pub c0 hi lo (m :: q).

Definition pair_ok (s : RatchetState) : Prop :=
  public (send_ratchet_key s) = x25519_public (secret (send_ratchet_key s)).

(** The receiver [y] is on the sending chain of [x]. *)
Definition synced (x y : RatchetState) (q : list msg) : Prop :=
  ∃ c0, recv_ratchet_pubkey y = Some (public (send_ratchet_key x)) ∧
    send_chain_key x = chain (send_count x) c0 ∧
    recv_chain_key y = chain (recv_count y) c0 ∧
    (send_count x < 2 ^ 32)%N ∧
    stream (public (send_ratchet_key x)) c0 (send_count x) (recv_count y) q.

(** [x] made the last DH step and [y] has not seen its new key. *)
Definition unsynced (x y : RatchetState) (q : list msg) : Prop :=
  ∃ c0 old new,
    q = old ++ new ∧
    recv_ratchet_pubkey y ≠ Some (public (send_ratchet_key x)) ∧
    match recv_ratchet_pubkey y with
    | Some p => ∃ cold hi, (hi < 2 ^ 32)%N ∧ recv_chain_key y = chain (recv_count y) cold ∧
                           stream p cold hi (recv_count y) old
    | None => old = []
    end ∧
    send_chain_key x = chain (send_count x) c0 ∧ (send_count x < 2 ^ 32)%N ∧
    stream (public (send_ratchet_key x)) c0 (send_count x) 0 new ∧
    (let ikm := root_key y ++ x25519_diffie_hellman (secret (send_ratchet_key y))
                                (public (send_ratchet_key x)) in
     root_key x = hk ikm RATCHET_INFO ∧ c0 = hk ikm CHAIN_INFO).

Definition leads (x y : RatchetState) (qxy qyx : list msg) : Prop :=
  pair_ok x ∧ pair_ok y ∧ unsynced x y qxy ∧ synced y x qyx.

Definition inv (w : world) : Prop :=
  leads (pa w) (pb w) (ab w) (ba w) ∨ leads (pb w) (pa w) (ba w) (ab w).

(* ---- streams ---- *)

Lemma stream_weaken pub c0 hi lo lo' q :
  stream pub c0 hi lo q → (lo' ≤ lo)%N → stream pub c0 hi lo' q.
Proof. inversion 1; subst; intros; [constructor; lia|constructor; auto; lia]. Qed.

Lemma stream_tail pub c0 hi lo m q : stream pub c0 hi lo (m :: q) → stream pub c0 hi lo q.
Proof. inversion 1; subst. eapply stream_weaken; [done|lia]. Qed.

Lemma stream_lo pub c0 hi lo q : stream pub c0 hi lo q → (lo ≤ hi)%N.
Proof. inversion 1; subst; lia. Qed.

Lemma stream_snoc pub c0 hi lo q m :
  stream pub c0 hi lo q → ratchet_key (hdr m) = pub → message_number (hdr m) = hi →
  open (mkey (chain hi c0)) (ct m) = Ok (plain m) →
  stream pub c0 (hi + 1) lo (q ++ [m]).
Proof.
  intros Hs Hk Hn Ho. induction Hs as [lo Hlo|lo x q Hx Hlo Hox Hs IH]; simpl.
  - constructor; [done|lia|by rewrite Hn|]. constructor. lia.
  - constructor; auto. lia.
Qed.

(* ---- what each operation does to the invariant ---- *)

Context `{!PrimitiveLaws}.

Lemma encrypt_spec nonce p s s' h c :
  length nonce = NONCE_LEN → (send_count s + 1 < 2 ^ 32)%N →
  encrypt_message nonce p s = (s', Ok (h, c)) →
  root_key s' = root_key s ∧ send_ratchet_key s' = send_ratchet_key s ∧
  recv_ratchet_pubkey s' = recv_ratchet_pubkey s ∧ recv_chain_key s' = recv_chain_key s ∧
  recv_count s' = recv_count s ∧ send_count s' = (send_count s + 1)%N ∧
  send_chain_key s' = adv (send_chain_key s) ∧
  ratchet_key h = public (send_ratchet_key s) ∧ message_number h = send_count s ∧
  open (mkey (send_chain_key s)) c = Ok p.
Proof.
  intros Hn Hc E. destruct (encrypt_message_eq nonce p s) as (c' & Hs & E').
  rewrite E in E'. injection E' as -> -> ->. simpl. unfold add32.
  rewrite N.mod_small by lia. split_and!; try done. by eapply open_seal.
Qed.

(** A chain extended by one message keeps its stream. *)
Lemma send_stream nonce p s s' h c c0 lo q :
  length nonce = NONCE_LEN → (send_count s + 1 < 2 ^ 32)%N →
  encrypt_message nonce p s = (s', Ok (h, c)) →
  send_chain_key s = chain (send_count s) c0 →
  stream (public (send_ratchet_key s)) c0 (send_count s) lo q →
  send_chain_key s' = chain (send_count s') c0 ∧ (send_count s' < 2 ^ 32)%N ∧
  stream (public (send_ratchet_key s')) c0 (send_count s') lo (q ++ [MkMsg h c p]).
Proof.
  intros Hn Hc E Hck Hs.
  destruct (encrypt_spec _ _ _ _ _ _ Hn Hc E) as (_ & Ek & _ & _ & _ & Esc & Eck & Eh & Em & Eo).
  rewrite Ek, Esc, Eck, Hck, chain_succ. split; [done|]. split; [lia|].
  apply stream_snoc; simpl; try done. by rewrite <- Hck.
Qed.

Lemma leads_send_leader x y qxy qyx nonce p x' h c :
  leads x y qxy qyx → length nonce = NONCE_LEN → (send_count x + 1 < 2 ^ 32)%N →
  encrypt_message nonce p x = (x', Ok (h, c)) →
  leads x' y (qxy ++ [MkMsg h c p]) qyx.
Proof.
  intros (Hx & Hy & (c0 & old & new & -> & Hne & Hold & Hck & Hlt & Hnew & Hlink) & Hsync) Hn Hc E.
  destruct (send_stream _ _ _ _ _ _ _ _ _ Hn Hc E Hck Hnew) as (Hck' & Hlt' & Hnew').
  destruct (encrypt_spec _ _ _ _ _ _ Hn Hc E) as (Er & Ek & Erp & Erc & Ern & _).
  unfold leads, pair_ok in *. rewrite Ek. split_and!; [done..| |].
  - exists c0, old, (new ++ [MkMsg h c p]). rewrite Er, Ek in *.
    split_and!; try done; try apply Hlink. by rewrite <- app_assoc.
  - destruct Hsync as (d0 & ?). exists d0. by rewrite Erp, Erc, Ern.
Qed.

Lemma leads_send_follower x y qxy qyx nonce p y' h c :
  leads x y qxy qyx → length nonce = NONCE_LEN → (send_count y + 1 < 2 ^ 32)%N →
  encrypt_message nonce p y = (y', Ok (h, c)) →
  leads x y' qxy (qyx ++ [MkMsg h c p]).
Proof.
  intros (Hx & Hy & (c0 & old & new & Hrest) & (d0 & Hp & Hck & Hrk & Hlt & Hs)) Hn Hc E.
  destruct (send_stream _ _ _ _ _ _ _ _ _ Hn Hc E Hck Hs) as (Hck' & Hlt' & Hs').
  destruct (encrypt_spec _ _ _ _ _ _ Hn Hc E) as (Er & Ek & Erp & Erc & Ern & _).
  unfold leads, pair_ok in *. rewrite Ek. split_and!; [done..| |].
  - exists c0, old, new. by rewrite Er, Ek, Erp, Erc, Ern.
  - exists d0. by rewrite Ek in *.
Qed.

(** Receiving on the current chain: the message opens, only the receiving
    chain moves. *)
Lemma recv_same_chain fresh m s c0 hi lo q p s' r :
  recv_ratchet_pubkey s = Some p → recv_chain_key s = chain (recv_count s) c0 →
  (hi < 2 ^ 32)%N → lo = recv_count s → stream p c0 hi lo (m :: q) →
  decrypt_message fresh (hdr m) (ct m) s = (s', r) →
  r = Ok (plain m) ∧
  s' = set_recv (chain (message_number (hdr m) + 1) c0) (message_number (hdr m) + 1) s ∧
  stream p c0 hi (message_number (hdr m) + 1) q.
Proof.
  intros Hp Hck Hhi -> Hs E. inversion Hs as [|? ? ? Hk Hlo Ho Ht]; subst.
  assert (Hprep : prepared fresh (hdr m) s = s) by (unfold prepared; by rewrite Hp, bool_decide_true).
  pose proof (decrypt_message_eq fresh (hdr m) (ct m) s) as D. cbv zeta in D.
  rewrite Hprep, E, Hck, chain_add in D.
  replace (recv_count s + (message_number (hdr m) - recv_count s))%N
    with (message_number (hdr m)) in D by lia.
  rewrite Ho, <- chain_succ in D. simpl in D.
  specialize (D ltac:(lia) ltac:(lia)). injection D as -> ->. done.
Qed.

Lemma leads_recv_leader x y qxy m q fresh x' r :
  leads x y qxy (m :: q) → decrypt_message fresh (hdr m) (ct m) x = (x', r) →
  r = Ok (plain m) ∧ leads x' y qxy q.
Proof.
  intros (Hx & Hy & (c0 & Hun) & (d0 & Hp & Hck & Hrk & Hlt & Hs)) E.
  destruct (recv_same_chain _ _ _ _ _ _ _ _ _ _ Hp Hrk Hlt eq_refl Hs E) as (-> & -> & Ht).
  split; [done|]. split_and!; try done; [by exists c0|]. by exists d0.
Qed.

(** The follower receives: on its old chain it stays follower; a message
    under the leader's new key makes it the leader. *)
Lemma leads_recv_follower x y m q qyx fresh y' r :
  leads x y (m :: q) qyx →
  x25519_public fresh ≠ public (send_ratchet_key y) →
  decrypt_message fresh (hdr m) (ct m) y = (y', r) →
  r = Ok (plain m) ∧ (leads x y' q qyx ∨ leads y' x qyx q).
Proof.
  intros (Hx & Hy & (c0 & old & new & Hq & Hne & Hold & Hck & Hlt & Hnew & Hroot & Hc0) & Hsync) Hf E.
  destruct old as [|m' old].
  - simpl in Hq. subst new.
    inversion Hnew as [|? ? ? Hk Hlo Ho Ht]; subst.
    pose proof (decrypt_message_eq fresh (hdr m) (ct m) y) as D. cbv zeta in D.
    assert (Hprep : prepared fresh (hdr m) y = after_dh fresh (ratchet_key (hdr m)) y)
      by (unfold prepared; by rewrite bool_decide_false by congruence).
    rewrite Hprep, Hk, E in D. unfold after_dh, set_recv in D. simpl in D.
    rewrite N.sub_0_r, Ho in D. specialize (D ltac:(lia) ltac:(lia)).
    injection D as -> ->. split; [done|]. right.
    destruct Hsync as (d0 & Hp & Hck' & Hrk & Hlt' & Hs).
    split_and!; try done.
    + exists (hk ((hk (root_key y ++ x25519_diffie_hellman (secret (send_ratchet_key y))
                         (public (send_ratchet_key x))) RATCHET_INFO)
                  ++ x25519_diffie_hellman fresh (public (send_ratchet_key x))) CHAIN_INFO), qyx, [].
      simpl. rewrite app_nil_r, Hp. split_and!; try done; try (constructor; lia).
      * congruence.
      * by exists d0, (send_count y).
      * rewrite <- Hroot. unfold x25519_diffie_hellman. by rewrite Hx, x25519_comm.
      * rewrite <- Hroot. unfold x25519_diffie_hellman. by rewrite Hx, x25519_comm.
    + exists (hk (root_key y ++ x25519_diffie_hellman (secret (send_ratchet_key y))
                    (public (send_ratchet_key x))) CHAIN_INFO). simpl.
      split_and!; try done. by rewrite chain_succ.
  - simpl in Hq. injection Hq as <- ->.
    destruct (recv_ratchet_pubkey y) as [p|] eqn:Hp; [|done].
    destruct Hold as (cold & hi & Hhi & Hrk & Hs).
    destruct (recv_same_chain _ _ _ _ _ _ _ _ _ _ Hp Hrk Hhi eq_refl Hs E) as (-> & -> & Ht).
    split; [done|]. left. split_and!; try done. exists c0, old, new. simpl. rewrite Hp.
    split_and!; try done. by exists cold, hi.
Qed.

Lemma leads_lose_leader x y qxy m q : leads x y qxy (m :: q) → leads x y qxy q.
Proof.
  intros (Hx & Hy & Hun & (d0 & ? & ? & ? & ? & Hs)). split_and!; try done.
  exists d0. split_and!; eauto using stream_tail.
Qed.

Lemma leads_lose_follower x y m q qyx : leads x y (m :: q) qyx → leads x y q qyx.
Proof.
  intros (Hx & Hy & (c0 & old & new & Hq & Hne & Hold & Hck & Hlt & Hnew & Hl) & Hsync).
  split_and!; try done. destruct old as [|m' old]; simpl in Hq.
  - subst new. exists c0, [], q. split_and!; eauto using stream_tail; try apply Hl.
  - injection Hq as <- ->. exists c0, old, new. split_and!; eauto; try apply Hl.
    destruct (recv_ratchet_pubkey y); [|done]. destruct Hold as (cold & hi & ? & ? & ?).
    exists cold, hi. eauto using stream_tail.
Qed.

Lemma lstep_inv w w' : lstep w w' → inv w → inv w'.
Proof.
  intros Hst Hinv. destruct Hst as [nonce p s' h c Hn Hc E|fresh m q s' r Hq Hf E|m q Hq];
    destruct Hinv as [Hl|Hl]; unfold inv; simpl; try rewrite Hq in Hl.
  - left. by eapply leads_send_leader.
  - right. by eapply leads_send_follower.
  - left. by eapply leads_recv_leader.
  - edestruct leads_recv_follower as [_ [?|?]]; eauto.
  - left. by eapply leads_lose_leader.
  - right. by eapply leads_lose_follower.
Qed.

Lemma inv_swap w : inv (swap w) ↔ inv w.
Proof. unfold inv; simpl. tauto. Qed.

Lemma step_inv w w' : step w w' → inv w → inv w'.
Proof.
  intros [Hs|Hs] Hi; [by eapply lstep_inv|]. apply inv_swap. eapply lstep_inv; [done|].
  by apply inv_swap.
Qed.

Lemma reachable_inv w w' : reachable w w' → inv w → inv w'.
Proof. induction 1; eauto using step_inv. Qed.

Lemma initial_inv shared sk w : initial shared sk w → inv w.
Proof.
  destruct w as [a b qa qb]. unfold initial; simpl. intros (fresh & Ei & -> & -> & ->). left.
  unfold init_sender in Ei. rewrite kdf_rk_eq in Ei. simpl in Ei. injection Ei as <-.
  split_and!; try done.
  - exists (hk (shared ++ x25519_diffie_hellman fresh (x25519_public sk)) CHAIN_INFO), [], [].
    simpl. split_and!; try done; try (constructor; lia);
      unfold x25519_diffie_hellman; by rewrite x25519_comm.
  - exists (replicate 32 0%N). simpl. split_and!; try done. constructor. lia.
Qed.

Lemma inv_delivers w m q fresh :
  inv w → ab w = m :: q → x25519_public fresh ≠ public (send_ratchet_key (pb w)) →
  (decrypt_message fresh (hdr m) (ct m) (pb w)).2 = Ok (plain m).
Proof.
  intros Hi Hq Hf. destruct (decrypt_message _ _ _ _) as [s' r] eqn:E. simpl.
  destruct Hi as [Hl|Hl]; rewrite Hq in Hl.
  - by edestruct leads_recv_follower as [? _].
  - by edestruct leads_recv_leader as [? _].
Qed.

(** C1. Two parties that start from a common X3DH secret and then send in any
    interleaving, over queues that keep order but may lose any messages: in
    every reachable state, the next message of either queue decrypts to the
    plaintext its sender encrypted, through every DH step and skipped
    message number; and sending never fails.  (Counters stay below 2^32 and
    a fresh ratchet key differs from the one it replaces.) *)
Theorem ratchet_delivers (shared sk : bytes) (w0 w : world)
  (Hinit : initial shared sk w0) (Hreach : reachable w0 w) :
  (∀ m q fresh, ab w = m :: q → x25519_public fresh ≠ public (send_ratchet_key (pb w)) →
     (decrypt_message fresh (hdr m) (ct m) (pb w)).2 = Ok (plain m)) ∧
  (∀ m q fresh, ba w = m :: q → x25519_public fresh ≠ public (send_ratchet_key (pa w)) →
     (decrypt_message fresh (hdr m) (ct m) (pa w)).2 = Ok (plain m)) ∧
  (∀ nonce p, ∃ h c, (encrypt_message nonce p (pa w)).2 = Ok (h, c)) ∧
  (∀ nonce p, ∃ h c, (encrypt_message nonce p (pb w)).2 = Ok (h, c)).
Proof.
  pose proof (reachable_inv _ _ Hreach (initial_inv _ _ _ Hinit)) as Hi.
  split_and!.
  - intros m q fresh. by apply inv_delivers.
  - intros m q fresh. by apply (inv_delivers (swap w)), inv_swap.
  - intros nonce p. destruct (encrypt_message_eq nonce p (pa w)) as (c & _ & ->). by eexists _, c.
  - intros nonce p. destruct (encrypt_message_eq nonce p (pb w)) as (c & _ & ->). by eexists _, c.
Qed.
End protocol.

(** A run on the concrete instance: two messages are sent, the first is lost,
    the second arrives and opens. *)
Module Demo.
Import Toy.

Definition k (n : N) : bytes := replicate 32 n.
Definition nonce : bytes := replicate 24 0%N.

Definition w0 : world :=
  MkWorld (match init_sender (k 5) (k 9) (x25519_public (k 3)) with Ok s => s
           | Err _ => init_receiver (k 9) (from_secret_bytes (k 3)) end)
    (init_receiver (k 9) (from_secret_bytes (k 3))) [] [].

Definition send (p : bytes) (w : world) : world :=
  match encrypt_message nonce p (pa w) with
  | (s', Ok (h, c)) => MkWorld s' (pb w) (ab w ++ [MkMsg h c p]) (ba w)
  | (_, Err _) => w
  end.
Definition lose (w : world) : world := MkWorld (pa w) (pb w) (tail (ab w)) (ba w).
Definition w1 : world := send [11; 12]%N w0.
Definition w2 : world := send [13]%N w1.
Definition w3 : world := lose w2.

Lemma send_step p w s' h c :
  encrypt_message nonce p (pa w) = (s', Ok (h, c)) → (send_count (pa w) + 1 < 2 ^ 32)%N →
  step w (send p w).
Proof.
  intros E Hc. apply step_left. unfold send. rewrite E. by apply (step_send w nonce p).
Qed.

Lemma encrypts p w : ∃ s' h c, encrypt_message nonce p (pa w) = (s', Ok (h, c)).
Proof. destruct (encrypt_message_eq nonce p (pa w)) as (c & _ & E). eauto. Qed.

Lemma lose_step w m q : ab w = m :: q → step w (lose w).
Proof.
  intros E. apply step_right. unfold lose. rewrite E. by apply (step_lose (swap w) m q).
Qed.

Lemma send_reach p w w' :
  (send_count (pa w) + 1 < 2 ^ 32)%N → reachable (send p w) w' → reachable w w'.
Proof.
  intros Hc Hr. destruct (encrypts p w) as (s & h & c & E).
  eapply rt1n_trans; [by eapply send_step|done].
Qed.

Lemma reaches : reachable w0 w3.
Proof.
  apply (send_reach [11; 12]%N); [vm_compute; reflexivity|]. fold w1.
  apply (send_reach [13]%N); [vm_compute; reflexivity|]. fold w2.
  destruct (ab w2) as [|m q] eqn:E; [vm_compute in E; discriminate E|].
  eapply rt1n_trans; [by apply (lose_step w2 m q)|constructor].
Qed.
End Demo.
Import Toy.

Theorem ratchet_delivers_witness :
  match ab Demo.w3 with
  | m :: _ => (decrypt_message (Demo.k 6) (hdr m) (ct m) (pb Demo.w3)).2 = Ok [13]%N
  | [] => False
  end.
Proof.
  assert (Hi : initial (Demo.k 9) (Demo.k 3) Demo.w0)
    by (exists (Demo.k 5); split_and!; vm_compute; reflexivity).
  destruct (ratchet_delivers (Demo.k 9) (Demo.k 3) Demo.w0 Demo.w3 Hi Demo.reaches) as [Hd _].
  assert (Hp : plain <$> ab Demo.w3 = [[13]]%N) by (vm_compute; reflexivity).
  destruct (ab Demo.w3) as [|m q]; [discriminate Hp|].
  injection Hp as Hm _. rewrite <- Hm.
  apply (Hd m q (Demo.k 6) eq_refl). vm_compute. discriminate.
Defined.
