(* ===== verification/Session.v ===== *)
(** * Persistent ratchet sessions: [crates/ephemera-message/src/session.rs]

    The table [ratchet_sessions] as a map from conversation id (its primary
    key) to row; [SessionManager] loads a ratchet, runs one encryption or
    decryption, and saves it. *)
From S2P Require Import Prelude Types Crypto Ratchet.
Import Ratchet.

Section session.
Context `{Primitives}.

(** One row of [ratchet_sessions]; byte columns are BLOBs of any length. *)
Record row := MkRow {
  r_peer_pubkey : bytes;
  r_root_key : bytes;
  r_send_chain_key : bytes;
  r_recv_chain_key : bytes;
  r_send_ratchet_secret : bytes;
  r_send_ratchet_pubkey : bytes;
  r_recv_ratchet_pubkey : option bytes;
  r_send_count : N;
  r_recv_count : N;
  r_prev_send_count : N;
  r_created_at : Z;
  r_updated_at : Z
}.

Abbreviation db := (gmap string row).

Definition to_array32 (b : bytes) : result MessageError bytes :=
  if negb (Nat.eqb (length b) 32) then
    Err (RatchetError ("expected 32 bytes, got " +:+ pretty (length b)))
  else Ok b.

Definition load_session (d : db) (conversation_id : string) :
    result MessageError (option RatchetState) :=
  match d !! conversation_id with
  | None => Ok None
  | Some r =>
      let? rk := to_array32 (r_root_key r) in
      let? sck := to_array32 (r_send_chain_key r) in
      let? rck := to_array32 (r_recv_chain_key r) in
      let? ss := to_array32 (r_send_ratchet_secret r) in
      let? rpk :=
        match r_recv_ratchet_pubkey r with
        | Some b => let? a := to_array32 b in Ok (Some a)
        | None => Ok None
        end in
      Ok (Some (from_persisted rk sck rck ss rpk (r_send_count r) (r_recv_count r)
                  (r_prev_send_count r)))
  end.

(** The upsert: an existing row keeps its peer key and creation time. *)
Definition save_session (now : Z) (d : db) (conversation_id : string) (peer_pubkey : bytes)
    (state : RatchetState) : db :=
  let fresh := MkRow peer_pubkey (root_key state) (send_chain_key state) (recv_chain_key state)
                 (secret (send_ratchet_key state)) (public (send_ratchet_key state))
                 (recv_ratchet_pubkey state) (send_count state) (recv_count state)
                 (previous_send_count state) now now in
  <[conversation_id :=
      match d !! conversation_id with
      | None => fresh
      | Some old =>
          MkRow (r_peer_pubkey old) (r_root_key fresh) (r_send_chain_key fresh)
            (r_recv_chain_key fresh) (r_send_ratchet_secret fresh) (r_send_ratchet_pubkey fresh)
            (r_recv_ratchet_pubkey fresh) (r_send_count fresh) (r_recv_count fresh)
            (r_prev_send_count fresh) (r_created_at old) now
      end]> d.

Record EncryptedMessage := MkEncrypted {
  em_header : MessageHeader;
  em_ciphertext : bytes;
  em_x3dh_header : option X3dh.X3dhInitialMessage
}.

(** The database after the call, and its result; [fresh_eph] and
    [fresh_ratchet] are the secrets a new session draws. *)
Definition encrypt_for_peer (now : Z) (fresh_eph fresh_ratchet nonce : bytes) (d : db)
    (conversation_id : string) (peer_pubkey : bytes) (our_x25519 : X25519KeyPair)
    (our_identity : bytes) (their_bundle : option X3dh.PrekeyBundle) (plaintext : bytes) :
    db * result MessageError EncryptedMessage :=
  match load_session d conversation_id with
  | Err e => (d, Err e)
  | Ok existing =>
      let opened :=
        match existing with
        | Some state => Ok (state, None)
        | None =>
            let? bundle := ok_or their_bundle (X3dhFailed "no prekey bundle for new session") in
            let? (shared_secret, initial_message) :=
              X3dh.x3dh_initiate fresh_eph (secret our_x25519) (public our_x25519) our_identity
                bundle in
            let? ratchet := init_sender fresh_ratchet shared_secret (X3dh.signed_prekey bundle) in
            Ok (ratchet, Some initial_message)
        end in
      match opened with
      | Err e => (d, Err e)
      | Ok (state, x3dh_header) =>
          match encrypt_message nonce plaintext state with
          | (_, Err e) => (d, Err e)
          | (state', Ok (header, ciphertext)) =>
              (save_session now d conversation_id peer_pubkey state',
               Ok (MkEncrypted header ciphertext x3dh_header))
          end
      end
  end.

Definition decrypt_from_peer (now : Z) (fresh : bytes) (d : db) (conversation_id : string)
    (peer_pubkey : bytes) (our_ratchet_key : option X25519KeyPair) (shared_secret : option bytes)
    (header : MessageHeader) (ciphertext : bytes) : db * result MessageError bytes :=
  match load_session d conversation_id with
  | Err e => (d, Err e)
  | Ok existing =>
      let opened :=
        match existing with
        | Some state => Ok state
        | None =>
            let? secret := ok_or shared_secret (RatchetError "no session and no shared secret for init") in
            let? ratchet_key := ok_or our_ratchet_key (RatchetError "no ratchet key for receiver init") in
            Ok (init_receiver secret ratchet_key)
        end in
      match opened with
      | Err e => (d, Err e)
      | Ok state =>
          match decrypt_message fresh header ciphertext state with
          | (_, Err e) => (d, Err e)
          | (state', Ok plaintext) =>
              (save_session now d conversation_id peer_pubkey state', Ok plaintext)
          end
      end
  end.

Definition has_session (d : db) (conversation_id : string) : bool :=
  bool_decide (is_Some (d !! conversation_id)).

(* ------------------------------------------------------------------ *)
(** ** Lemmas *)

(** A state whose keys are 32-byte arrays and whose key pair is a pair. *)
Definition state_wf (s : RatchetState) : Prop :=
  length (root_key s) = 32 ∧ length (send_chain_key s) = 32 ∧ length (recv_chain_key s) = 32 ∧
  length (secret (send_ratchet_key s)) = 32 ∧
  public (send_ratchet_key s) = x25519_public (secret (send_ratchet_key s)) ∧
  match recv_ratchet_pubkey s with Some k => length k = 32 | None => True end.

Lemma to_array32_ok b : length b = 32 → to_array32 b = Ok b.
Proof. intros Hb. unfold to_array32. by rewrite Hb. Qed.

Lemma load_save now d cid peer s :
  state_wf s → load_session (save_session now d cid peer s) cid = Ok (Some s).
Proof.
  intros (H1 & H2 & H3 & H4 & H5 & H6). unfold load_session, save_session.
  rewrite lookup_insert_eq. destruct (d !! cid); simpl;
    rewrite !to_array32_ok by done; simpl;
    (destruct s as [rk sck rck [sec pub] [rp|] sc rc ps]; simpl in *;
     rewrite ?to_array32_ok by done; simpl; unfold from_persisted, from_secret_bytes; by subst).
Qed.

Lemma load_save_other now d cid cid' peer s :
  cid ≠ cid' → load_session (save_session now d cid peer s) cid' = load_session d cid'.
Proof. intros Hne. unfold load_session, save_session. by rewrite lookup_insert_ne. Qed.

Context `{!PrimitiveLaws}.

Lemma length_hk ikm info : length (hk ikm info) = 32.
Proof. unfold hk. destruct (hkdf_derive_total ikm None info) as (k & -> & Hl). done. Qed.

Lemma length_chain n ck : length ck = 32 → length (chain n ck) = 32.
Proof. unfold chain. destruct (N.to_nat n); simpl; [done|]. intros _. apply length_hk. Qed.

Lemma encrypt_wf nonce p s s' r : state_wf s → encrypt_message nonce p s = (s', r) → state_wf s'.
Proof.
  intros (H1 & H2 & H3 & H4 & H5 & H6) E.
  destruct (encrypt_message_eq nonce p s) as (c & _ & E'). rewrite E' in E. injection E as <- _.
  unfold state_wf; simpl. split_and!; auto. apply length_hk.
Qed.

Lemma prepared_wf fresh h s :
  length fresh = 32 → length (ratchet_key h) = 32 → state_wf s → state_wf (prepared fresh h s).
Proof.
  intros Hf Hh Hs. unfold prepared. case_bool_decide; [done|].
  unfold state_wf, after_dh; simpl. split_and!; auto using length_hk.
Qed.

Lemma skip_wf n s : state_wf s → ∃ s', skip n s = (s', Ok tt) ∧ state_wf s'.
Proof.
  revert s; induction n as [|n IH]; intros s Hs; [by exists s|].
  cbn [skip]. unfold se_bind at 1, se_get. cbv beta iota.
  unfold se_bind at 1, se_lift. rewrite kdf_ck_eq. cbv beta iota.
  unfold se_bind, se_modify. cbv beta iota. apply IH.
  destruct Hs as (? & ? & ? & ? & ? & ?). unfold state_wf; simpl. split_and!; auto. apply length_hk.
Qed.

Lemma decrypt_wf fresh h c s s' r :
  length fresh = 32 → length (ratchet_key h) = 32 → state_wf s →
  decrypt_message fresh h c s = (s', r) → state_wf s'.
Proof.
  intros Hf Hh Hs. unfold decrypt_message, se_bind, se_get. cbv beta iota.
  assert (Hpre : (if match recv_ratchet_pubkey s with
                     | Some existing => negb (bool_decide (existing = ratchet_key h))
                     | None => true end
                  then dh_ratchet_step fresh (ratchet_key h) else se_ret tt) s =
                 (prepared fresh h s, Ok tt)) by apply prepare_eq.
  rewrite Hpre. cbv beta iota.
  destruct (skip_wf (N.to_nat (message_number h - recv_count (prepared fresh h s)))
    (prepared fresh h s)) as (s2 & E2 & Hs2); [by apply prepared_wf|].
  rewrite E2. unfold se_lift, se_modify. cbv beta iota. rewrite kdf_ck_eq. intros [= <- _].
  destruct Hs2 as (? & ? & ? & ? & ? & ?). unfold state_wf; simpl. split_and!; auto. apply length_hk.
Qed.

(* ------------------------------------------------------------------ *)
(** ** Properties *)

(** A saved ratchet state is loaded back unchanged, for a new and for an
    existing row; saving leaves other conversations alone and keeps the peer
    key and creation time of an existing row. *)
Theorem session_roundtrip (now : Z) (d : db) (cid : string) (peer : bytes) (s : RatchetState)
  (Hs : state_wf s) :
  load_session (save_session now d cid peer s) cid = Ok (Some s) ∧
  (∀ cid', cid' ≠ cid → load_session (save_session now d cid peer s) cid' = load_session d cid') ∧
  (∀ old, d !! cid = Some old → ∃ new, save_session now d cid peer s !! cid = Some new ∧
     r_peer_pubkey new = r_peer_pubkey old ∧ r_created_at new = r_created_at old ∧
     r_updated_at new = now).
Proof.
  split_and!; [by apply load_save|intros; by apply load_save_other|].
  intros old Ho. unfold save_session. rewrite Ho, lookup_insert_eq. by eexists.
Qed.

(** Decryption is transactional on the session table: on any error (a
    corrupt row, a missing secret, a forged, replayed or reordered message)
    the table is unchanged, so a bad message cannot desynchronise the stored
    ratchet; on success exactly this conversation's row moves to the ratchet
    state [decrypt_message] leaves. *)
Theorem decrypt_from_peer_transactional (now : Z) (fresh : bytes) (d : db) (cid : string)
  (peer : bytes) (rk : option X25519KeyPair) (ss : option bytes) (h : MessageHeader) (c : bytes)
  (d' : db) (r : result MessageError bytes)
  (E : decrypt_from_peer now fresh d cid peer rk ss h c = (d', r)) :
  (∀ e, r = Err e → d' = d) ∧
  (∀ cid', cid' ≠ cid → d' !! cid' = d !! cid') ∧
  (∀ s, load_session d cid = Ok (Some s) → state_wf s → length fresh = 32 →
     length (ratchet_key h) = 32 →
     r = (decrypt_message fresh h c s).2 ∧
     (∀ p, r = Ok p → load_session d' cid = Ok (Some (decrypt_message fresh h c s).1))).
Proof.
  unfold decrypt_from_peer in E. destruct (load_session d cid) as [ex|e] eqn:El;
    [|injection E as <- <-; naive_solver].
  match type of E with match ?o with _ => _ end = _ => destruct o as [s|e] eqn:Eo end;
    [|injection E as <- <-; destruct ex; naive_solver].
  destruct (decrypt_message fresh h c s) as [s' [p|e]] eqn:Ed; injection E as <- <-.
  - split_and!; [done|intros; unfold save_session; by rewrite lookup_insert_ne|].
    intros s0 [= ->] Hs Hf Hh. simplify_eq/=. rewrite Ed. split; [done|]. intros _ _.
    apply load_save. simpl. eapply decrypt_wf; [exact Hf|exact Hh|exact Hs|exact Ed].
  - split_and!; [done|done|]. intros s0 [= ->] _ _ _. simplify_eq/=. by rewrite Ed.
Qed.

(** C2. The first message of a conversation goes through end to end: an
    initiator without a session encrypts for a published bundle; the
    responder, without a session, derives the X3DH secret from the header the
    message carries and decrypts it to the plaintext; afterwards both tables
    hold a session for the conversation. *)
Theorem first_message_delivered (now : Z) (seed_b ik_a ik_b spk otk id_a : bytes) (with_otk : bool)
  (fe fr fb nonce p : bytes) (da db_b : db) (cid : string) (peer_a peer_b : bytes)
  (Ha : da !! cid = None) (Hb : db_b !! cid = None) (Hn : length nonce = NONCE_LEN) :
  let bundle := X3dh.generate_prekey_bundle seed_b (x25519_public ik_b) with_otk spk otk in
  ∃ da' em im ss,
    encrypt_for_peer now fe fr nonce da cid peer_b (from_secret_bytes ik_a) id_a (Some bundle) p
      = (da', Ok em) ∧
    em_x3dh_header em = Some im ∧
    X3dh.x3dh_respond ik_b spk (if with_otk then Some otk else None) im = Ok ss ∧
    (∃ db', decrypt_from_peer now fb db_b cid peer_a (Some (from_secret_bytes spk)) (Some ss)
              (em_header em) (em_ciphertext em) = (db', Ok p) ∧ has_session db' cid = true) ∧
    has_session da' cid = true.
Proof.
  intros bundle.
  destruct (X3dh.agreement seed_b ik_a ik_b spk otk fe id_a with_otk) as (ss & im & Ei & Er & _).
  unfold encrypt_for_peer, load_session. rewrite Ha. simpl.
  fold bundle in Ei. rewrite Ei. simpl.
  destruct (init_sender_eq fr ss (x25519_public spk)) as (s & Es & Hsend & Hsk & Hsc).
  rewrite Es. simpl. destruct (encrypt_message_eq nonce p s) as (c & Hc & Ee). rewrite Ee.
  destruct s as [rk sck rck kp rp sc rc ps]. simpl in *. subst sck kp sc. simpl in *.
  eexists _, _, im, ss. split; [done|]. split; [done|]. split; [done|]. simpl. split.
  - unfold decrypt_from_peer, load_session. rewrite Hb. simpl.
    match goal with |- context [decrypt_message fb ?h c ?s1] =>
      pose proof (decrypt_message_eq fb h c s1) as D end.
    simpl in D. rewrite (D ltac:(lia) ltac:(lia)). clear D.
    unfold x25519_diffie_hellman in *. rewrite x25519_comm in Hc.
    match goal with |- context [open ?k c] =>
      replace (open k c) with (Ok (E:=EphemeraError) p) by (symmetry; by eapply open_seal) end.
    eexists. split; [done|]. unfold has_session, save_session.
    by rewrite lookup_insert_eq.
  - unfold has_session, save_session. by rewrite lookup_insert_eq.
Qed.
End session.

Section witnesses.
Import Toy.

Definition demo_state : RatchetState :=
  init_receiver (replicate 32 1%N) (from_secret_bytes (replicate 32 2%N)).

Theorem session_roundtrip_witness :
  load_session (save_session 7 ∅ "c" [1]%N demo_state) "c" = Ok (Some demo_state).
Proof.
  apply (session_roundtrip 7 ∅ "c" [1]%N demo_state). split_and!; reflexivity || exact I.
Defined.

Theorem decrypt_from_peer_transactional_witness :
  let d := save_session 7 ∅ "c" [1]%N demo_state in
  (decrypt_from_peer 9 (replicate 32 6%N) d "c" [1]%N None None
     (MkHeader (replicate 32 3%N) 0 0) (replicate 50 0%N)).1 = d.
Proof.
  intros d. destruct (decrypt_from_peer _ _ d _ _ _ _ _ _) as [d' r] eqn:E.
  destruct (decrypt_from_peer_transactional _ _ _ _ _ _ _ _ _ _ _ E) as [Herr _].
  assert (Hr : (decrypt_from_peer 9 (replicate 32 6%N) d "c" [1]%N None None
     (MkHeader (replicate 32 3%N) 0 0) (replicate 50 0%N)).2 =
     Err (RatchetError "decryption failed: encryption error: XChaCha20-Poly1305 decryption failed: aead::Error"))
    by (vm_compute; reflexivity).
  rewrite E in Hr. exact (Herr _ Hr).
Defined.

Theorem first_message_delivered_witness :
  ∃ da' em, encrypt_for_peer 1 (replicate 32 1%N) (replicate 32 2%N) (replicate 24 0%N) ∅ "c"
     [1]%N (from_secret_bytes (replicate 32 3%N)) [2]%N
     (Some (X3dh.generate_prekey_bundle (replicate 32 4%N) (x25519_public (replicate 32 5%N)) true
              (replicate 32 6%N) (replicate 32 7%N))) [10; 20]%N = (da', Ok em) ∧
     has_session da' "c" = true.
Proof.
  destruct (first_message_delivered 1 (replicate 32 4%N) (replicate 32 3%N) (replicate 32 5%N)
    (replicate 32 6%N) (replicate 32 7%N) [2]%N true (replicate 32 1%N) (replicate 32 2%N)
    (replicate 32 8%N) (replicate 24 0%N) [10; 20]%N ∅ ∅ "c" [3]%N [1]%N)
    as (da' & em & im & ss & H1 & _ & _ & _ & H2); [reflexivity..|].
  exists da', em. split; [exact H1|exact H2].
Defined.
End witnesses.
