(* ===== verification/Epoch.v ===== *)
(** * Epoch keys: [crates/ephemera-crypto/src/epoch.rs], [epoch_crypto.rs]

    [EpochKeyManager] caches day keys derived from a master secret and keeps
    the list of epochs whose keys it destroyed.  The system clock is the
    argument [now].  The order in which a [HashMap] yields its keys is left to
    [elements]; no property depends on it. *)
From S2P Require Import Prelude Types Crypto.

Section epoch.
Context `{Primitives}.

Definition EPOCH_DURATION_SECS : N := 24 * 3600.
Definition MAX_EPOCH_KEY_AGE_SECS : N := 30 * EPOCH_DURATION_SECS.

Definition epoch_id_for_timestamp (unix_secs : N) : N := unix_secs / EPOCH_DURATION_SECS.

Record EpochKeyEntry := MkEntry {
  key : bytes;
  epoch_id : N;
  created_at : N;
  destroyed : bool
}.

Record EpochKeyManager := MkManager {
  master : bytes;
  keys : gmap N EpochKeyEntry;
  destroyed_epochs : list N
}.

Definition new (master : bytes) : EpochKeyManager := MkManager master ∅ [].

Definition is_destroyed (m : EpochKeyManager) (e : N) : bool := bool_decide (e ∈ destroyed_epochs m).

Abbreviation M := (SE EpochKeyManager EphemeraError).

Definition destroyed_error (e : N) : EphemeraError :=
  EncryptionError ("epoch key " +:+ pretty e +:+ " has been destroyed").

Definition insert_entry (e : N) (entry : EpochKeyEntry) (m : EpochKeyManager) : EpochKeyManager :=
  MkManager (master m) (<[e := entry]> (keys m)) (destroyed_epochs m).

Definition ensure_key (now_secs e : N) : M bytes :=
  let! self := se_get in
  match keys self !! e with
  | Some entry => if destroyed entry then se_lift (Err (destroyed_error e)) else se_ret (key entry)
  | None =>
      if is_destroyed self e then se_lift (Err (destroyed_error e))
      else
        let! k := se_lift (derive_epoch_key (master self) e) in
        let! _ := se_modify (insert_entry e (MkEntry k e now_secs false)) in
        se_ret k
  end.

Definition current_epoch_key (now : N) : M (N * bytes) :=
  let e := epoch_id_for_timestamp now in
  let! k := ensure_key now e in
  se_ret (e, k).

Definition epoch_key_for (now e : N) : M (option bytes) :=
  let! self := se_get in
  if is_destroyed self e then se_ret None
  else
    let! k := ensure_key now e in
    se_ret (Some k).

(** [rotate]: the new epoch id and the epochs marked for destruction. *)
Definition rotate (now_secs : N) : M (N * list N) :=
  let current := epoch_id_for_timestamp now_secs in
  let! _ := ensure_key now_secs current in
  let cutoff_epoch := (current - MAX_EPOCH_KEY_AGE_SECS / EPOCH_DURATION_SECS)%N in
  let! self := se_get in
  let marked := filter (λ e, (e < cutoff_epoch)%N ∧ is_destroyed self e = false)
                  (elements (dom (keys self))) in
  se_ret (current, marked).

(** [if !contains { push }]. *)
Definition push_new (l : list N) (e : N) : list N := if bool_decide (e ∈ l) then l else l ++ [e].

Definition destroy_one (m : EpochKeyManager) (e : N) : EpochKeyManager :=
  MkManager (master m) (delete e (keys m)) (push_new (destroyed_epochs m) e).

Definition destroy_expired_keys_at (now_secs : N) (m : EpochKeyManager) :
    EpochKeyManager * (list N * nat) :=
  let current_epoch := epoch_id_for_timestamp now_secs in
  if (MAX_EPOCH_KEY_AGE_SECS / EPOCH_DURATION_SECS <? current_epoch)%N then
    let cutoff_epoch := (current_epoch - MAX_EPOCH_KEY_AGE_SECS / EPOCH_DURATION_SECS)%N in
    let to_destroy := filter (λ e, e < cutoff_epoch)%N (elements (dom (keys m))) in
    (foldl destroy_one m to_destroy, (to_destroy, length to_destroy))
  else (m, ([], 0)).

Definition destroy_key (e : N) (m : EpochKeyManager) : EpochKeyManager * bool :=
  (destroy_one m e, bool_decide (is_Some (keys m !! e))).

Definition active_key_count (m : EpochKeyManager) : nat := size (keys m).

(** [epoch_crypto.rs]. *)
Definition encrypt_with_current_epoch (now : N) (nonce plaintext : bytes) : M (N * bytes) :=
  let! (e, k) := current_epoch_key now in
  let! sealed := se_lift (seal nonce k plaintext) in
  se_ret (e, sealed).

Definition decrypt_with_epoch_key (now e : N) (sealed : bytes) : M (option bytes) :=
  let! k := epoch_key_for now e in
  match k with
  | None => se_ret None
  | Some k => let! p := se_lift (open k sealed) in se_ret (Some p)
  end.

(** Anything a node does with its manager. *)
Inductive op :=
| OpCurrent (now : N) | OpKeyFor (now e : N) | OpRotate (now : N)
| OpExpire (now : N) | OpDestroy (e : N)
| OpEncrypt (now : N) (nonce p : bytes) | OpDecrypt (now e : N) (sealed : bytes).

Definition step (m : EpochKeyManager) (o : op) : EpochKeyManager :=
  match o with
  | OpCurrent now => (current_epoch_key now m).1
  | OpKeyFor now e => (epoch_key_for now e m).1
  | OpRotate now => (rotate now m).1
  | OpExpire now => (destroy_expired_keys_at now m).1
  | OpDestroy e => (destroy_key e m).1
  | OpEncrypt now n p => (encrypt_with_current_epoch now n p m).1
  | OpDecrypt now e c => (decrypt_with_epoch_key now e c m).1
  end.

Definition run (m : EpochKeyManager) (ops : list op) : EpochKeyManager := foldl step m ops.

(* ------------------------------------------------------------------ *)
(** ** Lemmas *)

(** No cached key is of a destroyed epoch, and each is its epoch's key. *)
Definition wf (m : EpochKeyManager) : Prop :=
  ∀ e entry, keys m !! e = Some entry →
    e ∉ destroyed_epochs m ∧ destroyed entry = false ∧
    derive_epoch_key (master m) e = Ok (key entry).

Lemma manager_new_wf s : wf (new s).
Proof. intros e entry. simpl. by rewrite lookup_empty. Qed.

Lemma push_new_elem l e x : x ∈ push_new l e ↔ x ∈ l ∨ x = e.
Proof. unfold push_new. case_bool_decide; set_solver. Qed.

(** What [ensure_key] may do: nothing, or cache the derived key. *)
Lemma ensure_key_spec now e m m' r :
  wf m → ensure_key now e m = (m', r) →
  wf m' ∧ master m' = master m ∧ destroyed_epochs m' = destroyed_epochs m ∧
  r = (if is_destroyed m e then Err (destroyed_error e) else derive_epoch_key (master m) e) ∧
  (∀ k, r = Ok k → ∃ entry, keys m' !! e = Some entry ∧ key entry = k) ∧
  (∀ x, x ≠ e → keys m' !! x = keys m !! x).
Proof.
  intros Hm. unfold ensure_key, se_bind, se_get, se_lift, se_ret, se_modify, is_destroyed. simpl.
  destruct (keys m !! e) as [entry|] eqn:El.
  - destruct (Hm e entry El) as (Hnd & Hd & Hk). rewrite Hd. intros [= <- <-].
    rewrite bool_decide_false by done. split_and!; try done.
    intros k [= <-]. by exists entry.
  - case_bool_decide as Hde; [by intros [= <- <-]; split_and!|].
    destruct (derive_epoch_key (master m) e) as [k|] eqn:Ek; simpl; intros [= <- <-];
      split_and!; try done.
    + intros x en. simpl. intros [[<- <-]|[Hne Hx]]%lookup_insert_Some; [done|]. by apply Hm.
    + intros k' [= <-]. simpl. rewrite lookup_insert_eq. by eexists.
    + intros x Hne. simpl. by apply lookup_insert_ne.
Qed.

Lemma destroy_one_wf m e : wf m → wf (destroy_one m e).
Proof.
  intros Hm x en. simpl. intros [Hne Hx]%lookup_delete_Some. destruct (Hm x en Hx) as (? & ? & ?).
  split_and!; try done. simpl. rewrite push_new_elem. naive_solver.
Qed.

Lemma destroy_fold l m :
  wf m →
  let m' := foldl destroy_one m l in
  wf m' ∧ master m' = master m ∧ (∀ x, x ∈ destroyed_epochs m' ↔ x ∈ destroyed_epochs m ∨ x ∈ l) ∧
  (∀ x, keys m' !! x = if decide (x ∈ l) then None else keys m !! x).
Proof.
  revert m; induction l as [|e l IH]; intros m Hm; simpl.
  { split_and!; try done. set_solver. }
  destruct (IH (destroy_one m e) (destroy_one_wf m e Hm)) as (Hw & Hma & Hd & Hk).
  split_and!; try done.
  - intros x. rewrite Hd. simpl. rewrite push_new_elem, elem_of_cons. tauto.
  - intros x. rewrite Hk. simpl. destruct (decide (x ∈ l)).
    + by rewrite decide_True by set_solver.
    + destruct (decide (x = e)) as [->|Hne].
      * rewrite lookup_delete_eq. by rewrite decide_True by set_solver.
      * rewrite lookup_delete_ne by done. by rewrite decide_False by set_solver.
Qed.

(** Steps keep [wf] and never forget a destruction. *)
Definition good (m m' : EpochKeyManager) : Prop :=
  wf m' ∧ master m' = master m ∧ (∀ e, e ∈ destroyed_epochs m → e ∈ destroyed_epochs m').

Lemma good_trans m1 m2 m3 : good m1 m2 → good m2 m3 → good m1 m3.
Proof. unfold good. intros (? & ? & ?) (? & ? & ?). split_and!; [done|congruence|auto]. Qed.

Lemma good_refl m : wf m → good m m.
Proof. by unfold good. Qed.

Lemma ensure_good now e m : wf m → good m (ensure_key now e m).1.
Proof.
  intros Hm. destruct (ensure_key now e m) as [m' r] eqn:E.
  destruct (ensure_key_spec _ _ _ _ _ Hm E) as (? & ? & Hd & _). split_and!; try done.
  simpl. by rewrite Hd.
Qed.

Lemma bind_good {A B} (f : M A) (k : A → M B) m :
  (∀ m, wf m → good m (f m).1) → (∀ a m, wf m → good m (k a m).1) →
  wf m → good m (se_bind f k m).1.
Proof.
  intros Hf Hk Hm. unfold se_bind. pose proof (Hf m Hm) as Hg.
  destruct (f m) as [m' [a|e]]; simpl in *; [|done].
  eapply good_trans; [done|]. apply Hk. apply Hg.
Qed.

Lemma pure_good {A} (r : result EphemeraError A) m : wf m → good m (se_lift r m).1.
Proof. apply good_refl. Qed.
Lemma ret_good {A} (a : A) m : wf m → good m (se_ret (E:=EphemeraError) a m).1.
Proof. apply good_refl. Qed.
Lemma get_good m : wf m → good m (se_get (E:=EphemeraError) m).1.
Proof. apply good_refl. Qed.

Lemma key_for_good now e m : wf m → good m (epoch_key_for now e m).1.
Proof.
  intros Hm. unfold epoch_key_for, se_bind at 1, se_get. case_match; [by apply ret_good|].
  apply bind_good; auto using ensure_good, ret_good.
Qed.

Lemma current_good now m : wf m → good m (current_epoch_key now m).1.
Proof. intros Hm. apply bind_good; auto using ensure_good, ret_good. Qed.

Lemma step_good m o : wf m → good m (step m o).
Proof.
  intros Hm. destruct o as [now|now e|now|now|e|now n p|now e c]; simpl.
  - by apply current_good.
  - by apply key_for_good.
  - apply bind_good; auto using ensure_good. intros a m0 Hm0.
    apply bind_good; auto using get_good, ret_good.
  - unfold destroy_expired_keys_at. case_match; [|by apply good_refl]. simpl.
    match goal with |- good _ (foldl _ _ ?l) => destruct (destroy_fold l m Hm) as (? & ? & Hd & _) end.
    split_and!; try done. intros x Hx. apply Hd. by left.
  - split_and!; [by apply destroy_one_wf|done|]. intros x Hx. simpl. rewrite push_new_elem. by left.
  - apply bind_good; auto using current_good. intros [e k] m0 Hm0.
    apply bind_good; auto using pure_good, ret_good.
  - apply bind_good; auto using key_for_good. intros [k|] m0 Hm0; [|by apply ret_good].
    apply bind_good; auto using pure_good, ret_good.
Qed.

Lemma run_good m ops : wf m → good m (run m ops).
Proof.
  unfold run. revert m; induction ops as [|o ops IH]; intros m Hm; simpl; [by apply good_refl|].
  pose proof (step_good m o Hm) as Hg. eapply good_trans; [done|]. apply IH. apply Hg.
Qed.

(* ------------------------------------------------------------------ *)
(** ** Properties *)

(** C34. A destroyed epoch stays destroyed: in every state a manager reaches
    afterwards by any operations, its key is not cached, [epoch_key_for] and
    [decrypt_with_epoch_key] answer [None] without touching the state, and
    [ensure_key] refuses. *)
Theorem destroyed_forever (ms : bytes) (ops1 ops2 : list op) (e now : N) (sealed : bytes)
  (Hd : is_destroyed (run (new ms) ops1) e = true) :
  let m := run (run (new ms) ops1) ops2 in
  is_destroyed m e = true ∧ keys m !! e = None ∧
  epoch_key_for now e m = (m, Ok None) ∧
  decrypt_with_epoch_key now e sealed m = (m, Ok None) ∧
  ensure_key now e m = (m, Err (destroyed_error e)).
Proof.
  intros m. destruct (run_good (new ms) ops1 (manager_new_wf ms)) as (Hw1 & _ & _).
  destruct (run_good _ ops2 Hw1) as (Hw & _ & Hk). fold m in Hw, Hk.
  assert (Hdm : is_destroyed m e = true).
  { unfold is_destroyed in *. apply bool_decide_eq_true, Hk. by apply bool_decide_eq_true in Hd. }
  assert (Hnone : keys m !! e = None).
  { destruct (keys m !! e) as [en|] eqn:El; [|done]. destruct (Hw e en El) as [Hn _].
    apply bool_decide_eq_true in Hdm. done. }
  split_and!; try done;
    unfold decrypt_with_epoch_key, epoch_key_for, ensure_key, se_bind, se_get, se_ret, se_lift;
    by rewrite ?Hnone, ?Hdm.
Qed.

(** [destroy_expired_keys_at] removes exactly the cached keys of epochs
    more than 30 days before the current one, reports them with their number,
    adds them to the destroyed list, and keeps every other key as it was. *)
Theorem destroy_expired_spec (m : EpochKeyManager) (now : N) (Hm : wf m) :
  let old e := (30 < now / 86400 ∧ e < now / 86400 - 30)%N in
  let '(m', (ids, count)) := destroy_expired_keys_at now m in
  wf m' ∧ count = length ids ∧ NoDup ids ∧
  (∀ e, e ∈ ids ↔ is_Some (keys m !! e) ∧ old e) ∧
  (∀ e, e ∈ destroyed_epochs m' ↔ e ∈ destroyed_epochs m ∨ e ∈ ids) ∧
  (∀ e, old e → keys m' !! e = None) ∧
  (∀ e, ¬ old e → keys m' !! e = keys m !! e).
Proof.
  cbv zeta. unfold destroy_expired_keys_at, epoch_id_for_timestamp.
  change (MAX_EPOCH_KEY_AGE_SECS / EPOCH_DURATION_SECS)%N with 30%N.
  change EPOCH_DURATION_SECS with 86400%N. set (c := (now / 86400)%N).
  destruct (30 <? c)%N eqn:E; bprop.
  - set (l := filter _ _). destruct (destroy_fold l m Hm) as (Hw & _ & Hd & Hk).
    assert (Hl : ∀ e, e ∈ l ↔ is_Some (keys m !! e) ∧ (30 < c ∧ e < c - 30)%N).
    { intros e. unfold l. rewrite list_elem_of_filter, elem_of_elements, elem_of_dom. intuition. }
    split_and!; auto.
    + apply NoDup_filter, NoDup_elements.
    + intros e Ho. rewrite Hk. case_decide as Hin; [done|].
      destruct (keys m !! e) eqn:El; [|done]. exfalso. apply Hin, Hl. rewrite El. eauto.
    + intros e Ho. rewrite Hk. rewrite decide_False; [done|]. rewrite Hl. tauto.
  - split_and!; auto; try lia; try constructor; set_solver by lia.
Qed.

Context `{!PrimitiveLaws}.

(** Destruction is not shredding: a key that is not cached when its epoch
    expires is not recorded as destroyed, and a manager rebuilt from the
    master secret records nothing; in both cases the expired epoch's key is
    derived again and decrypts what was encrypted under it. *)
Theorem shredding_is_reversible (m : EpochKeyManager) (e now later t : N) (nonce p sealed k : bytes)
  (Hm : wf m) (Hc : keys m !! e = None) (Hd : is_destroyed m e = false)
  (Hk : derive_epoch_key (master m) e = Ok k) (Hn : length nonce = NONCE_LEN)
  (Hs : seal nonce k p = Ok sealed) :
  (decrypt_with_epoch_key later e sealed (destroy_expired_keys_at now m).1).2 = Ok (Some p) ∧
  (decrypt_with_epoch_key later e sealed (new (master (destroy_key e m).1))).2 = Ok (Some p).
Proof.
  assert (Hgen : ∀ m0, keys m0 !! e = None → is_destroyed m0 e = false → master m0 = master m →
    (decrypt_with_epoch_key later e sealed m0).2 = Ok (Some p)).
  { intros m0 H1 H2 H3. unfold decrypt_with_epoch_key, epoch_key_for, ensure_key, se_bind, se_get.
    rewrite H2, H1. unfold se_lift, se_modify, se_ret. rewrite H3, Hk. cbn -[open].
    rewrite H2. cbn -[open]. by rewrite (open_seal nonce k p sealed Hn Hs). }
  split; apply Hgen; try done.
  - unfold destroy_expired_keys_at. case_match; [|done]. simpl.
    match goal with |- keys (foldl _ _ ?l) !! _ = _ =>
      destruct (destroy_fold l m Hm) as (_ & _ & _ & Hkk) end.
    rewrite Hkk. by case_decide.
  - unfold destroy_expired_keys_at. case_match; [|done]. simpl.
    match goal with |- is_destroyed (foldl _ _ ?l) _ = _ =>
      destruct (destroy_fold l m Hm) as (_ & _ & Hdd & _) end.
    unfold is_destroyed in *. apply bool_decide_eq_false. rewrite Hdd.
    intros [?|Hin]; [by apply bool_decide_eq_false in Hd|].
    apply list_elem_of_filter in Hin as [_ Hin]. apply elem_of_elements, elem_of_dom in Hin as [? Hin].
    congruence.
  - unfold destroy_expired_keys_at. case_match; [|done]. simpl.
    match goal with |- master (foldl _ _ ?l) = _ =>
      by destruct (destroy_fold l m Hm) as (_ & ? & _) end.
Qed.
End epoch.

Section witnesses.
Import Toy.
#[local] Existing Instance toy.

Let secret0 : bytes := replicate 32 3%N.
Definition demo_ops : list op := [OpCurrent 86400; OpExpire (40 * 86400)].
Definition demo_key : bytes := mix (secret0 ++ bstr "ephemera-epoch" ++ le_bytes 8 5).
Definition demo_nonce : bytes := replicate 24 9%N.

Lemma destroyed_forever_witness :
  is_destroyed (run (run (new secret0) demo_ops) [OpKeyFor 5 1; OpRotate (40 * 86400)]) 1 = true.
Proof.
  apply (destroyed_forever secret0 demo_ops [OpKeyFor 5 1; OpRotate (40 * 86400)] 1 0 []).
  vm_compute. reflexivity.
Defined.

Lemma destroy_expired_spec_witness :
  let m := run (new secret0) [OpCurrent 86400; OpCurrent (39 * 86400)] in
  keys (destroy_expired_keys_at (40 * 86400) m).1 !! 1%N = None ∧
  is_Some (keys (destroy_expired_keys_at (40 * 86400) m).1 !! 39%N).
Proof.
  cbv zeta. pose proof (destroy_expired_spec (run (new secret0) [OpCurrent 86400; OpCurrent (39 * 86400)])
    (40 * 86400) (proj1 (run_good _ _ (manager_new_wf secret0)))) as D. cbv zeta in D.
  destruct (destroy_expired_keys_at _ _) as [m' [ids count]]. simpl.
  destruct D as (_ & _ & _ & _ & _ & D1 & D2). split.
  - apply D1. vm_compute. split; reflexivity.
  - rewrite D2 by (vm_compute; intros [_ ?]; discriminate). vm_compute. eauto.
Defined.

Lemma shredding_is_reversible_witness :
  ∃ sealed, seal demo_nonce demo_key [1%N] = Ok sealed ∧
  (decrypt_with_epoch_key 9 5 sealed (destroy_expired_keys_at (400 * 86400) (new secret0)).1).2 =
    Ok (Some [1%N]).
Proof.
  eexists. split; [vm_compute; reflexivity|].
  apply (shredding_is_reversible (new secret0) 5 (400 * 86400) 9 0 demo_nonce [1%N] _ demo_key);
    [apply manager_new_wf|vm_compute; reflexivity..].
Defined.
End witnesses.
