(* ===== verification/Handles.v ===== *)
(** * Handles: [crates/ephemera-social/src/handle_validation.rs], [handle.rs]

    [@name] records bound to an identity key: format rules, the signed and
    mined record, and the registry with its cooldowns and the rule that
    decides between two records for one name.  The clock is the argument
    [now]; mining runs under fuel (see [Pow]); an operation's error is either
    a [HandleError] or, from mining, an [abort]. *)
From S2P Require Import Prelude Types Crypto Pow Unicode.

(* ------------------------------------------------------------------ *)
(** ** Format *)

Definition MIN_HANDLE_LEN : nat := 3.
Definition MAX_HANDLE_LEN : nat := 20.
Definition POW_DIFFICULTY_HIGH : N := 11.
Definition POW_DIFFICULTY_MEDIUM : N := 9.
Definition POW_DIFFICULTY_LOW : N := 7.
Definition POW_DIFFICULTY_RENEWAL : N := 5.
Definition HANDLE_TTL_SECS : N := 90 * 24 * 60 * 60.
Definition HANDLE_RELEASE_COOLDOWN_SECS : N := 24 * 60 * 60.
Definition HANDLE_REGISTRATION_COOLDOWN_SECS : N := 24 * 60 * 60.
Definition POW_DOMAIN : bytes := bstr "ephemera-handle-pow-v1" ++ [0%N].
Definition SIG_DOMAIN : bytes := bstr "ephemera-handle-sig-v1" ++ [0%N].

Definition RESERVED_HANDLES : list str :=
  [lit "admin"; lit "administrator"; lit "ephemera"; lit "help"; lit "info"; lit "mod";
   lit "moderator"; lit "official"; lit "root"; lit "staff"; lit "support"; lit "system";
   lit "team"; lit "trust"; lit "security"].

Inductive PowDifficulty := High | Medium | Low | Renewal.

Definition bits (d : PowDifficulty) : N :=
  match d with
  | High => POW_DIFFICULTY_HIGH
  | Medium => POW_DIFFICULTY_MEDIUM
  | Low => POW_DIFFICULTY_LOW
  | Renewal => POW_DIFFICULTY_RENEWAL
  end.

Inductive HandleValidationError :=
| TooShort (len : nat)
| TooLong (len : nat)
| InvalidCharacter (ch : N) (pos : nat)
| StartsWithUnderscore
| EndsWithUnderscore
| ConsecutiveUnderscores
| Reserved (name : str)
| StartsWithDigit.

Definition handle_char (ch : N) : bool :=
  is_ascii_lowercase ch || is_ascii_digit ch || (ch =? underscore)%N.

Definition validate_handle_format (name : str) : result HandleValidationError unit :=
  let len := str_len name in
  if len <? MIN_HANDLE_LEN then Err (TooShort len)
  else if MAX_HANDLE_LEN <? len then Err (TooLong len)
  else match list_find (λ ch, handle_char ch = false) name with
  | Some (pos, ch) => Err (InvalidCharacter ch pos)
  | None =>
      if bool_decide (head name = Some underscore) then Err StartsWithUnderscore
      else if bool_decide (last name = Some underscore) then Err EndsWithUnderscore
      else if contains [underscore; underscore] name then Err ConsecutiveUnderscores
      else if is_ascii_digit (as_bytes name !!! 0) then Err StartsWithDigit
      else if bool_decide (name ∈ RESERVED_HANDLES) then Err (Reserved name)
      else Ok tt
  end.

Definition calculate_pow_difficulty (name : str) : PowDifficulty :=
  let len := str_len name in
  if len <=? 5 then High else if len <=? 10 then Medium else Low.

(** The common layout of the mined and the signed message: the name's length
    as a [u16], the name, the owner, the registration time. *)
Definition record_bytes (domain : bytes) (name : str) (owner : bytes) (registered_at : N) : bytes :=
  let name_bytes := as_bytes name in
  domain ++ be_bytes 2 (N.of_nat (length name_bytes)) ++ name_bytes ++ owner ++ be_bytes 8 registered_at.

Definition build_pow_challenge := record_bytes POW_DOMAIN.
Definition build_signature_message := record_bytes SIG_DOMAIN.

Section handles.
Context `{Primitives}.

Definition verify_handle_pow (name : str) (owner : bytes) (registered_at : N) (pow_proof : PowStamp)
    (required : PowDifficulty) : result EphemeraError unit :=
  verify_pow pow_proof (build_pow_challenge name owner registered_at) (bits required).

Definition verify_handle_signature (name : str) (owner : bytes) (registered_at : N) (signature : bytes) :
    result CryptoError unit :=
  verify_signature owner (build_signature_message name owner registered_at) signature.

(* ------------------------------------------------------------------ *)
(** ** Records and the registry *)

Record Handle := MkHandle {
  name : str;
  owner : bytes;
  registered_at : N;
  expires_at : N;
  pow_proof : PowStamp;
  signature : bytes
}.

Definition is_expired_at (h : Handle) (now_secs : N) : bool := (expires_at h <=? now_secs)%N.

Inductive HandleError :=
| InvalidFormat (e : HandleValidationError)
| AlreadyTaken (name : str)
| IdentityAlreadyHasHandle (existing : str)
| RegistrationRateLimited (remaining_secs : N)
| InCooldown (name : str) (available_at : N)
| InvalidPow (reason : string)
| InvalidSignature
| NotOwner (name : str)
| Expired (name : str).

Record HandleRegistry := MkRegistry {
  handles : gmap str Handle;
  owner_to_handle : gmap bytes str;
  last_registration : gmap bytes N;
  cooldowns : gmap str N
}.

Definition new : HandleRegistry := MkRegistry ∅ ∅ ∅ ∅.

(** [self.handles.remove(name); self.owner_to_handle.remove(owner)]. *)
Definition drop_handle (n : str) (o : bytes) (r : HandleRegistry) : HandleRegistry :=
  MkRegistry (delete n (handles r)) (delete o (owner_to_handle r)) (last_registration r) (cooldowns r).
(** [self.handles.insert(name, h); self.owner_to_handle.insert(owner, name)]. *)
Definition put_handle (h : Handle) (r : HandleRegistry) : HandleRegistry :=
  MkRegistry (<[name h := h]> (handles r)) (<[owner h := name h]> (owner_to_handle r))
    (last_registration r) (cooldowns r).
Definition set_cooldowns (f : gmap str N → gmap str N) (r : HandleRegistry) : HandleRegistry :=
  MkRegistry (handles r) (owner_to_handle r) (last_registration r) (f (cooldowns r)).
Definition set_last (o : bytes) (now : N) (r : HandleRegistry) : HandleRegistry :=
  MkRegistry (handles r) (owner_to_handle r) (<[o := now]> (last_registration r)) (cooldowns r).

Abbreviation M := (SE HandleRegistry (HandleError + abort)).
Definition fail {A} (e : HandleError) : M A := se_lift (Err (inl e)).

(** [identity_key_from_pseudonym] and [PseudonymIdentity::sign]; an identity is its seed. *)
Definition identity_key_from_pseudonym (identity : bytes) : bytes := public_key identity.
Definition pseudonym_sign (identity message : bytes) : result EphemeraError bytes := Ok (sign identity message).
(** [Signature::from_slice]. *)
Definition signature_from_slice (b : bytes) : option bytes := if length b =? 64 then Some b else None.

Definition sign_record (identity : bytes) (n : str) (o : bytes) (now_secs : N) : result HandleError bytes :=
  let? sig_bytes := map_err (λ _, InvalidSignature)
                      (pseudonym_sign identity (build_signature_message n o now_secs)) in
  ok_or (signature_from_slice sig_bytes) InvalidSignature.

(** The four guards of [register_with_difficulty], in its order. *)
Definition check_owner (o : bytes) (now_secs : N) : M unit :=
  let! self := se_get in
  match owner_to_handle self !! o with
  | Some existing =>
      match handles self !! existing with
      | Some h => if negb (is_expired_at h now_secs) then fail (IdentityAlreadyHasHandle existing)
                  else se_modify (drop_handle existing o)
      | None => se_ret tt
      end
  | None => se_ret tt
  end.

Definition check_rate (o : bytes) (now_secs : N) : M unit :=
  let! self := se_get in
  match last_registration self !! o with
  | Some last =>
      let elapsed := (now_secs - last)%N in
      if (elapsed <? HANDLE_REGISTRATION_COOLDOWN_SECS)%N
      then fail (RegistrationRateLimited (HANDLE_REGISTRATION_COOLDOWN_SECS - elapsed))
      else se_ret tt
  | None => se_ret tt
  end.

Definition check_name (n : str) (now_secs : N) : M unit :=
  let! self := se_get in
  match handles self !! n with
  | Some existing => if negb (is_expired_at existing now_secs) then fail (AlreadyTaken n)
                     else se_modify (drop_handle n (owner existing))
  | None => se_ret tt
  end.

Definition check_cooldown (n : str) (now_secs : N) : M unit :=
  let! self := se_get in
  match cooldowns self !! n with
  | Some cooldown_until => if (now_secs <? cooldown_until)%N then fail (InCooldown n cooldown_until)
                           else se_modify (set_cooldowns (delete n))
  | None => se_ret tt
  end.

Definition register_with_difficulty (fuel : nat) (n : str) (identity : bytes)
    (difficulty : PowDifficulty) (now_secs : N) : M Handle :=
  let! _ := se_lift (map_err (λ e, inl (InvalidFormat e)) (validate_handle_format n)) in
  let o := identity_key_from_pseudonym identity in
  let! _ := check_owner o now_secs in
  let! _ := check_rate o now_secs in
  let! _ := check_name n now_secs in
  let! _ := check_cooldown n now_secs in
  let! pow := se_lift (map_err inr (generate_pow fuel (build_pow_challenge n o now_secs) (bits difficulty))) in
  let! sig := se_lift (map_err inl (sign_record identity n o now_secs)) in
  let handle := MkHandle n o now_secs (add64 now_secs HANDLE_TTL_SECS) pow sig in
  let! _ := se_modify (put_handle handle) in
  let! _ := se_modify (set_last o now_secs) in
  se_ret handle.

Definition register (fuel : nat) (n : str) (identity : bytes) (now_secs : N) : M Handle :=
  let normalized := to_ascii_lowercase n in
  register_with_difficulty fuel normalized identity (calculate_pow_difficulty normalized) now_secs.

Definition validate (h : Handle) (now_secs : N) : result HandleError unit :=
  let? _ := map_err InvalidFormat (validate_handle_format (name h)) in
  if is_expired_at h now_secs then Err (Expired (name h))
  else if negb (expires_at h =? add64 (registered_at h) HANDLE_TTL_SECS)%N then
    Err (InvalidPow "expires_at does not match registered_at + TTL")
  else
    let? _ := map_err (λ _, InvalidSignature)
                (verify_handle_signature (name h) (owner h) (registered_at h) (signature h)) in
    map_err (λ e, InvalidPow (error_display e))
      (verify_handle_pow (name h) (owner h) (registered_at h) (pow_proof h)
         (calculate_pow_difficulty (name h))).

Definition lookup_name (r : HandleRegistry) (n : str) : option Handle := handles r !! to_ascii_lowercase n.
Definition lookup_by_owner (r : HandleRegistry) (o : bytes) : option Handle :=
  n ← owner_to_handle r !! o; handles r !! n.

Definition renew (fuel : nat) (n : str) (identity : bytes) (now_secs : N) : M unit :=
  let o := identity_key_from_pseudonym identity in
  let! self := se_get in
  match handles self !! n with
  | None => fail (Expired n)
  | Some h =>
      if negb (bool_decide (owner h = o)) then fail (NotOwner n)
      else if is_expired_at h now_secs then fail (Expired n)
      else
        let! pow := se_lift (map_err inr (generate_pow fuel (build_pow_challenge n o now_secs)
                                            (bits Renewal))) in
        let! sig := se_lift (map_err inl (sign_record identity n o now_secs)) in
        let h' := MkHandle (name h) (owner h) now_secs (add64 now_secs HANDLE_TTL_SECS) pow sig in
        se_modify (λ r, MkRegistry (<[n := h']> (handles r)) (owner_to_handle r)
                          (last_registration r) (cooldowns r))
  end.

Definition release (n : str) (identity : bytes) (now_secs : N) : M unit :=
  let o := identity_key_from_pseudonym identity in
  let! self := se_get in
  match handles self !! n with
  | None => fail (NotOwner n)
  | Some h =>
      if negb (bool_decide (owner h = o)) then fail (NotOwner n)
      else
        let! _ := se_modify (drop_handle n o) in
        se_modify (set_cooldowns (<[n := add64 now_secs HANDLE_RELEASE_COOLDOWN_SECS]>))
  end.

Inductive ConflictResult := Accept | IncomingWins | ExistingWins.
Inductive InsertOutcome := Inserted | Replaced (displaced_owner : bytes) | Rejected.

Definition resolve_conflict (r : HandleRegistry) (incoming : Handle) (now_secs : N) : ConflictResult :=
  match handles r !! name incoming with
  | None => Accept
  | Some existing =>
      if is_expired_at existing now_secs then Accept
      else if (registered_at incoming <? registered_at existing)%N then IncomingWins
      else if (registered_at incoming =? registered_at existing)%N then
        if bytes_ltb (owner incoming) (owner existing) then IncomingWins else ExistingWins
      else ExistingWins
  end.

(** [owner_to_handle.remove(&prev.owner)] for the handle a name has, if any. *)
Definition unindex (n : str) (r : HandleRegistry) : HandleRegistry :=
  match handles r !! n with
  | Some prev => MkRegistry (handles r) (delete (owner prev) (owner_to_handle r))
                   (last_registration r) (cooldowns r)
  | None => r
  end.

Definition insert_validated (h : Handle) (now_secs : N) (r : HandleRegistry) :
    HandleRegistry * InsertOutcome :=
  match resolve_conflict r h now_secs with
  | ExistingWins => (r, Rejected)
  | Accept => (put_handle h (unindex (name h) r), Inserted)
  | IncomingWins =>
      (put_handle h (unindex (name h) r),
       match handles r !! name h with Some e => Replaced (owner e) | None => Inserted end)
  end.

Definition gc_remove (r : HandleRegistry) (n : str) : HandleRegistry :=
  match handles r !! n with Some h => drop_handle n (owner h) r | None => r end.

Definition gc (now_secs : N) (r : HandleRegistry) : HandleRegistry :=
  let expired_names := fst <$> filter (λ p, is_expired_at p.2 now_secs = true) (map_to_list (handles r)) in
  set_cooldowns (filter (λ p, (now_secs < p.2)%N)) (foldl gc_remove r expired_names).

(** Everything that changes a registry. *)
Inductive op :=
| ORegister (fuel : nat) (n : str) (identity : bytes) (now : N)
| ORegisterWith (fuel : nat) (n : str) (identity : bytes) (d : PowDifficulty) (now : N)
| ORenew (fuel : nat) (n : str) (identity : bytes) (now : N)
| ORelease (n : str) (identity : bytes) (now : N)
| OInsert (h : Handle) (now : N)
| OGc (now : N).

Definition step (r : HandleRegistry) (o : op) : HandleRegistry :=
  match o with
  | ORegister fuel n i now => (register fuel n i now r).1
  | ORegisterWith fuel n i d now => (register_with_difficulty fuel n i d now r).1
  | ORenew fuel n i now => (renew fuel n i now r).1
  | ORelease n i now => (release n i now r).1
  | OInsert h now => (insert_validated h now r).1
  | OGc now => gc now r
  end.

Definition run (r : HandleRegistry) (ops : list op) : HandleRegistry := foldl step r ops.

(** The time of an operation, and whether it applies a record from the network. *)
Definition op_time (o : op) : N :=
  match o with
  | ORegister _ _ _ now | ORegisterWith _ _ _ _ now | ORenew _ _ _ now
  | ORelease _ _ now | OInsert _ now | OGc now => now
  end.
Definition is_insert (o : op) : bool := match o with OInsert _ _ => true | _ => false end.

(* ------------------------------------------------------------------ *)
(** ** Lemmas: what the operations do to a registry *)

(** An operation is made of these elementary updates. *)
Inductive upd (now : N) : HandleRegistry → HandleRegistry → Prop :=
| UDrop r n h : handles r !! n = Some h → upd now r (drop_handle n (owner h) r)
| UPut r h : handles r !! name h = None → lookup_by_owner r (owner h) = None → upd now r (put_handle h r)
| ULast r o t : upd now r (set_last o t r)
| UForget r n u : cooldowns r !! n = Some u → (u ≤ now)%N → upd now r (set_cooldowns (delete n) r)
| UCool r n : upd now r (set_cooldowns (<[n := add64 now HANDLE_RELEASE_COOLDOWN_SECS]>) r)
| UPrune r : upd now r (set_cooldowns (filter (λ p, (now < p.2)%N)) r)
| URenew r n h h' : handles r !! n = Some h → name h' = name h → owner h' = owner h →
    upd now r (MkRegistry (<[n := h']> (handles r)) (owner_to_handle r) (last_registration r) (cooldowns r)).
Definition upds (now : N) : HandleRegistry → HandleRegistry → Prop := rtc (upd now).

(** Each name is its key and the owner index points to handles of that owner. *)
Definition indexed (r : HandleRegistry) : Prop :=
  (∀ n h, handles r !! n = Some h → name h = n) ∧
  (∀ o n, owner_to_handle r !! o = Some n → ∃ h, handles r !! n = Some h ∧ owner h = o).

(** Every handle is the one its owner's index entry names. *)
Definition exact (r : HandleRegistry) : Prop :=
  ∀ n h, handles r !! n = Some h → owner_to_handle r !! owner h = Some n.

Lemma drop_indexed n h r : indexed r → handles r !! n = Some h → indexed (drop_handle n (owner h) r).
Proof.
  intros [Hn Ho] Hh. split; simpl.
  - intros n' h'. intros [_ ?]%lookup_delete_Some. auto.
  - intros o n'. intros [Hne Hl]%lookup_delete_Some.
    destruct (Ho o n' Hl) as (h' & Hh' & <-). exists h'. split; [|done].
    rewrite lookup_delete_ne; [done|]. intros ->. congruence.
Qed.

Lemma drop_exact n h r : indexed r → exact r → handles r !! n = Some h → exact (drop_handle n (owner h) r).
Proof.
  intros [Hn Ho] He Hh n' h'. simpl. intros [Hne Hl]%lookup_delete_Some.
  rewrite lookup_delete_ne; [by apply He|]. intros E. apply Hne.
  pose proof (He _ _ Hh) as H1. pose proof (He _ _ Hl) as H2. congruence.
Qed.

Lemma upd_indexed now r r' : indexed r → upd now r r' → indexed r'.
Proof.
  intros Hi U. destruct U as [r n h Hh|r h Hh Ho|r o t|r n u|r n|r|r n h h' Hh Hn Ho'];
    try exact Hi; [by apply drop_indexed|..].
  - destruct Hi as [Hn Hx]. split; simpl.
    + intros n' h'. intros [[<- <-]|[_ ?]]%lookup_insert_Some; auto.
    + intros o n'. intros [[<- <-]|[Hne Hl]]%lookup_insert_Some.
      * exists h. by rewrite lookup_insert_eq.
      * destruct (Hx o n' Hl) as (h' & Hh' & <-). exists h'. split; [|done].
        rewrite lookup_insert_ne; [done|]. intros <-. congruence.
  - destruct Hi as [Hnm Hx]. split; simpl.
    + intros n' h''. intros [[<- <-]|[_ ?]]%lookup_insert_Some; [|auto]. rewrite Hn. auto.
    + intros o n' Hl. destruct (Hx o n' Hl) as (h'' & Hh'' & <-).
      destruct (decide (n = n')) as [->|Hne]; [|by exists h''; rewrite lookup_insert_ne].
      exists h'. rewrite lookup_insert_eq. split; [done|]. rewrite Ho'. congruence.
Qed.

Lemma upd_exact now r r' : indexed r → exact r → upd now r r' → exact r'.
Proof.
  intros Hi He U. destruct U as [r n h Hh|r h Hh Ho|r o t|r n u|r n|r|r n h h' Hh Hn Ho'];
    try exact He; [by apply drop_exact|..].
  - intros n' h'. simpl. intros [[<- <-]|[Hne Hl]]%lookup_insert_Some; [apply lookup_insert_eq|].
    rewrite lookup_insert_ne; [by apply He|]. intros E. unfold lookup_by_owner in Ho.
    rewrite E, (He _ _ Hl) in Ho. simpl in Ho. congruence.
  - intros n' h''. simpl. intros [[<- <-]|[_ ?]]%lookup_insert_Some; [|by apply He].
    rewrite Ho'. by apply He.
Qed.

(** Cooldowns of [n] survive while the clock is before [u]. *)
Definition cooling (n : str) (u : N) (r : HandleRegistry) : Prop := ∃ v, cooldowns r !! n = Some v ∧ (u ≤ v)%N.

Lemma upd_cooling now n u r r' :
  (now < u)%N → (u ≤ add64 now HANDLE_RELEASE_COOLDOWN_SECS)%N →
  cooling n u r → upd now r r' → cooling n u r'.
Proof.
  intros Hu Hw (v & Hv & Hle) U.
  destruct U as [| | |r n' u' Hc Hu'|r n'|r|]; try (by exists v); unfold cooling; simpl.
  - exists v. rewrite lookup_delete_ne; [done|]. intros ->. rewrite Hv in Hc. injection Hc as ->. lia.
  - destruct (decide (n' = n)) as [->|]; [rewrite lookup_insert_eq; eauto|].
    rewrite lookup_insert_ne by done. eauto.
  - exists v. split; [|done]. apply map_lookup_filter_Some. simpl. split; [done|lia].
Qed.

(* ------------------------------------------------------------------ *)
(** ** Lemmas: registration *)

Definition free_owner (o : bytes) (r : HandleRegistry) : Prop := lookup_by_owner r o = None.

Lemma drop_free_owner n o o' r : free_owner o r → free_owner o (drop_handle n o' r).
Proof.
  unfold free_owner, lookup_by_owner. simpl. intros Hf.
  destruct (decide (o' = o)) as [->|]; [by rewrite lookup_delete_eq|].
  rewrite lookup_delete_ne by done. destruct (owner_to_handle r !! o) as [m|]; [|done]. simpl in *.
  destruct (decide (n = m)) as [->|]; [apply lookup_delete_eq|by rewrite lookup_delete_ne].
Qed.

(** What a successful registration leaves. *)
Definition registered fuel n identity difficulty now (h : Handle) (r : HandleRegistry) : Prop :=
  validate_handle_format n = Ok tt ∧
  name h = n ∧ owner h = identity_key_from_pseudonym identity ∧ registered_at h = now ∧
  expires_at h = add64 now HANDLE_TTL_SECS ∧
  generate_pow fuel (build_pow_challenge n (owner h) now) (bits difficulty) = Ok (pow_proof h) ∧
  sign_record identity n (owner h) now = Ok (signature h) ∧
  handles r !! n = Some h ∧ owner_to_handle r !! owner h = Some n ∧ last_registration r !! owner h = Some now.

(** What the guards have established so far. *)
Definition owner_ok o r := indexed r ∧ free_owner o r.
Definition name_ok o n r := indexed r ∧ free_owner o r ∧ handles r !! n = None.

Lemma check_owner_triple o now : triple (upd now) indexed (check_owner o now) (λ _, owner_ok o).
Proof.
  eapply triple_bind; [apply triple_get|]. intros self. unfold owner_ok, free_owner, lookup_by_owner.
  destruct (owner_to_handle self !! o) as [m|] eqn:Eo.
  2: { apply triple_ret. intros r [-> ?]. by rewrite Eo. }
  destruct (handles self !! m) as [h|] eqn:Eh.
  2: { apply triple_ret. intros r [-> ?]. rewrite Eo. simpl. by rewrite Eh. }
  case_match; [by apply triple_err|]. apply triple_modify. intros r [-> Hi].
  destruct (proj2 Hi o m Eo) as (h' & Eh' & Eow). assert (h' = h) as -> by congruence.
  rewrite <- Eow. split; [apply rtc_once; by constructor|].
  split; [by apply drop_indexed|]. simpl. by rewrite lookup_delete_eq.
Qed.

Lemma check_rate_triple o now (P : HandleRegistry → Prop) :
  triple (upd now) P (check_rate o now) (λ _, P).
Proof.
  eapply triple_bind; [apply triple_get|]. intros self.
  destruct (last_registration self !! o); cbv zeta; [case_match; [by apply triple_err|]|];
    apply triple_ret; by intros r [_ ?].
Qed.

Lemma check_name_triple o n now :
  triple (upd now) (owner_ok o) (check_name n now) (λ _, name_ok o n).
Proof.
  eapply triple_bind; [apply triple_get|]. intros self.
  destruct (handles self !! n) as [h|] eqn:Eh.
  2: { apply triple_ret. intros r [-> [? ?]]. done. }
  case_match; [by apply triple_err|]. apply triple_modify. intros r [-> [Hi Hf]].
  split; [apply rtc_once; by constructor|].
  split_and!; [by apply drop_indexed|by apply drop_free_owner|]. simpl. apply lookup_delete_eq.
Qed.

Lemma check_cooldown_triple o n now :
  triple (upd now) (name_ok o n) (check_cooldown n now) (λ _, name_ok o n).
Proof.
  eapply triple_bind; [apply triple_get|]. intros self.
  destruct (cooldowns self !! n) as [u|] eqn:Ec.
  2: { apply triple_ret. by intros r [_ ?]. }
  destruct (now <? u)%N eqn:Eu; [by apply triple_err|]. apply triple_modify. bprop.
  intros r [-> ?]. split; [apply rtc_once; by econstructor|done].
Qed.

Lemma register_triple fuel n identity d now :
  triple (upd now) indexed (register_with_difficulty fuel n identity d now)
    (registered fuel n identity d now).
Proof.
  unfold register_with_difficulty. set (o := identity_key_from_pseudonym identity).
  destruct (validate_handle_format n) as [[]|e] eqn:Hv; [|intros r Hr; by split].
  eapply triple_bind; [apply triple_lift|]. intros ?.
  eapply triple_bind; [eapply triple_conseq; [apply (check_owner_triple o)|by intros r [_ ?]|done]|].
  intros ?. eapply triple_bind; [apply check_rate_triple|].
  intros ?. eapply triple_bind; [apply check_name_triple|].
  intros ?. eapply triple_bind; [apply check_cooldown_triple|].
  intros ?. eapply triple_bind; [apply triple_lift|]. intros pow.
  eapply triple_bind; [apply triple_lift|]. intros sig. cbv zeta.
  set (h := MkHandle n o now _ pow sig).
  apply (triple_bind _ _ _ (λ _ r,
    generate_pow fuel (build_pow_challenge n o now) (bits d) = Ok pow ∧
    sign_record identity n o now = Ok sig ∧
    handles r !! n = Some h ∧ owner_to_handle r !! o = Some n)).
  { apply triple_modify. intros r (Hs & Hp & Hi & Hf & Hn).
    split; [apply rtc_once; by constructor|]. simpl. rewrite !lookup_insert_eq. split_and!; try done.
    - by destruct (generate_pow _ _ _) as [?|?]; simplify_eq/=.
    - by destruct (sign_record _ _ _ _) as [?|?]; simplify_eq/=. }
  intros ?. apply (triple_bind _ _ _ (λ _, registered fuel n identity d now h)).
  { apply triple_modify. intros r (Hp & Hs & Hn & Ho).
    split; [apply rtc_once; by constructor|]. unfold registered. simpl. by rewrite lookup_insert_eq. }
  intros ?. by apply triple_ret.
Qed.

Lemma renew_triple fuel n identity now :
  triple (upd now) indexed (renew fuel n identity now) (λ _ _, True).
Proof.
  eapply triple_bind; [apply triple_get|]. intros self.
  destruct (handles self !! n) as [h|] eqn:Eh; [|by apply triple_err].
  case_match; [by apply triple_err|]. case_match; [by apply triple_err|].
  eapply triple_bind; [apply triple_lift|]. intros pow.
  eapply triple_bind; [apply triple_lift|]. intros sig.
  apply triple_modify. intros r (_ & _ & -> & _). split; [|done].
  apply rtc_once. by apply (URenew _ _ _ h).
Qed.

Lemma release_triple n identity now :
  triple (upd now) indexed (release n identity now) (λ _ r, handles r !! n = None ∧
    cooldowns r !! n = Some (add64 now HANDLE_RELEASE_COOLDOWN_SECS)).
Proof.
  eapply triple_bind; [apply triple_get|]. intros self.
  destruct (handles self !! n) as [h|] eqn:Eh; [|by apply triple_err].
  case_bool_decide as Ho; simpl; [|by apply triple_err].
  apply (triple_bind _ _ _ (λ _ r, handles r !! n = None)).
  - apply triple_modify. intros r [-> _]. rewrite <- Ho. split; [apply rtc_once; by constructor|].
    simpl. apply lookup_delete_eq.
  - intros ?. apply triple_modify. intros r Hr. split; [apply rtc_once; by constructor|].
    simpl. by rewrite lookup_insert_eq.
Qed.

Lemma gc_fold_upds now ns r :
  rtc (upd now) r (foldl gc_remove r ns) ∧
  (∀ n, handles (foldl gc_remove r ns) !! n = if decide (n ∈ ns) then None else handles r !! n).
Proof.
  revert r; induction ns as [|n ns IH]; intros r; simpl; [done|].
  destruct (IH (gc_remove r n)) as [Hr Hl]. split.
  - etrans; [|done]. unfold gc_remove. case_match; [|done]. apply rtc_once. by constructor.
  - intros m. rewrite Hl. destruct (decide (m ∈ ns)) as [Hin|Hin].
    { by rewrite decide_True by set_solver. }
    unfold gc_remove. destruct (decide (m = n)) as [->|Hne].
    + rewrite decide_True by set_solver. destruct (handles r !! n) eqn:E; [apply lookup_delete_eq|done].
    + rewrite decide_False by set_solver. destruct (handles r !! n) eqn:E; [|done].
      by apply lookup_delete_ne.
Qed.

Lemma gc_upds now r : rtc (upd now) r (gc now r).
Proof. unfold gc. eapply rtc_r; [apply gc_fold_upds|constructor]. Qed.

(** Every local operation is a sequence of elementary updates. *)
Lemma step_upds o r : indexed r → is_insert o = false → rtc (upd (op_time o)) r (step r o).
Proof.
  intros Hi Ho. destruct o as [fuel n i now|fuel n i d now|fuel n i now|n i now|h now|now]; simpl; try done.
  - unfold register. apply (register_triple _ _ _ _ _ r Hi).
  - apply (register_triple _ _ _ _ _ r Hi).
  - apply (renew_triple _ _ _ _ r Hi).
  - apply (release_triple _ _ _ r Hi).
  - apply gc_upds.
Qed.

Lemma upds_indexed now r r' : indexed r → rtc (upd now) r r' → indexed r'.
Proof. intros Hi. apply (rtc_preserve indexed); eauto using upd_indexed. Qed.

Lemma upds_exact now r r' : indexed r ∧ exact r → rtc (upd now) r r' → indexed r' ∧ exact r'.
Proof.
  apply (rtc_preserve (λ r, indexed r ∧ exact r)). intros x y [? ?] ?.
  split; eauto using upd_indexed, upd_exact.
Qed.

(** The two cases of [insert_validated]. *)
Lemma insert_validated_cases h now r :
  (insert_validated h now r).1 = r ∨ (insert_validated h now r).1 = put_handle h (unindex (name h) r).
Proof. unfold insert_validated. case_match; auto. Qed.

Lemma put_unindex_indexed h r : indexed r → indexed (put_handle h (unindex (name h) r)).
Proof.
  intros [Hn Ho]. split; simpl.
  - intros n h'. unfold unindex. intros [[<- <-]|[_ Hl]]%lookup_insert_Some; [done|].
    apply Hn. by destruct (handles r !! name h).
  - intros o n. intros [[<- <-]|[Hne Hl]]%lookup_insert_Some.
    { exists h. by rewrite lookup_insert_eq. }
    unfold unindex in *. destruct (handles r !! name h) as [p|] eqn:Ep; simpl in *.
    + apply lookup_delete_Some in Hl as [Hne' Hl]. destruct (Ho o n Hl) as (h' & Hh' & <-).
      exists h'. split; [|done]. rewrite lookup_insert_ne; [done|]. intros <-. congruence.
    + destruct (Ho o n Hl) as (h' & Hh' & <-). exists h'. split; [|done].
      rewrite lookup_insert_ne; [done|]. intros <-. congruence.
Qed.

Lemma step_indexed o r : indexed r → indexed (step r o).
Proof.
  intros Hi. destruct (is_insert o) eqn:Eo; [|by eauto using upds_indexed, step_upds].
  destruct o as [| | | |h now|]; try done. simpl.
  destruct (insert_validated_cases h now r) as [-> | ->]; [done|by apply put_unindex_indexed].
Qed.

Lemma new_indexed : indexed new.
Proof. split; intros x y; simpl; by rewrite lookup_empty. Qed.

Lemma run_indexed r ops : indexed r → indexed (run r ops).
Proof. unfold run. revert r; induction ops as [|o ops IH]; intros r Hi; simpl; auto using step_indexed. Qed.

Lemma run_exact r ops :
  indexed r ∧ exact r → Forall (λ o, is_insert o = false) ops → indexed (run r ops) ∧ exact (run r ops).
Proof.
  unfold run. revert r; induction ops as [|o ops IH]; intros r Hi Hall; simpl; [done|].
  apply Forall_cons in Hall as [Ho Hall]. apply IH; [|done].
  eapply upds_exact; [done|]. apply step_upds; tauto.
Qed.

Lemma new_exact : exact new.
Proof. intros n h. simpl. by rewrite lookup_empty. Qed.

(* ------------------------------------------------------------------ *)
(** ** Lemmas: records *)

Lemma sign_record_ok `{!PrimitiveLaws} identity n o now :
  sign_record identity n o now = Ok (sign identity (build_signature_message n o now)).
Proof.
  unfold sign_record, pseudonym_sign, signature_from_slice, sign. simpl.
  by rewrite ed25519_sign_len.
Qed.

(** Validation once the format, time and signature are in order. *)
Lemma validate_signed `{!PrimitiveLaws} h identity t :
  validate_handle_format (name h) = Ok tt → owner h = identity_key_from_pseudonym identity →
  expires_at h = add64 (registered_at h) HANDLE_TTL_SECS →
  sign_record identity (name h) (owner h) (registered_at h) = Ok (signature h) →
  (t < expires_at h)%N →
  validate h t = map_err (λ e, InvalidPow (error_display e))
    (verify_handle_pow (name h) (owner h) (registered_at h) (pow_proof h)
       (calculate_pow_difficulty (name h))).
Proof.
  intros Hf Ho He Hs Ht. unfold validate, is_expired_at. rewrite Hf. simpl.
  rewrite (proj2 (N.leb_gt _ _) Ht), He, N.eqb_refl. simpl.
  rewrite sign_record_ok in Hs. injection Hs as <-.
  unfold verify_handle_signature. rewrite Ho. unfold identity_key_from_pseudonym.
  by rewrite verify_sign.
Qed.

(* ------------------------------------------------------------------ *)
(** ** Lemmas: name conflicts *)

(** The rank of a record: earlier registration, then lower key. *)
Definition beats (a b : Handle) : bool :=
  (registered_at a <? registered_at b)%N ||
  ((registered_at a =? registered_at b)%N && bytes_ltb (owner a) (owner b)).

(** [insert_validated] on the [handles] map alone. *)
Definition pick (now : N) (e : option Handle) (h : Handle) : Handle :=
  match e with
  | Some e => if negb (is_expired_at e now) && negb (beats h e) then e else h
  | None => h
  end.
Definition settle (now : N) (m : gmap str Handle) (h : Handle) : gmap str Handle :=
  <[name h := pick now (m !! name h) h]> m.

Lemma insert_validated_settle h now r :
  handles (insert_validated h now r).1 = settle now (handles r) h.
Proof.
  unfold insert_validated, resolve_conflict, settle, unindex, pick, beats.
  destruct (handles r !! name h) as [e|] eqn:E; simpl; [|by rewrite ?E].
  destruct (is_expired_at e now); simpl; [by rewrite ?E|].
  destruct (registered_at h <? registered_at e)%N; simpl; [by rewrite ?E|].
  destruct (registered_at h =? registered_at e)%N; simpl; [|by rewrite insert_id].
  destruct (bytes_ltb _ _); simpl; rewrite ?E; [done|by rewrite insert_id].
Qed.

Lemma beats_irrefl a : beats a a = false.
Proof. unfold beats. by rewrite N.ltb_irrefl, bytes_ltb_irrefl, andb_false_r. Qed.

Lemma beats_trans a b c : beats a b = true → beats b c = true → beats a c = true.
Proof.
  unfold beats. rewrite !orb_true_iff, !andb_true_iff, !N.ltb_lt, !N.eqb_eq.
  intros [H1|[H1 H2]] [H3|[H3 H4]]; [left; lia..|right; split; [lia|eauto using bytes_ltb_trans]].
Qed.

Lemma beats_total a b :
  beats a b = true ∨ beats b a = true ∨ (registered_at a = registered_at b ∧ owner a = owner b).
Proof.
  unfold beats. rewrite !orb_true_iff, !andb_true_iff, !N.ltb_lt, !N.eqb_eq.
  destruct (N.lt_total (registered_at a) (registered_at b)) as [|[E|]]; auto.
  destruct (bytes_ltb_total (owner a) (owner b)) as [|[]]; auto.
Qed.

(** Records of one name, time and owner are one record. *)
Definition determined (l : list Handle) : Prop :=
  ∀ a b, a ∈ l → b ∈ l → name a = name b → registered_at a = registered_at b → owner a = owner b → a = b.

Lemma beats_asym a b : beats a b = true → beats b a = false.
Proof.
  intros X. destruct (beats b a) eqn:Y; [|done].
  pose proof (beats_trans _ _ _ X Y) as Z. by rewrite beats_irrefl in Z.
Qed.

Lemma beats_false_trans a b c : beats a b = false → beats b c = false → beats a c = false.
Proof.
  intros Hab Hbc. destruct (beats a c) eqn:B; [|done]. exfalso.
  destruct (beats_total a b) as [X|[X|[X Y]]]; [congruence| |].
  - pose proof (beats_trans _ _ _ X B). congruence.
  - unfold beats in B, Hbc. rewrite X, Y in B. congruence.
Qed.

Lemma pick_comm now e a b :
  is_expired_at a now = false → is_expired_at b now = false →
  (registered_at a = registered_at b → owner a = owner b → a = b) →
  pick now (Some (pick now e a)) b = pick now (Some (pick now e b)) a.
Proof.
  intros Ha Hb Hd.
  assert (Hab : beats a b = false → beats b a = false → a = b).
  { intros X Y. destruct (beats_total a b) as [|[|[]]]; [congruence..|auto]. }
  destruct e as [e|]; simpl.
  - pose proof (beats_trans a b e). pose proof (beats_trans b a e).
    pose proof (beats_asym a b). pose proof (beats_asym b a).
    destruct (is_expired_at e now) eqn:Ee; simpl; rewrite ?Ha, ?Hb; simpl.
    { destruct (beats b a) eqn:?, (beats a b) eqn:?; simpl; naive_solver. }
    destruct (beats a e) eqn:Ba, (beats b e) eqn:Bb; simpl; rewrite ?Ha, ?Hb, ?Ee, ?Ba, ?Bb; simpl; try done;
      destruct (beats b a) eqn:?, (beats a b) eqn:?; simpl; naive_solver.
  - rewrite Ha, Hb. simpl. pose proof (beats_asym a b).
    destruct (beats b a) eqn:?, (beats a b) eqn:?; simpl; naive_solver.
Qed.

Lemma settle_comm now m a b :
  is_expired_at a now = false → is_expired_at b now = false → determined [a; b] →
  settle now (settle now m a) b = settle now (settle now m b) a.
Proof.
  intros Ha Hb Hd. unfold settle. destruct (decide (name a = name b)) as [E|Hne].
  - rewrite <- E, !lookup_insert_eq, !insert_insert_eq. f_equal. apply pick_comm; [done..|].
    intros. apply Hd; set_solver.
  - rewrite !lookup_insert_ne by done. by rewrite insert_insert_ne.
Qed.

Definition receive (now : N) (r : HandleRegistry) (l : list Handle) : HandleRegistry :=
  foldl (λ r h, (insert_validated h now r).1) r l.

Lemma receive_settle now r l : handles (receive now r l) = foldl (settle now) (handles r) l.
Proof.
  unfold receive. revert r; induction l as [|h l IH]; intros r; simpl; [done|].
  by rewrite IH, insert_validated_settle.
Qed.

Lemma settle_permutation now m l1 l2 :
  Forall (λ h, is_expired_at h now = false) l1 → determined l1 → l1 ≡ₚ l2 →
  foldl (settle now) m l1 = foldl (settle now) m l2.
Proof.
  intros Hall Hd HP. revert m Hall Hd.
  induction HP as [|h l1 l2 HP IH|x y l|l1 l2 l3 HP1 IH1 HP2 IH2]; intros m Hall Hd; simpl.
  - done.
  - apply Forall_cons in Hall as [_ Hall]. apply IH; [done|].
    intros a b ? ?. apply Hd; set_solver.
  - apply Forall_cons in Hall as [Hx Hall]. apply Forall_cons in Hall as [Hy _].
    rewrite settle_comm; [done..|]. intros a b ? ?. apply Hd; set_solver.
  - rewrite IH1 by done. apply IH2; [by rewrite <- HP1|].
    intros a b Ha Hb. apply Hd; by rewrite HP1.
Qed.

(** What holds a name at the end beats or equals every record received for it. *)
Lemma settle_keeps now m n e h :
  m !! n = Some e → is_expired_at e now = false → is_expired_at h now = false →
  ∃ e', settle now m h !! n = Some e' ∧ is_expired_at e' now = false ∧ beats e e' = false ∧
        (e' = e ∨ e' = h).
Proof.
  intros He Hl Hh. unfold settle. destruct (decide (name h = n)) as [<-|Hne].
  - rewrite lookup_insert_eq, He. simpl. rewrite Hl. simpl. destruct (beats h e) eqn:B; simpl.
    + exists h. split_and!; auto. by apply beats_asym.
    + exists e. split_and!; auto. apply beats_irrefl.
  - rewrite lookup_insert_ne by done. exists e. split_and!; auto. apply beats_irrefl.
Qed.

Lemma settle_all_keeps now l m n e :
  m !! n = Some e → is_expired_at e now = false → Forall (λ h, is_expired_at h now = false) l →
  ∃ e', foldl (settle now) m l !! n = Some e' ∧ beats e e' = false ∧ (e' = e ∨ e' ∈ l).
Proof.
  revert m e; induction l as [|h l IH]; intros m e He Hl Hall; simpl.
  { exists e. split_and!; auto. apply beats_irrefl. }
  apply Forall_cons in Hall as [Hh Hall].
  destruct (settle_keeps now m n e h He Hl Hh) as (e1 & H1 & H2 & H3 & H4).
  destruct (IH _ e1 H1 H2 Hall) as (e' & G1 & G2 & G3). exists e'. split_and!; [done| |set_solver].
  by apply (beats_false_trans _ e1).
Qed.

(* ------------------------------------------------------------------ *)
(** ** Lemmas: format *)

Lemma handle_char_ascii c : handle_char c = true → ascii c.
Proof.
  unfold handle_char, ascii, underscore. rewrite !orb_true_iff, N.eqb_eq.
  intros [[H1%lowercase_ascii|H1%digit_ascii]| ->]; [done|done|lia].
Qed.

(** A handle: 3 to 20 characters of [a-z0-9_], a letter first, no underscore
    last or doubled, and not reserved. *)
Definition well_formed (n : str) : Prop :=
  3 ≤ length n ≤ 20 ∧ Forall (λ c, handle_char c = true) n ∧
  (∃ c, head n = Some c ∧ is_ascii_lowercase c = true) ∧
  last n ≠ Some underscore ∧
  (∀ i, n !! i = Some underscore → n !! S i ≠ Some underscore) ∧
  n ∉ RESERVED_HANDLES.

Lemma handle_chars n :
  list_find (λ ch, handle_char ch = false) n = None ↔ Forall (λ c, handle_char c = true) n.
Proof.
  rewrite list_find_None. apply Forall_proper; [|done]. intros c.
  by destruct (handle_char c); split.
Qed.

Lemma head_letter c : handle_char c = true → c ≠ underscore → is_ascii_digit c = false → is_ascii_lowercase c = true.
Proof. unfold handle_char. rewrite !orb_true_iff, N.eqb_eq. intros [[]|]; congruence. Qed.

Lemma letter_not_digit c : is_ascii_lowercase c = true → c ≠ underscore ∧ is_ascii_digit c = false.
Proof.
  unfold is_ascii_lowercase, is_ascii_digit, underscore. intros H1. bprop.
  split; [lia|]. apply andb_false_intro2, N.leb_gt. lia.
Qed.

(** With only handle characters the remaining checks are the other rules. *)
Lemma format_good_chars n :
  Forall (λ c, handle_char c = true) n → (validate_handle_format n = Ok tt ↔ well_formed n).
Proof.
  intros Ef. unfold validate_handle_format, MIN_HANDLE_LEN, MAX_HANDLE_LEN, well_formed.
  assert (Hascii : Forall ascii n) by (eapply Forall_impl; [exact Ef|apply handle_char_ascii]).
  rewrite (proj2 (handle_chars n) Ef), str_len_ascii, as_bytes_ascii by done.
  destruct (length n <? 3) eqn:E1; [split; [done|bprop; lia]|].
  destruct (20 <? length n) eqn:E2; [split; [done|bprop; lia]|]. bprop.
  destruct n as [|c n']; [simpl in *; lia|]. cbn [head lookup_total list_lookup_total].
  pose proof (Forall_inv Ef) as Hc.
  repeat case_bool_decide; try case_match;
    try (split; [done|intros (_ & _ & (c' & [= <-] & Hl) & ? & Hu & ?)];
         apply letter_not_digit in Hl as [??]; congruence); try congruence.
  all: try (match goal with H : contains _ _ = true |- _ =>
    apply contains_pair in H as (i & ? & ?) end;
    split; [done|intros (_ & _ & _ & _ & Hu & _); by destruct (Hu i)]).
  all: repeat case_match; try congruence;
    try (split; [done|intros (_ & _ & (c' & [= <-] & Hl) & ? & Hu & ?)];
         apply letter_not_digit in Hl as [??]; congruence).
  all: try by (split; [done|intros (_ & _ & _ & ? & _ & ?)]).
  split; [intros _|done]. split_and!; try done; try (simpl in *; lia).
  - exists c. split; [done|]. apply head_letter; [done|congruence|done].
  - intros i Hi Hi'. assert (Hcon : contains [underscore; underscore] (c :: n') = true)
      by (apply contains_pair; eauto). congruence.
Qed.

Lemma format_bad_char n pos0 ch0 :
  list_find (λ ch, handle_char ch = false) n = Some (pos0, ch0) →
  validate_handle_format n =
    if str_len n <? 3 then Err (TooShort (str_len n))
    else if 20 <? str_len n then Err (TooLong (str_len n)) else Err (InvalidCharacter ch0 pos0).
Proof. intros E. unfold validate_handle_format. by rewrite E. Qed.

Lemma handle_format_spec_ok n : validate_handle_format n = Ok tt ↔ well_formed n.
Proof.
  destruct (list_find (λ ch, handle_char ch = false) n) as [[pos0 ch0]|] eqn:Ef;
    [|by apply format_good_chars, handle_chars].
  rewrite (format_bad_char _ _ _ Ef). apply list_find_Some in Ef as (Hl & Hc & _).
  split; [intros ?; by repeat case_match|]. intros (_ & Hall & _). exfalso.
  rewrite Forall_lookup in Hall. apply Hall in Hl. congruence.
Qed.

(** [validate_handle_format] accepts exactly the well-formed handles, and
    reports an invalid character exactly when the length in bytes is in range:
    the first one, with its position. *)
Theorem handle_format_spec (n : str) :
  (validate_handle_format n = Ok tt ↔ well_formed n) ∧
  (∀ ch pos, validate_handle_format n = Err (InvalidCharacter ch pos) ↔
     3 ≤ str_len n ≤ 20 ∧ n !! pos = Some ch ∧ handle_char ch = false ∧
     ∀ i c, i < pos → n !! i = Some c → handle_char c = true).
Proof.
  split; [apply handle_format_spec_ok|]. intros ch pos.
  destruct (list_find (λ ch, handle_char ch = false) n) as [[pos0 ch0]|] eqn:Ef.
  - rewrite (format_bad_char _ _ _ Ef). apply list_find_Some in Ef as (Hl & Hc & Hmin).
    destruct (str_len n <? 3) eqn:E1; [split; [done|bprop; lia]|].
    destruct (20 <? str_len n) eqn:E2; [split; [done|bprop; lia]|]. bprop. split.
    + intros [= <- <-]. split_and!; try done; try lia. intros i c Hi Hic.
      specialize (Hmin i c Hic Hi). by destruct (handle_char c).
    + intros (_ & Hl' & Hc' & Hmin'). destruct (Nat.lt_trichotomy pos pos0) as [Hp|[->|Hp]].
      * by destruct (Hmin _ _ Hl' Hp).
      * congruence.
      * rewrite (Hmin' _ _ Hp Hl) in Hc. done.
  - split.
    + unfold validate_handle_format. rewrite Ef. intros ?. by repeat case_match.
    + intros (_ & Hl & Hc & _). apply handle_chars in Ef.
      rewrite Forall_lookup in Ef. apply Ef in Hl. congruence.
Qed.

(* ------------------------------------------------------------------ *)
(** ** Properties of the registry *)

(** The owner index never dangles: after any operations, each name is the
    key of its record, and an index entry leads to a handle of that owner, so
    [lookup_by_owner] answers with the owner's own handle.  As long as no
    record from the network is applied, it is the only one: each identity
    holds at most one handle. *)
Theorem handle_index_sound (ops : list op) :
  let r := run new ops in
  (∀ n h, handles r !! n = Some h → name h = n) ∧
  (∀ o, is_Some (owner_to_handle r !! o) → ∃ h, lookup_by_owner r o = Some h ∧ owner h = o) ∧
  (Forall (λ o, is_insert o = false) ops → ∀ h n,
     handles r !! n = Some h ↔ lookup_by_owner r (owner h) = Some h ∧ name h = n).
Proof.
  intros r. destruct (run_indexed new ops new_indexed) as [Hn Ho]. fold r in Hn, Ho.
  split_and!; [done|..].
  - intros o [n Hl]. destruct (Ho o n Hl) as (h & Hh & Hoh). exists h.
    unfold lookup_by_owner. by rewrite Hl.
  - intros Hall h n. destruct (run_exact new ops (conj new_indexed new_exact) Hall) as [_ He].
    fold r in He. unfold lookup_by_owner. split.
    + intros Hh. rewrite (He _ _ Hh). simpl. auto.
    + intros [Hl <-]. destruct (owner_to_handle r !! owner h) as [m|] eqn:E; [|done]. simpl in Hl.
      by rewrite (Hn _ _ Hl).
Qed.

(** C4. Records received for the same names settle the same way in any order:
    from any registry, delivering unexpired records in two different orders
    leaves the same handles, provided records of one name, time and owner are
    one record; and the record that ends up holding a name is one of those
    received or the one held before, and is beaten by none of them. *)
Theorem handle_conflicts_converge (r : HandleRegistry) (now : N) (l1 l2 : list Handle)
  (Hlive : Forall (λ h, is_expired_at h now = false) l1) (Hd : determined l1) (HP : l1 ≡ₚ l2) :
  handles (receive now r l1) = handles (receive now r l2) ∧
  (∀ h, h ∈ l1 → ∃ e, handles (receive now r l1) !! name h = Some e ∧ beats h e = false ∧
     (handles r !! name h = Some e ∨ e ∈ l1)).
Proof.
  rewrite !receive_settle. split; [by apply settle_permutation|]. intros h Hh.
  apply list_elem_of_split in Hh as (la & lb & ->).
  assert (HQ : la ++ h :: lb ≡ₚ h :: la ++ lb) by (symmetry; apply Permutation_middle).
  rewrite (settle_permutation now _ _ _ Hlive Hd HQ). simpl.
  rewrite HQ in Hlive. apply Forall_cons in Hlive as [Hlh Hall].
  assert (Hs : ∃ e0, settle now (handles r) h !! name h = Some e0 ∧ is_expired_at e0 now = false ∧
    beats h e0 = false ∧ (handles r !! name h = Some e0 ∨ e0 = h)).
  { unfold settle. rewrite lookup_insert_eq. eexists. split; [done|]. unfold pick.
    destruct (handles r !! name h) as [e|]; [|split_and!; auto using beats_irrefl].
    destruct (is_expired_at e now) eqn:Ee, (beats h e) eqn:Be; simpl; auto using beats_irrefl. }
  destruct Hs as (e0 & H1 & H2 & H3 & H4).
  destruct (settle_all_keeps now (la ++ lb) _ _ e0 H1 H2 Hall) as (e & G1 & G2 & G3).
  exists e. split_and!; [done| |set_solver].
  by apply (beats_false_trans _ e0).
Qed.

(** What a registration requires of the registry. *)
Definition may_register (r : HandleRegistry) (n : str) (o : bytes) (now : N) : Prop :=
  (∀ h, lookup_by_owner r o = Some h → (expires_at h ≤ now)%N) ∧
  (∀ t, last_registration r !! o = Some t → (HANDLE_REGISTRATION_COOLDOWN_SECS ≤ now - t)%N) ∧
  (∀ h, handles r !! n = Some h → (expires_at h ≤ now)%N) ∧
  (∀ u, cooldowns r !! n = Some u → (u ≤ now)%N).

Lemma check_owner_ok o now n r :
  may_register r n o now → ∃ r', check_owner o now r = (r', Ok tt) ∧ may_register r' n o now.
Proof.
  intros (H1 & H2 & H3 & H4). unfold check_owner, se_bind, se_get, se_ret, se_modify, lookup_by_owner in *.
  destruct (owner_to_handle r !! o) as [m|] eqn:Eo; simpl in *; [|eexists; split; [done|]].
  - destruct (handles r !! m) as [h|] eqn:Eh; [|eexists; split; [done|]].
    + specialize (H1 h eq_refl). unfold is_expired_at. rewrite (proj2 (N.leb_le _ _) H1). simpl.
      eexists. split; [done|]. unfold may_register, lookup_by_owner. simpl. rewrite lookup_delete_eq.
      split_and!; try done. intros h'. intros [_ ?]%lookup_delete_Some. auto.
    + split_and!; try done. unfold lookup_by_owner. rewrite Eo. simpl. by rewrite Eh.
  - split_and!; try done. unfold lookup_by_owner. by rewrite Eo.
Qed.

Lemma check_rest_ok o now n r :
  may_register r n o now →
  check_rate o now r = (r, Ok tt) ∧
  ∃ r', check_name n now r = (r', Ok tt) ∧ ∃ r'', check_cooldown n now r' = (r'', Ok tt).
Proof.
  intros (H1 & H2 & H3 & H4). split.
  - unfold check_rate, se_bind, se_get, se_ret.
    destruct (last_registration r !! o) as [t|]; [|done]. cbv zeta.
    by rewrite (proj2 (N.ltb_ge _ _) (H2 t eq_refl)).
  - assert (Hc : ∀ r', cooldowns r' = cooldowns r → ∃ r'', check_cooldown n now r' = (r'', Ok tt)).
    { intros r' Hr. unfold check_cooldown, se_bind, se_get, se_ret, se_modify. rewrite Hr.
      destruct (cooldowns r !! n) as [u|]; [|by eexists].
      rewrite (proj2 (N.ltb_ge _ _) (H4 u eq_refl)). by eexists. }
    unfold check_name, se_bind, se_get, se_ret, se_modify.
    destruct (handles r !! n) as [h|]; [|by eexists; split; [done|apply Hc]].
    unfold is_expired_at. rewrite (proj2 (N.leb_le _ _) (H3 h eq_refl)). simpl.
    eexists. split; [done|]. by apply Hc.
Qed.

Lemma register_with_ok `{!PrimitiveLaws} fuel n identity d now r p :
  validate_handle_format n = Ok tt → may_register r n (identity_key_from_pseudonym identity) now →
  generate_pow fuel (build_pow_challenge n (identity_key_from_pseudonym identity) now) (bits d) = Ok p →
  ∃ h, (register_with_difficulty fuel n identity d now r).2 = Ok h.
Proof.
  intros Hv Hm Hp. unfold register_with_difficulty. rewrite Hv.
  destruct (check_owner_ok _ _ _ _ Hm) as (r1 & E1 & Hm1).
  destruct (check_rest_ok _ _ _ _ Hm1) as (E2 & r2 & E3 & r3 & E4).
  unfold se_bind, se_lift, se_ret, se_modify. simpl.
  rewrite E1, E2, E3, E4, Hp. simpl. rewrite sign_record_ok. simpl. by eexists.
Qed.

(** Registration works and is checkable by everyone: when the lowered name
    is well formed, the identity and the name are free and neither is cooling
    down, and the challenge has a [u64] solution within the fuel, [register]
    succeeds; the record it returns is found by name and by owner, any node
    validates it until it expires 90 days later, and the identity can register
    nothing else before that. *)
Theorem register_valid `{!PrimitiveLaws} (r : HandleRegistry) (fuel : nat) (n : str) (identity : bytes)
    (now c : N) (Hi : indexed r)
    (Hf : well_formed (to_ascii_lowercase n))
    (Hm : may_register r (to_ascii_lowercase n) (public_key identity) now)
    (Hs : solves (build_pow_challenge (to_ascii_lowercase n) (public_key identity) now)
            (bits (calculate_pow_difficulty (to_ascii_lowercase n))) c = true)
    (Hc : u64 c) (Hfuel : N.to_nat c < fuel) (Hnow : u64 (now + HANDLE_TTL_SECS)) :
  ∃ r' h, register fuel n identity now r = (r', Ok h) ∧
    lookup_name r' n = Some h ∧ lookup_by_owner r' (public_key identity) = Some h ∧
    (∀ t, validate h t = if (t <? now + HANDLE_TTL_SECS)%N then Ok tt else Err (Expired (to_ascii_lowercase n))) ∧
    (∀ t n' fuel', (t < now + HANDLE_TTL_SECS)%N →
       is_ok (register fuel' n' identity t r').2 = false).
Proof.
  set (ln := to_ascii_lowercase n) in *. apply handle_format_spec_ok in Hf.
  assert (Hb : (bits (calculate_pow_difficulty ln) ≤ 256)%N) by by destruct (calculate_pow_difficulty ln).
  destruct (generate_pow_enough fuel _ _ c Hb Hs Hc Hfuel) as [p Hp].
  destruct (register_with_ok fuel ln identity _ now r p Hf Hm Hp) as [h Eh].
  destruct (register_triple fuel ln identity (calculate_pow_difficulty ln) now r Hi) as [_ HQ].
  unfold register. fold ln. destruct (register_with_difficulty fuel ln identity _ now r) as [r' res].
  simpl in Eh, HQ. subst res. destruct (HQ h eq_refl) as (_ & Hn & Ho & Hr & He & Hg & Hsg & Hl & Hix & _).
  unfold identity_key_from_pseudonym in Ho. rewrite (add64_small _ _ Hnow) in He.
  assert (Hlo : lookup_by_owner r' (public_key identity) = Some h)
    by (unfold lookup_by_owner; by rewrite <- Ho, Hix).
  exists r', h. split_and!; try done.
  - intros t. destruct (t <? now + HANDLE_TTL_SECS)%N eqn:Et; bprop.
    + rewrite (validate_signed h identity) by (by rewrite ?Hn, ?Hr, ?He, ?(add64_small _ _ Hnow)).
      unfold verify_handle_pow. apply generate_pow_ok in Hg as (G1 & G2 & G3).
      rewrite Hn, Hr. rewrite (proj2 (verify_pow_ok _ _ _)); [done|].
      rewrite G1, G2. split_and!; try done; lia.
    + unfold validate, is_expired_at. rewrite Hn, Hf, He, (proj2 (N.leb_le _ _) Et). done.
  - intros t n' fuel' Ht. unfold register, register_with_difficulty.
    destruct (validate_handle_format (to_ascii_lowercase n')) as [[]|]; [|done].
    unfold se_bind, se_lift, se_get, check_owner, se_get, fail, se_lift, se_bind.
    unfold lookup_by_owner in Hlo. unfold identity_key_from_pseudonym.
    rewrite <- Ho, Hix. simpl. rewrite Hl. unfold is_expired_at.
    by rewrite He, (proj2 (N.leb_gt _ _) Ht).
Qed.

(** A name in cooldown is not registered. *)
Lemma register_not_cooling fuel n identity d now r u :
  (now < u)%N → cooling n u r → is_ok (register_with_difficulty fuel n identity d now r).2 = false.
Proof.
  intros Hu Hc. unfold register_with_difficulty.
  destruct (validate_handle_format n) as [[]|]; [|done]. cbv zeta. set (o := identity_key_from_pseudonym _).
  assert (Hk : ∀ m : M unit, (∀ r0, cooldowns (m r0).1 = cooldowns r0) → ∀ (k : unit → M Handle),
    (∀ r0, cooling n u r0 → is_ok (k tt r0).2 = false) → ∀ r0, cooling n u r0 → is_ok (se_bind m k r0).2 = false).
  { intros m Hm k Hk r0 Hr0. unfold se_bind. specialize (Hm r0).
    destruct (m r0) as [r1 [[]|e]]; simpl in *; [|done]. apply Hk. unfold cooling. by rewrite Hm. }
  simpl. unfold se_bind at 1. simpl.
  apply Hk; [| |done].
  { intros r0. unfold check_owner, se_bind, se_get, se_modify, se_ret, fail, se_lift. simpl. by repeat case_match. }
  intros r1. apply Hk.
  { intros r0. unfold check_rate, se_bind, se_get, se_modify, se_ret, fail, se_lift. simpl. by repeat case_match. }
  intros r2. apply Hk.
  { intros r0. unfold check_name, se_bind, se_get, se_modify, se_ret, fail, se_lift. simpl. by repeat case_match. }
  intros r3 (v & Hv & Hle). unfold se_bind, check_cooldown, se_get, fail, se_lift. unfold se_bind. simpl.
  rewrite Hv, (proj2 (N.ltb_lt now v)) by lia. done.
Qed.

(** A released name rests: after [release] at [t], whatever happens within
    the next 24 hours - registrations, renewals, releases, garbage collection
    and records from the network - no registration of the name succeeds
    before they have passed. *)
Theorem release_cooldown (r r1 : HandleRegistry) (n : str) (identity : bytes) (t : N) (ops : list op)
    (fuel : nat) (identity' : bytes) (d : PowDifficulty) (now : N) (Hi : indexed r)
    (Hr : release n identity t r = (r1, Ok tt))
    (Hops : Forall (λ o, t ≤ op_time o < t + HANDLE_RELEASE_COOLDOWN_SECS)%N ops)
    (Hnow : (t ≤ now < t + HANDLE_RELEASE_COOLDOWN_SECS)%N)
    (Hfit : u64 (t + 2 * HANDLE_RELEASE_COOLDOWN_SECS)) :
  is_ok (register_with_difficulty fuel n identity' d now (run r1 ops)).2 = false.
Proof.
  set (u := (t + HANDLE_RELEASE_COOLDOWN_SECS)%N) in *.
  assert (Hadd : ∀ t', (t ≤ t' < u)%N → (u ≤ add64 t' HANDLE_RELEASE_COOLDOWN_SECS)%N).
  { intros t' Ht'. rewrite add64_small; [lia|]. unfold u64, HANDLE_RELEASE_COOLDOWN_SECS in *. lia. }
  assert (Hc1 : indexed r1 ∧ cooling n u r1).
  { destruct (release_triple n identity t r Hi) as [HR HQ]. rewrite Hr in HR, HQ.
    split; [by eapply upds_indexed|]. destruct (HQ tt eq_refl) as [_ Hcd].
    eexists. split; [exact Hcd|]. apply Hadd. unfold u, HANDLE_RELEASE_COOLDOWN_SECS. lia. }
  assert (Hc : indexed (run r1 ops) ∧ cooling n u (run r1 ops)).
  { clear Hr. unfold run. revert r1 Hc1. induction Hops as [|o ops Ho Hops IH]; intros r1 Hc1; simpl; [done|].
    apply IH. destruct Hc1 as [Hi1 Hc1]. split; [by apply step_indexed|].
    destruct (is_insert o) eqn:Eo.
    - destruct o as [| | | |h now'|]; try done. simpl.
      destruct (insert_validated_cases h now' r1) as [-> | ->]; [done|].
      unfold cooling, unindex. by destruct (handles r1 !! name h).
    - apply (rtc_preserve (cooling n u) (upd (op_time o)) r1); [|done|by apply step_upds].
      intros x y Hx Hxy. eapply upd_cooling; [..|exact Hxy]; try done; [lia|by apply Hadd]. }
  destruct Hc as [Hir Hcr].
  apply (register_not_cooling fuel n identity' d now (run r1 ops) u); [lia|done].
Qed.

(** A renewed handle no longer validates: [renew] mines at renewal
    difficulty 5, while [validate] asks for the registration difficulty of the
    name, at least 7; so after every successful renewal the record it stores
    is refused by [validate] at all times before it expires. *)
Theorem renew_invalidates `{!PrimitiveLaws} (r r' : HandleRegistry) (fuel : nat) (n : str)
    (identity : bytes) (now : N) (Hi : indexed r) (Hf : well_formed n)
    (Hr : renew fuel n identity now r = (r', Ok tt)) :
  ∃ h, handles r' !! n = Some h ∧ registered_at h = now ∧
    expires_at h = add64 now HANDLE_TTL_SECS ∧ difficulty (pow_proof h) = 5%N ∧
    ∀ t, (t < expires_at h)%N → ∃ reason, validate h t = Err (InvalidPow reason).
Proof.
  unfold renew, se_bind, se_get in Hr. destruct (handles r !! n) as [h|] eqn:Eh; [|done].
  case_bool_decide as Ho; [|done]. simpl in Hr. destruct (is_expired_at h now); [done|].
  unfold se_lift, se_modify in Hr. rewrite sign_record_ok in Hr.
  destruct (generate_pow _ _ _) as [p|] eqn:Ep; [|done]. simpl in Hr. injection Hr as <-.
  eexists. simpl. split; [apply lookup_insert_eq|].
  apply generate_pow_ok in Ep as (G1 & G2 & _). simpl in G2. split_and!; try done.
  intros t Ht. rewrite (validate_signed _ identity); simpl; try done.
  - unfold verify_handle_pow, verify_pow. rewrite (proj1 Hi _ _ Eh), Ho, G1, G2.
    rewrite bool_decide_true by done. simpl.
    destruct (calculate_pow_difficulty n) eqn:Ed; simpl; try by eexists.
    unfold calculate_pow_difficulty in Ed. by repeat case_match.
  - apply handle_format_spec_ok. by rewrite (proj1 Hi _ _ Eh).
  - rewrite sign_record_ok, (proj1 Hi _ _ Eh). by rewrite Ho.
Qed.

(** [gc] removes exactly the expired handles and the cooldowns that are
    over, and the index keeps pointing at what is left. *)
Theorem gc_spec (r : HandleRegistry) (now : N) (Hi : indexed r) :
  indexed (gc now r) ∧
  (∀ n h, handles (gc now r) !! n = Some h ↔ handles r !! n = Some h ∧ (now < expires_at h)%N) ∧
  (∀ n u, cooldowns (gc now r) !! n = Some u ↔ cooldowns r !! n = Some u ∧ (now < u)%N).
Proof.
  split; [by eapply upds_indexed, gc_upds|]. unfold gc. simpl. set (ns := fst <$> _).
  assert (Hns : ∀ n, n ∈ ns ↔ ∃ h, handles r !! n = Some h ∧ (expires_at h ≤ now)%N).
  { intros n. unfold ns. rewrite list_elem_of_fmap. setoid_rewrite list_elem_of_filter.
    setoid_rewrite elem_of_map_to_list'. unfold is_expired_at. setoid_rewrite N.leb_le.
    split; [intros ([n' h] & -> & ? & ?); by exists h|].
    intros (h & ? & ?). by exists (n, h). }
  destruct (gc_fold_upds now ns r) as [_ Hl].
  assert (Hc : cooldowns (foldl gc_remove r ns) = cooldowns r).
  { generalize ns r. clear. intros ns. induction ns as [|n ns IH]; intros r; simpl; [done|].
    rewrite IH. unfold gc_remove. by case_match. }
  split.
  - intros n h. rewrite Hl. case_decide as Hin.
    + split; [done|]. intros [Hh Hx]. apply Hns in Hin as (h' & ? & ?). simplify_eq. lia.
    + split; [|by intros []]. intros Hh. split; [done|].
      destruct (decide (now < expires_at h)%N); [done|]. exfalso. apply Hin, Hns. exists h. split; [done|lia].
  - intros n u. rewrite Hc, map_lookup_filter_Some. done.
Qed.

(** Records from the network break the one-handle rule: when an identity
    holds a live indexed handle and a live record of another free name of its
    arrives, both names resolve to it, and releasing the second leaves the
    first registered and live while [lookup_by_owner] finds nothing. *)
Theorem two_handles (r : HandleRegistry) (h1 h2 : Handle) (identity : bytes) (now : N)
    (Hi : indexed r) (H1 : handles r !! name h1 = Some h1) (H2 : handles r !! name h2 = None)
    (Hne : name h1 ≠ name h2) (Ho1 : owner h1 = public_key identity) (Ho2 : owner h2 = public_key identity) :
  let r1 := (insert_validated h2 now r).1 in
  handles r1 !! name h1 = Some h1 ∧ handles r1 !! name h2 = Some h2 ∧
  lookup_by_owner r1 (public_key identity) = Some h2 ∧
  ∃ r2, release (name h2) identity now r1 = (r2, Ok tt) ∧
    handles r2 !! name h1 = Some h1 ∧ lookup_by_owner r2 (public_key identity) = None.
Proof.
  cbv zeta. unfold insert_validated, resolve_conflict, unindex. rewrite H2. simpl.
  unfold lookup_by_owner, release, se_bind, se_get, identity_key_from_pseudonym. simpl.
  rewrite <- !Ho2, !lookup_insert_eq. simpl. rewrite lookup_insert_eq, !lookup_insert_ne by done.
  rewrite bool_decide_true by done. simpl. split_and!; try done.
  eexists. split; [done|]. simpl. rewrite lookup_delete_eq. split; [|done].
  by rewrite lookup_delete_ne, lookup_insert_ne by done.
Qed.
End handles.

(* ------------------------------------------------------------------ *)
(** ** Witnesses *)

Section witnesses.
Import Toy.
#[local] Existing Instance toy.

Definition demo_id : bytes := replicate 32 5%N.
Definition demo_name : str := lit "Alice_In_Chains".
Definition demo_lower : str := lit "alice_in_chains".
Definition demo_fuel : nat := 300.
Definition demo_reg : HandleRegistry := step new (ORegister demo_fuel demo_name demo_id 1000).
Definition demo_stamp : PowStamp := MkStamp [] [] 0.
Definition demo_handle (n : str) (o : N) (t : N) : Handle :=
  MkHandle n (replicate 32 o) t (t + HANDLE_TTL_SECS) demo_stamp [].

Lemma handle_format_spec_witness : validate_handle_format demo_lower = Ok tt ∧ well_formed demo_lower.
Proof.
  assert (E : validate_handle_format demo_lower = Ok tt) by (vm_compute; reflexivity).
  split; [exact E|]. apply (handle_format_spec demo_lower). exact E.
Defined.

Lemma handle_index_sound_witness :
  ∃ h, lookup_by_owner (run new [ORegister demo_fuel demo_name demo_id 1000]) demo_id = Some h ∧ owner h = demo_id.
Proof.
  apply (handle_index_sound [ORegister demo_fuel demo_name demo_id 1000]).
  vm_compute. eexists. reflexivity.
Defined.

Lemma handle_conflicts_converge_witness :
  let a := demo_handle demo_lower 1 10 in let b := demo_handle demo_lower 2 5 in
  handles (receive 20 new [a; b]) = handles (receive 20 new [b; a]).
Proof.
  apply (handle_conflicts_converge new 20).
  - repeat constructor.
  - intros a b Ha Hb _ Ht _.
    apply elem_of_cons in Ha as [->|Ha]; apply elem_of_cons in Hb as [->|Hb]; try done;
      repeat match goal with H : _ ∈ [_] |- _ => apply list_elem_of_singleton in H as -> end; done.
  - apply Permutation_swap.
Defined.

Definition demo_counter : N := Eval vm_compute in
  default 0%N (find_counter (solves (build_pow_challenge demo_lower (public_key demo_id) 1000)
                              (bits (calculate_pow_difficulty demo_lower))) demo_fuel 0).

Lemma demo_solution : solves (build_pow_challenge demo_lower (public_key demo_id) 1000)
  (bits (calculate_pow_difficulty demo_lower)) demo_counter = true.
Proof. vm_compute. reflexivity. Qed.

Lemma register_valid_witness :
  ∃ r' h, register demo_fuel demo_name demo_id 1000 new = (r', Ok h) ∧ validate h 2000 = Ok tt.
Proof.
  destruct (register_valid new demo_fuel demo_name demo_id 1000 demo_counter new_indexed) as (r' & h & E & _ & _ & V & _).
  - apply handle_format_spec_ok. vm_compute. reflexivity.
  - split_and!; intros x Hx; vm_compute in Hx; discriminate.
  - exact demo_solution.
  - vm_compute. reflexivity.
  - apply Nat.ltb_lt. vm_compute. reflexivity.
  - vm_compute. reflexivity.
  - exists r', h. split; [exact E|]. rewrite V. vm_compute. reflexivity.
Defined.

Lemma demo_reg_indexed : indexed demo_reg.
Proof. exact (step_indexed _ _ new_indexed). Qed.

Lemma release_cooldown_witness :
  is_ok (register_with_difficulty demo_fuel demo_lower demo_id Low 90000
           (run (release demo_lower demo_id 5000 demo_reg).1 [OGc 60000])).2 = false.
Proof.
  apply (release_cooldown demo_reg (release demo_lower demo_id 5000 demo_reg).1 demo_lower demo_id 5000).
  - apply demo_reg_indexed.
  - vm_compute. reflexivity.
  - repeat constructor; vm_compute; congruence.
  - split; vm_compute; congruence.
  - vm_compute. reflexivity.
Defined.

Lemma renew_invalidates_witness :
  ∃ h reason, handles (renew demo_fuel demo_lower demo_id 5000 demo_reg).1 !! demo_lower = Some h ∧
    validate h 6000 = Err (InvalidPow reason).
Proof.
  destruct (renew_invalidates demo_reg (renew demo_fuel demo_lower demo_id 5000 demo_reg).1 demo_fuel
    demo_lower demo_id 5000 demo_reg_indexed) as (h & H1 & _ & He & _ & H2).
  - apply handle_format_spec_ok. vm_compute. reflexivity.
  - vm_compute. reflexivity.
  - destruct (H2 6000%N) as [reason Hx]; [rewrite He; vm_compute; reflexivity|]. exists h, reason. by split.
Defined.

Lemma gc_spec_witness : handles (gc (1000 + HANDLE_TTL_SECS) demo_reg) !! demo_lower = None.
Proof.
  destruct (gc_spec demo_reg (1000 + HANDLE_TTL_SECS) demo_reg_indexed) as (_ & Hh & _).
  destruct (handles (gc (1000 + HANDLE_TTL_SECS) demo_reg) !! demo_lower) as [h|] eqn:E; [|reflexivity].
  apply Hh in E as [E Hx]. exfalso.
  assert (X : (expires_at <$> handles demo_reg !! demo_lower) = Some (1000 + HANDLE_TTL_SECS)%N)
    by (vm_compute; reflexivity).
  rewrite E in X. injection X as X. rewrite X in Hx. apply N.lt_irrefl in Hx. exact Hx.
Defined.

Lemma two_handles_witness :
  let h1 := demo_handle demo_lower 5 10 in let h2 := demo_handle (lit "bob") 5 20 in
  lookup_by_owner (insert_validated h2 30 (put_handle h1 new)).1 demo_id = Some h2.
Proof.
  cbv zeta. destruct (two_handles (put_handle (demo_handle demo_lower 5 10) new) (demo_handle demo_lower 5 10)
    (demo_handle (lit "bob") 5 20) demo_id 30) as (_ & _ & H & _); [..|exact H]; try reflexivity.
  - apply (upd_indexed 0 new); [apply new_indexed|]. constructor; reflexivity.
  - vm_compute. discriminate.
Defined.
End witnesses.
