(* ===== verification/Dht.v ===== *)
(** * The distributed hash table: [crates/ephemera-dht/src]

    Kademlia buckets and routing table ([routing.rs]), the local record store
    ([storage.rs]) and the iterative lookup ([query.rs]).  [Instant]s and the
    system clock are arguments, in nanoseconds and seconds; socket addresses
    are opaque strings. *)
From S2P Require Import Prelude Types.

(* ------------------------------------------------------------------ *)
(** ** Routing *)

Module Routing.

Definition ID_BITS : nat := 256.

Record NodeEntry := MkNode {
  id : bytes;
  addresses : list string;
  last_seen : N;
  last_rtt : option N;
  failures : N
}.

Definition mark_seen (now : N) (e : NodeEntry) : NodeEntry :=
  MkNode (id e) (addresses e) now (last_rtt e) 0.
Definition record_failure (e : NodeEntry) : NodeEntry :=
  MkNode (id e) (addresses e) (last_seen e) (last_rtt e) (add32 (failures e) 1).
(** [Instant::elapsed] saturates. *)
Definition is_stale (now timeout : N) (e : NodeEntry) : bool := (timeout <? now - last_seen e)%N.

Record KBucket := MkBucket {
  entries : list NodeEntry;
  replacement_cache : list NodeEntry;
  k : nat
}.

Inductive InsertResult :=
| Inserted
| Updated
| BucketFull (ping_target : option bytes).

Definition new_bucket (k : nat) : KBucket := MkBucket [] [] k.
Definition is_full (b : KBucket) : bool := k b <=? length (entries b).

Definition insert_entry (entry : NodeEntry) (b : KBucket) : KBucket * InsertResult :=
  match position (λ e, bool_decide (id e = id entry)) (entries b) with
  | Some pos =>
      (MkBucket (delete pos (entries b) ++ [entry]) (replacement_cache b) (k b), Updated)
  | None =>
      if negb (is_full b) then
        (MkBucket (entries b ++ [entry]) (replacement_cache b) (k b), Inserted)
      else
        let cache := if k b <=? length (replacement_cache b)
                     then tail (replacement_cache b) else replacement_cache b in
        (MkBucket (entries b) (cache ++ [entry]) (k b),
         BucketFull (id <$> head (entries b)))
  end.

(** [VecDeque::pop_back]. *)
Definition pop_back {A} (l : list A) : list A * option A := (take (length l - 1) l, last l).

Definition evict_oldest (b : KBucket) : KBucket * option NodeEntry :=
  let evicted := head (entries b) in
  let rest := tail (entries b) in
  let '(cache, replacement) := pop_back (replacement_cache b) in
  (MkBucket (match replacement with Some r => rest ++ [r] | None => rest end) cache (k b), evicted).

(** [sort_by_key(|e| e.id.xor_distance(target))]. *)
Definition nearer (target : bytes) (a b : NodeEntry) : bool :=
  bytes_leb (xor_distance (id a) target) (xor_distance (id b) target).

Definition closest_to (b : KBucket) (target : bytes) (n : nat) : list NodeEntry :=
  take n (stable_sort (nearer target) (entries b)).

Record RoutingTable := MkTable { local_id : bytes; buckets : list KBucket }.

Definition new (local_id : bytes) (k : nat) : RoutingTable :=
  MkTable local_id (replicate ID_BITS (new_bucket k)).

Definition bucket_index (t : RoutingTable) (node : bytes) : option nat :=
  leading_zeros_distance (local_id t) node.

(** [None] is the panic of an index out of range. *)
Definition insert (entry : NodeEntry) (t : RoutingTable) : RoutingTable * option InsertResult :=
  if bool_decide (id entry = local_id t) then (t, Some Updated)
  else match bucket_index t (id entry) with
  | None => (t, Some Updated)
  | Some idx =>
      match buckets t !! idx with
      | None => (t, None)
      | Some b =>
          let '(b', r) := insert_entry entry b in
          (MkTable (local_id t) (<[idx := b']> (buckets t)), Some r)
      end
  end.

Definition all_entries (t : RoutingTable) : list NodeEntry := flat_map entries (buckets t).

Definition closest (t : RoutingTable) (target : bytes) (count : nat) : list NodeEntry :=
  take count (stable_sort (nearer target) (all_entries t)).

Definition total_entries (t : RoutingTable) : nat := sum_list (length ∘ entries <$> buckets t).

(* ---------------------------------------------------------------- *)
(** *** Lemmas *)

Lemma nearer_total t a b : nearer t a b = true ∨ nearer t b a = true.
Proof. apply bytes_leb_total. Qed.
Lemma nearer_trans t a b c : nearer t a b = true → nearer t b c = true → nearer t a c = true.
Proof. apply bytes_leb_trans. Qed.

(** A bucket of at most [k] entries with different ids. *)
Definition bucket_wf (b : KBucket) : Prop :=
  length (entries b) ≤ k b ∧ length (replacement_cache b) ≤ k b ∧ NoDup (id <$> entries b).

Lemma position_some {A} (p : A → bool) l i :
  position p l = Some i → ∃ x, l !! i = Some x ∧ p x = true.
Proof.
  unfold position. intros H. apply fmap_Some in H as ([j x] & H & ->).
  apply list_find_Some in H as (? & ? & _). eauto.
Qed.

Lemma position_none {A} (p : A → bool) l : position p l = None ↔ Forall (λ x, p x = false) l.
Proof.
  unfold position. rewrite fmap_None, list_find_None. apply Forall_proper; [|done].
  intros x. by destruct (p x); split.
Qed.

(** Moving an entry to the tail keeps the entries, up to that one. *)
Lemma delete_to_back (l : list NodeEntry) i x y :
  l !! i = Some x → id x = id y → id <$> (delete i l ++ [y]) ≡ₚ id <$> l.
Proof.
  intros Hl Hid. rewrite fmap_app. simpl. rewrite <- Hid.
  rewrite (Permutation_app_comm _ [id x]). simpl.
  by rewrite <- (fmap_cons id x), <- (delete_Permutation l i x Hl).
Qed.

Lemma insert_entry_wf e b : 0 < k b → bucket_wf b → bucket_wf (insert_entry e b).1.
Proof.
  intros Hk (Hl & Hc & Hn). unfold insert_entry, is_full.
  destruct (position _ _) as [i|] eqn:Ep.
  - apply position_some in Ep as (x & Hx & Hid). bprop. split_and!; simpl; [|done|].
    + rewrite <- (length_fmap id), (delete_to_back _ _ _ _ Hx Hid), length_fmap. done.
    + by rewrite (delete_to_back _ _ _ _ Hx Hid).
  - destruct (k b <=? length (entries b)) eqn:Ef; simpl; bprop; split_and!; simpl; try done.
    + rewrite length_app. simpl. case_match; bprop; [|lia].
      destruct (replacement_cache b); simpl in *; lia.
    + rewrite length_app. simpl. lia.
    + rewrite fmap_app. apply NoDup_app. split_and!; [done| |apply NoDup_singleton].
      intros x Hx. simpl. rewrite list_elem_of_singleton. intros ->.
      apply list_elem_of_fmap in Hx as (y & Hy & Hyin).
      apply position_none in Ep. rewrite Forall_forall in Ep. specialize (Ep y Hyin). bprop. congruence.
Qed.

(** What an insertion changes: the entries gain the id, or stay. *)
Lemma insert_entry_ids e b :
  let '(b', r) := insert_entry e b in
  k b' = k b ∧
  match r with
  | BucketFull p => entries b' = entries b ∧ p = id <$> head (entries b) ∧ id e ∉ (id <$> entries b) ∧
                    k b ≤ length (entries b)
  | Updated => (id <$> entries b') ≡ₚ (id <$> entries b) ∧ e ∈ entries b'
  | Inserted => entries b' = entries b ++ [e] ∧ id e ∉ (id <$> entries b)
  end.
Proof.
  unfold insert_entry, is_full. destruct (position _ _) as [i|] eqn:Ep.
  - apply position_some in Ep as (x & Hx & Hid). bprop. simpl.
    split_and!; [done|by rewrite (delete_to_back _ _ _ _ Hx Hid)|set_solver].
  - assert (Hni : id e ∉ (id <$> entries b)).
    { intros Hx. apply list_elem_of_fmap in Hx as (y & Hy & Hyin).
      apply position_none in Ep. rewrite Forall_forall in Ep. specialize (Ep y Hyin). bprop. congruence. }
    destruct (k b <=? length (entries b)) eqn:Ef; simpl; bprop; by split_and!.
Qed.

(** The table: 256 buckets of [n], each entry in the bucket of its distance. *)
Definition table_wf (n : nat) (t : RoutingTable) : Prop :=
  array 32 (local_id t) ∧ length (buckets t) = ID_BITS ∧
  ∀ i b, buckets t !! i = Some b → k b = n ∧ bucket_wf b ∧
    ∀ e, e ∈ entries b → bucket_index t (id e) = Some i ∧ array 32 (id e).

Lemma new_table_wf local n : array 32 local → table_wf n (new local n).
Proof.
  intros Hl. split_and!; [done|apply length_replicate|]. intros i b.
  intros [-> _]%lookup_replicate. split_and!; [done| |set_solver].
  split_and!; simpl; try lia. constructor.
Qed.

Lemma bucket_index_lt t x i : array 32 (local_id t) → array 32 x → bucket_index t x = Some i → i < ID_BITS.
Proof.
  intros [Hl1 Hl2] [Hx1 Hx2] Hi. unfold bucket_index, leading_zeros_distance in Hi.
  apply first_set_bit_lt in Hi; [|by apply xor_distance_ok].
  rewrite length_xor_distance, Hl1 in Hi by congruence. unfold ID_BITS. lia.
Qed.

Lemma insert_table_wf n e t : 0 < n → array 32 (id e) → table_wf n t → table_wf n (insert e t).1.
Proof.
  intros Hn He (Hl & Hlen & Hb). unfold insert. case_bool_decide; [done|].
  destruct (bucket_index t (id e)) as [i|] eqn:Ei; [|done].
  destruct (buckets t !! i) as [b|] eqn:Eb; [|done].
  destruct (Hb i b Eb) as (Hk & Hw & Hin).
  pose proof (insert_entry_ids e b) as Hids. pose proof (insert_entry_wf e b ltac:(lia) Hw) as Hw'.
  destruct (insert_entry e b) as [b' r]. simpl in *. destruct Hids as [Hk' Hids].
  split_and!; simpl; [done|by rewrite length_insert|].
  intros j c Hj. destruct (decide (i = j)) as [<-|Hne].
  - rewrite list_lookup_insert_eq in Hj by (by eapply lookup_lt_Some). injection Hj as <-.
    split_and!; [congruence|done|].
    assert (Hx : ∀ x, x ∈ (id <$> entries b') → x = id e ∨ x ∈ (id <$> entries b)).
    { intros x Hx. destruct r as [| |p].
      - destruct Hids as [E _]. rewrite E, fmap_app in Hx. set_solver.
      - destruct Hids as [Hp _]. right. by rewrite <- Hp.
      - destruct Hids as [E _]. rewrite E in Hx. by right. }
    intros e' He'. destruct (Hx (id e')) as [-> | (e'' & -> & Hin'')%list_elem_of_fmap]; [set_solver|done|].
    by apply Hin.
  - rewrite list_lookup_insert_ne in Hj by done. by apply Hb.
Qed.

Lemma bucket_index_some t x : array 32 (local_id t) → array 32 x → x ≠ local_id t → is_Some (bucket_index t x).
Proof.
  intros [Hl _] [Hx _] Hne. destruct (bucket_index t x) eqn:E; [by eexists|]. exfalso.
  apply leading_zeros_distance_None in E; congruence.
Qed.

Lemma flat_map_nodup (f : bytes → option nat) bs i0 :
  (∀ i b, bs !! i = Some b → NoDup (id <$> entries b) ∧ ∀ e, e ∈ entries b → f (id e) = Some (i0 + i)) →
  NoDup (id <$> flat_map entries bs).
Proof.
  revert i0; induction bs as [|b bs IH]; intros i0 Hb; simpl; [constructor|].
  destruct (Hb 0 b eq_refl) as [Hn Hi]. rewrite fmap_app. apply NoDup_app. split_and!; [done| |].
  - intros x (e & -> & He)%list_elem_of_fmap (e' & Hx & He')%list_elem_of_fmap.
    apply list_elem_of_In, in_flat_map in He' as (b' & Hb' & He').
    apply list_elem_of_In in Hb'. apply list_elem_of_lookup in Hb' as [j Hj].
    apply list_elem_of_In in He'. destruct (Hb (S j) b' Hj) as [_ Hi'].
    specialize (Hi e He). specialize (Hi' e' He'). rewrite <- Hx, Hi in Hi'. injection Hi'. lia.
  - apply (IH (S i0)). intros i b' Hb'. destruct (Hb (S i) b' Hb') as [? Hi'].
    split; [done|]. intros e He. rewrite Hi' by done. f_equal. lia.
Qed.

Lemma all_entries_nodup n t : table_wf n t → NoDup (id <$> all_entries t).
Proof.
  intros (_ & _ & Hb). apply (flat_map_nodup (bucket_index t) _ 0). intros i b Hi.
  destruct (Hb i b Hi) as (_ & (_ & _ & ?) & Hin). split; [done|]. intros e He. by apply Hin.
Qed.

Lemma elem_of_all_entries t e : e ∈ all_entries t ↔ ∃ i b, buckets t !! i = Some b ∧ e ∈ entries b.
Proof.
  unfold all_entries. rewrite list_elem_of_In, in_flat_map. setoid_rewrite <- list_elem_of_In.
  split.
  - intros (b & Hb & He). apply list_elem_of_lookup in Hb as [i Hi]. eauto.
  - intros (i & b & Hi & He). exists b. split; [|done]. by eapply list_elem_of_lookup_2.
Qed.

Lemma all_entries_wf n t e : table_wf n t → e ∈ all_entries t → array 32 (id e) ∧ id e ≠ local_id t.
Proof.
  intros (Hl & _ & Hb) (i & b & Hi & He)%elem_of_all_entries. destruct (Hb i b Hi) as (_ & _ & Hin).
  destruct (Hin e He) as [Hx Ha]. split; [done|]. intros E. unfold bucket_index in Hx.
  rewrite E in Hx. by rewrite (proj2 (leading_zeros_distance_None _ _ eq_refl) eq_refl) in Hx.
Qed.

Lemma insert_local e t : local_id (insert e t).1 = local_id t.
Proof. unfold insert. repeat case_match; simplify_eq/=; done. Qed.

Definition run (t : RoutingTable) (es : list NodeEntry) : RoutingTable := foldl (λ t e, (insert e t).1) t es.

Lemma run_local t es : local_id (run t es) = local_id t.
Proof.
  unfold run. revert t; induction es as [|x es IH]; intros t; simpl; [done|].
  by rewrite IH, insert_local.
Qed.

Lemma run_table_wf n t es :
  0 < n → Forall (λ e, array 32 (id e)) es → table_wf n t → table_wf n (run t es).
Proof.
  intros Hn Hes. unfold run. revert t; induction Hes; intros t Ht; simpl; auto using insert_table_wf.
Qed.
Lemma closest_nodup n t target count : table_wf n t → NoDup (id <$> closest t target count).
Proof.
  intros Hw. unfold closest. set (l := stable_sort _ _).
  assert (Hn : NoDup (id <$> l)).
  { unfold l. rewrite stable_sort_perm. by eapply all_entries_nodup. }
  rewrite <- (take_drop count l), fmap_app in Hn. by apply NoDup_app in Hn as [? _].
Qed.
End Routing.

(** Whatever nodes a routing table is told about, it keeps 256 buckets of
    at most [k] entries and as many cached replacements, holds each node once,
    in the bucket of its leading-zero distance, and never itself; an insertion
    never indexes out of range, and afterwards the node is in the table, or
    its bucket is full of [k] others, whose oldest is the one to ping. *)
Theorem routing_table_invariant (local : bytes) (k : nat) (es : list Routing.NodeEntry) (e : Routing.NodeEntry)
  (Hk : 0 < k) (Hl : array 32 local) (Hes : Forall (λ e, array 32 (Routing.id e)) (e :: es)) :
  let t := Routing.run (Routing.new local k) es in
  length (Routing.buckets t) = 256 ∧
  (∀ i b, Routing.buckets t !! i = Some b →
     length (Routing.entries b) ≤ k ∧ length (Routing.replacement_cache b) ≤ k ∧
     ∀ x, x ∈ Routing.entries b → leading_zeros_distance local (Routing.id x) = Some i ∧ Routing.id x ≠ local) ∧
  NoDup (Routing.id <$> Routing.all_entries t) ∧
  match Routing.insert e t with
  | (t', Some r) =>
      Routing.id e = local ∧ t' = t ∨
      e ∈ Routing.all_entries t' ∨
      ∃ i b, r = Routing.BucketFull (Routing.id <$> head (Routing.entries b)) ∧
        leading_zeros_distance local (Routing.id e) = Some i ∧ Routing.buckets t !! i = Some b ∧
        length (Routing.entries b) = k ∧ Routing.all_entries t' = Routing.all_entries t
  | (_, None) => False
  end.
Proof.
  intros t. apply Forall_cons in Hes as [He Hes].
  pose proof (Routing.run_table_wf k _ es Hk Hes (Routing.new_table_wf local k Hl)) as Hw.
  assert (Hloc : Routing.local_id t = local) by (unfold t; by rewrite Routing.run_local).
  fold t in Hw. pose proof Hw as (_ & Hlen & Hb). split_and!; [done| |by eapply Routing.all_entries_nodup|].
  - intros i b Hi. destruct (Hb i b Hi) as (Hbk & (H1 & H2 & _) & Hin). rewrite Hbk in *.
    split_and!; [done..|]. intros x Hx. rewrite <- Hloc. split; [by apply Hin|].
    eapply Routing.all_entries_wf; [done|]. apply Routing.elem_of_all_entries. eauto.
  - unfold Routing.insert. case_bool_decide as Heq; [left; split; congruence|].
    destruct (Routing.bucket_index_some t (Routing.id e)) as [i Hi]; [by rewrite Hloc|done..|].
    rewrite Hi. assert (Hlt : i < length (Routing.buckets t)).
    { rewrite Hlen. eapply (Routing.bucket_index_lt t); [by rewrite Hloc|done|done]. }
    destruct (lookup_lt_is_Some_2 _ _ Hlt) as [b Eb]. rewrite Eb.
    destruct (Hb i b Eb) as (Hbk & (H1 & _ & _) & _).
    pose proof (Routing.insert_entry_ids e b) as Hids.
    destruct (Routing.insert_entry e b) as [b' r]. destruct Hids as [_ Hids]. right.
    destruct r as [| |p].
    + left. apply Routing.elem_of_all_entries. exists i, b'. simpl.
      rewrite list_lookup_insert_eq by done. destruct Hids as [-> _]. set_solver.
    + left. apply Routing.elem_of_all_entries. exists i, b'. simpl.
      rewrite list_lookup_insert_eq by done. by destruct Hids.
    + right. destruct Hids as (E1 & -> & _ & Hfull). exists i, b. rewrite <- Hloc.
      split_and!; try done; try lia.
      unfold Routing.all_entries. simpl. rewrite <- (take_drop_middle _ _ _ Eb) at 2.
      rewrite insert_take_drop by done. rewrite !flat_map_app. simpl. by rewrite E1.
Qed.

(** [closest] answers with the nearest nodes: at most [count], in order of
    XOR distance to the target and without repetition, and every node of the
    table it leaves out is at least as far as each one it returns; when it
    returns fewer than [count] it leaves out none. *)
Theorem closest_are_nearest (k count : nat) (t : Routing.RoutingTable) (target : bytes)
  (Hw : Routing.table_wf k t) :
  let r := Routing.closest t target count in
  length r = Nat.min count (length (Routing.all_entries t)) ∧
  NoDup (Routing.id <$> r) ∧
  StronglySorted (λ a b, bytes_leb (xor_distance (Routing.id a) target) (xor_distance (Routing.id b) target) = true) r ∧
  (∀ e, e ∈ Routing.all_entries t → e ∈ r ∨
     length r = count ∧
     ∀ x, x ∈ r → bytes_leb (xor_distance (Routing.id x) target) (xor_distance (Routing.id e) target) = true).
Proof.
  cbv zeta. unfold Routing.closest. set (l := stable_sort _ _).
  pose proof (stable_sort_perm (Routing.nearer target) (Routing.all_entries t)) as Hp. fold l in Hp.
  pose proof (stable_sort_sorted _ (Routing.nearer_total target) (Routing.nearer_trans target)
    (Routing.all_entries t)) as Hs. fold l in Hs.
  assert (Hlen : length (take count l) = Nat.min count (length (Routing.all_entries t)))
    by (rewrite length_take, (Permutation_length Hp); reflexivity).
  split_and!; [done| | |].
  - by apply (Routing.closest_nodup k t target count).
  - apply (sorted_take _ count l Hs).
  - intros e He. rewrite <- Hp in He. rewrite <- (take_drop count l) in He.
    apply elem_of_app in He as [He|He]; [by left|]. right. split.
    + rewrite length_take. apply list_elem_of_lookup in He as [i Hi].
      apply lookup_lt_Some in Hi. rewrite length_drop in Hi. lia.
    + intros x Hx. exact (sorted_take_drop _ count l x e Hs Hx He).
Qed.

(* ------------------------------------------------------------------ *)
(** ** The local record store *)

Module Storage.

Definition MAX_RECORD_SIZE : N := 8 * 1024.
Definition MAX_TTL_SECONDS : N := 30 * 24 * 60 * 60.

Inductive DhtRecordType :=
| PrekeyBundle | Profile | HashtagIndex | ContentProvider | RelayAdvertisement | DeadDrop.

Record DhtRecord := MkRecord {
  key : bytes;
  record_type : DhtRecordType;
  value : bytes;
  publisher : bytes;
  timestamp : N;
  ttl_seconds : N;
  signature : bytes
}.

(** The errors of [DhtError] that the store returns. *)
Inductive DhtError :=
| Expired
| RecordTooLarge (size max : N)
| TtlTooLarge (ttl_secs max_secs : N)
| StorageFull (count max : N).

Record StoredRecord := MkStored { record : DhtRecord; expires_at : N }.

Record DhtStorage := MkStorage {
  records : gmap bytes StoredRecord;
  max_records : N;
  max_record_size : N
}.

Definition new (max_records max_record_size : N) : DhtStorage := MkStorage ∅ max_records max_record_size.

Definition len (s : DhtStorage) : N := N.of_nat (size (records s)).

Definition put (now : N) (r : DhtRecord) (s : DhtStorage) : DhtStorage * result DhtError unit :=
  let size := N.of_nat (length (value r)) in
  if (max_record_size s <? size)%N then (s, Err (RecordTooLarge size (max_record_size s)))
  else if (MAX_TTL_SECONDS <? ttl_seconds r)%N then (s, Err (TtlTooLarge (ttl_seconds r) MAX_TTL_SECONDS))
  else
    let expires := add64 (timestamp r) (ttl_seconds r) in
    if (expires <? now)%N then (s, Err Expired)
    else if negb (bool_decide (is_Some (records s !! key r))) && (max_records s <=? len s)%N
    then (s, Err (StorageFull (len s) (max_records s)))
    else (MkStorage (<[key r := MkStored r expires]> (records s)) (max_records s) (max_record_size s), Ok tt).

Definition get (now : N) (k : bytes) (s : DhtStorage) : option DhtRecord :=
  match records s !! k with
  | Some stored => if (expires_at stored <? now)%N then None else Some (record stored)
  | None => None
  end.

Definition remove (k : bytes) (s : DhtStorage) : DhtStorage * bool :=
  (MkStorage (delete k (records s)) (max_records s) (max_record_size s), bool_decide (is_Some (records s !! k))).

Definition sweep_expired (now : N) (s : DhtStorage) : DhtStorage * nat :=
  let kept := filter (λ p, (now ≤ expires_at p.2)%N) (records s) in
  (MkStorage kept (max_records s) (max_record_size s), size (records s) - size kept).

Inductive op := Put (now : N) (r : DhtRecord) | Remove (k : bytes) | Sweep (now : N).

Definition step (s : DhtStorage) (o : op) : DhtStorage :=
  match o with
  | Put now r => (put now r s).1
  | Remove k => (remove k s).1
  | Sweep now => (sweep_expired now s).1
  end.
Definition run (s : DhtStorage) (ops : list op) : DhtStorage := foldl step s ops.

(** The limits hold of everything stored. *)
Definition stored_ok (s : DhtStorage) : Prop :=
  (len s ≤ max_records s)%N ∧
  ∀ k st, records s !! k = Some st →
    key (record st) = k ∧ (N.of_nat (length (value (record st))) ≤ max_record_size s)%N ∧
    (ttl_seconds (record st) ≤ MAX_TTL_SECONDS)%N ∧
    expires_at st = add64 (timestamp (record st)) (ttl_seconds (record st)).

Lemma put_ok_spec now r s :
  (put now r s).2 = Ok tt ↔
  (N.of_nat (length (value r)) ≤ max_record_size s)%N ∧ (ttl_seconds r ≤ MAX_TTL_SECONDS)%N ∧
  (now ≤ add64 (timestamp r) (ttl_seconds r))%N ∧
  (is_Some (records s !! key r) ∨ (len s < max_records s)%N).
Proof.
  unfold put. destruct (max_record_size s <? _)%N eqn:E1; bprop; [split; [done|lia]|].
  destruct (MAX_TTL_SECONDS <? _)%N eqn:E2; bprop; [split; [done|lia]|].
  destruct (_ <? now)%N eqn:E3; bprop; [split; [done|lia]|].
  case_bool_decide as E4; simpl; [naive_solver|].
  destruct (max_records s <=? len s)%N eqn:E5; bprop; simpl.
  - split; [done|]. intros (_ & _ & _ & [?|?]); [done|lia].
  - split; [|done]. intros _. split_and!; try lia.
Qed.

Lemma put_state now r s :
  (put now r s).1 = match (put now r s).2 with
    | Ok _ => MkStorage (<[key r := MkStored r (add64 (timestamp r) (ttl_seconds r))]> (records s))
                (max_records s) (max_record_size s)
    | Err _ => s end.
Proof. unfold put. repeat case_match; done. Qed.

Lemma stored_subset s m :
  m ⊆ records s → stored_ok s → stored_ok (MkStorage m (max_records s) (max_record_size s)).
Proof.
  intros Hsub (Hl & Hr). split; simpl.
  - unfold len in *. simpl. assert (size m ≤ size (records s)); [|lia].
    by apply map_subseteq_size.
  - intros k st Hk. apply Hr. by eapply lookup_weaken.
Qed.

Lemma put_stored_ok now r s : stored_ok s → stored_ok (put now r s).1.
Proof.
  intros Hs. rewrite put_state. destruct (put now r s).2 as [[]|] eqn:E; [|done].
  apply put_ok_spec in E as (E1 & E2 & E3 & E4). destruct Hs as [Hl Hr]. split; unfold len in *; simpl.
  - destruct (records s !! key r) as [st|] eqn:El.
    + rewrite map_size_insert_Some by (by rewrite El). done.
    + rewrite map_size_insert_None by done. destruct E4 as [[? ?]|?]; [done|lia].
  - intros k st [[<- <-]|[_ ?]]%lookup_insert_Some; [done|by apply Hr].
Qed.

Lemma step_stored_ok o s : stored_ok s → stored_ok (step s o).
Proof.
  intros Hs. destruct o as [now r|k|now]; simpl.
  - by apply put_stored_ok.
  - apply stored_subset; [apply delete_subseteq|done].
  - apply stored_subset; [apply map_filter_subseteq|done].
Qed.

Lemma run_stored_ok ops s : stored_ok s → stored_ok (run s ops).
Proof. unfold run. revert s; induction ops as [|o ops IH]; intros s Hs; simpl; auto using step_stored_ok. Qed.

Lemma step_limits o s : max_records (step s o) = max_records s ∧ max_record_size (step s o) = max_record_size s.
Proof. destruct o; simpl; [|done..]. unfold put. repeat case_match; done. Qed.

Lemma run_limits ops s : max_records (run s ops) = max_records s ∧ max_record_size (run s ops) = max_record_size s.
Proof.
  unfold run. revert s; induction ops as [|o ops IH]; intros s; simpl; [done|].
  destruct (IH (step s o)), (step_limits o s). split; congruence.
Qed.
End Storage.

(** After any operations the store is within its limits: at most
    [max_records] records, each under its own key, no larger than
    [max_record_size] and living at most 30 days.  A put succeeds exactly when
    the record is within the limits, not expired, and its key is present or
    there is room; then [get] returns it until it expires and other keys are
    as before.  A sweep removes exactly the expired records. *)
Theorem dht_storage_bounded (mr ms : N) (ops : list Storage.op) (now t : N) (r : Storage.DhtRecord) :
  let s := Storage.run (Storage.new mr ms) ops in
  (Storage.len s ≤ mr)%N ∧
  (∀ k st, Storage.records s !! k = Some st →
     Storage.key (Storage.record st) = k ∧
     (N.of_nat (length (Storage.value (Storage.record st))) ≤ ms)%N ∧
     (Storage.ttl_seconds (Storage.record st) ≤ 30 * 24 * 60 * 60)%N) ∧
  ((Storage.put now r s).2 = Ok tt ↔
     (N.of_nat (length (Storage.value r)) ≤ ms)%N ∧ (Storage.ttl_seconds r ≤ Storage.MAX_TTL_SECONDS)%N ∧
     (now ≤ add64 (Storage.timestamp r) (Storage.ttl_seconds r))%N ∧
     (is_Some (Storage.records s !! Storage.key r) ∨ (Storage.len s < mr)%N)) ∧
  (∀ k, Storage.get t k (Storage.put now r s).1 =
     if is_ok (Storage.put now r s).2 && bool_decide (k = Storage.key r)
     then (if (add64 (Storage.timestamp r) (Storage.ttl_seconds r) <? t)%N then None else Some r)
     else Storage.get t k s) ∧
  (∀ k, Storage.records (Storage.sweep_expired now s).1 !! k =
     match Storage.records s !! k with
     | Some st => if (Storage.expires_at st <? now)%N then None else Some st
     | None => None end).
Proof.
  intros s. destruct (Storage.run_limits ops (Storage.new mr ms)) as [L1 L2]. fold s in L1, L2. simpl in L1, L2.
  assert (Hs : Storage.stored_ok s).
  { apply Storage.run_stored_ok. split; [unfold Storage.len; simpl; rewrite map_size_empty; lia|].
    intros k st. simpl. by rewrite lookup_empty. }
  destruct Hs as [Hl Hr]. rewrite <- L1, <- L2. split_and!; [done| |apply Storage.put_ok_spec| |].
  - intros k st Hk. by destruct (Hr k st Hk) as (? & ? & ? & _).
  - intros k. rewrite Storage.put_state. unfold Storage.get.
    destruct (Storage.put now r s).2 as [[]|]; simpl.
    + case_bool_decide as Hd; [subst k; by rewrite lookup_insert_eq|].
      by rewrite lookup_insert_ne.
    + done.
  - intros k. simpl. rewrite map_lookup_filter. destruct (Storage.records s !! k) as [st|]; [|done]. simpl.
    destruct (Storage.expires_at st <? now)%N eqn:E; bprop.
    + rewrite option_guard_False by lia. done.
    + rewrite option_guard_True by lia. done.
Qed.

(* ------------------------------------------------------------------ *)
(** ** The iterative lookup *)

Module Query.

(** [candidates] is a [BTreeMap] from distance to node: an association list in
    ascending key order. *)
Record DhtQuery := MkQuery {
  target : bytes;
  local_id : bytes;
  alpha : nat;
  k : nat;
  queried : gset bytes;
  candidates : list (bytes * bytes);
  finished : bool;
  found_value : option Storage.DhtRecord
}.

Fixpoint bt_insert (d n : bytes) (l : list (bytes * bytes)) : list (bytes * bytes) :=
  match l with
  | [] => [(d, n)]
  | (d', n') :: l' =>
      match bytes_cmp d d' with
      | Lt => (d, n) :: l
      | Eq => (d, n) :: l'
      | Gt => (d', n') :: bt_insert d n l'
      end
  end.

Definition new (target : bytes) (alpha k : nat) (t : Routing.RoutingTable) : DhtQuery :=
  let seeds := Routing.closest t target k in
  let candidates := foldl (λ m e, bt_insert (xor_distance (Routing.id e) target) (Routing.id e) m) [] seeds in
  MkQuery target (Routing.local_id t) alpha k ∅ candidates false None.

Definition values (q : DhtQuery) : list bytes := snd <$> candidates q.

Definition next_to_query (q : DhtQuery) : list bytes :=
  take (alpha q) (filter (λ n, n ∉ queried q) (values q)).

(** The loop over [closer_nodes], and whether it learned a node. *)
Fixpoint learn (target local : bytes) (closer : list bytes) (cands : list (bytes * bytes)) :
    list (bytes * bytes) * bool :=
  match closer with
  | [] => (cands, false)
  | node :: rest =>
      if bool_decide (node = local) then learn target local rest cands
      else
        let dist := xor_distance node target in
        if bool_decide (dist ∈ (fst <$> cands)) then learn target local rest cands
        else ((learn target local rest (bt_insert dist node cands)).1, true)
  end.

Definition process_find_node_response (from : bytes) (closer_nodes : list bytes) (q : DhtQuery) :
    DhtQuery * bool :=
  let '(cands, learned_closer) := learn (target q) (local_id q) closer_nodes (candidates q) in
  let q' := MkQuery (target q) (local_id q) (alpha q) (k q) ({[from]} ∪ queried q) cands
              (finished q) (found_value q) in
  let fin := if bool_decide (next_to_query q' = []) then true else finished q' in
  (MkQuery (target q') (local_id q') (alpha q') (k q') (queried q') (candidates q') fin (found_value q'),
   learned_closer).

Definition set_found_value (r : Storage.DhtRecord) (q : DhtQuery) : DhtQuery :=
  MkQuery (target q) (local_id q) (alpha q) (k q) (queried q) (candidates q) true (Some r).

Definition take_found_value (q : DhtQuery) : DhtQuery * option Storage.DhtRecord :=
  (MkQuery (target q) (local_id q) (alpha q) (k q) (queried q) (candidates q) (finished q) None, found_value q).

Definition closest_results (q : DhtQuery) : list bytes := take (k q) (values q).

(** One round trip: a node the lookup wants to ask answers. *)
Definition qstep (answers : bytes → list bytes) (q q' : DhtQuery) : Prop :=
  ∃ n, n ∈ next_to_query q ∧ q' = (process_find_node_response n (answers n) q).1.

(** The nodes that answers lead to from [seeds]. *)
Inductive reach (answers : bytes → list bytes) (local : bytes) (seeds : list bytes) : bytes → Prop :=
| reach_seed n : n ∈ seeds → reach answers local seeds n
| reach_answer m n : reach answers local seeds m → n ∈ answers m → n ≠ local → reach answers local seeds n.

(* ---------------------------------------------------------------- *)
(** *** Lemmas *)

Lemma reach_no_seeds answers local n : ¬ reach answers local [] n.
Proof. induction 1 as [n Hn|]; [by apply not_elem_of_nil in Hn|done]. Qed.

Definition ordered (l : list (bytes * bytes)) : Prop := StronglySorted (λ a b, bytes_ltb a.1 b.1 = true) l.

Lemma bt_insert_perm d n l : d ∉ (fst <$> l) → bt_insert d n l ≡ₚ (d, n) :: l.
Proof.
  induction l as [|[d' n'] l IH]; intros Hd; simpl in *; [done|].
  destruct (bytes_cmp d d') eqn:E; [apply bytes_cmp_eq in E; set_solver|done|].
  rewrite IH by set_solver. apply Permutation_swap.
Qed.

Lemma bt_insert_ordered d n l : d ∉ (fst <$> l) → ordered l → ordered (bt_insert d n l).
Proof.
  intros Hd Hs. induction Hs as [|[d' n'] l Hs IH Hall]; simpl; [repeat constructor|].
  assert (Hcmp : bytes_cmp d' d = CompOpp (bytes_cmp d d')) by apply bytes_cmp_antisym.
  destruct (bytes_cmp d d') eqn:E.
  - apply bytes_cmp_eq in E. set_solver.
  - assert (Hlt : bytes_ltb d d' = true) by (unfold bytes_ltb; by rewrite E).
    constructor; [by constructor|]. constructor; [done|].
    eapply Forall_impl; [exact Hall|]. intros [d'' n'']. simpl. eauto using bytes_ltb_trans.
  - constructor; [apply IH; set_solver|]. rewrite bt_insert_perm by set_solver.
    constructor; [|done]. simpl. unfold bytes_ltb. by rewrite Hcmp.
Qed.

(** Candidates are keyed by their distance, and none is the local node. *)
Definition coherent (t local : bytes) (l : list (bytes * bytes)) : Prop :=
  ∀ d n, (d, n) ∈ l → d = xor_distance n t ∧ length n = 32 ∧ n ≠ local.

Lemma coherent_mem t local l n :
  length t = 32 → length n = 32 → coherent t local l →
  xor_distance n t ∈ (fst <$> l) ↔ n ∈ (snd <$> l).
Proof.
  intros Ht Hn Hc. rewrite !list_elem_of_fmap. split.
  - intros ([d n'] & Hd & Hin). simpl in *. destruct (Hc d n' Hin) as (-> & Hlen & _).
    apply (xor_distance_inj t) in Hd; [|congruence..]. subst. by exists (xor_distance n' t, n').
  - intros ([d n'] & -> & Hin). simpl. destruct (Hc d n' Hin) as (-> & _). by exists (xor_distance n' t, n').
Qed.

Lemma learn_spec t local closer cands :
  length t = 32 → Forall (λ n, length n = 32) closer → ordered cands → coherent t local cands →
  let '(c, learned) := learn t local closer cands in
  ordered c ∧ coherent t local c ∧
  (∀ n, n ∈ (snd <$> c) ↔ n ∈ (snd <$> cands) ∨ n ∈ closer ∧ n ≠ local) ∧
  (learned = true ↔ ∃ n, n ∈ closer ∧ n ≠ local ∧ n ∉ (snd <$> cands)).
Proof.
  intros Ht. revert cands; induction closer as [|x closer IH]; intros cands Hlen Ho Hc; cbn [learn].
  { split_and!; try done; set_solver. }
  apply Forall_cons in Hlen as [Hx Hlen].
  case_bool_decide as Hl.
  { specialize (IH cands Hlen Ho Hc). destruct (learn t local closer cands) as [c b].
    destruct IH as (? & ? & Hi & Hb). split_and!; [done..| |]; set_solver. }
  case_bool_decide as Hm.
  { specialize (IH cands Hlen Ho Hc). destruct (learn t local closer cands) as [c b].
    apply (coherent_mem t local) in Hm; [|done..].
    destruct IH as (? & ? & Hi & Hb). split_and!; [done..| |]; set_solver. }
  assert (Hp := bt_insert_perm (xor_distance x t) x cands Hm).
  specialize (IH (bt_insert (xor_distance x t) x cands) Hlen (bt_insert_ordered _ _ _ Hm Ho)).
  assert (Hc' : coherent t local (bt_insert (xor_distance x t) x cands)).
  { intros d n. rewrite Hp. intros [[= -> ->]|Hin]%elem_of_cons; [done|by apply Hc]. }
  specialize (IH Hc'). destruct (learn t local closer _) as [c b]. simpl.
  destruct IH as (? & ? & Hi & _). split_and!; [done..| |].
  - intros n. rewrite Hi, Hp. simpl. set_solver.
  - split; [|done]. intros _. exists x. split_and!; [set_solver|done|].
    by rewrite <- (coherent_mem t local).
Qed.

Lemma next_to_query_elem q n : n ∈ next_to_query q → n ∈ values q ∧ n ∉ queried q.
Proof.
  unfold next_to_query. intros Hn. assert (Hn' : n ∈ filter (λ n, n ∉ queried q) (values q)).
  { rewrite <- (take_drop (alpha q)). set_solver. }
  apply list_elem_of_filter in Hn'. tauto.
Qed.

Lemma next_to_query_nil q : 0 < alpha q → next_to_query q = [] ↔ ∀ n, n ∈ values q → n ∈ queried q.
Proof.
  intros Ha. unfold next_to_query. split.
  - intros Hn n Hv. destruct (decide (n ∈ queried q)); [done|].
    assert (Hin : n ∈ filter (λ n, n ∉ queried q) (values q)) by (by apply list_elem_of_filter).
    destruct (filter _ _) as [|x l]; [by apply not_elem_of_nil in Hin|].
    destruct (alpha q); [lia|done].
  - intros Hall. destruct (filter _ _) as [|x l] eqn:E; [apply take_nil|]. exfalso.
    assert (Hx : x ∈ filter (λ n, n ∉ queried q) (values q)) by (rewrite E; set_solver).
    apply list_elem_of_filter in Hx as [? ?]. naive_solver.
Qed.

Section lookup.
Context (answers : bytes → list bytes) (tgt local : bytes) (seeds : list bytes).

(** What holds during a lookup. *)
Definition qinv (q : DhtQuery) : Prop :=
  target q = tgt ∧ local_id q = local ∧ ordered (candidates q) ∧ coherent tgt local (candidates q) ∧
  (∀ n, n ∈ values q → reach answers local seeds n) ∧
  (∀ n, n ∈ seeds → n ∈ values q) ∧
  (∀ n, n ∈ queried q → n ∈ values q ∧ ∀ m, m ∈ answers n → m ≠ local → m ∈ values q) ∧
  (finished q = true ↔ next_to_query q = [] ∧ queried q ≠ ∅).

(** Queried nodes are candidates, and candidates are reachable. *)
Lemma queried_bound q (U : list bytes) :
  qinv q → (∀ n, reach answers local seeds n → n ∈ U) → size (queried q) ≤ length U.
Proof.
  intros (_ & _ & _ & _ & Hr & _ & Hq & _) HU.
  etrans; [apply (subseteq_size (queried q) (list_to_set U))|].
  - intros n Hn. apply elem_of_list_to_set, HU, Hr. by apply Hq.
  - apply size_list_to_set_le.
Qed.

(** When no node is left to ask, the candidates are the reachable nodes. *)
Lemma settled_values q n :
  qinv q → 0 < alpha q → next_to_query q = [] → (n ∈ values q ↔ reach answers local seeds n).
Proof.
  intros (_ & _ & _ & _ & Hr & Hsd & Hq & _) Ha Hnext. split; [apply Hr|].
  rewrite next_to_query_nil in Hnext by done.
  induction 1 as [n Hn|m n _ IH Hn Hne]; [by apply Hsd|].
  destruct (Hq m (Hnext m IH)) as [_ Hcl]. by apply Hcl.
Qed.

Lemma values_sorted q :
  qinv q → NoDup (values q) ∧
  StronglySorted (λ a b, bytes_leb (xor_distance a tgt) (xor_distance b tgt) = true) (values q).
Proof.
  intros (_ & _ & Ho & Hc & _). unfold values. induction Ho as [|[d n] l Ho IH Hall]; simpl; [by split; constructor|].
  destruct IH as [Hn Hs]; [intros x y Hxy; apply Hc; set_solver|]. rewrite Forall_forall in Hall.
  destruct (Hc d n ltac:(set_solver)) as (-> & Hlen & _).
  split; constructor; [|done..|].
  - intros ([d' n'] & -> & Hin)%list_elem_of_fmap. simpl in *. specialize (Hall _ Hin). simpl in Hall.
    destruct (Hc d' n' ltac:(set_solver)) as (-> & _). by rewrite bytes_ltb_irrefl in Hall.
  - apply Forall_forall. intros m ([d' m'] & -> & Hin)%list_elem_of_fmap. simpl.
    specialize (Hall _ Hin). simpl in Hall. destruct (Hc d' m' ltac:(set_solver)) as (-> & _).
    apply bytes_leb_lteq. by left.
Qed.
Context (Htgt : length tgt = 32) (Hans : ∀ n, Forall (λ m, length m = 32) (answers n)).

Lemma qstep_inv q q' :
  qinv q → qstep answers q q' →
  qinv q' ∧ size (queried q') = S (size (queried q)) ∧ alpha q' = alpha q ∧ k q' = k q.
Proof.
  intros (Et & El & Ho & Hc & Hr & Hsd & Hq & Hf) (n & Hn & ->).
  assert (Hnf : finished q ≠ true) by (intros [E _]%Hf; rewrite E in Hn; set_solver).
  apply next_to_query_elem in Hn as [Hv Hnq].
  unfold process_find_node_response.
  pose proof (learn_spec (target q) (local_id q) (answers n) (candidates q)) as L.
  rewrite Et, El in *. specialize (L Htgt (Hans n) Ho Hc).
  destruct (learn tgt local (answers n) (candidates q)) as [c b]. destruct L as (Ho' & Hc' & Hi & _).
  simpl. set (q' := MkQuery tgt local (alpha q) (k q) ({[n]} ∪ queried q) c (finished q) (found_value q)).
  split_and!; try done; simpl.
  2: { rewrite size_union by set_solver. by rewrite size_singleton. }
  unfold qinv, values in *. simpl. split_and!; try done.
  - intros m Hm. apply Hi in Hm as [Hm|[Hm Hne]]; [by apply Hr|].
    eapply reach_answer; [by apply Hr|done|done].
  - intros m Hm. apply Hi. left. by apply Hsd.
  - intros m [->%elem_of_singleton|Hm]%elem_of_union.
    + split; [apply Hi; by left|]. intros x Hx Hne. apply Hi. by right.
    + destruct (Hq m Hm) as [H1 H2]. split; [apply Hi; by left|]. intros x Hx Hne. apply Hi. left. by apply H2.
  - change (next_to_query (MkQuery _ _ _ _ _ _ _ _)) with (next_to_query q').
    unfold next_to_query at 2. simpl.
    change (take (alpha q) _) with (next_to_query q').
    case_bool_decide as Hn'; [split; [intros _; split; [done|set_solver]|done]|].
    split; [done|by intros [? _]].
Qed.

Lemma qsteps_inv m q q' :
  qinv q → nsteps (qstep answers) m q q' →
  qinv q' ∧ size (queried q') = m + size (queried q) ∧ alpha q' = alpha q ∧ k q' = k q.
Proof.
  intros Hq Hs. induction Hs as [q|m q q1 q' H1 Hs IH]; [done|].
  destruct (qstep_inv q q1 Hq H1) as (Hq1 & Hsz & Ha & Hk).
  destruct (IH Hq1) as (? & ? & ? & ?). split_and!; [done|lia|congruence..].
Qed.

End lookup.

Lemma new_candidates (tgt local : bytes) (l : list Routing.NodeEntry) c :
  length tgt = 32 → Forall (λ e, length (Routing.id e) = 32 ∧ Routing.id e ≠ local) l →
  NoDup (Routing.id <$> l) → (∀ e, e ∈ l → Routing.id e ∉ (snd <$> c)) → ordered c → coherent tgt local c →
  let c' := foldl (λ m e, bt_insert (xor_distance (Routing.id e) tgt) (Routing.id e) m) c l in
  ordered c' ∧ coherent tgt local c' ∧ ∀ n, n ∈ (snd <$> c') ↔ n ∈ (snd <$> c) ∨ n ∈ (Routing.id <$> l).
Proof.
  intros Ht. revert c; induction l as [|e l IH]; intros c Hl Hn Hd Ho Hc; simpl.
  { split_and!; try done. set_solver. }
  apply Forall_cons in Hl as [[He Hne] Hl]. simpl in Hn. apply NoDup_cons in Hn as [Hni Hn].
  assert (Hm : xor_distance (Routing.id e) tgt ∉ (fst <$> c))
    by (rewrite (coherent_mem tgt local) by done; apply Hd; set_solver).
  pose proof (bt_insert_perm _ (Routing.id e) _ Hm) as Hp.
  destruct (IH (bt_insert (xor_distance (Routing.id e) tgt) (Routing.id e) c)) as (H1 & H2 & H3); try done.
  - intros x Hx. rewrite Hp. simpl. intros [Hxe|Hx']%elem_of_cons; [|by apply (Hd x); [set_solver|]].
    apply Hni. rewrite <- Hxe. by apply list_elem_of_fmap_2.
  - by apply bt_insert_ordered.
  - intros d n. rewrite Hp. intros [[= -> ->]|Hin]%elem_of_cons; [done|by apply Hc].
  - split_and!; [done..|]. intros n. rewrite H3, Hp. simpl. set_solver.
Qed.

Lemma new_qinv answers (tgt : bytes) (a k kk : nat) (t : Routing.RoutingTable) :
  length tgt = 32 → Routing.table_wf kk t →
  qinv answers tgt (Routing.local_id t) (Routing.id <$> Routing.closest t tgt k) (new tgt a k t).
Proof.
  intros Ht Hw. set (l := Routing.closest t tgt k).
  assert (Hsub : ∀ e, e ∈ l → e ∈ Routing.all_entries t).
  { intros e He. rewrite <- (stable_sort_perm (Routing.nearer tgt)).
    rewrite <- (take_drop k). apply elem_of_app. by left. }
  destruct (new_candidates tgt (Routing.local_id t) l []) as (H1 & H2 & H3); try done.
  - apply Forall_forall. intros e He%Hsub. destruct (Routing.all_entries_wf _ _ _ Hw He) as [[? _] ?]. done.
  - apply (Routing.closest_nodup kk t tgt k Hw).
  - set_solver.
  - constructor.
  - intros d n Hn. by apply not_elem_of_nil in Hn.
  - unfold qinv, new, values. simpl. split_and!; try done.
    + intros n Hn. apply H3 in Hn as [Hn|Hn]; [by apply not_elem_of_nil in Hn|]. by apply reach_seed.
    + intros n Hn. apply H3. by right.
    + set_solver.
Qed.
End Query.

(** C5. The lookup finds the closest nodes there are: asking, in any order,
    the nodes [next_to_query] names - each answer being any list of 32-byte
    ids that stays among [U] - takes at most [length U] answers, and when no
    node is left to ask, [closest_results] are the [k] nodes nearest to the
    target among all that answers lead to from the table's own [k] nearest,
    in order of distance; the query then says it is finished, unless the table
    knew no node at all, in which case it never does. *)
Theorem lookup_closest (t : Routing.RoutingTable) (kk : nat) (tgt : bytes) (alpha k : nat)
  (answers : bytes → list bytes) (U : list bytes)
  (Hw : Routing.table_wf kk t) (Ht : length tgt = 32) (Ha : 0 < alpha)
  (Hans : ∀ n, Forall (λ m, length m = 32) (answers n)) :
  let seeds := Routing.id <$> Routing.closest t tgt k in
  let known := Query.reach answers (Routing.local_id t) seeds in
  (∀ n, known n → n ∈ U) → ∀ m q,
  nsteps (Query.qstep answers) m (Query.new tgt alpha k t) q →
  m ≤ length U ∧
  (Query.next_to_query q = [] → Query.finished q = negb (bool_decide (seeds = []))) ∧
  (Query.next_to_query q = [] →
    NoDup (Query.closest_results q) ∧ length (Query.closest_results q) ≤ k ∧
    StronglySorted (λ a b, bytes_leb (xor_distance a tgt) (xor_distance b tgt) = true) (Query.closest_results q) ∧
    (∀ n, n ∈ Query.closest_results q → known n) ∧
    (∀ n, known n → n ∈ Query.closest_results q ∨ length (Query.closest_results q) = k ∧
       ∀ x, x ∈ Query.closest_results q → bytes_leb (xor_distance x tgt) (xor_distance n tgt) = true)).
Proof.
  intros seeds known HU m q Hs.
  pose proof (Query.new_qinv answers tgt alpha k kk t Ht Hw) as Hi. fold seeds in Hi.
  destruct (Query.qsteps_inv answers tgt _ seeds Ht Hans m _ q Hi Hs) as (Hq & Hsz & Eal & Ek).
  simpl in Eal, Ek. change (Query.queried (Query.new tgt alpha k t)) with (∅ : gset bytes) in Hsz.
  rewrite size_empty, Nat.add_0_r in Hsz. split_and!.
  - rewrite <- Hsz. by eapply Query.queried_bound.
  - intros Hn. pose proof Hq as (_ & _ & _ & _ & Hr & Hsd & Hqd & Hf).
    assert (Hiff : Query.queried q ≠ ∅ ↔ seeds ≠ []).
    { split.
      - intros Hne E. apply Hne, elem_of_equiv_empty_L. intros n Hin.
        apply (Query.reach_no_seeds answers (Routing.local_id t) n). rewrite <- E. by apply Hr, Hqd.
      - intros Hne. destruct seeds as [|s0 seeds']; [done|].
        assert (s0 ∈ Query.queried q); [|set_solver].
        apply (proj1 (Query.next_to_query_nil q ltac:(lia)) Hn). apply Hsd. set_solver. }
    case_bool_decide as E; simpl.
    + apply not_true_is_false. rewrite Hf, Hiff. tauto.
    + apply Hf. rewrite Hiff. done.
  - intros Hn. destruct (Query.values_sorted _ _ _ _ _ Hq) as [Hnd Hso].
    pose proof (λ n, Query.settled_values _ _ _ _ q n Hq ltac:(lia) Hn) as Hv.
    unfold Query.closest_results. rewrite Ek. split_and!.
    + rewrite <- (take_drop k) in Hnd. by apply NoDup_app in Hnd as [? _].
    + rewrite length_take. lia.
    + by apply sorted_take.
    + intros n Hin. apply Hv. rewrite <- (take_drop k). apply elem_of_app. by left.
    + intros n Hkn. apply Hv in Hkn. rewrite <- (take_drop k) in Hkn.
      apply elem_of_app in Hkn as [?|Hd]; [by left|]. right. split.
      * rewrite length_take. apply list_elem_of_lookup in Hd as [i Hd%lookup_lt_Some].
        rewrite length_drop in Hd. lia.
      * intros x Hx. exact (sorted_take_drop _ k (Query.values q) x n Hso Hx Hd).
Qed.

(** Evicting twice promotes a node that was cached twice: the bucket then
    holds it twice. *)
Example evict_duplicates :
  let n i := Routing.MkNode [i]%N [] 0 None 0 in
  let b := foldl (λ b e, (Routing.insert_entry e b).1) (Routing.new_bucket 2) [n 1; n 2; n 3; n 3]%N in
  Routing.bucket_wf b ∧
  Routing.id <$> Routing.entries (Routing.evict_oldest (Routing.evict_oldest b).1).1 = [[3]; [3]]%N.
Proof.
  cbv zeta. split; [|vm_compute; reflexivity].
  apply Routing.insert_entry_wf; [simpl; lia|]. do 3 (apply Routing.insert_entry_wf; [simpl; lia|]).
  split_and!; simpl; try lia. constructor.
Qed.

(* ------------------------------------------------------------------ *)
(** ** Witnesses *)

Definition demo_node (i : N) : bytes := replicate 31 0%N ++ [i].
Definition demo_entry (i : N) : Routing.NodeEntry := Routing.MkNode (demo_node i) [] 0 None 0.
Definition demo_table : Routing.RoutingTable := Routing.run (Routing.new (demo_node 0) 2) [demo_entry 4; demo_entry 9].

Lemma demo_node_array i : (i < 256)%N → array 32 (demo_node i).
Proof. intros Hi. split; [done|]. apply Forall_app. split; [by apply Forall_replicate|by repeat constructor]. Qed.

Lemma demo_table_wf : Routing.table_wf 2 demo_table.
Proof.
  apply Routing.run_table_wf; [lia| |apply Routing.new_table_wf, demo_node_array; lia].
  repeat constructor; apply demo_node_array; lia.
Qed.

Lemma routing_table_invariant_witness :
  length (Routing.buckets demo_table) = 256 ∧ NoDup (Routing.id <$> Routing.all_entries demo_table).
Proof.
  destruct (routing_table_invariant (demo_node 0) 2 [demo_entry 4; demo_entry 9] (demo_entry 5)) as (H1 & _ & H2 & _).
  - lia.
  - apply demo_node_array. lia.
  - repeat constructor; apply demo_node_array; lia.
  - split; [exact H1|exact H2].
Defined.

Lemma closest_are_nearest_witness :
  length (Routing.closest demo_table (demo_node 8) 1) = 1 ∧
  Routing.id <$> Routing.closest demo_table (demo_node 8) 1 = [demo_node 9].
Proof.
  destruct (closest_are_nearest 2 1 demo_table (demo_node 8) demo_table_wf) as (H & _).
  split; [exact H|vm_compute; reflexivity].
Defined.

Definition demo_record : Storage.DhtRecord :=
  Storage.MkRecord (demo_node 1) Storage.Profile [7%N] (demo_node 2) 100 60 [].

Lemma dht_storage_bounded_witness :
  Storage.get 150 (demo_node 1) (Storage.put 120 demo_record (Storage.new 10 100)).1 = Some demo_record.
Proof.
  destruct (dht_storage_bounded 10 100 [] 120 150 demo_record) as (_ & _ & _ & H & _).
  etransitivity; [exact (H (demo_node 1))|]. vm_compute. reflexivity.
Defined.

Definition demo_answers (n : bytes) : list bytes :=
  if bool_decide (n = demo_node 4) then [demo_node 5; demo_node 0] else [].
Definition demo_q (ns : list bytes) : Query.DhtQuery :=
  foldl (λ q n, (Query.process_find_node_response n (demo_answers n) q).1)
    (Query.new (demo_node 7) 3 2 demo_table) ns.

Lemma lookup_closest_witness :
  Query.closest_results (demo_q [demo_node 4; demo_node 5; demo_node 9]) = [demo_node 5; demo_node 4] ∧
  Query.finished (demo_q [demo_node 4; demo_node 5; demo_node 9]) = true.
Proof.
  split; [vm_compute; reflexivity|].
  destruct (lookup_closest demo_table 2 (demo_node 7) 3 2 demo_answers
    [demo_node 4; demo_node 5; demo_node 9] demo_table_wf) with
    (m := 3) (q := demo_q [demo_node 4; demo_node 5; demo_node 9]) as (_ & H & _).
  - reflexivity.
  - lia.
  - intros n. unfold demo_answers. case_bool_decide; repeat constructor.
  - intros n Hn. induction Hn as [n Hn|m n Hm IH Hn Hne].
    + revert n Hn. apply Forall_forall. vm_compute. repeat constructor.
    + unfold demo_answers in Hn. case_bool_decide; [|by apply not_elem_of_nil in Hn].
      apply elem_of_cons in Hn as [->|Hn]; [set_solver|].
      apply list_elem_of_singleton in Hn. by subst n.
  - eapply (nsteps_l _ _ _ (demo_q [demo_node 4]));
      [exists (demo_node 4); split; [vm_compute; repeat constructor|reflexivity]|].
    eapply (nsteps_l _ _ _ (demo_q [demo_node 4; demo_node 5]));
      [exists (demo_node 5); split; [vm_compute; repeat constructor|reflexivity]|].
    eapply (nsteps_l _ _ _ (demo_q [demo_node 4; demo_node 5; demo_node 9]));
      [exists (demo_node 9); split; [vm_compute; repeat constructor|reflexivity]|]. constructor.
  - etransitivity; [apply H; vm_compute; reflexivity|]. vm_compute. reflexivity.
Defined.
