(* ===== verification/Gossip.v ===== *)
(** * Gossip: [crates/ephemera-gossip/src]

    The epidemic broadcast service ([service.rs], with the peer selection of
    [fanout.rs]) as handlers that return the node's new state and the messages
    it sends, the tree engine of [plumtree.rs], and a network of nodes over
    reliable unordered links.  JSON framing is not modelled: a packet is an
    envelope.  The order in which a random shuffle leaves the peers is an
    argument, and so are the clock and the set of connected peers. *)
From S2P Require Import Prelude Types Crypto.

Module Service.
Section service.
Context `{Primitives}.

(* ------------------------------------------------------------------ *)
(** ** Wire messages *)

Record GossipWireMessage := MkWire {
  w_topic : bytes;
  w_payload : bytes;
  w_content_hash : bytes;
  w_origin : bytes
}.

Record IHaveMessage := MkIHave { ih_topic : bytes; ih_content_hash : bytes; ih_origin : bytes }.

Inductive GossipEnvelope :=
| FullMessage (m : GossipWireMessage)
| IHave (m : IHaveMessage)
| IWant (content_hash : bytes).

(** What a subscriber receives. *)
Record GossipMessage := MkMessage {
  g_topic : bytes;
  g_payload : bytes;
  g_content_hash : bytes;
  g_source_node : bytes
}.

(* ------------------------------------------------------------------ *)
(** ** Peer selection *)

Record FanoutConfig := MkFanout {
  max_message_size : nat;
  eager_push_peers : nat;
  lazy_push_peers : nat;
  lazy_timeout : N;
  max_subscriptions : nat
}.
Definition default_fanout : FanoutConfig := MkFanout (64 * 1024) 3 6 2000 100.
Definition total_fanout (c : FanoutConfig) : nat := eager_push_peers c + lazy_push_peers c.

(** [select_fanout] of candidates that the shuffle left as [shuffled]. *)
Definition select_fanout (shuffled : list bytes) (config : FanoutConfig) : list bytes * list bytes :=
  let eager_count := Nat.min (eager_push_peers config) (length shuffled) in
  let eager := take eager_count shuffled in
  let remaining := drop eager_count shuffled in
  let lazy_count := Nat.min (lazy_push_peers config) (length remaining) in
  (eager, take lazy_count remaining).

(* ------------------------------------------------------------------ *)
(** ** A node *)

(** The sending half of a bounded channel: what is queued, the capacity, and
    whether the receiver is still there. *)
Record TopicState := MkTopic { queue : list GossipMessage; capacity : nat; receiver_open : bool }.
Definition try_send (m : GossipMessage) (s : TopicState) : TopicState :=
  if receiver_open s && (length (queue s) <? capacity s)
  then MkTopic (queue s ++ [m]) (capacity s) (receiver_open s) else s.

Record PendingIHave := MkPending { p_topic : bytes; p_from : bytes; p_received_at : N; p_origin : bytes }.

Record EagerGossipService := MkService {
  local_id : bytes;
  topics : gmap bytes TopicState;
  seen : gset bytes;
  message_cache : gmap bytes GossipWireMessage;
  pending_ihaves : gmap bytes PendingIHave;
  fanout_config : FanoutConfig
}.

Definition new (local_id : bytes) (config : FanoutConfig) : EagerGossipService :=
  MkService local_id ∅ ∅ ∅ ∅ config.

Definition outbox := list (bytes * GossipEnvelope).

Definition set_topics f s := MkService (local_id s) (f (topics s)) (seen s) (message_cache s) (pending_ihaves s) (fanout_config s).
Definition set_seen f s := MkService (local_id s) (topics s) (f (seen s)) (message_cache s) (pending_ihaves s) (fanout_config s).
Definition set_cache f s := MkService (local_id s) (topics s) (seen s) (f (message_cache s)) (pending_ihaves s) (fanout_config s).
Definition set_pending f s := MkService (local_id s) (topics s) (seen s) (message_cache s) (f (pending_ihaves s)) (fanout_config s).

Definition subscribe (topic : bytes) (s : EagerGossipService) : EagerGossipService :=
  set_topics (<[topic := MkTopic [] 256 true]>) s.

(** The flag says whether the topic was subscribed, [NotSubscribed] otherwise. *)
Definition unsubscribe (topic : bytes) (s : EagerGossipService) : EagerGossipService * bool :=
  (set_topics (delete topic) s, bool_decide (is_Some (topics s !! topic))).

(** [if let Some(state) = topics.get(topic) { let _ = try_send(msg); }]. *)
Definition deliver (m : GossipMessage) (s : EagerGossipService) : EagerGossipService :=
  set_topics (alter (try_send m) (g_topic m)) s.

(** [publish], with the connected peers and the order the shuffle gives them. *)
Definition publish (peers shuffled : list bytes) (topic payload : bytes) (s : EagerGossipService) :
    EagerGossipService * outbox :=
  let content_hash := blake3_hash payload in
  let s := set_seen (λ x, {[content_hash]} ∪ x) s in
  let wire_msg := MkWire topic payload content_hash (local_id s) in
  let s := set_cache (<[content_hash := wire_msg]>) s in
  let ihave := IHave (MkIHave topic content_hash (local_id s)) in
  let s := deliver (MkMessage topic payload content_hash (local_id s)) s in
  let '(eager_peers, lazy_peers) := select_fanout shuffled (fanout_config s) in
  let overflow :=
    if length eager_peers + length lazy_peers <? length peers
    then filter (λ p, p ∉ eager_peers ++ lazy_peers) peers else [] in
  (s, ((λ p, (p, FullMessage wire_msg)) <$> eager_peers) ++ ((λ p, (p, ihave)) <$> lazy_peers) ++
      ((λ p, (p, ihave)) <$> overflow)).

Definition handle_full_message (peers : list bytes) (wire_msg : GossipWireMessage) (sender_id : bytes)
    (s : EagerGossipService) : EagerGossipService * outbox :=
  if bool_decide (w_content_hash wire_msg ∈ seen s) then (s, [])
  else
    let s := set_seen (λ x, {[w_content_hash wire_msg]} ∪ x) s in
    let s := set_pending (delete (w_content_hash wire_msg)) s in
    let s := set_cache (<[w_content_hash wire_msg := wire_msg]>) s in
    let s := deliver (MkMessage (w_topic wire_msg) (w_payload wire_msg) (w_content_hash wire_msg)
                        (w_origin wire_msg)) s in
    (s, (λ p, (p, FullMessage wire_msg)) <$>
          filter (λ p, ¬ (p = sender_id ∨ p = w_origin wire_msg ∨ p = local_id s)) peers).

Definition handle_ihave (now : N) (ihave : IHaveMessage) (sender_id : bytes) (s : EagerGossipService) :
    EagerGossipService :=
  if bool_decide (ih_content_hash ihave ∈ seen s) then s
  else match pending_ihaves s !! ih_content_hash ihave with
  | Some _ => s
  | None => set_pending (<[ih_content_hash ihave := MkPending (ih_topic ihave) sender_id now (ih_origin ihave)]>) s
  end.

Definition handle_iwant (content_hash sender_id : bytes) (s : EagerGossipService) : outbox :=
  match message_cache s !! content_hash with
  | Some wire_msg => [(sender_id, FullMessage wire_msg)]
  | None => []
  end.

(** One tick of [lazy_timeout_loop]. *)
Definition overdue (now : N) (s : EagerGossipService) (hash : bytes) (e : PendingIHave) : bool :=
  negb (bool_decide (hash ∈ seen s)) && (lazy_timeout (fanout_config s) <=? now - p_received_at e)%N.
Definition lazy_tick (now : N) (s : EagerGossipService) : EagerGossipService * outbox :=
  let to_request := filter (λ p, overdue now s p.1 p.2 = true) (map_to_list (pending_ihaves s)) in
  (set_pending (filter (λ p, p.1 ∉ seen s ∧ overdue now s p.1 p.2 = false)) s,
   (λ p, (p_from p.2, IWant p.1)) <$> to_request).

(** The dispatch of [receive_loop]. *)
Definition receive (now : N) (peers : list bytes) (sender_id : bytes) (e : GossipEnvelope)
    (s : EagerGossipService) : EagerGossipService * outbox :=
  match e with
  | FullMessage m => handle_full_message peers m sender_id s
  | IHave m => (handle_ihave now m sender_id s, [])
  | IWant h => (s, handle_iwant h sender_id s)
  end.

(** Anything that happens at a node. *)
Inductive event :=
| EvSubscribe (topic : bytes)
| EvUnsubscribe (topic : bytes)
| EvPublish (peers shuffled : list bytes) (topic payload : bytes)
| EvReceive (now : N) (peers : list bytes) (sender_id : bytes) (e : GossipEnvelope)
| EvTick (now : N).

Definition handle (ev : event) (s : EagerGossipService) : EagerGossipService * outbox :=
  match ev with
  | EvSubscribe t => (subscribe t s, [])
  | EvUnsubscribe t => ((unsubscribe t s).1, [])
  | EvPublish peers shuffled t p => publish peers shuffled t p s
  | EvReceive now peers from e => receive now peers from e s
  | EvTick now => lazy_tick now s
  end.

Definition run (s : EagerGossipService) (evs : list event) : EagerGossipService :=
  foldl (λ s ev, (handle ev s).1) s evs.

(* ------------------------------------------------------------------ *)
(** ** A network of nodes *)

(** Packets in flight: from, to, content. *)
Definition packet : Type := bytes * bytes * GossipEnvelope.

Record network := MkNet { node : bytes → EagerGossipService; wires : list packet }.

Definition post (from : bytes) (out : outbox) : list packet := (λ p, (from, p.1, p.2)) <$> out.

Definition update (n : bytes) (s : EagerGossipService) (w : network) (ps : list packet) : network :=
  MkNet (λ m, if decide (m = n) then s else node w m) ps.

(** Nodes publish, subscribe and tick when they like; a packet in flight is
    received once, at any later time. *)
Inductive nstep (links : bytes → list bytes) (w : network) : network → Prop :=
| NPublish n shuffled topic payload r :
    shuffled ≡ₚ links n →
    r = publish (links n) shuffled topic payload (node w n) →
    nstep links w (update n r.1 w (wires w ++ post n r.2))
| NSubscribe n topic : nstep links w (update n (subscribe topic (node w n)) w (wires w))
| NUnsubscribe n topic : nstep links w (update n (unsubscribe topic (node w n)).1 w (wires w))
| NTick n now r :
    r = lazy_tick now (node w n) →
    nstep links w (update n r.1 w (wires w ++ post n r.2))
| NReceive from n e pre suf now r :
    wires w = pre ++ (from, n, e) :: suf →
    r = receive now (links n) from e (node w n) →
    nstep links w (update n r.1 w (pre ++ suf ++ post n r.2)).

Definition reachable (links : bytes → list bytes) (w0 w : network) : Prop := rtc (nstep links) w0 w.

Definition initial (config : FanoutConfig) : network := MkNet (λ n, new n config) [].

(** Nothing in flight and nothing announced that is still to be fetched. *)
Definition quiescent (w : network) : Prop :=
  wires w = [] ∧ ∀ n h, is_Some (pending_ihaves (node w n) !! h) → h ∈ seen (node w n).

(* ------------------------------------------------------------------ *)
(** ** Lemmas: one node *)

Lemma deliver_other m s :
  local_id (deliver m s) = local_id s ∧ seen (deliver m s) = seen s ∧
  message_cache (deliver m s) = message_cache s ∧ pending_ihaves (deliver m s) = pending_ihaves s.
Proof. done. Qed.

(** Every peer is sent something by a publisher. *)
Lemma publish_covers peers shuffled topic payload s p :
  shuffled ≡ₚ peers → p ∈ peers →
  ∃ e, (p, e) ∈ (publish peers shuffled topic payload s).2 ∧
    (e = FullMessage (MkWire topic payload (blake3_hash payload) (local_id s)) ∨
     e = IHave (MkIHave topic (blake3_hash payload) (local_id s))).
Proof.
  intros Hperm Hp. unfold publish. cbv zeta.
  unfold select_fanout. simpl.
  set (ne := Nat.min (eager_push_peers (fanout_config s)) (length shuffled)).
  set (rest := drop ne shuffled).
  set (nl := Nat.min (lazy_push_peers (fanout_config s)) (length rest)).
  destruct (decide (p ∈ take ne shuffled)) as [He|He].
  { eexists. split; [|by left]. apply elem_of_app. left. apply list_elem_of_fmap. by exists p. }
  destruct (decide (p ∈ take nl rest)) as [Hz|Hz].
  { eexists. split; [|by right]. apply elem_of_app. right. apply elem_of_app. left.
    apply list_elem_of_fmap. by exists p. }
  eexists. split; [|by right]. apply elem_of_app. right. apply elem_of_app. right.
  apply list_elem_of_fmap. exists p. split; [done|].
  assert (Hlt : length (take ne shuffled) + length (take nl rest) < length peers).
  { assert (Hps : p ∈ shuffled) by (by rewrite Hperm).
    rewrite <- (take_drop ne shuffled) in Hps. apply elem_of_app in Hps as [?|Hps]; [done|].
    fold rest in Hps. rewrite <- (take_drop nl rest) in Hps. apply elem_of_app in Hps as [?|Hps]; [done|].
    assert (Hl : length shuffled = length peers) by (by apply Permutation_length).
    assert (Hd : 0 < length (drop nl rest)) by (destruct (drop nl rest); [by apply not_elem_of_nil in Hps|simpl; lia]).
    rewrite length_drop in Hd. unfold rest in *. rewrite length_drop in Hd.
    rewrite !length_take, length_drop. lia. }
  rewrite (proj2 (Nat.ltb_lt _ _) Hlt). apply list_elem_of_filter. split; [|done].
  rewrite elem_of_app. tauto.
Qed.

(** What a publisher sends is that message or its announcement. *)
Lemma publish_sends peers shuffled topic payload s p e :
  (p, e) ∈ (publish peers shuffled topic payload s).2 →
  e = FullMessage (MkWire topic payload (blake3_hash payload) (local_id s)) ∨
  e = IHave (MkIHave topic (blake3_hash payload) (local_id s)).
Proof.
  unfold publish. cbv zeta. destruct (select_fanout _ _) as [eager lzy]. simpl.
  rewrite !elem_of_app, !list_elem_of_fmap. intros [(? & [= -> ->] & _)|[(? & [= -> ->] & _)|(? & [= -> ->] & _)]]; auto.
Qed.

Lemma publish_state peers shuffled topic payload s :
  let s' := (publish peers shuffled topic payload s).1 in
  local_id s' = local_id s ∧ seen s' = {[blake3_hash payload]} ∪ seen s ∧
  message_cache s' = <[blake3_hash payload := MkWire topic payload (blake3_hash payload) (local_id s)]> (message_cache s) ∧
  pending_ihaves s' = pending_ihaves s.
Proof. unfold publish. cbv zeta. by destruct (select_fanout _ _). Qed.

Lemma handle_full_cases peers m from s :
  let r := handle_full_message peers m from s in
  w_content_hash m ∈ seen s ∧ r = (s, []) ∨
  w_content_hash m ∉ seen s ∧ local_id r.1 = local_id s ∧ seen r.1 = {[w_content_hash m]} ∪ seen s ∧
    message_cache r.1 = <[w_content_hash m := m]> (message_cache s) ∧
    pending_ihaves r.1 = delete (w_content_hash m) (pending_ihaves s) ∧
    (∀ p e, (p, e) ∈ r.2 ↔ e = FullMessage m ∧ p ∈ peers ∧ p ≠ from ∧ p ≠ w_origin m ∧ p ≠ local_id s).
Proof.
  unfold handle_full_message. case_bool_decide; [by left|right]. split_and!; try done.
  intros p e. simpl. rewrite list_elem_of_fmap. split.
  - intros (x & [= -> ->] & Hx). apply list_elem_of_filter in Hx as [Hn ?]. tauto.
  - intros (-> & ? & ?). exists p. split; [done|]. apply list_elem_of_filter. tauto.
Qed.

(* ------------------------------------------------------------------ *)
(** ** Lemmas: the network *)

Section network.
Context (links : bytes → list bytes).

(** A packet that will bring [h] to [b], directly or by a round trip. *)
Definition covers (p : packet) (b h : bytes) : Prop :=
  match p with
  | (_, b', FullMessage m) => b' = b ∧ w_content_hash m = h
  | (_, b', IHave m) => b' = b ∧ ih_content_hash m = h
  | (a, _, IWant h') => a = b ∧ h' = h
  end.

Definition covered (w : network) (b h : bytes) : Prop :=
  h ∈ seen (node w b) ∨ is_Some (pending_ihaves (node w b) !! h) ∨ ∃ p, p ∈ wires w ∧ covers p b h.

(** Senders have what they send or announce; requests go to nodes that have it. *)
Definition packet_ok (w : network) (p : packet) : Prop :=
  match p with
  | (a, _, FullMessage m) =>
      w_content_hash m ∈ seen (node w a) ∧ w_content_hash m ∈ seen (node w (w_origin m))
  | (a, _, IHave m) => ih_content_hash m ∈ seen (node w a)
  | (_, c, IWant h) => h ∈ seen (node w c)
  end.

Definition cached (w : network) (s : EagerGossipService) (h : bytes) : Prop :=
  ∃ m, message_cache s !! h = Some m ∧ w_content_hash m = h ∧ h ∈ seen (node w (w_origin m)).

Definition inv (w : network) : Prop :=
  (∀ n, local_id (node w n) = n) ∧
  (∀ n h, h ∈ seen (node w n) → cached w (node w n) h) ∧
  (∀ p, p ∈ wires w → packet_ok w p) ∧
  (∀ n h e, pending_ihaves (node w n) !! h = Some e → h ∈ seen (node w (p_from e))) ∧
  (∀ a b h, b ∈ links a → h ∈ seen (node w a) → covered w b h).

Lemma node_update_eq n s w ps : node (update n s w ps) n = s.
Proof. simpl. by rewrite decide_True. Qed.
Lemma node_update_ne n s w ps m : m ≠ n → node (update n s w ps) m = node w m.
Proof. intros. simpl. by rewrite decide_False. Qed.

Lemma seen_update n s w ps m :
  seen (node w n) ⊆ seen s → seen (node w m) ⊆ seen (node (update n s w ps) m).
Proof. intros Hs. simpl. by case_decide; subst. Qed.

Lemma packet_ok_update n s w ps p :
  seen (node w n) ⊆ seen s → packet_ok w p → packet_ok (update n s w ps) p.
Proof.
  intros Hs. pose proof (λ m, seen_update n s w ps m Hs) as Hm.
  destruct p as [[a b] [m|m|h]]; cbn [packet_ok]; [|apply Hm..].
  intros [? ?]. split; by apply Hm.
Qed.

(** What a step at [n] must do for the invariant to survive. *)
Lemma inv_update n s w ps :
  inv w → local_id s = n → seen (node w n) ⊆ seen s →
  (∀ h, h ∈ seen s → cached (update n s w ps) s h) →
  (∀ p, p ∈ ps → p ∈ wires w ∨ packet_ok (update n s w ps) p) →
  (∀ h e, pending_ihaves s !! h = Some e →
     pending_ihaves (node w n) !! h = Some e ∨ h ∈ seen (node w (p_from e))) →
  (∀ p b h, p ∈ wires w → covers p b h → p ∈ ps ∨ covered (update n s w ps) b h) →
  (∀ h, is_Some (pending_ihaves (node w n) !! h) → covered (update n s w ps) n h) →
  (∀ b h, b ∈ links n → h ∈ seen s → h ∈ seen (node w n) ∨ covered (update n s w ps) b h) →
  inv (update n s w ps).
Proof.
  intros (Hid & Hca & Hpk & Hpe & Hcov) Hl Hs Hc Hp Hpend Hkeep Hpk' Hnew.
  pose proof (λ m, seen_update n s w ps m Hs) as Hm. unfold inv. split_and!.
  - intros m. simpl. case_decide; [congruence|apply Hid].
  - intros m h. destruct (decide (m = n)) as [->|Hne]; [rewrite node_update_eq; apply Hc|].
    rewrite node_update_ne by done. intros Hh. destruct (Hca m h Hh) as (x & H1 & H2 & H3).
    exists x. split_and!; [done..|]. by apply Hm.
  - intros p Hin. destruct (Hp p Hin); [|done]. apply packet_ok_update; auto.
  - intros m h e. destruct (decide (m = n)) as [->|Hne].
    + rewrite node_update_eq. intros Hh. apply Hm. destruct (Hpend h e Hh) as [?|?]; [by eapply Hpe|done].
    + rewrite node_update_ne by done. intros Hh. apply Hm. by eapply Hpe.
  - intros a b h Hab Ha.
    assert (Hold : covered w b h → covered (update n s w ps) b h).
    { intros [Hsb|[Hpb|(p & Hpw & Hpc)]].
      - left. by apply Hm.
      - destruct (decide (b = n)) as [->|Hne]; [by apply Hpk'|].
        right. left. by rewrite node_update_ne.
      - destruct (Hkeep p b h Hpw Hpc) as [?|?]; [|done]. right. right. by exists p. }
    destruct (decide (a = n)) as [->|Hne].
    + rewrite node_update_eq in Ha. destruct (Hnew b h Hab Ha) as [?|?]; [|done].
      apply Hold. by apply (Hcov n).
    + rewrite node_update_ne in Ha by done. apply Hold. by apply (Hcov a).
Qed.

(** Steps that leave what the node has seen alone. *)
Lemma inv_update_same n s w :
  inv w → local_id s = n → seen s = seen (node w n) → message_cache s = message_cache (node w n) →
  pending_ihaves s = pending_ihaves (node w n) → inv (update n s w (wires w)).
Proof.
  intros Hi Hl Hs Hc Hp. pose proof Hi as (_ & Hca & _ & _ & _).
  assert (Hsub : seen (node w n) ⊆ seen s) by by rewrite Hs.
  apply inv_update; try done.
  - intros h Hh. rewrite Hs in Hh. destruct (Hca n h Hh) as (m & H1 & H2 & H3).
    exists m. rewrite Hc. split_and!; [done..|]. by apply (seen_update n s w (wires w)).
  - intros p ?. by left.
  - intros h e Hh. left. by rewrite <- Hp.
  - intros p b h ? ?. by left.
  - intros h Hh. right. left. by rewrite node_update_eq, Hp.
  - intros b h ? Hh. left. by rewrite <- Hs.
Qed.

Lemma elem_of_post a b e from out : (a, b, e) ∈ post from out ↔ a = from ∧ (b, e) ∈ out.
Proof.
  unfold post. rewrite list_elem_of_fmap. split.
  - intros ([x y] & [= -> -> ->] & Hin). done.
  - intros [-> Hin]. by exists (b, e).
Qed.

Lemma publish_inv n shuffled topic payload w :
  shuffled ≡ₚ links n → inv w →
  let r := publish (links n) shuffled topic payload (node w n) in
  inv (update n r.1 w (wires w ++ post n r.2)).
Proof.
  intros Hperm Hi r. pose proof Hi as (Hid & Hca & _ & _ & _).
  destruct (publish_state (links n) shuffled topic payload (node w n)) as (Sl & Ss & Sc & Sp).
  fold r in Sl, Ss, Sc, Sp. rewrite Hid in *. set (H0 := blake3_hash payload) in *.
  assert (Hsub : seen (node w n) ⊆ seen r.1) by (rewrite Ss; set_solver).
  assert (Hn : H0 ∈ seen (node (update n r.1 w (wires w ++ post n r.2)) n))
    by (rewrite node_update_eq, Ss; set_solver).
  apply inv_update; try done.
  - intros h Hh. unfold cached. rewrite Sc. destruct (decide (h = H0)) as [->|Hne].
    { eexists. rewrite lookup_insert_eq. split_and!; [done..|]. done. }
    rewrite lookup_insert_ne by done. rewrite Ss in Hh.
    destruct (Hca n h ltac:(set_solver)) as (m & H1 & H2 & H3). exists m. split_and!; [done..|].
    by apply seen_update.
  - intros [[a b] e] [?|Hp]%elem_of_app; [by left|right]. apply elem_of_post in Hp as [-> Hp].
    apply publish_sends in Hp. rewrite Hid in Hp. by destruct Hp as [->| ->]; cbn [packet_ok].
  - intros h e Hh. left. by rewrite <- Sp.
  - intros p b h Hp _. left. apply elem_of_app. by left.
  - intros h Hh. right. left. by rewrite node_update_eq, Sp.
  - intros b h Hb Hh. rewrite Ss in Hh. apply elem_of_union in Hh as [->%elem_of_singleton|?]; [|by left].
    right. right. right. destruct (publish_covers (links n) shuffled topic payload (node w n) b Hperm Hb) as (e & He & Hk).
    exists (n, b, e). split; [apply elem_of_app; right; by apply elem_of_post|]. by destruct Hk as [->| ->].
Qed.

Lemma tick_inv n now w :
  inv w → let r := lazy_tick now (node w n) in inv (update n r.1 w (wires w ++ post n r.2)).
Proof.
  intros Hi r. pose proof Hi as (Hid & Hca & _ & Hpe & _).
  apply inv_update; try done.
  - simpl. apply Hid.
  - intros h Hh. destruct (Hca n h Hh) as (m & H1 & H2 & H3). exists m. split_and!; [done..|].
    by apply (seen_update n r.1).
  - intros [[a b] e] [?|Hp]%elem_of_app; [by left|right]. apply elem_of_post in Hp as [-> Hp].
    unfold r, lazy_tick in Hp. simpl in Hp. apply list_elem_of_fmap in Hp as ([h pe] & [= -> ->] & Hin).
    apply list_elem_of_filter in Hin as [_ Hin]. apply elem_of_map_to_list in Hin. cbn [packet_ok fst snd].
    apply (seen_update n r.1); [done|]. by eapply Hpe.
  - intros h e. unfold r, lazy_tick. simpl. intros [? _]%map_lookup_filter_Some. by left.
  - intros p b h Hp _. left. apply elem_of_app. by left.
  - intros h [pe Hh]. destruct (decide (h ∈ seen (node w n))) as [Hs|Hs].
    { left. by rewrite node_update_eq. }
    destruct (overdue now (node w n) h pe) eqn:Eo.
    + right. right. exists (n, p_from pe, IWant h). split; [|done]. apply elem_of_app. right.
      apply elem_of_post. split; [done|]. unfold r, lazy_tick. simpl. apply list_elem_of_fmap.
      exists (h, pe). split; [done|]. apply list_elem_of_filter. split; [done|]. by apply elem_of_map_to_list.
    + right. left. rewrite node_update_eq. unfold r, lazy_tick. simpl.
      exists pe. by apply map_lookup_filter_Some.
  - intros b h _ Hh. by left.
Qed.

Lemma in_rest {A} (x y : A) pre suf out : x ∈ pre ++ y :: suf → x = y ∨ x ∈ pre ++ suf ++ out.
Proof. set_solver. Qed.

Lemma receive_full_inv from n m pre suf w :
  wires w = pre ++ (from, n, FullMessage m) :: suf → inv w →
  let r := handle_full_message (links n) m from (node w n) in
  inv (update n r.1 w (pre ++ suf ++ post n r.2)).
Proof.
  intros Hw Hi r. pose proof Hi as (Hid & Hca & Hpk & Hpe & _).
  assert (Hin : (from, n, FullMessage m) ∈ wires w) by (rewrite Hw; set_solver).
  destruct (Hpk _ Hin) as [Hf Ho].
  assert (Hsubw : ∀ p, p ∈ pre ++ suf → p ∈ wires w) by (intros p; rewrite Hw; set_solver).
  pose proof (handle_full_cases (links n) m from (node w n)) as C. cbv zeta in C. fold r in C.
  destruct C as [[Hs Hr]|(Hs & Rl & Rs & Rc & Rp & Ro)].
  - rewrite Hr. simpl. rewrite app_nil_r.
    apply inv_update; try done; [|intros p ?; left; by apply Hsubw|by left| | |by left].
    + intros h Hh. destruct (Hca n h Hh) as (x & H1 & H2 & H3). exists x. split_and!; [done..|].
      by apply (seen_update n (node w n)).
    + intros p b h Hp Hc. rewrite Hw in Hp. apply (in_rest _ _ _ _ []) in Hp as [->|Hp];
        [right|left; by rewrite app_nil_r in Hp].
      destruct Hc as [<- <-]. left. by rewrite node_update_eq.
    + intros h Hh. right. left. by rewrite node_update_eq.
  - rewrite Hid in *. assert (Hsub : seen (node w n) ⊆ seen r.1) by (rewrite Rs; set_solver).
    assert (Hn : ∀ ps, w_content_hash m ∈ seen (node (update n r.1 w ps) n))
      by (intros ps; rewrite node_update_eq, Rs; set_solver).
    apply inv_update; try done.
    + intros h Hh. unfold cached. rewrite Rc. destruct (decide (h = w_content_hash m)) as [->|Hne].
      { exists m. rewrite lookup_insert_eq. split_and!; [done..|]. by apply seen_update. }
      rewrite lookup_insert_ne by done. rewrite Rs in Hh.
      destruct (Hca n h ltac:(set_solver)) as (x & H1 & H2 & H3). exists x. split_and!; [done..|].
      by apply seen_update.
    + intros [[a b] e] Hp. rewrite app_assoc in Hp. apply elem_of_app in Hp as [Hp|Hp].
      { left. by apply Hsubw. }
      right. apply elem_of_post in Hp as [-> Hp]. apply Ro in Hp as [-> _]. cbn [packet_ok].
      split; [apply Hn|by apply seen_update].
    + intros h e. rewrite Rp. intros [_ ?]%lookup_delete_Some. by left.
    + intros p b h Hp Hc. rewrite Hw in Hp. apply (in_rest _ _ _ _ (post n r.2)) in Hp as [->|Hp]; [right|by left].
      destruct Hc as [<- <-]. left. apply Hn.
    + intros h Hh. destruct (decide (h = w_content_hash m)) as [->|Hne]; [left; apply Hn|].
      right. left. rewrite node_update_eq, Rp. by rewrite lookup_delete_ne.
    + intros b h Hb Hh. rewrite Rs in Hh. apply elem_of_union in Hh as [->%elem_of_singleton|?]; [right|by left].
      destruct (decide (b = from)) as [->|H1]; [left; by apply seen_update|].
      destruct (decide (b = w_origin m)) as [->|H2]; [left; by apply seen_update|].
      destruct (decide (b = n)) as [->|H3]; [left; apply Hn|].
      right. right. exists (n, b, FullMessage m). split; [|done].
      cbn [wires update]. rewrite !elem_of_app. right. right. apply elem_of_post. split; [done|]. by apply Ro.
Qed.

Lemma receive_ihave_inv now from n m pre suf w :
  wires w = pre ++ (from, n, IHave m) :: suf → inv w →
  inv (update n (handle_ihave now m from (node w n)) w (pre ++ suf)).
Proof.
  intros Hw Hi. pose proof Hi as (Hid & Hca & Hpk & Hpe & _).
  assert (Hin : (from, n, IHave m) ∈ wires w) by (rewrite Hw; set_solver).
  pose proof (Hpk _ Hin) as Hf. cbn [packet_ok] in Hf.
  set (s := handle_ihave now m from (node w n)). set (h0 := ih_content_hash m) in *.
  assert (Hs : local_id s = n ∧ seen s = seen (node w n) ∧ message_cache s = message_cache (node w n) ∧
    (h0 ∈ seen (node w n) ∨ is_Some (pending_ihaves s !! h0)) ∧
    (∀ h, is_Some (pending_ihaves (node w n) !! h) → is_Some (pending_ihaves s !! h)) ∧
    (∀ h e, pending_ihaves s !! h = Some e → pending_ihaves (node w n) !! h = Some e ∨ h = h0 ∧ p_from e = from)).
  { unfold s, handle_ihave. fold h0. case_bool_decide; [split_and!; auto|].
    destruct (pending_ihaves (node w n) !! h0) as [e|] eqn:E.
    - split_and!; auto.
    - simpl. split_and!; auto.
      + right. rewrite lookup_insert_eq. by eexists.
      + intros h [e He]. destruct (decide (h0 = h)) as [->|?]; [congruence|]. rewrite lookup_insert_ne by done. by eexists.
      + intros h e. intros [[<- <-]|[_ ?]]%lookup_insert_Some; auto. }
  destruct Hs as (Sl & Ss & Sc & Sh & Sp & Se).
  assert (Hsub : seen (node w n) ⊆ seen s) by by rewrite Ss.
  apply inv_update; try done.
  - intros h Hh. rewrite Ss in Hh. unfold cached. rewrite Sc. destruct (Hca n h Hh) as (x & H1 & H2 & H3).
    exists x. split_and!; [done..|]. by apply seen_update.
  - intros p Hp. left. rewrite Hw. set_solver.
  - intros h e Hh. destruct (Se h e Hh) as [?|[-> ->]]; [by left|by right].
  - intros p b h Hp Hc. rewrite Hw in Hp. apply (in_rest _ _ _ _ []) in Hp as [->|Hp];
      [right|left; by rewrite app_nil_r in Hp].
    destruct Hc as [<- <-]. destruct Sh as [?|?]; [left|right; left]; rewrite node_update_eq; [by rewrite Ss|done].
  - intros h Hh. right. left. rewrite node_update_eq. by apply Sp.
  - intros b h _ Hh. left. by rewrite <- Ss.
Qed.

Lemma receive_iwant_inv from n h0 pre suf w :
  wires w = pre ++ (from, n, IWant h0) :: suf → inv w →
  inv (update n (node w n) w (pre ++ suf ++ post n (handle_iwant h0 from (node w n)))).
Proof.
  intros Hw Hi. pose proof Hi as (Hid & Hca & Hpk & Hpe & _).
  assert (Hin : (from, n, IWant h0) ∈ wires w) by (rewrite Hw; set_solver).
  pose proof (Hpk _ Hin) as Hh0. cbn [packet_ok] in Hh0.
  destruct (Hca n h0 Hh0) as (m & E & Hm & Ho). unfold handle_iwant. rewrite E.
  apply inv_update; try done.
  - intros h Hh. destruct (Hca n h Hh) as (x & H1 & H2 & H3). exists x. split_and!; [done..|].
    by apply (seen_update n (node w n)).
  - intros [[a b] e] Hp. rewrite app_assoc in Hp. apply elem_of_app in Hp as [Hp|Hp].
    { left. rewrite Hw. set_solver. }
    right. apply elem_of_post in Hp as [-> Hp]. apply list_elem_of_singleton in Hp as [= -> ->].
    cbn [packet_ok]. rewrite Hm. split; by apply (seen_update n (node w n)).
  - intros h e ?. by left.
  - intros p b h Hp Hc. rewrite Hw in Hp.
    apply (in_rest _ _ _ _ (post n [(from, FullMessage m)])) in Hp as [->|Hp]; [right|by left].
    destruct Hc as [<- <-]. right. right. exists (n, from, FullMessage m). split; [|done].
    cbn [wires update]. rewrite !elem_of_app. right. right. apply elem_of_post. split; [done|]. by apply list_elem_of_singleton.
  - intros h Hh. right. left. by rewrite node_update_eq.
  - intros b h _ Hh. by left.
Qed.

Lemma nstep_inv w w' : inv w → nstep links w w' → inv w'.
Proof.
  intros Hi Hst. pose proof Hi as (Hid & _). destruct Hst as [n sh t p r Hsh ->|n t|n t|n now r ->|from n e pre suf now r Hw ->].
  - by apply publish_inv.
  - by apply inv_update_same; [|apply Hid|..].
  - by apply inv_update_same; [|apply Hid|..].
  - by apply tick_inv.
  - destruct e as [m|m|h]; simpl.
    + by apply receive_full_inv.
    + rewrite app_nil_r. by eapply receive_ihave_inv.
    + by eapply receive_iwant_inv.
Qed.

Lemma net_initial_inv config : inv (initial config).
Proof.
  unfold inv, initial, covered. simpl. split_and!; try done; try set_solver.
Qed.

Lemma net_reachable_inv config w : reachable links (initial config) w → inv w.
Proof.
  intros Hr. by apply (rtc_preserve inv (nstep links) (initial config)); eauto using nstep_inv, net_initial_inv.
Qed.
End network.

(** Nodes connected by links. *)
Inductive connected (links : bytes → list bytes) (a : bytes) : bytes → Prop :=
| conn_refl : connected links a a
| conn_step b c : connected links a b → c ∈ links b → connected links a c.

Lemma handle_seen ev s : seen s ⊆ seen (handle ev s).1.
Proof.
  destruct ev as [t|t|peers sh t p|now peers from e|now]; cbn [handle]; try done.
  - destruct (publish_state peers sh t p s) as (_ & E & _). rewrite E. set_solver.
  - destruct e as [m|m|h]; simpl; [|unfold handle_ihave; repeat case_match; done|done].
    pose proof (handle_full_cases peers m from s) as C. cbv zeta in C.
    destruct C as [[_ ->]|(_ & _ & -> & _)]; [done|set_solver].
Qed.

Lemma run_seen evs s : seen s ⊆ seen (run s evs).
Proof.
  unfold run. revert s; induction evs as [|ev evs IH]; intros s; simpl; [done|].
  etrans; [apply (handle_seen ev)|apply IH].
Qed.

Lemma full_seen peers m from s : w_content_hash m ∈ seen (handle_full_message peers m from s).1.
Proof.
  pose proof (handle_full_cases peers m from s) as C. cbv zeta in C.
  destruct C as [[? ->]|(_ & _ & -> & _)]; [done|set_solver].
Qed.

Lemma full_again peers m from s : w_content_hash m ∈ seen s → handle_full_message peers m from s = (s, []).
Proof. intros Hs. unfold handle_full_message. by rewrite bool_decide_true. Qed.
End service.
End Service.
Import Service.

Section properties.
Context `{Primitives}.

(** C3. Gossip reaches everyone: in any network of honest nodes over reliable
    unordered links, starting with nothing seen, whatever is published and in
    whatever order packets arrive, once nothing is in flight and every
    announcement has been fetched, a message seen by a node has been seen by
    every node its links lead to, and each of them can serve it. *)
Theorem gossip_floods (links : bytes → list bytes) (config : FanoutConfig) (w : network) (a b h : bytes)
  (Hr : reachable links (initial config) w) (Hq : quiescent w)
  (Hab : connected links a b) (Ha : h ∈ seen (node w a)) :
  h ∈ seen (node w b) ∧
  ∀ to, ∃ m, handle_iwant h to (node w b) = [(to, FullMessage m)] ∧ w_content_hash m = h.
Proof.
  apply net_reachable_inv in Hr as (_ & Hca & _ & _ & Hcov). destruct Hq as [Hw Hp].
  assert (Hb : h ∈ seen (node w b)).
  { induction Hab as [|b c _ IH Hc]; [done|].
    destruct (Hcov b c h Hc IH) as [?|[?|(p & Hin & _)]]; [done|by apply Hp|].
    rewrite Hw in Hin. by apply not_elem_of_nil in Hin. }
  split; [done|]. intros to. destruct (Hca b h Hb) as (m & Hm & Hh & _).
  exists m. unfold handle_iwant. by rewrite Hm.
Qed.

(** A node takes each content hash once: the first full message with a
    hash it has not seen is marked, cached, offered to the subscriber and
    forwarded exactly to the connected peers other than the sender, the origin
    and the node itself; after that, whatever happens, every message with that
    hash is dropped without any effect. *)
Theorem gossip_once (peers peers' : list bytes) (m m' : GossipWireMessage) (from from' : bytes)
    (s : EagerGossipService) (evs : list event)
  (Hnew : w_content_hash m ∉ seen s) (Hsame : w_content_hash m' = w_content_hash m) :
  let '(s1, out) := handle_full_message peers m from s in
  message_cache s1 !! w_content_hash m = Some m ∧
  topics s1 = alter (try_send (MkMessage (w_topic m) (w_payload m) (w_content_hash m) (w_origin m)))
                (w_topic m) (topics s) ∧
  (∀ p e, (p, e) ∈ out ↔ e = FullMessage m ∧ p ∈ peers ∧ p ≠ from ∧ p ≠ w_origin m ∧ p ≠ local_id s) ∧
  handle_full_message peers' m' from' (run s1 evs) = (run s1 evs, []).
Proof.
  pose proof (handle_full_cases peers m from s) as C. cbv zeta in C.
  pose proof (full_seen peers m from s) as Hs.
  assert (Ht : topics (handle_full_message peers m from s).1 =
    alter (try_send (MkMessage (w_topic m) (w_payload m) (w_content_hash m) (w_origin m))) (w_topic m) (topics s))
    by (unfold handle_full_message; by rewrite bool_decide_false).
  destruct (handle_full_message peers m from s) as [s1 out]. simpl in *.
  destruct C as [[? _]|(_ & _ & _ & Hc & _ & Ho)]; [done|].
  split_and!; [by rewrite Hc, lookup_insert_eq|done|done|].
  apply full_again. rewrite Hsame. by apply (run_seen evs).
Qed.

(** The content hash is believed: a node takes a message whose hash is not
    the hash of its payload, and from then on it drops the genuine message
    with that hash, whoever sends it, and answers requests for it with the
    forged one. *)
Theorem gossip_poisoning (peers : list bytes) (payload forged topic origin from : bytes)
    (s : EagerGossipService)
  (Hnew : blake3_hash payload ∉ seen s) (Hne : blake3_hash forged ≠ blake3_hash payload) :
  let bad := MkWire topic forged (blake3_hash payload) origin in
  let good := MkWire topic payload (blake3_hash payload) origin in
  let s1 := (handle_full_message peers bad from s).1 in
  (∀ peers' from' evs, handle_full_message peers' good from' (run s1 evs) = (run s1 evs, [])) ∧
  (∀ to, handle_iwant (blake3_hash payload) to s1 = [(to, FullMessage bad)]).
Proof.
  intros bad good s1. split.
  - intros peers' from' evs. apply full_again. apply (run_seen evs). apply (full_seen peers bad from s).
  - intros to. unfold handle_iwant. pose proof (handle_full_cases peers bad from s) as C. cbv zeta in C.
    destruct C as [[? _]|(_ & _ & _ & Hc & _)]; [done|]. unfold s1. rewrite Hc. simpl.
    by rewrite lookup_insert_eq.
Qed.
End properties.

(* ------------------------------------------------------------------ *)
(** ** The tree engine ([plumtree.rs]) *)

Module Plumtree.

Record TopicState := MkTopic {
  topic : bytes;
  eager_peers : gset bytes;
  lazy_peers : gset bytes;
  seen : gset bytes;
  subscriber_tx : option Service.TopicState
}.

Definition new_topic (topic : bytes) : TopicState := MkTopic topic ∅ ∅ ∅ None.
Definition is_seen (h : bytes) (s : TopicState) : bool := bool_decide (h ∈ seen s).
Definition mark_seen (h : bytes) (s : TopicState) : TopicState :=
  MkTopic (topic s) (eager_peers s) (lazy_peers s) ({[h]} ∪ seen s) (subscriber_tx s).
Definition set_peers (eager lzy : gset bytes) (s : TopicState) : TopicState :=
  MkTopic (topic s) eager lzy (seen s) (subscriber_tx s).

Definition add_eager_peer (p : bytes) (s : TopicState) : TopicState :=
  set_peers ({[p]} ∪ eager_peers s) (lazy_peers s ∖ {[p]}) s.
Definition prune_to_lazy (p : bytes) (s : TopicState) : TopicState :=
  if bool_decide (p ∈ eager_peers s)
  then set_peers (eager_peers s ∖ {[p]}) ({[p]} ∪ lazy_peers s) s else s.
Definition graft_to_eager (p : bytes) (s : TopicState) : TopicState :=
  if bool_decide (p ∈ lazy_peers s)
  then set_peers ({[p]} ∪ eager_peers s) (lazy_peers s ∖ {[p]}) s else s.
Definition peer_count (s : TopicState) : nat := size (eager_peers s) + size (lazy_peers s).

(** [MessageDedup]: two generations of hashes, rotated after 300 seconds. *)
Record MessageDedup := MkDedup {
  current : gset bytes;
  previous : gset bytes;
  epoch_start : N;
  epoch_duration : N
}.
Definition new_dedup (now : N) : MessageDedup := MkDedup ∅ ∅ now 300.
Definition maybe_rotate (now : N) (d : MessageDedup) : MessageDedup :=
  if (epoch_duration d <=? now - epoch_start d)%N
  then MkDedup ∅ (current d) now (epoch_duration d) else d.
Definition is_duplicate (now : N) (h : bytes) (d : MessageDedup) : MessageDedup * bool :=
  let d := maybe_rotate now d in
  (d, bool_decide (h ∈ current d) || bool_decide (h ∈ previous d)).
Definition dedup_mark (h : bytes) (d : MessageDedup) : MessageDedup :=
  MkDedup ({[h]} ∪ current d) (previous d) (epoch_start d) (epoch_duration d).

Inductive GossipError :=
| SubscriptionLimitReached (current max : nat)
| NotSubscribed (topic : bytes).

Record PlumTreeEngine := MkEngine {
  local_id : bytes;
  topics : gmap bytes TopicState;
  max_subscriptions : nat;
  dedup : MessageDedup
}.

Definition new (now : N) (local_id : bytes) (max_subscriptions : nat) : PlumTreeEngine :=
  MkEngine local_id ∅ max_subscriptions (new_dedup now).

Definition subscribe (t : bytes) (buffer_size : nat) (e : PlumTreeEngine) :
    PlumTreeEngine * result GossipError unit :=
  if max_subscriptions e <=? size (topics e)
  then (e, Err (SubscriptionLimitReached (size (topics e)) (max_subscriptions e)))
  else
    let state := MkTopic t ∅ ∅ ∅ (Some (Service.MkTopic [] buffer_size true)) in
    (MkEngine (local_id e) (<[t := state]> (topics e)) (max_subscriptions e) (dedup e), Ok tt).

Definition unsubscribe (t : bytes) (e : PlumTreeEngine) : PlumTreeEngine * result GossipError unit :=
  (MkEngine (local_id e) (delete t (topics e)) (max_subscriptions e) (dedup e),
   if bool_decide (is_Some (topics e !! t)) then Ok tt else Err (NotSubscribed t)).

Definition receive_message (now : N) (t h payload source : bytes) (e : PlumTreeEngine) :
    PlumTreeEngine * option (list bytes * list bytes) :=
  let '(d, dup) := is_duplicate now h (dedup e) in
  let e := MkEngine (local_id e) (topics e) (max_subscriptions e) d in
  if dup then (e, None)
  else
    let e := MkEngine (local_id e) (topics e) (max_subscriptions e) (dedup_mark h d) in
    match topics e !! t with
    | None => (e, None)
    | Some state =>
        if is_seen h state then (e, None)
        else
          let state := mark_seen h state in
          let state := MkTopic (topic state) (eager_peers state) (lazy_peers state) (seen state)
            (Service.try_send (Service.MkMessage t payload h source) <$> subscriber_tx state) in
          let keep p := p ≠ source ∧ p ≠ local_id e in
          (MkEngine (local_id e) (<[t := state]> (topics e)) (max_subscriptions e) (dedup e),
           Some (filter keep (elements (eager_peers state)), filter keep (elements (lazy_peers state))))
    end.

(** Operations on a topic's peers, by anyone holding the state. *)
Inductive peer_op := Add (p : bytes) | Prune (p : bytes) | Graft (p : bytes).
Definition peer_step (s : TopicState) (o : peer_op) : TopicState :=
  match o with Add p => add_eager_peer p s | Prune p => prune_to_lazy p s | Graft p => graft_to_eager p s end.
Definition peer_run (s : TopicState) (os : list peer_op) : TopicState := foldl peer_step s os.

Definition disjoint_peers (s : TopicState) : Prop := eager_peers s ## lazy_peers s.

Lemma peer_step_disjoint o s : disjoint_peers s → disjoint_peers (peer_step s o).
Proof.
  unfold disjoint_peers. intros Hd. destruct o as [p|p|p]; simpl; [set_solver| |];
    [unfold prune_to_lazy|unfold graft_to_eager]; case_bool_decide; simpl; set_solver.
Qed.

Lemma peer_run_disjoint os s : disjoint_peers s → disjoint_peers (peer_run s os).
Proof. unfold peer_run. revert s; induction os as [|o os IH]; intros s Hs; simpl; auto using peer_step_disjoint. Qed.

(** A hash recorded at [t0] or later, still remembered. *)
Definition remembers (t0 : N) (h : bytes) (d : MessageDedup) : Prop :=
  epoch_duration d = 300%N ∧ (h ∈ current d ∨ h ∈ previous d ∧ (t0 ≤ epoch_start d)%N).

Lemma rotate_remembers t0 now h d :
  (t0 ≤ now < t0 + 300)%N → remembers t0 h d → remembers t0 h (maybe_rotate now d).
Proof.
  unfold remembers, maybe_rotate. intros Hn [Hd Hr]. rewrite Hd.
  destruct (300 <=? now - epoch_start d)%N eqn:E; bprop; [|done]. simpl. split; [done|].
  destruct Hr as [Hr|[_ Hr]]; [right; split; [done|lia]|lia].
Qed.

Lemma receive_dedup now t h payload source e :
  let d := maybe_rotate now (dedup e) in
  dedup (receive_message now t h payload source e).1 = d ∨
  dedup (receive_message now t h payload source e).1 = dedup_mark h d.
Proof.
  unfold receive_message, is_duplicate. cbv zeta. destruct (_ || _); [by left|right].
  simpl. repeat case_match; done.
Qed.

Lemma receive_remembers t0 now t h h' payload source e :
  (t0 ≤ now < t0 + 300)%N → remembers t0 h' (dedup e) →
  remembers t0 h' (dedup (receive_message now t h payload source e).1).
Proof.
  intros Hn Hr%(rotate_remembers t0 now); [|done].
  destruct (receive_dedup now t h payload source e) as [-> | ->]; [done|].
  destruct Hr as [Hd [Hr|Hr]]; split; simpl; try done; [left; set_solver|by right].
Qed.

Lemma receive_first t0 t h payload source e :
  epoch_duration (dedup e) = 300%N → (is_duplicate t0 h (dedup e)).2 = false →
  remembers t0 h (dedup (receive_message t0 t h payload source e).1).
Proof.
  intros Hd Hf. unfold receive_message, is_duplicate in *. cbv zeta in *. simpl in Hf. rewrite Hf.
  assert (Hdm : remembers t0 h (dedup_mark h (maybe_rotate t0 (dedup e)))).
  { split; [|left; simpl; set_solver]. unfold maybe_rotate. simpl. by case_match. }
  simpl. repeat case_match; done.
Qed.

Lemma remembers_duplicate t0 now t h payload source e :
  (t0 ≤ now < t0 + 300)%N → remembers t0 h (dedup e) →
  (receive_message now t h payload source e).2 = None.
Proof.
  intros Hn Hr%(rotate_remembers t0 now); [|done]. unfold receive_message, is_duplicate. cbv zeta.
  destruct Hr as [_ [Hr|[Hr _]]]; [by rewrite (bool_decide_true _ Hr)|].
  by rewrite (bool_decide_true _ Hr), orb_true_r.
Qed.
End Plumtree.

(** The tree engine keeps eager and lazy peers apart under any joining,
    pruning and grafting; it forwards a message only to its topic's eager and
    lazy peers other than the source and itself; and it takes a content hash once
    in 300 seconds: after a reception at [t0] that was not a duplicate,
    whatever it receives on whatever topics, the same hash is ignored until
    [t0 + 300]. *)
Theorem plumtree_invariant (os : list Plumtree.peer_op) (tp : bytes) (e : Plumtree.PlumTreeEngine)
    (t0 now : N) (t h payload source t' payload' source' : bytes)
    (rs : list (N * bytes * bytes * bytes * bytes))
  (Hd : Plumtree.epoch_duration (Plumtree.dedup e) = 300%N)
  (Hfirst : (Plumtree.is_duplicate t0 h (Plumtree.dedup e)).2 = false)
  (Hrs : Forall (λ r, t0 ≤ r.1.1.1.1 < t0 + 300)%N rs) (Hnow : (t0 ≤ now < t0 + 300)%N) :
  Plumtree.disjoint_peers (Plumtree.peer_run (Plumtree.new_topic tp) os) ∧
  (∀ eager lzy, (Plumtree.receive_message t0 t h payload source e).2 = Some (eager, lzy) →
     ∃ s, Plumtree.topics e !! t = Some s ∧
       (∀ p, p ∈ eager ↔ p ∈ Plumtree.eager_peers s ∧ p ≠ source ∧ p ≠ Plumtree.local_id e) ∧
       (∀ p, p ∈ lzy ↔ p ∈ Plumtree.lazy_peers s ∧ p ≠ source ∧ p ≠ Plumtree.local_id e)) ∧
  (Plumtree.receive_message now t' h payload' source'
     (foldl (λ e r, (Plumtree.receive_message r.1.1.1.1 r.1.1.1.2 r.1.1.2 r.1.2 r.2 e).1)
        (Plumtree.receive_message t0 t h payload source e).1 rs)).2 = None.
Proof.
  split_and!.
  - apply Plumtree.peer_run_disjoint. unfold Plumtree.disjoint_peers. set_solver.
  - intros eager lzy. unfold Plumtree.receive_message, Plumtree.is_duplicate. cbv zeta.
    destruct (_ || _); [done|]. simpl. destruct (Plumtree.topics e !! t) as [s|]; [|done].
    destruct (Plumtree.is_seen h s); [done|]. simpl. intros [= <- <-]. exists s. split_and!; [done|..];
      intros p; rewrite list_elem_of_filter, elem_of_elements; tauto.
  - apply (Plumtree.remembers_duplicate t0); [done|].
    assert (H0 : Plumtree.remembers t0 h (Plumtree.dedup (Plumtree.receive_message t0 t h payload source e).1)).
    { by apply Plumtree.receive_first. }
    revert H0. generalize (Plumtree.receive_message t0 t h payload source e).1. clear e Hd Hfirst.
    induction Hrs as [|r rs Hr Hrs IH]; intros e H0; simpl; [done|].
    apply IH. by apply Plumtree.receive_remembers.
Qed.

(* ------------------------------------------------------------------ *)
(** ** Witnesses *)

Section witnesses.
Import Toy.
#[local] Existing Instance toy.

Definition demo_links (n : bytes) : list bytes :=
  if bool_decide (n = [1%N]) then [[2%N]] else if bool_decide (n = [2%N]) then [[1%N]] else [].
Definition demo_hash : bytes := blake3_hash [7%N].
(** Lazy pushes only, so that the message is announced and then fetched. *)
Definition demo_config : FanoutConfig := MkFanout 65536 0 6 2000 100.
Definition demo_wire : GossipWireMessage := MkWire [9%N] [7%N] demo_hash [1%N].
Definition demo_ihave : IHaveMessage := MkIHave [9%N] demo_hash [1%N].
Definition demo_go (n : bytes) (f : EagerGossipService → EagerGossipService * outbox) (w : network) : network :=
  update n (f (node w n)).1 w (post n (f (node w n)).2).
Definition demo_w0 : network := initial demo_config.
Definition demo_w1 : network := demo_go [1%N] (publish [[2%N]] [[2%N]] [9%N] [7%N]) demo_w0.
Definition demo_w2 : network := demo_go [2%N] (receive 5 [[1%N]] [1%N] (IHave demo_ihave)) demo_w1.
Definition demo_w3 : network := demo_go [2%N] (lazy_tick 5000) demo_w2.
Definition demo_w4 : network := demo_go [1%N] (receive 6000 [[2%N]] [2%N] (IWant demo_hash)) demo_w3.
Definition demo_w5 : network := demo_go [2%N] (receive 6001 [[1%N]] [1%N] (FullMessage demo_wire)) demo_w4.

Lemma demo_receive w n from e now :
  wires w = [(from, n, e)] → nstep demo_links w (demo_go n (receive now (demo_links n) from e) w).
Proof. intros Hw. by apply (NReceive _ _ from n e [] [] now (receive now (demo_links n) from e (node w n))). Qed.

Lemma demo_reachable : reachable demo_links (initial demo_config) demo_w5.
Proof.
  apply (rtc_l _ _ demo_w1); [by eapply (NPublish demo_links demo_w0 [1%N] [[2%N]])|].
  apply (rtc_l _ _ demo_w2); [apply demo_receive; reflexivity|].
  apply (rtc_l _ _ demo_w3); [by eapply (NTick demo_links demo_w2 [2%N] 5000)|].
  apply (rtc_l _ _ demo_w4); [apply demo_receive; vm_compute; reflexivity|].
  apply rtc_once, demo_receive. vm_compute. reflexivity.
Qed.

Lemma gossip_floods_witness : demo_hash ∈ seen (node demo_w5 [2%N]).
Proof.
  apply (gossip_floods demo_links demo_config demo_w5 [1%N] [2%N] demo_hash demo_reachable).
  - split; [vm_compute; reflexivity|]. intros n h [x Hx].
    destruct (decide (n = [2%N])) as [->|H2]; [vm_compute in Hx; destruct h; discriminate|].
    destruct (decide (n = [1%N])) as [->|H1]; [vm_compute in Hx; destruct h; discriminate|].
    unfold demo_w5, demo_w4, demo_w3, demo_w2, demo_w1, demo_go in Hx. simpl in Hx.
    rewrite !decide_False in Hx by done. discriminate.
  - apply (conn_step _ _ [1%N]); [constructor|]. vm_compute. repeat constructor.
  - vm_compute. reflexivity.
Defined.

Lemma gossip_once_witness :
  let s1 := (handle_full_message [[3%N]] demo_wire [1%N] (new [2%N] demo_config)).1 in
  handle_full_message [[3%N]] demo_wire [4%N] (run s1 [EvTick 9]) = (run s1 [EvTick 9], []).
Proof.
  cbv zeta.
  pose proof (gossip_once [[3%N]] [[3%N]] demo_wire demo_wire [1%N] [4%N] (new [2%N] demo_config) [EvTick 9]) as D.
  destruct (handle_full_message [[3%N]] demo_wire [1%N] (new [2%N] demo_config)) as [s1 out].
  apply D; [simpl; set_solver|reflexivity].
Defined.

Lemma gossip_poisoning_witness :
  let bad := MkWire [9%N] [8%N] demo_hash [1%N] in
  handle_iwant demo_hash [5%N] (handle_full_message [] bad [1%N] (new [2%N] demo_config)).1 =
    [([5%N], FullMessage bad)].
Proof.
  apply (gossip_poisoning [] [7%N] [8%N] [9%N] [1%N] [1%N] (new [2%N] demo_config)).
  - simpl. set_solver.
  - vm_compute. discriminate.
Defined.

Lemma plumtree_invariant_witness :
  (Plumtree.receive_message 100 [9%N] demo_hash [] [2%N]
     (Plumtree.receive_message 5 [9%N] demo_hash [] [1%N] (Plumtree.new 0 [3%N] 10)).1).2 = None.
Proof.
  apply (plumtree_invariant [] [9%N] (Plumtree.new 0 [3%N] 10) 5 100 [9%N] demo_hash [] [1%N] [9%N] [] [2%N] []).
  - reflexivity.
  - reflexivity.
  - constructor.
  - split; [discriminate|reflexivity].
Defined.
End witnesses.
