(* ===== verification/Topics.v ===== *)
(** * Gossip topics: [crates/ephemera-gossip/src/topic.rs]

    The identifiers of the topics, 32-byte hashes of a domain string and, for
    the families, what singles out a member. *)
From S2P Require Import Prelude Crypto.

Inductive TopicName :=
| PublicFeed
| AuthorFeed (author_pubkey : bytes)
| TopicRoom (room_id : bytes)
| Moderation
| CrdtSync (neighborhood_id : bytes)
| BloomUpdates
| Reactions
| DirectMessages
| DhtLookup.

(** What is hashed. *)
Definition topic_input (t : TopicName) : bytes :=
  match t with
  | PublicFeed => bstr "ephemera-topic-public-feed-v1"
  | AuthorFeed author_pubkey => bstr "ephemera-topic-author-v1" ++ author_pubkey
  | TopicRoom room_id => bstr "ephemera-topic-room-v1" ++ room_id
  | Moderation => bstr "ephemera-topic-moderation-v1"
  | CrdtSync neighborhood_id => bstr "ephemera-topic-crdt-v1" ++ neighborhood_id
  | BloomUpdates => bstr "ephemera-topic-bloom-v1"
  | Reactions => bstr "ephemera-topic-reactions-v1"
  | DirectMessages => bstr "ephemera-topic-dm-delivery-v1"
  | DhtLookup => bstr "ephemera-topic-dht-lookup-v1"
  end.

Section topics.
Context `{Primitives}.

Definition topic_of (t : TopicName) : bytes := blake3_hash (topic_input t).

(** No room, author or neighbourhood can be named so that its topic is one of
    the others, but by a collision of the hash. *)
Lemma topic_input_inj t1 t2 : topic_input t1 = topic_input t2 → t1 = t2.
Proof. destruct t1, t2; cbn; intros [=]; by subst. Qed.

(** [blake3] gives identifiers of 32 bytes. *)
Lemma topic_length `{!PrimitiveLaws} t : length (topic_of t) = 32.
Proof. apply blake3_len. Qed.
End topics.
