(* ===== verification/Post.v ===== *)
(** * Posts: [crates/ephemera-post/src], and their storage on arrival in
    [crates/ephemera-node/src/gossip_ingest.rs]

    Content, the builder, canonical bytes, validation, and the table row a
    node writes for a post from the network.  The JSON serialisation behind
    [canonical_bytes] is the parameter [canonical_json]; clock readings are
    arguments; the content store's answer to [put] is an argument of
    [store_received_post]. *)
From S2P Require Import Prelude Types Crypto Unicode.

(* ------------------------------------------------------------------ *)
(** ** Content *)

Definition MAX_TEXT_GRAPHEMES : nat := 2000.
Definition MAX_TEXT_BYTES : nat := 16384.
Definition MAX_ATTACHMENTS : nat := 4.
Definition MAX_THREAD_DEPTH : N := 50.
Definition CLOCK_SKEW_TOLERANCE : N := 300.

Inductive PostContent :=
| CText (body : str)
| CPhoto (blob_id : ContentId) (caption : option str)
| CCombined (text : str) (attachments : list ContentId).

Definition text_body (c : PostContent) : option str :=
  match c with
  | CText body => Some body
  | CPhoto _ caption => caption
  | CCombined text _ => Some text
  end.

Definition attachment_ids (c : PostContent) : list ContentId :=
  match c with
  | CText _ => []
  | CPhoto b _ => [b]
  | CCombined _ l => l
  end.

Definition attachment_count (c : PostContent) : nat :=
  match c with
  | CText _ => 0
  | CPhoto _ _ => 1
  | CCombined _ l => length l
  end.

Record Post := MkPost {
  id : ContentId;
  author : bytes;
  content : PostContent;
  post_created_at : N;
  ttl : Ttl;
  signature : bytes;
  pow_proof : bytes;
  parent : option ContentId;
  root : option ContentId;
  depth : N
}.

Definition is_reply (p : Post) : bool := bool_decide (is_Some (parent p)).
Definition expires_at (p : Post) : N := add64 (post_created_at p) (ttl_secs (ttl p)).
Definition is_expired_at (p : Post) (now : N) : bool := (expires_at p <? now)%N.

Inductive PostError := Build (reason : string) | Validation (reason : string).

(** Third-party JSON: [serde_json::to_vec] of the seven signed fields. *)
Class Canonical := {
  canonical_json : PostContent → bytes → N → N → option ContentId → option ContentId → N → result string bytes
}.

Section post.
Context `{Primitives, Canonical}.

Definition canonical_bytes (content : PostContent) (author : bytes) (created_at : N) (ttl : Ttl)
    (parent root : option ContentId) (depth : N) : result PostError bytes :=
  map_err (λ e, Build ("serialization failed: " +:+ e))
    (canonical_json content author created_at (ttl_secs ttl) parent root depth).

(* ------------------------------------------------------------------ *)
(** ** The builder *)

Record PostBuilder := MkBuilder {
  b_text : option str;
  b_photo : option ContentId;
  b_caption : option str;
  b_attachments : list ContentId;
  b_ttl : option Ttl;
  b_parent : option ContentId;
  b_root : option ContentId;
  b_depth : N;
  b_pow : bytes
}.

Definition new : PostBuilder := MkBuilder None None None [] None None None 0 [].

Definition text (body : str) (b : PostBuilder) : PostBuilder :=
  MkBuilder (Some body) (b_photo b) (b_caption b) (b_attachments b) (b_ttl b) (b_parent b) (b_root b) (b_depth b) (b_pow b).
Definition photo (blob : ContentId) (b : PostBuilder) : PostBuilder :=
  MkBuilder (b_text b) (Some blob) (b_caption b) (b_attachments b) (b_ttl b) (b_parent b) (b_root b) (b_depth b) (b_pow b).
Definition caption (cap : str) (b : PostBuilder) : PostBuilder :=
  MkBuilder (b_text b) (b_photo b) (Some cap) (b_attachments b) (b_ttl b) (b_parent b) (b_root b) (b_depth b) (b_pow b).
Definition attachment (blob : ContentId) (b : PostBuilder) : PostBuilder :=
  MkBuilder (b_text b) (b_photo b) (b_caption b) (b_attachments b ++ [blob]) (b_ttl b) (b_parent b) (b_root b) (b_depth b) (b_pow b).
Definition with_ttl (t : Ttl) (b : PostBuilder) : PostBuilder :=
  MkBuilder (b_text b) (b_photo b) (b_caption b) (b_attachments b) (Some t) (b_parent b) (b_root b) (b_depth b) (b_pow b).
Definition reply_to (parent root : ContentId) (depth : N) (b : PostBuilder) : PostBuilder :=
  MkBuilder (b_text b) (b_photo b) (b_caption b) (b_attachments b) (b_ttl b) (Some parent) (Some root) depth (b_pow b).
Definition pow (proof : bytes) (b : PostBuilder) : PostBuilder :=
  MkBuilder (b_text b) (b_photo b) (b_caption b) (b_attachments b) (b_ttl b) (b_parent b) (b_root b) (b_depth b) proof.

Definition resolve_content (b : PostBuilder) : result PostError PostContent :=
  match b_text b, b_photo b, b_attachments b with
  | Some body, None, [] => Ok (CText body)
  | None, Some blob, [] => Ok (CPhoto blob (b_caption b))
  | Some t, Some blob, [] => Ok (CCombined t [blob])
  | Some t, None, l => Ok (CCombined t l)
  | None, None, [] => Err (Build "post has no content")
  | _, _, _ => Err (Build "cannot combine photo() and attachment() — use attachment() only")
  end.

Definition build (now : N) (seed : bytes) (b : PostBuilder) : result PostError Post :=
  let? c := resolve_content b in
  let t := default one_day (b_ttl b) in
  let author := public_key seed in
  let? canonical := canonical_bytes c author now t (b_parent b) (b_root b) (b_depth b) in
  Ok (MkPost (from_digest (blake3_hash canonical)) author c now t (sign seed canonical) (b_pow b)
        (b_parent b) (b_root b) (b_depth b)).

(* ------------------------------------------------------------------ *)
(** ** Validation *)

Definition validate_signature (p : Post) : result PostError unit :=
  let? canonical := canonical_bytes (content p) (author p) (post_created_at p) (ttl p) (parent p) (root p) (depth p) in
  map_err (λ _, Validation "invalid signature") (verify_signature (author p) canonical (signature p)).

Definition validate_not_expired (now : N) (p : Post) : result PostError unit :=
  let e := add64 (post_created_at p) (ttl_secs (ttl p)) in
  if (add64 e CLOCK_SKEW_TOLERANCE <? now)%N
  then Err (Validation ("post expired at " +:+ pretty e +:+ ", now is " +:+ pretty now)) else Ok tt.

Definition validate_not_future (now : N) (p : Post) : result PostError unit :=
  if (add64 now CLOCK_SKEW_TOLERANCE <? post_created_at p)%N
  then Err (Validation "post timestamp is in the future") else Ok tt.

Definition validate_text_length (p : Post) : result PostError unit :=
  match text_body (content p) with
  | Some body =>
      if MAX_TEXT_BYTES <? str_len body then
        Err (Validation ("text body is " +:+ pretty (str_len body) +:+ " bytes, max is " +:+ pretty MAX_TEXT_BYTES))
      else
        let char_count := length body in
        if MAX_TEXT_GRAPHEMES <? char_count then
          Err (Validation ("text body is " +:+ pretty char_count +:+ " characters, max is " +:+ pretty MAX_TEXT_GRAPHEMES))
        else Ok tt
  | None => Ok tt
  end.

Definition validate_attachment_count (p : Post) : result PostError unit :=
  let count := attachment_count (content p) in
  if MAX_ATTACHMENTS <? count
  then Err (Validation ("post has " +:+ pretty count +:+ " attachments, max is " +:+ pretty MAX_ATTACHMENTS))
  else Ok tt.

Definition validate_thread_depth (p : Post) : result PostError unit :=
  if (MAX_THREAD_DEPTH <? depth p)%N
  then Err (Validation ("thread depth " +:+ pretty (depth p) +:+ " exceeds maximum " +:+ pretty MAX_THREAD_DEPTH))
  else Ok tt.

(** [validate_post], with the two clock readings. *)
Definition validate_post (now1 now2 : N) (p : Post) : result PostError unit :=
  let? _ := validate_signature p in
  let? _ := validate_not_expired now1 p in
  let? _ := validate_not_future now2 p in
  let? _ := validate_text_length p in
  let? _ := validate_attachment_count p in
  let? _ := validate_thread_depth p in
  Ok tt.

(* ------------------------------------------------------------------ *)
(** ** Storage on arrival *)

(** A row of [posts], keyed by its [content_hash]; the columns the insert
    leaves at their defaults are left out. *)
Record PostRow := MkRow {
  r_author_pubkey : bytes;
  r_sequence_number : Z;
  r_created_at : Z;
  r_expires_at : Z;
  r_ttl_seconds : Z;
  r_parent_hash : option bytes;
  r_root_hash : option bytes;
  r_depth : Z;
  r_body_preview : option str;
  r_media_count : Z;
  r_has_media : Z;
  r_pow_difficulty : Z;
  r_received_at : Z;
  r_epoch_number : Z;
  r_signature : bytes;
  r_blob_hash : str
}.

Definition row_of (now : N) (blob_hash : str) (p : Post) : PostRow :=
  let ttl_secs := as_i64 (ttl_secs (ttl p)) in
  let media_count := Z.of_nat (attachment_count (content p)) in
  MkRow (author p) 0 (as_i64 (post_created_at p)) (add_i64 (as_i64 (post_created_at p)) ttl_secs) ttl_secs
    (to_wire_bytes <$> parent p) (to_wire_bytes <$> root p) (Z.of_N (depth p))
    (take 280 <$> text_body (content p)) media_count (if (0 <? media_count)%Z then 1 else 0)
    (Z.of_nat (length (pow_proof p))) (as_i64 now) 1 (signature p) blob_hash.

(** [INSERT OR IGNORE INTO posts ...]. *)
Definition store_received_post (now : N) (blob : result string str) (p : Post) (posts : gmap bytes PostRow) :
    gmap bytes PostRow * result string unit :=
  match blob with
  | Err e => (posts, Err ("content store put: " +:+ e))
  | Ok blob_hash =>
      let key := to_wire_bytes (id p) in
      (match posts !! key with Some _ => posts | None => <[key := row_of now blob_hash p]> posts end, Ok tt)
  end.

(** The validation and storage steps of [gossip_ingest_loop] for one post. *)
Definition ingest (now1 now2 now3 : N) (blob : result string str) (p : Post) (posts : gmap bytes PostRow) :
    gmap bytes PostRow :=
  match validate_post now1 now2 p with
  | Err _ => posts
  | Ok _ => (store_received_post now3 blob p posts).1
  end.

(* ------------------------------------------------------------------ *)
(** ** Lemmas *)

(** The limits [validate_post] enforces besides the signature. *)
Definition in_limits (now1 now2 : N) (p : Post) : Prop :=
  (now1 ≤ add64 (expires_at p) CLOCK_SKEW_TOLERANCE)%N ∧
  (post_created_at p ≤ add64 now2 CLOCK_SKEW_TOLERANCE)%N ∧
  (∀ body, text_body (content p) = Some body → str_len body ≤ MAX_TEXT_BYTES ∧ length body ≤ MAX_TEXT_GRAPHEMES) ∧
  attachment_count (content p) ≤ MAX_ATTACHMENTS ∧ (depth p ≤ MAX_THREAD_DEPTH)%N.

Lemma text_length_ok p :
  validate_text_length p = Ok tt ↔
  ∀ body, text_body (content p) = Some body → str_len body ≤ MAX_TEXT_BYTES ∧ length body ≤ MAX_TEXT_GRAPHEMES.
Proof.
  unfold validate_text_length. destruct (text_body (content p)) as [body|]; [|naive_solver].
  destruct (MAX_TEXT_BYTES <? str_len body) eqn:E3; bprop.
  { split; [done|]. intros Hb. destruct (Hb body eq_refl). lia. }
  cbv zeta. destruct (MAX_TEXT_GRAPHEMES <? length body) eqn:E4; bprop.
  { split; [done|]. intros Hb. destruct (Hb body eq_refl). lia. }
  split; [|done]. intros _ b [= <-]. done.
Qed.

Lemma validate_post_ok now1 now2 p :
  validate_post now1 now2 p = Ok tt ↔ validate_signature p = Ok tt ∧ in_limits now1 now2 p.
Proof.
  unfold validate_post, in_limits. rewrite !bind_ok_unit, text_length_ok.
  unfold validate_not_expired, validate_not_future, validate_attachment_count, validate_thread_depth, expires_at.
  cbv zeta. destruct (_ <? now1)%N eqn:E1, (_ <? post_created_at p)%N eqn:E2, (MAX_ATTACHMENTS <? _) eqn:E5,
    (MAX_THREAD_DEPTH <? _)%N eqn:E6; bprop; split; intros HH; decompose [and] HH; try done; try lia; by split_and!.
Qed.

Context `{!PrimitiveLaws}.

(** A post signed over its fields has a valid signature. *)
Lemma signed_valid seed p c :
  author p = public_key seed →
  canonical_bytes (content p) (author p) (post_created_at p) (ttl p) (parent p) (root p) (depth p) = Ok c →
  signature p = sign seed c → validate_signature p = Ok tt.
Proof.
  intros Ha Hc Hs. unfold validate_signature. rewrite Hc. simpl. rewrite Ha, Hs, verify_sign. done.
Qed.

(* ------------------------------------------------------------------ *)
(** ** Properties *)

(** What the builder signs, validation accepts: [build] succeeds exactly
    when the content resolves - text, photo, text with one photo, or text with
    attachments - and serialises; its id is the hash of the signed bytes; and
    every node accepts it from five minutes before its creation to five
    minutes after its expiry, exactly when its text, attachments and depth are
    within the limits. *)
Theorem post_build_validates (b : PostBuilder) (now now1 now2 : N) (seed : bytes) (p : Post)
  (Hb : build now seed b = Ok p) :
  (∃ c, canonical_bytes (content p) (author p) (post_created_at p) (ttl p) (parent p) (root p) (depth p) = Ok c ∧
        id p = from_digest (blake3_hash c)) ∧
  resolve_content b = Ok (content p) ∧ ttl p = default one_day (b_ttl b) ∧
  (validate_post now1 now2 p = Ok tt ↔ in_limits now1 now2 p).
Proof.
  unfold build in Hb. destruct (resolve_content b) as [ct|] eqn:Er; [|done]. simpl in Hb.
  destruct (canonical_bytes _ _ _ _ _ _ _) as [c|] eqn:Ec; [|done]. injection Hb as <-. simpl.
  split_and!; [by exists c|done..|]. rewrite validate_post_ok.
  assert (Hv : validate_signature (MkPost (from_digest (blake3_hash c)) (public_key seed) ct now
    (default one_day (b_ttl b)) (sign seed c) (b_pow b) (b_parent b) (b_root b) (b_depth b)) = Ok tt)
    by (by apply (signed_valid seed _ c)).
  tauto.
Qed.

(** The id is not checked: a valid post stays valid under any id; so an
    author can store a post of its own under the id of someone else's, and
    then the genuine post, though valid, is never stored. *)
Theorem post_id_squatting (evil genuine : Post) (t1 t2 t3 : N) (blob1 blob2 : str) (posts : gmap bytes PostRow)
  (Hv : validate_post t1 t2 evil = Ok tt) (Hfree : posts !! to_wire_bytes (id genuine) = None) :
  let forged := MkPost (id genuine) (author evil) (content evil) (post_created_at evil) (ttl evil)
                  (signature evil) (pow_proof evil) (parent evil) (root evil) (depth evil) in
  let posts1 := ingest t1 t2 t3 (Ok blob1) forged posts in
  validate_post t1 t2 forged = Ok tt ∧
  posts1 !! to_wire_bytes (id genuine) = Some (row_of t3 blob1 forged) ∧
  ∀ u1 u2 u3, ingest u1 u2 u3 (Ok blob2) genuine posts1 = posts1.
Proof.
  intros forged posts1. assert (Hf : validate_post t1 t2 forged = Ok tt) by exact Hv.
  assert (Hp : posts1 !! to_wire_bytes (id genuine) = Some (row_of t3 blob1 forged)).
  { unfold posts1, ingest. rewrite Hf. simpl. rewrite Hfree. apply lookup_insert_eq. }
  split_and!; [done..|]. intros u1 u2 u3. unfold ingest at 1.
  destruct (validate_post u1 u2 genuine); [|done]. simpl. by rewrite Hp.
Qed.

(** The lifetime is not checked: for any number of seconds, in the
    protocol's bounds or not, there is a post with that TTL which every node
    accepts at its creation. *)
Theorem post_ttl_unchecked (seed : bytes) (now secs : N) (body : str) (c : bytes)
  (Hfit : u64 (now + secs + CLOCK_SKEW_TOLERANCE))
  (Hlen : str_len body ≤ MAX_TEXT_BYTES) (Hchars : length body ≤ MAX_TEXT_GRAPHEMES)
  (Hc : canonical_bytes (CText body) (public_key seed) now (MkTtl secs) None None 0 = Ok c) :
  ∃ p, ttl_secs (ttl p) = secs ∧ expires_at p = (now + secs)%N ∧ validate_post now now p = Ok tt.
Proof.
  exists (MkPost (from_digest (blake3_hash c)) (public_key seed) (CText body) now (MkTtl secs) (sign seed c) []
    None None 0).
  assert (Hsum : add64 now secs = (now + secs)%N) by (apply add64_small; unfold u64 in *; lia).
  split_and!; [done|done|]. apply validate_post_ok. split; [by apply (signed_valid seed _ c)|].
  unfold in_limits, expires_at. cbn [post_created_at ttl ttl_secs content depth text_body attachment_count].
  rewrite Hsum, !add64_small by (unfold u64, CLOCK_SKEW_TOLERANCE in *; lia).
  unfold MAX_ATTACHMENTS, MAX_THREAD_DEPTH. split_and!; try lia. by intros b [= <-].
Qed.
End post.

(* ------------------------------------------------------------------ *)
(** ** Witnesses *)

Section witnesses.
Import Toy.
#[local] Existing Instance toy.

(** A concrete serialisation: tagged, length-prefixed fields. *)
Definition demo_id (c : ContentId) : bytes := version c :: N.of_nat (length (hash c)) :: hash c.
Definition demo_opt (c : option ContentId) : bytes := match c with Some c => 1%N :: demo_id c | None => [0%N] end.
Definition demo_str (s : str) : bytes := N.of_nat (length s) :: s.
Definition demo_content (c : PostContent) : bytes :=
  match c with
  | CText b => 0%N :: demo_str b
  | CPhoto b cap => 1%N :: demo_id b ++ match cap with Some s => 1%N :: demo_str s | None => [0%N] end
  | CCombined t l => 2%N :: demo_str t ++ N.of_nat (length l) :: flat_map demo_id l
  end.
#[local] Instance demo_canonical : Canonical := {|
  canonical_json c a t ttl p r d := Ok (demo_content c ++ a ++ [t; ttl] ++ demo_opt p ++ demo_opt r ++ [d])
|}.

Definition demo_seed : bytes := replicate 32 6%N.
Definition demo_builder : PostBuilder := with_ttl one_hour (text (lit "hello") new).
Definition demo_post (seed : bytes) (t : N) : Post :=
  match build t seed demo_builder with
  | Ok p => p
  | Err _ => MkPost (from_hash []) [] (CText []) 0 one_hour [] [] None None 0
  end.

Lemma post_build_validates_witness :
  validate_post 4800 1500 (demo_post demo_seed 1000) = Ok tt.
Proof.
  apply (post_build_validates demo_builder 1000 4800 1500 demo_seed (demo_post demo_seed 1000)).
  - reflexivity.
  - unfold in_limits. split_and!.
    + vm_compute. congruence.
    + vm_compute. congruence.
    + intros body Hb. vm_compute in Hb. injection Hb as <-. split; apply Nat.leb_le; vm_compute; reflexivity.
    + apply Nat.leb_le. vm_compute. reflexivity.
    + vm_compute. congruence.
Defined.

Lemma post_id_squatting_witness :
  let evil := demo_post (replicate 32 8%N) 1000 in
  let genuine := demo_post demo_seed 900 in
  let forged := MkPost (id genuine) (author evil) (content evil) (post_created_at evil) (ttl evil)
                  (signature evil) (pow_proof evil) (parent evil) (root evil) (depth evil) in
  ingest 1000 1000 1000 (Ok (lit "b")) genuine (ingest 1000 1000 1000 (Ok (lit "a")) forged ∅) =
  ingest 1000 1000 1000 (Ok (lit "a")) forged ∅.
Proof.
  cbv zeta.
  apply (post_id_squatting (demo_post (replicate 32 8%N) 1000) (demo_post demo_seed 900) 1000 1000 1000 (lit "a") (lit "b") ∅);
    vm_compute; reflexivity.
Defined.

Lemma post_ttl_unchecked_witness :
  ∃ p, ttl_secs (ttl p) = (10 * 365 * 86400)%N ∧ validate_post 1000 1000 p = Ok tt.
Proof.
  edestruct (post_ttl_unchecked demo_seed 1000 (10 * 365 * 86400) (lit "hi")) as (p & H1 & _ & H2).
  - vm_compute. reflexivity.
  - apply Nat.leb_le. vm_compute. reflexivity.
  - apply Nat.leb_le. vm_compute. reflexivity.
  - reflexivity.
  - exists p. split; [exact H1|exact H2].
Defined.
End witnesses.
