(* ===== verification/Tables.v ===== *)
(** * SQL tables as maps

    The node keeps its state in one SQLite database
    ([crates/ephemera-store/src/metadata.rs]).  A table is a [gmap] from its
    primary key to the other columns; this file has the statements the
    services run on tables, with their laws.  [INSERT OR REPLACE] is
    [<[k:=v]>] and a [DELETE] or [UPDATE] by primary key [delete] or [alter]. *)
From S2P Require Import Prelude.

Section sql.
Context `{Countable K} {V : Type}.
Implicit Types (t : gmap K V) (p : K → V → bool).

(** [INSERT OR IGNORE]. *)
Definition insert_or_ignore (k : K) (v : V) t : gmap K V :=
  match t !! k with Some _ => t | None => <[k := v]> t end.
(** [INSERT]: [None] when the primary key is taken. *)
Definition insert_new (k : K) (v : V) t : option (gmap K V) :=
  match t !! k with Some _ => None | None => Some (<[k := v]> t) end.
(** [UPDATE ... SET ... WHERE p]. *)
Definition update_where p (f : V → V) t : gmap K V :=
  map_imap (λ k v, Some (if p k v then f v else v)) t.
(** [DELETE FROM ... WHERE p]. *)
Definition delete_where p t : gmap K V := filter (λ kv, p kv.1 kv.2 = false) t.
(** The rows of [SELECT ... WHERE p], in no particular order, and [COUNT( * )]. *)
Definition rows_where p t : gmap K V := filter (λ kv, p kv.1 kv.2 = true) t.
Definition select_where p t : list (K * V) := map_to_list (rows_where p t).
Definition count_where p t : nat := size (rows_where p t).

Lemma lookup_insert_or_ignore k v t k' :
  insert_or_ignore k v t !! k' = if decide (k = k') then Some (default v (t !! k)) else t !! k'.
Proof.
  unfold insert_or_ignore. destruct (decide (k = k')) as [<-|Hne].
  - destruct (t !! k) eqn:E; [by rewrite E|]. by rewrite lookup_insert_eq.
  - destruct (t !! k); [done|]. by rewrite lookup_insert_ne.
Qed.

Lemma insert_or_ignore_present k v t : is_Some (t !! k) → insert_or_ignore k v t = t.
Proof. intros [x E]. unfold insert_or_ignore. by rewrite E. Qed.

Lemma insert_or_ignore_fresh k v t : t !! k = None → insert_or_ignore k v t = <[k := v]> t.
Proof. intros E. unfold insert_or_ignore. by rewrite E. Qed.

Lemma insert_or_ignore_is_Some k v t : is_Some (insert_or_ignore k v t !! k).
Proof. rewrite lookup_insert_or_ignore, decide_True by done. done. Qed.

Lemma insert_or_ignore_mono k v t k' : is_Some (t !! k') → is_Some (insert_or_ignore k v t !! k').
Proof. rewrite lookup_insert_or_ignore. destruct (decide (k = k')) as [->|]; [done|auto]. Qed.

Lemma lookup_update_where p f t k :
  update_where p f t !! k = (λ v, if p k v then f v else v) <$> t !! k.
Proof. unfold update_where. rewrite map_lookup_imap. by destruct (t !! k). Qed.

Lemma lookup_delete_where p t k v :
  delete_where p t !! k = Some v ↔ t !! k = Some v ∧ p k v = false.
Proof. unfold delete_where. by rewrite map_lookup_filter_Some. Qed.

Lemma lookup_rows_where p t k v :
  rows_where p t !! k = Some v ↔ t !! k = Some v ∧ p k v = true.
Proof. unfold rows_where. by rewrite map_lookup_filter_Some. Qed.

Lemma elem_of_select_where p t k v :
  (k, v) ∈ select_where p t ↔ t !! k = Some v ∧ p k v = true.
Proof. unfold select_where. by rewrite elem_of_map_to_list, lookup_rows_where. Qed.

Lemma count_where_pos p t : 0 < count_where p t ↔ ∃ k v, t !! k = Some v ∧ p k v = true.
Proof.
  unfold count_where. split.
  - intros Hpos. destruct (map_choose (rows_where p t)) as (k & v & Hl).
    { intros E. rewrite E, map_size_empty in Hpos. lia. }
    apply lookup_rows_where in Hl. eauto.
  - intros (k & v & Hl). apply lookup_rows_where in Hl.
    destruct (size (rows_where p t)) eqn:E; [|lia].
    apply map_size_empty_iff in E. rewrite E in Hl. by apply lookup_empty_Some in Hl.
Qed.

(** A count that determines the key is a lookup. *)
Lemma count_where_key k (q : V → bool) t (p : K → V → bool) :
  (∀ k' v, p k' v = bool_decide (k' = k) && q v) →
  (0 <? count_where p t) = match t !! k with Some v => q v | None => false end.
Proof.
  intros Hp. apply eq_true_iff_eq. rewrite Nat.ltb_lt, count_where_pos. split.
  - intros (k' & v & Hl & Hpv). rewrite Hp in Hpv. bprop. subst k'. by rewrite Hl.
  - destruct (t !! k) as [v|] eqn:E; [|done]. intros Hq. exists k, v.
    split; [done|]. rewrite Hp, Hq. by rewrite bool_decide_true.
Qed.

Lemma count_where_le p p' t t' :
  (∀ k v, t !! k = Some v → p k v = true → ∃ v', t' !! k = Some v' ∧ p' k v' = true) →
  count_where p t ≤ count_where p' t'.
Proof.
  intros Hle. unfold count_where. rewrite <- !size_dom. apply subseteq_size.
  intros k Hk. apply elem_of_dom in Hk as [v Hv]. apply lookup_rows_where in Hv as [Hv Hp].
  destruct (Hle k v Hv Hp) as (v' & ? & ?). apply elem_of_dom. exists v'. by apply lookup_rows_where.
Qed.

Lemma count_where_insert p k v t :
  t !! k = None → count_where p (<[k := v]> t) = (if p k v then 1 else 0) + count_where p t.
Proof.
  intros Hk. unfold count_where, rows_where. destruct (p k v) eqn:E.
  - rewrite map_filter_insert_True by done. rewrite map_size_insert_None; [done|].
    apply map_lookup_filter_None. by left.
  - rewrite map_filter_insert_False by (simpl; congruence). by rewrite delete_id.
Qed.

Lemma count_where_delete p k v t :
  t !! k = Some v → count_where p t = (if p k v then 1 else 0) + count_where p (delete k t).
Proof.
  intros Hk. rewrite <- (insert_delete_id t k v Hk) at 1. apply count_where_insert. apply lookup_delete_eq.
Qed.

Lemma length_select_where p t : length (select_where p t) = count_where p t.
Proof. unfold select_where, count_where. apply length_map_to_list. Qed.

Lemma count_where_insert_le p k v t : count_where p (<[k := v]> t) ≤ S (count_where p t).
Proof.
  destruct (decide (t !! k = None)) as [E|E].
  - rewrite count_where_insert by done. destruct (p k v); lia.
  - unfold count_where, rows_where. destruct (p k v) eqn:Ep.
    + rewrite map_filter_insert_True by done. rewrite map_size_insert. case_match; unfold id; lia.
    + rewrite map_filter_insert_False by (simpl; congruence).
      apply Nat.le_le_succ_r. rewrite <- !size_dom. apply subseteq_size. intros k' Hk'.
      apply elem_of_dom in Hk' as [x Hx]. apply map_lookup_filter_Some in Hx as [Hx Hp].
      apply lookup_delete_Some in Hx as [? Hx]. apply elem_of_dom. exists x. by apply lookup_rows_where.
Qed.

Lemma count_where_ext p p' t :
  (∀ k v, t !! k = Some v → p k v = p' k v) → count_where p t = count_where p' t.
Proof.
  intros Hp. apply Nat.le_antisymm; apply count_where_le; intros k v Hl Hv; exists v; split; try done.
  - by rewrite <- (Hp k v Hl).
  - by rewrite (Hp k v Hl).
Qed.
End sql.
