(* ===== verification/Listing.v ===== *)
(** * Pages of SQL rows

    [ORDER BY t DESC LIMIT ?] over the rows a query selects, as the listings
    of posts and the feeds of the node use it. *)
From S2P Require Import Prelude Tables.
From stdpp Require Import sorting.

(** [LIMIT ?] with a [u64] bound as an [i64]; a negative limit is none. *)
Definition sql_limit {A} (limit : N) (l : list A) : list A :=
  if (as_i64 limit <? 0)%Z then l else take (N.to_nat limit) l.

Section newest.
Context {A : Type} (time : A → Z).

Definition newest_first (rows : list A) : list A := stable_sort (λ a b, (time b <=? time a)%Z) rows.

Definition newer (a b : A) : Prop := (time b ≤ time a)%Z.

Lemma newest_first_sorted rows : StronglySorted newer (newest_first rows).
Proof.
  pose proof (stable_sort_sorted (λ a b, (time b <=? time a)%Z)
    ltac:(intros; rewrite !Z.leb_le; lia) ltac:(intros *; rewrite !Z.leb_le; lia) rows) as Hsort.
  fold (newest_first rows) in Hsort. induction Hsort as [|a l _ IH Ha]; constructor; [done|].
  eapply Forall_impl; [exact Ha|]. intros b E. by apply Z.leb_le in E.
Qed.

Lemma newest_first_perm rows : newest_first rows ≡ₚ rows.
Proof. apply stable_sort_perm. Qed.

(** A page: rows of the query, no other and none twice, newest first, as many
    as there are up to the limit, none left out for an older one. *)
Record page (limit : N) (rows l : list A) : Prop := MkPage {
  page_nodup : NoDup l;
  page_sorted : StronglySorted newer l;
  page_sound x : x ∈ l → x ∈ rows;
  page_length : (limit < 2 ^ 63)%N → length l = Nat.min (N.to_nat limit) (length rows);
  page_complete x : x ∈ rows → x ∈ l ∨ ∀ y, y ∈ l → (time x ≤ time y)%Z
}.

Lemma newest_page limit rows : NoDup rows → page limit rows (sql_limit limit (newest_first rows)).
Proof.
  intros Hnd. pose proof (newest_first_perm rows) as Hp. pose proof (newest_first_sorted rows) as Hs.
  set (l0 := newest_first rows) in *. clearbody l0. assert (Hnd0 : NoDup l0) by (by rewrite Hp).
  unfold sql_limit. destruct (as_i64 limit <? 0)%Z eqn:El.
  - constructor; [done|done|intros x; by rewrite Hp| |intros x Hx; left; by rewrite Hp].
    intros Hlim. apply Z.ltb_lt in El. rewrite as_i64_small in El by done. lia.
  - rewrite <- (take_drop (N.to_nat limit) l0) in Hnd0, Hs. apply NoDup_app in Hnd0 as (Hnd0 & _ & _).
    apply StronglySorted_app in Hs as (Hcross & Hs1 & _). constructor; [done|done| | |].
    + intros x Hx. rewrite <- Hp, <- (take_drop (N.to_nat limit) l0). apply elem_of_app. by left.
    + intros _. by rewrite length_take, Hp.
    + intros x Hx. rewrite <- Hp, <- (take_drop (N.to_nat limit) l0), elem_of_app in Hx. destruct Hx as [Hx|Hx]; [by left|].
      right. intros y Hy. by apply Hcross.
Qed.
End newest.
