(* ===== verification/Paging.v ===== *)
(** * Pages of a feed: [crates/ephemera-social/src/feed.rs]

    The types of a page, how the feed queries of [store] cut what they
    fetched into a page and a cursor, and what a reader sees who follows the
    cursors. *)
From S2P Require Import Prelude Types Tables Listing.
From stdpp Require Import sorting.

Record FeedCursor := MkCursor { cur_created_at : N; cur_content_hash : ContentId }.
Record FeedItem := MkItem {
  content_hash : ContentId;
  author : bytes;
  item_created_at : N;
  is_reply : bool;
  parent : option ContentId
}.
Record FeedPage := MkPage { items : list FeedItem; next_cursor : option FeedCursor; has_more : bool }.

Definition bytes_to_content_hash (b : bytes) : ContentId :=
  if Nat.eqb (length b) 33 then default (from_digest (replicate 32 0%N)) (from_wire_bytes b)
  else if Nat.eqb (length b) 32 then from_digest b
  else from_digest (replicate 32 0%N).

(** The part of the query that the cursor adds. *)
Definition older (c : option FeedCursor) (t : Z) : bool :=
  match c with Some c => (t <? as_i64 (cur_created_at c))%Z | None => true end.
(** [LIMIT] in a feed query: one row more than the page holds. *)
Definition fetch_limit (page_size : nat) : nat := Nat.min page_size 200 + 1.
(** The page from what was fetched. *)
Definition page_of (page_size : nat) (fetched : list FeedItem) : FeedPage :=
  let has_more := page_size <? length fetched in
  let items := if has_more then take page_size fetched else fetched in
  MkPage items (if has_more then (λ i, MkCursor (item_created_at i) (content_hash i)) <$> last items else None) has_more.

(** What a reader sees who follows the cursors, page by page. *)
Fixpoint read_feed (fuel : nat) (feed : option FeedCursor → FeedPage) (cursor : option FeedCursor) : list FeedItem :=
  match fuel with
  | 0 => []
  | S fuel =>
      let page := feed cursor in
      items page ++ match next_cursor page with
                    | Some c => read_feed fuel feed (Some c)
                    | None => []
                    end
  end.

Lemma length_page n fetched : length (items (page_of n fetched)) ≤ Nat.max n (length fetched) ∧
  (length fetched ≤ fetch_limit n → n ≤ 200 → length (items (page_of n fetched)) ≤ n).
Proof.
  unfold page_of, fetch_limit. cbv zeta. destruct (Nat.ltb_spec n (length fetched)); cbn [items]; rewrite ?length_take; lia.
Qed.

Lemma as_i64_as_u64 z : i64 z → as_i64 (as_u64 z) = z.
Proof.
  unfold i64, as_u64, as_i64. intros Hz. destruct (decide (0 ≤ z)%Z) as [Hp|Hp].
  - rewrite Z.mod_small by lia. destruct (N.ltb_spec (Z.to_N z) (2 ^ 63)); lia.
  - assert ((z mod 2 ^ 64)%Z = (z + 2 ^ 64)%Z) as -> by (rewrite <- (Z.mod_add z 1 (2 ^ 64)) by lia; rewrite Z.mod_small; lia).
    destruct (N.ltb_spec (Z.to_N (z + 2 ^ 64)) (2 ^ 63)); lia.
Qed.

(** A feed query: for each cursor the rows older than it, newest first. *)
Section feed.
Context {A : Type} (time : A → Z) (item_of : A → FeedItem) (rows : option FeedCursor → list A).
Record feed_query : Prop := MkFeedQuery {
  fq_sorted c : StronglySorted (newer time) (rows c);
  fq_nodup c : NoDup (rows c);
  fq_elem c x : x ∈ rows c ↔ x ∈ rows None ∧ older c (time x) = true;
  fq_times x : x ∈ rows None → i64 (time x) ∧ item_created_at (item_of x) = as_u64 (time x)
}.
Definition feed_of (page_size : nat) (c : option FeedCursor) : FeedPage :=
  page_of page_size (item_of <$> take (fetch_limit page_size) (rows c)).
(** No two rows of the same second. *)
Definition distinct_times : Prop := ∀ x y, x ∈ rows None → y ∈ rows None → time x = time y → x = y.

Context (Hq : feed_query) (Hdist : distinct_times).

(** A cursor at a row continues right after it. *)
Lemma rows_after pre x post c : rows None = pre ++ x :: post → as_i64 (cur_created_at c) = time x → rows (Some c) = post.
Proof.
  intros Hrows Hc. pose proof (fq_nodup Hq None) as Hnd. pose proof (fq_sorted Hq None) as Hs.
  rewrite Hrows in Hnd, Hs. apply StronglySorted_app in Hs as (Hpx & Hpre & Hs).
  apply StronglySorted_inv in Hs as [Hpost Hx]. rewrite Forall_forall in Hx.
  apply NoDup_app in Hnd as (_ & _ & Hnd). apply NoDup_cons in Hnd as [Hnx Hnd].
  assert (Hin : ∀ y, y ∈ pre ++ x :: post → y ∈ rows None) by (intros y; by rewrite Hrows).
  assert (Hxin : x ∈ rows None) by (apply Hin; set_solver).
  apply (StronglySorted_unique_strong (newer time)).
  - intros y z Hy Hz R1 R2. unfold newer in *. apply Hdist; [by apply (fq_elem Hq) in Hy as [? _]|apply Hin; set_solver|lia].
  - apply (fq_sorted Hq).
  - exact Hpost.
  - apply NoDup_Permutation; [apply (fq_nodup Hq)|exact Hnd|]. intros k. rewrite (fq_elem Hq). cbn. rewrite Hc, Z.ltb_lt. split.
    + intros [Hk Ht]. rewrite Hrows in Hk. apply elem_of_app in Hk as [Hp|[->|Hp]%elem_of_cons]; [|lia|done].
      exfalso. assert (newer time k x) as Hn by (apply Hpx; set_solver). unfold newer in Hn. lia.
    + intros Hp. assert (Hall : k ∈ rows None) by (apply Hin; set_solver). split; [done|].
      specialize (Hx _ Hp). unfold newer in Hx. destruct (decide (time k = time x)) as [E|]; [|lia].
      exfalso. by rewrite (Hdist k x Hall Hxin E) in Hp.
Qed.

Lemma read_suffix n : 1 ≤ n ≤ 200 → ∀ fuel cursor pre suf,
  rows None = pre ++ suf → rows cursor = suf → length suf < fuel → read_feed fuel (feed_of n) cursor = item_of <$> suf.
Proof.
  intros Hl. induction fuel as [|fuel IH]; intros cursor pre suf Hrows Hc Hf; [lia|].
  cbn [read_feed]. unfold feed_of at 1 2, page_of, fetch_limit. rewrite Hc, (Nat.min_l n 200) by lia. cbv zeta.
  rewrite length_fmap, length_take. destruct (Nat.ltb_spec n (Nat.min (n + 1) (length suf))) as [Hm|Hm]; cbn [items next_cursor].
  - rewrite <- fmap_take, take_take, Nat.min_l by lia.
    destruct (lookup_lt_is_Some_2 suf (n - 1)) as [x Hx]; [lia|].
    assert (Hsplit : suf = take (n - 1) suf ++ x :: drop n suf).
    { rewrite <- (take_drop_middle suf (n - 1) x Hx) at 1. do 2 f_equal. f_equal. lia. }
    assert (Htake : take n suf = take (n - 1) suf ++ [x]).
    { replace n with (S (n - 1)) at 1 by lia. by apply take_S_r. }
    rewrite Htake at 2. rewrite fmap_app. cbn [fmap list_fmap]. rewrite last_snoc. cbn [fmap option_fmap option_map].
    assert (Hxin : x ∈ rows None) by (rewrite Hrows; apply elem_of_app; right; rewrite Hsplit; set_solver).
    destruct (fq_times Hq x Hxin) as [Ht Hi].
    rewrite (IH _ (pre ++ take (n - 1) suf ++ [x]) (drop n suf)).
    + rewrite <- fmap_app. by rewrite take_drop.
    + rewrite Hrows. rewrite <- !app_assoc. cbn. by rewrite <- Hsplit.
    + apply (rows_after (pre ++ take (n - 1) suf) x).
      * rewrite Hrows, <- app_assoc. by rewrite <- Hsplit.
      * cbn [cur_created_at]. rewrite Hi. by apply as_i64_as_u64.
    + rewrite length_drop. lia.
  - rewrite app_nil_r, take_ge by lia. done.
Qed.

(** Pages of one to two hundred items show everything once, newest first. *)
Lemma read_all n fuel : 1 ≤ n ≤ 200 → length (rows None) < fuel → read_feed fuel (feed_of n) None = item_of <$> rows None.
Proof. intros Hn Hf. by apply (read_suffix n Hn fuel None []). Qed.
End feed.

Lemma length_feed_of {A} (item_of : A → FeedItem) rows n c : n ≤ 200 → length (items (feed_of item_of rows n c)) ≤ n.
Proof. intros Hn. apply (length_page n); [|done]. rewrite length_fmap, length_take. lia. Qed.

Lemma filter_all {A} (P : A → Prop) `{∀ x, Decision (P x)} (l : list A) : (∀ x, x ∈ l → P x) → base.filter P l = l.
Proof.
  induction l as [|a l IH]; intros Hp; [done|]. rewrite filter_cons, decide_True by (apply Hp; set_solver).
  f_equal. apply IH. set_solver.
Qed.

(** The rows of a query over [l] with a cursor, newest first. *)
Section query.
Context {A : Type} (time : A → Z) (l : list A).
Definition query_rows (c : option FeedCursor) : list A := newest_first time (base.filter (λ x, older c (time x) = true) l).
Lemma elem_of_query_rows c x : x ∈ query_rows c ↔ x ∈ l ∧ older c (time x) = true.
Proof. unfold query_rows. rewrite newest_first_perm, list_elem_of_filter. tauto. Qed.
Lemma query_rows_feed (item_of : A → FeedItem) : NoDup l → (∀ x, x ∈ l → i64 (time x) ∧ item_created_at (item_of x) = as_u64 (time x)) →
  feed_query time item_of query_rows.
Proof.
  intros Hnd Ht. split.
  - intros c. apply newest_first_sorted.
  - intros c. unfold query_rows. rewrite newest_first_perm. by apply NoDup_filter.
  - intros c x. rewrite !elem_of_query_rows. cbn. tauto.
  - intros x [Hx _]%elem_of_query_rows. by apply Ht.
Qed.
End query.
