(* ===== verification/Metadata.v ===== *)
(** * The message tables of the metadata database:
    [crates/ephemera-store/src/metadata.rs]

    One record per table row, keyed by the table's primary key; columns that
    no modelled statement reads or writes are left out.  Identities, ids and
    hashes are BLOBs, times [INTEGER]s in seconds. *)
From S2P Require Import Prelude Unicode Ratchet Tables.

Record ConnRow := MkConn {
  c_status : string;
  c_created_at : Z;
  c_updated_at : Z;
  c_message : option str;
  c_initiator : option bytes
}.

Record BlockRow := MkBlock { bl_created_at : Z; bl_reason : option str }.
Record MuteRow := MkMute { mu_created_at : Z; mu_expires_at : option Z }.

Record ConvRow := MkConv {
  our_pubkey : bytes;
  their_pubkey : bytes;
  last_message_at : option Z;
  unread_count : Z;
  is_request : bool;
  conv_created_at : Z
}.

Record MsgRow := MkMsg {
  m_conversation : bytes;
  m_sender : bytes;
  m_received_at : Z;
  m_expires_at : Z;
  m_is_read : bool;
  m_preview : option str;
  m_has_media : bool;
  m_encrypted_body : option bytes;
  m_is_encrypted : bool
}.

Record ReqRow := MkReq { rq_status : string; rq_created_at : Z }.

Record DropRow := MkDrop {
  dd_mailbox : bytes;
  dd_sealed : bytes;
  dd_deposited_at : Z;
  dd_expires_at : Z
}.

(** Keys: connections by (local, remote), blocks and mutes by (owner,
    target), requests by (sender, recipient). *)
Record MetadataDb := MkDb {
  connections : gmap (bytes * bytes) ConnRow;
  blocks : gmap (bytes * bytes) BlockRow;
  mutes : gmap (bytes * bytes) MuteRow;
  conversations : gmap bytes ConvRow;
  messages : gmap bytes MsgRow;
  message_requests : gmap (bytes * bytes) ReqRow;
  dead_drops : gmap bytes DropRow
}.

Definition empty_db : MetadataDb := MkDb ∅ ∅ ∅ ∅ ∅ ∅ ∅.

Definition with_connections t d := MkDb t (blocks d) (mutes d) (conversations d) (messages d) (message_requests d) (dead_drops d).
Definition with_blocks t d := MkDb (connections d) t (mutes d) (conversations d) (messages d) (message_requests d) (dead_drops d).
Definition with_mutes t d := MkDb (connections d) (blocks d) t (conversations d) (messages d) (message_requests d) (dead_drops d).
Definition with_conversations t d := MkDb (connections d) (blocks d) (mutes d) t (messages d) (message_requests d) (dead_drops d).
Definition with_messages t d := MkDb (connections d) (blocks d) (mutes d) (conversations d) t (message_requests d) (dead_drops d).
Definition with_message_requests t d := MkDb (connections d) (blocks d) (mutes d) (conversations d) (messages d) t (dead_drops d).
Definition with_dead_drops t d := MkDb (connections d) (blocks d) (mutes d) (conversations d) (messages d) (message_requests d) t.

(** A table update as a statement that cannot fail. *)
Definition exec {E} (f : MetadataDb → MetadataDb) : SE MetadataDb E unit := se_modify f.

(** [rusqlite] binds a [u64] only when it fits an [i64]. *)
Definition sql_u64 (n : N) : result MessageError Z :=
  if (n <? 2 ^ 63)%N then Ok (Z.of_N n) else Err (Database "out of range integral type conversion attempted").

(** [INSERT (OR IGNORE) INTO messages], with its primary key and its
    reference to [conversations]; returns the number of rows. *)
Definition insert_message (or_ignore : bool) (id : bytes) (row : MsgRow) : SE MetadataDb MessageError nat := λ d,
  match messages d !! id with
  | Some _ =>
      if or_ignore then (d, Ok 0)
      else (d, Err (Database "UNIQUE constraint failed: messages.message_id"))
  | None =>
      match conversations d !! m_conversation row with
      | None => (d, Err (Database "FOREIGN KEY constraint failed"))
      | Some _ => (with_messages (<[id := row]> (messages d)) d, Ok 1)
      end
  end.

(** [INSERT OR IGNORE INTO dead_drops]. *)
Definition insert_drop (id : bytes) (row : DropRow) : SE MetadataDb MessageError unit :=
  exec (λ d, with_dead_drops (insert_or_ignore id row (dead_drops d)) d).
