(* ===== verification/Messages.v ===== *)
(** * Direct messages: [crates/ephemera-message/src]

    Conversation lists ([conversation.rs]), message requests ([request.rs]),
    sealed-sender envelopes ([sealed.rs]), dead drops ([dead_drop.rs]) and
    the message service over the database ([service.rs],
    [service_extra.rs]).  Every clock reading is an argument, in the order
    the code reads the clock; JSON is the parameter [SealedJson]. *)
From S2P Require Import Prelude Types Crypto Unicode Ratchet Tables Metadata.

(* ------------------------------------------------------------------ *)
(** ** Conversation list *)

Module Conversations.

Definition u32_max : N := 2 ^ 32 - 1.

Record Conversation := MkConversation {
  peer_id : bytes;
  last_message_at : N;
  unread_count : N
}.

Definition new (peer : bytes) (at_ : N) : Conversation := MkConversation peer at_ 0.
Definition record_incoming (t : N) (c : Conversation) : Conversation :=
  MkConversation (peer_id c) t (N.min (unread_count c + 1) u32_max).
Definition record_outgoing (t : N) (c : Conversation) : Conversation :=
  MkConversation (peer_id c) t (unread_count c).
Definition mark_read (c : Conversation) : Conversation :=
  MkConversation (peer_id c) (last_message_at c) 0.

Abbreviation ConversationList := (list Conversation).

Definition is_peer (p : bytes) (c : Conversation) : bool := bool_decide (peer_id c = p).

Definition get (p : bytes) (l : ConversationList) : option Conversation :=
  snd <$> list_find (λ c, is_peer p c = true) l.

(** [get_mut] followed by an update through the reference. *)
Fixpoint update_first (p : bytes) (f : Conversation → Conversation) (l : ConversationList) :
    option ConversationList :=
  match l with
  | [] => None
  | c :: l' => if is_peer p c then Some (f c :: l') else (c ::.) <$> update_first p f l'
  end.

Definition newer (a b : Conversation) : bool := (last_message_at b <=? last_message_at a)%N.
Definition sort (l : ConversationList) : ConversationList := stable_sort newer l.

Definition upsert_incoming (p : bytes) (t : N) (l : ConversationList) : ConversationList :=
  sort match update_first p (record_incoming t) l with
       | Some l' => l'
       | None => l ++ [MkConversation p t 1]
       end.

Definition upsert_outgoing (p : bytes) (t : N) (l : ConversationList) : ConversationList :=
  sort match update_first p (record_outgoing t) l with
       | Some l' => l'
       | None => l ++ [new p t]
       end.

(** [mark_read] through the reference [get_mut] returns. *)
Definition read_peer (p : bytes) (l : ConversationList) : ConversationList :=
  default l (update_first p mark_read l).

Definition remove (p : bytes) (l : ConversationList) : ConversationList :=
  filter (λ c, is_peer p c = false) l.

Inductive op :=
| Incoming (p : bytes) (t : N)
| Outgoing (p : bytes) (t : N)
| Read (p : bytes)
| Remove (p : bytes).

Definition step (l : ConversationList) (o : op) : ConversationList :=
  match o with
  | Incoming p t => upsert_incoming p t l
  | Outgoing p t => upsert_outgoing p t l
  | Read p => read_peer p l
  | Remove p => remove p l
  end.

(** What the list stands for: a map from peer to last activity and unread
    count. *)
Abbreviation spec := (gmap bytes (N * N)).
Definition spec_step (s : spec) (o : op) : spec :=
  match o with
  | Incoming p t => <[p := (t, match s !! p with Some (_, n) => N.min (n + 1) u32_max | None => 1 end)%N]> s
  | Outgoing p t => <[p := (t, match s !! p with Some (_, n) => n | None => 0 end)%N]> s
  | Read p => alter (λ e, (e.1, 0%N)) p s
  | Remove p => delete p s
  end.
Definition entry (c : Conversation) : bytes * (N * N) := (peer_id c, (last_message_at c, unread_count c)).
Definition abstract (l : ConversationList) : spec := list_to_map (entry <$> l).
Definition list_ok (l : ConversationList) : Prop :=
  NoDup (peer_id <$> l) ∧ StronglySorted (λ a b, newer a b = true) l.

Lemma newer_total a b : newer a b = true ∨ newer b a = true.
Proof. unfold newer. rewrite !N.leb_le. lia. Qed.
Lemma newer_trans a b c : newer a b = true → newer b c = true → newer a c = true.
Proof. unfold newer. rewrite !N.leb_le. lia. Qed.

Lemma sort_ok l : NoDup (peer_id <$> l) → list_ok (sort l) ∧ abstract (sort l) = abstract l.
Proof.
  intros Hnd. pose proof (stable_sort_perm newer l) as Hp. split; [split|].
  - unfold sort. by rewrite Hp.
  - apply stable_sort_sorted; [apply newer_total|apply newer_trans].
  - unfold abstract, sort. symmetry. apply list_to_map_proper; [|by rewrite Hp].
    rewrite <- list_fmap_compose. exact Hnd.
Qed.

Lemma abstract_cons c l : abstract (c :: l) = <[peer_id c := (entry c).2]> (abstract l).
Proof. done. Qed.

(** Updating the first entry of a peer is updating its map entry. *)
Lemma update_first_spec p f l :
  (∀ c, peer_id (f c) = peer_id c) → NoDup (peer_id <$> l) →
  match update_first p f l with
  | Some l' => ∃ c, c ∈ l ∧ peer_id c = p ∧ abstract l !! p = Some (entry c).2 ∧
                 peer_id <$> l' = peer_id <$> l ∧ abstract l' = <[p := (entry (f c)).2]> (abstract l)
  | None => abstract l !! p = None
  end.
Proof.
  intros Hf. induction l as [|c l IH]; cbn [update_first]; intros Hnd.
  - apply lookup_empty.
  - cbn [fmap list_fmap] in Hnd. apply NoDup_cons in Hnd as [Hni Hnd].
    destruct (is_peer p c) eqn:E.
    + unfold is_peer in E. apply bool_decide_eq_true in E as <-. rewrite !abstract_cons.
      exists c. split_and!; [apply elem_of_cons; by left|done|by rewrite lookup_insert_eq|by cbn; rewrite Hf|].
      by rewrite Hf, insert_insert_eq.
    + unfold is_peer in E. apply bool_decide_eq_false in E. specialize (IH Hnd). rewrite abstract_cons.
      destruct (update_first p f l) as [l'|]; simpl.
      * destruct IH as (d & Hd & <- & Hl & Hids & Ha). exists d.
        split_and!; [apply elem_of_cons; by right|done|by rewrite lookup_insert_ne|exact (f_equal (cons (peer_id c)) Hids)|].
        rewrite abstract_cons, Ha. by apply insert_insert_ne.
      * by rewrite lookup_insert_ne.
Qed.

Lemma abstract_app l c :
  c.(peer_id) ∉ (peer_id <$> l) → abstract (l ++ [c]) = <[peer_id c := (entry c).2]> (abstract l).
Proof.
  intros Hni. unfold abstract. rewrite fmap_app. cbn [fmap list_fmap].
  rewrite (list_to_map_snoc (entry <$> l) (peer_id c) (last_message_at c, unread_count c)); [done|].
  rewrite <- list_fmap_compose. exact Hni.
Qed.

Lemma abstract_None p l : abstract l !! p = None → p ∉ (peer_id <$> l).
Proof.
  unfold abstract. intros H%not_elem_of_list_to_map_2. rewrite <- list_fmap_compose in H. exact H.
Qed.

(** Both upserts are one insertion in the map. *)
Lemma upsert_ok p (f : Conversation → Conversation) (c0 : Conversation) l :
  (∀ c, peer_id (f c) = peer_id c) → peer_id c0 = p → list_ok l →
  let l' := sort match update_first p f l with Some l' => l' | None => l ++ [c0] end in
  list_ok l' ∧
  ∃ e, abstract l' = <[p := e]> (abstract l) ∧
       match abstract l !! p with
       | Some old => e = (entry (f (MkConversation p old.1 old.2))).2
       | None => e = (entry c0).2
       end.
Proof.
  intros Hf Hc0 [Hnd _]. pose proof (update_first_spec p f l Hf Hnd) as Hu. cbv zeta.
  destruct (update_first p f l) as [l1|].
  - destruct Hu as (c & Hin & <- & Hl & Hids & Ha). destruct (sort_ok l1) as [Hok Hs]; [by rewrite Hids|].
    split; [done|]. exists (entry (f c)).2. rewrite Hs, Ha, Hl. split; [done|]. by destruct c.
  - pose proof (abstract_None p l Hu) as Hni. destruct (sort_ok (l ++ [c0])) as [Hok Hs].
    { rewrite fmap_app. apply NoDup_app. split_and!; [done| |apply NoDup_singleton].
      intros x Hx Hx'. cbn in Hx'. apply list_elem_of_singleton in Hx' as ->. by rewrite Hc0 in Hx. }
    split; [done|]. exists (entry c0).2. rewrite Hs, abstract_app, Hc0, Hu by (by rewrite Hc0). done.
Qed.

Lemma remove_ok p l : list_ok l → list_ok (remove p l) ∧ abstract (remove p l) = delete p (abstract l).
Proof.
  intros [Hnd Hs]. split; [split|].
  - unfold remove. clear Hs. induction l as [|c l IH]; [constructor|].
    cbn [fmap list_fmap] in Hnd. apply NoDup_cons in Hnd as [Hni Hnd]. rewrite filter_cons.
    destruct (decide _); [|auto]. cbn [fmap list_fmap]. constructor; [|auto].
    intros (d & He & Hd)%list_elem_of_fmap. apply Hni. apply list_elem_of_fmap. exists d.
    split; [done|]. by apply list_elem_of_filter in Hd as [_ Hd].
  - unfold remove. induction Hs as [|c l Hs IH Hall]; [constructor|]. rewrite filter_cons.
    cbn [fmap list_fmap] in Hnd. apply NoDup_cons in Hnd as [_ Hnd].
    destruct (decide _); [|auto]. constructor; [auto|]. rewrite Forall_forall in *.
    intros d Hd. apply Hall. by apply list_elem_of_filter in Hd as [_ Hd].
  - unfold remove. clear Hs. induction l as [|c l IH]; [symmetry; apply delete_empty|].
    cbn [fmap list_fmap] in Hnd. apply NoDup_cons in Hnd as [Hni Hnd]. rewrite filter_cons, abstract_cons.
    destruct (decide _) as [E|E]; unfold is_peer in E.
    + rewrite abstract_cons, IH by done. apply bool_decide_eq_false in E.
      by rewrite delete_insert_ne.
    + rewrite IH by done. destruct (bool_decide _) eqn:Eb; [|done]. apply bool_decide_eq_true in Eb as <-.
      by rewrite delete_insert_eq.
Qed.

Lemma read_ok p l :
  list_ok l → list_ok (read_peer p l) ∧ abstract (read_peer p l) = alter (λ e, (e.1, 0%N)) p (abstract l).
Proof.
  intros [Hnd Hs]. unfold read_peer.
  pose proof (update_first_spec p mark_read l (λ _, eq_refl) Hnd) as Hu.
  assert (Hsort : ∀ l', update_first p mark_read l = Some l' → last_message_at <$> l' = last_message_at <$> l).
  { clear. induction l as [|c l IH]; intros l'; cbn [update_first]; [done|].
    destruct (is_peer p c); [intros [= <-]; done|].
    destruct (update_first p mark_read l) as [l1|] eqn:E; simpl; [|done]. intros [= <-].
    cbn [fmap list_fmap]. f_equal. by apply IH. }
  destruct (update_first p mark_read l) as [l'|]; simpl.
  - destruct Hu as (c & Hin & <- & Hl & Hids & Ha). split; [split; [by rewrite Hids|]|].
    + specialize (Hsort l' eq_refl).
      assert (Hss : StronglySorted (λ a b : N, (b <=? a)%N = true) (last_message_at <$> l)).
      { clear -Hs. induction Hs as [|d l Hs IH Hall]; cbn [fmap list_fmap]; constructor; [done|].
        by apply Forall_fmap. }
      rewrite <- Hsort in Hss. clear -Hss. induction l' as [|d l IH]; [constructor|].
      cbn [fmap list_fmap] in Hss. apply StronglySorted_inv in Hss as [H1 H2].
      constructor; [auto|]. by apply Forall_fmap in H2.
    + rewrite Ha. apply map_eq. intros q. destruct (decide (peer_id c = q)) as [<-|].
      * by rewrite lookup_insert_eq, lookup_alter_eq, Hl.
      * by rewrite lookup_insert_ne, lookup_alter_ne.
  - split; [done|]. apply map_eq. intros q. destruct (decide (p = q)) as [<-|].
    + by rewrite lookup_alter_eq, Hu.
    + by rewrite lookup_alter_ne.
Qed.

Lemma get_spec p l :
  NoDup (peer_id <$> l) → get p l = (λ e, MkConversation p e.1 e.2) <$> abstract l !! p.
Proof.
  unfold get. induction l as [|c l IH]; intros Hnd; [by cbn; rewrite lookup_empty|].
  cbn [fmap list_fmap] in Hnd. apply NoDup_cons in Hnd as [_ Hnd]. cbn [list_find]. rewrite abstract_cons.
  destruct (decide (is_peer p c = true)) as [E|E]; unfold is_peer in E.
  - bprop. subst p. rewrite lookup_insert_eq. by destruct c.
  - rewrite lookup_insert_ne by (intros <-; apply E; by apply bool_decide_eq_true).
    rewrite <- IH by done. by destruct (list_find _ l) as [[]|].
Qed.

Lemma step_refines l o : list_ok l → list_ok (step l o) ∧ abstract (step l o) = spec_step (abstract l) o.
Proof.
  intros Hl. destruct o as [p t|p t|p|p]; cbn [step spec_step]; unfold upsert_incoming, upsert_outgoing.
  - destruct (upsert_ok p (record_incoming t) (MkConversation p t 1) l (λ _, eq_refl) eq_refl Hl)
      as (Hok & e & -> & He). split; [done|]. destruct (abstract l !! p) as [[]|]; by rewrite He.
  - destruct (upsert_ok p (record_outgoing t) (new p t) l (λ _, eq_refl) eq_refl Hl)
      as (Hok & e & -> & He). split; [done|]. destruct (abstract l !! p) as [[]|]; by rewrite He.
  - by apply read_ok.
  - by apply remove_ok.
Qed.

(** C18. The conversation list implements a map from peer to last activity and
    unread count: after any sequence of incoming and outgoing messages, reads
    and removals it holds each peer once, in order of most recent activity,
    its entries are those of the map updated by the same sequence, and [get]
    answers as the map does. *)
Theorem conversation_list_refines (ops : list op) :
  let l := foldl step [] ops in
  list_ok l ∧ abstract l = foldl spec_step ∅ ops ∧
  ∀ p, get p l = (λ e, MkConversation p e.1 e.2) <$> foldl spec_step ∅ ops !! p.
Proof.
  intros l. assert (H : list_ok l ∧ abstract l = foldl spec_step ∅ ops).
  { subst l. induction ops as [|o ops IH] using rev_ind.
    - split; [split; constructor|done].
    - rewrite !foldl_snoc. destruct IH as [Hok <-]. by apply step_refines. }
  destruct H as [Hok Ha]. split_and!; [done..|]. intros p. rewrite get_spec by apply Hok. by rewrite Ha.
Qed.
End Conversations.

(* ------------------------------------------------------------------ *)
(** ** Message requests *)

Module Request.

Definition MAX_INTRO_LENGTH : nat := 280.

Inductive MessageRequestStatus := Pending | Accepted | Rejected.
#[global] Instance status_eq_dec : EqDecision MessageRequestStatus.
Proof. solve_decision. Defined.
(** The derived [Debug]. *)
Definition status_debug (s : MessageRequestStatus) : string :=
  match s with Pending => "Pending" | Accepted => "Accepted" | Rejected => "Rejected" end.

Record MessageRequest := MkRequest {
  sender : bytes;
  recipient : bytes;
  intro_message : option str;
  created_at : N;
  status : MessageRequestStatus
}.

Definition new (now : N) (sender recipient : bytes) (intro : option str) : result MessageError MessageRequest :=
  match intro with
  | Some msg =>
      if (MAX_INTRO_LENGTH <? length msg)
      then Err (BodyTooLarge (N.of_nat (length msg)) (N.of_nat MAX_INTRO_LENGTH))
      else Ok (MkRequest sender recipient intro now Pending)
  | None => Ok (MkRequest sender recipient intro now Pending)
  end.

Definition set_status (to : MessageRequestStatus) : SE MessageRequest MessageError unit := λ r,
  if negb (bool_decide (status r = Pending)) then (r, Err (InvalidRequestState "Pending" (status_debug (status r))))
  else (MkRequest (sender r) (recipient r) (intro_message r) (created_at r) to, Ok tt).
Definition accept : SE MessageRequest MessageError unit := set_status Accepted.
Definition reject : SE MessageRequest MessageError unit := set_status Rejected.
Definition is_accepted (r : MessageRequest) : bool := bool_decide (status r = Accepted).
Definition is_pending (r : MessageRequest) : bool := bool_decide (status r = Pending).
End Request.

(* ------------------------------------------------------------------ *)
(** ** Sealed-sender envelopes *)

Module Sealed.

Definition MAX_SEALED_WIRE_SIZE : nat := 32768.

Record SealedPayload := MkPayload { sender : bytes; body : bytes }.

Record SealedEnvelope := MkEnvelope {
  recipient : bytes;
  ciphertext : bytes;
  timestamp : N;
  ttl : Ttl
}.

(** Third-party JSON of the two structures; parsing inverts printing. *)
Class SealedJson := {
  payload_to_vec : SealedPayload → result string bytes;
  payload_from_slice : bytes → result string SealedPayload;
  envelope_to_vec : SealedEnvelope → result string bytes;
  envelope_from_slice : bytes → result string SealedEnvelope
}.
Class SealedJsonLaws `{SealedJson} : Prop := {
  payload_parse p b : payload_to_vec p = Ok b → payload_from_slice b = Ok p;
  envelope_parse e b : envelope_to_vec e = Ok b → envelope_from_slice b = Ok e
}.

Section sealed.
Context `{Primitives, SealedJson}.

Definition seal (fresh nonce : bytes) (now : N) (sender recipient recipient_x25519 body : bytes) (ttl : Ttl) :
    result MessageError SealedEnvelope :=
  let? payload_bytes := map_err Deserialization (payload_to_vec (MkPayload sender body)) in
  if (MAX_SEALED_WIRE_SIZE <? length payload_bytes) then
    Err (BodyTooLarge (N.of_nat (length payload_bytes)) (N.of_nat MAX_SEALED_WIRE_SIZE))
  else
    let? ciphertext := MessageEncryption.encrypt_message fresh nonce payload_bytes recipient_x25519 in
    Ok (MkEnvelope recipient ciphertext now ttl).

Definition open (our_secret : bytes) (e : SealedEnvelope) : result MessageError SealedPayload :=
  let? plaintext := MessageEncryption.decrypt_message (ciphertext e) our_secret in
  map_err Deserialization (payload_from_slice plaintext).

Definition sender_is_visible (sender : bytes) (e : SealedEnvelope) : bool :=
  if bool_decide (recipient e = sender) then false else false.

Definition validate (e : SealedEnvelope) : result MessageError unit :=
  if (MAX_SEALED_WIRE_SIZE <? length (ciphertext e)) then
    Err (BodyTooLarge (N.of_nat (length (ciphertext e))) (N.of_nat MAX_SEALED_WIRE_SIZE))
  else Ok tt.

Definition is_expired (now : N) (e : SealedEnvelope) : bool :=
  (add64 (timestamp e) (ttl_secs (ttl e)) <? now)%N.
End sealed.
End Sealed.
Import Sealed.

(* ------------------------------------------------------------------ *)
(** ** The message service *)

Module Service.
Section service.
Context `{Primitives, SealedJson}.

Definition MAX_MESSAGE_TTL_SECS : N := 30 * 24 * 60 * 60.

Record StoredMessage := MkStored {
  id : bytes;
  conversation_id : bytes;
  sender_pubkey : bytes;
  received_at : Z;
  expires_at : Z;
  body_preview : option str;
  is_read : bool;
  encrypted_body : option bytes;
  is_encrypted : bool
}.

Record ConversationSummary := MkSummary {
  cs_conversation_id : bytes;
  cs_our_pubkey : bytes;
  cs_their_pubkey : bytes;
  cs_last_message_at : option Z;
  cs_unread_count : Z;
  cs_is_request : bool
}.

(** *** Helpers ([service_extra.rs]) *)

Definition is_connected (local remote : bytes) (d : MetadataDb) : bool :=
  0 <? count_where (λ k r, bool_decide (k = (local, remote)) && bool_decide (c_status r = "connected"%string))
         (connections d).

Definition request_has (st : string) (recipient sender : bytes) (d : MetadataDb) : bool :=
  0 <? count_where (λ k r, bool_decide (k = (sender, recipient)) && bool_decide (rq_status r = st))
         (message_requests d).
Definition is_request_accepted : bytes → bytes → MetadataDb → bool := request_has "accepted".
Definition is_request_rejected : bytes → bytes → MetadataDb → bool := request_has "rejected".

Definition compute_conversation_id (pubkey_a pubkey_b : bytes) : bytes :=
  blake3_hash (if bytes_leb pubkey_a pubkey_b then pubkey_a ++ pubkey_b else pubkey_b ++ pubkey_a).

Definition get_or_create_conversation (now : N) (our their : bytes) (is_request : bool) :
    SE MetadataDb MessageError bytes :=
  let conversation_id := compute_conversation_id our their in
  let now := as_i64 now in
  let! _ := exec (λ d, with_conversations
                (insert_or_ignore conversation_id (MkConv our their (Some now) 0 is_request now) (conversations d)) d) in
  se_ret conversation_id.

Definition store_message_request (now : N) (sender recipient : bytes) : SE MetadataDb MessageError unit :=
  exec (λ d, with_message_requests
          (insert_or_ignore (sender, recipient) (MkReq "pending" (as_i64 now)) (message_requests d)) d).

(** First hundred characters of a text; none when it is not UTF-8. *)
Definition preview_of (text : bytes) : option str := take 100 <$> from_utf8 text.

Definition touch_conversation (id : bytes) (now : Z) (unread : Z) : MetadataDb → MetadataDb := λ d,
  with_conversations
    (alter (λ c, MkConv (our_pubkey c) (their_pubkey c) (Some now) (unread_count c + unread)
                   (Metadata.is_request c) (conv_created_at c)) id (conversations d)) d.

(** *** Sending and receiving ([service.rs]) *)

Definition send_message (fresh nonce : bytes) (t_seal t_conv now : N)
    (sender recipient recipient_x25519 plaintext : bytes) (ttl : Ttl) :
    SE MetadataDb MessageError (bytes * SealedEnvelope) :=
  if (MAX_MESSAGE_TTL_SECS <? ttl_secs ttl)%N then
    se_lift (Err (MInvalidTtl (InvalidTtl (ttl_secs ttl) MIN_TTL_SECS MAX_MESSAGE_TTL_SECS)))
  else
    let! d := se_get in
    let connected := is_connected sender recipient d in
    let request_accepted := is_request_accepted recipient sender d in
    if negb connected && negb request_accepted then
      se_lift (Err (NotAllowed "no connection or accepted message request with recipient"))
    else
      let! envelope := se_lift (seal fresh nonce t_seal sender recipient recipient_x25519 plaintext ttl) in
      let! conversation_id := get_or_create_conversation t_conv sender recipient false in
      let msg_id := blake3_hash (ciphertext envelope) in
      let now := as_i64 now in
      let expires_at := add_i64 now (as_i64 (ttl_secs ttl)) in
      let! _ := insert_message false msg_id
                  (MkMsg conversation_id sender now expires_at true (preview_of plaintext) false None false) in
      let! _ := exec (touch_conversation conversation_id now 0) in
      se_ret (conversation_id, envelope).

Definition receive_message (t_check t_conv now t_request : N) (envelope : SealedEnvelope)
    (our_identity our_x25519_secret : bytes) : SE MetadataDb MessageError SealedPayload :=
  if is_expired t_check envelope then se_lift (Err Expired)
  else
    let! payload := se_lift (open our_x25519_secret envelope) in
    let sender_bytes := sender payload in
    let! d := se_get in
    let connected := is_connected our_identity sender_bytes d in
    let request_accepted := is_request_accepted our_identity sender_bytes d in
    let is_request := negb connected && negb request_accepted in
    if is_request && is_request_rejected our_identity sender_bytes d then
      se_lift (Err (NotAllowed "message request was rejected"))
    else
      let! conversation_id := get_or_create_conversation t_conv our_identity sender_bytes is_request in
      let msg_id := blake3_hash (ciphertext envelope) in
      let now := as_i64 now in
      let expires_at := add_i64 (as_i64 (timestamp envelope)) (as_i64 (ttl_secs (ttl envelope))) in
      let! _ := insert_message true msg_id
                  (MkMsg conversation_id sender_bytes now expires_at false (preview_of (body payload)) false
                     None false) in
      let! _ := exec (touch_conversation conversation_id now 1) in
      let! _ := if is_request then store_message_request t_request sender_bytes our_identity else se_ret tt in
      se_ret payload.

(** *** Requests ([service_extra.rs]) *)

(** The [UPDATE] of a pending request: the number of rows it changed. *)
Definition decide_request (st : string) (our sender : bytes) : SE MetadataDb MessageError nat := λ d,
  match message_requests d !! (sender, our) with
  | Some r =>
      if bool_decide (rq_status r = "pending"%string)
      then (with_message_requests (<[(sender, our) := MkReq st (rq_created_at r)]> (message_requests d)) d, Ok 1)
      else (d, Ok 0)
  | None => (d, Ok 0)
  end.

Definition accept_request (our sender : bytes) : SE MetadataDb MessageError unit :=
  let! updated := decide_request "accepted" our sender in
  if updated =? 0 then se_lift (Err (InvalidRequestState "Pending" "no matching request found"))
  else exec (λ d, with_conversations
         (update_where (λ _ c, bool_decide (our_pubkey c = our) && bool_decide (their_pubkey c = sender))
            (λ c, MkConv (our_pubkey c) (their_pubkey c) (last_message_at c) (unread_count c) false
                    (conv_created_at c)) (conversations d)) d).

Definition reject_request (our sender : bytes) : SE MetadataDb MessageError unit :=
  let! updated := decide_request "rejected" our sender in
  if updated =? 0 then se_lift (Err (InvalidRequestState "Pending" "no matching request found"))
  else se_ret tt.

(** *** Queries *)

(** Descending order on nullable integers: [NULL] is the least value. *)
Definition desc_opt (a b : option Z) : bool :=
  match a, b with
  | _, None => true
  | None, Some _ => false
  | Some x, Some y => (y <=? x)%Z
  end.

(** Rows of equal rank come in an unspecified order; here, in key order. *)
Definition list_conversations (our : bytes) (d : MetadataDb) : list ConversationSummary :=
  (λ kc, MkSummary kc.1 (our_pubkey kc.2) (their_pubkey kc.2) (last_message_at kc.2) (unread_count kc.2)
           (Metadata.is_request kc.2)) <$>
  stable_sort (λ a b, desc_opt (last_message_at a.2) (last_message_at b.2))
    (select_where (λ _ c, bool_decide (our_pubkey c = our)) (conversations d)).

Definition i64_max : Z := 2 ^ 63 - 1.

Definition get_messages (conv : bytes) (before : option Z) (limit : nat) (d : MetadataDb) : list StoredMessage :=
  let before_val := default i64_max before in
  (λ km, MkStored km.1 (m_conversation km.2) (m_sender km.2) (m_received_at km.2) (m_expires_at km.2)
           (m_preview km.2) (m_is_read km.2) (m_encrypted_body km.2) (m_is_encrypted km.2)) <$>
  take limit
    (stable_sort (λ a b, m_received_at b.2 <=? m_received_at a.2)%Z
       (select_where (λ _ m, bool_decide (m_conversation m = conv) && (m_received_at m <? before_val)%Z)
          (messages d))).

(** *** Garbage collection *)

Definition gc_expired_messages (now : N) : SE MetadataDb MessageError nat := λ d,
  let now_secs := as_i64 now in
  let expired := λ (_ : bytes) m, (m_expires_at m <? now_secs)%Z in
  let deleted := count_where expired (messages d) in
  let msgs := delete_where expired (messages d) in
  let convs := delete_where (λ c _, negb (0 <? count_where (λ _ m, bool_decide (m_conversation m = c)) msgs))
                 (conversations d) in
  (with_conversations convs (with_messages msgs d), Ok deleted).

(* ------------------------------------------------------------------ *)
(** *** Lemmas *)

Lemma is_connected_lookup local remote d :
  is_connected local remote d =
    match connections d !! (local, remote) with Some r => bool_decide (c_status r = "connected"%string) | None => false end.
Proof. unfold is_connected. by apply (count_where_key (local, remote) (λ r, bool_decide (c_status r = "connected"%string))). Qed.

Lemma request_has_lookup st recipient sender d :
  request_has st recipient sender d =
    match message_requests d !! (sender, recipient) with Some r => bool_decide (rq_status r = st) | None => false end.
Proof. unfold request_has. by apply (count_where_key (sender, recipient) (λ r, bool_decide (rq_status r = st))). Qed.

Lemma conversation_id_comm a b : compute_conversation_id a b = compute_conversation_id b a.
Proof.
  unfold compute_conversation_id. f_equal.
  destruct (bytes_leb a b) eqn:E1, (bytes_leb b a) eqn:E2; try done.
  - by rewrite (bytes_leb_antisym _ _ E1 E2).
  - destruct (bytes_leb_total a b); congruence.
Qed.

(** The gate of a sender at a recipient. *)
Definition admitted (our s : bytes) (d : MetadataDb) : bool :=
  is_connected our s d || is_request_accepted our s d.

(** A conversation row is made unless it exists, the message is stored unless
    its id is taken, and the conversation is touched. *)
Definition fresh_conv (our their : bytes) (req : bool) (t : N) : ConvRow :=
  MkConv our their (Some (as_i64 t)) 0 req (as_i64 t).
Definition stored (our their : bytes) (req : bool) (t : N) (i : bytes) (row : MsgRow) (now k : Z) (d : MetadataDb) :
    MetadataDb :=
  let c := compute_conversation_id our their in
  touch_conversation c now k
    (with_messages (insert_or_ignore i row (messages d))
       (with_conversations (insert_or_ignore c (fresh_conv our their req t) (conversations d)) d)).

Lemma store_run {B} (k' : bytes → SE MetadataDb MessageError B) our their req t ig i row now k d :
  m_conversation row = compute_conversation_id our their →
  (ig = true ∨ messages d !! i = None) →
  (let! c := get_or_create_conversation t our their req in
   let! _ := insert_message ig i row in
   let! _ := exec (touch_conversation c now k) in
   k' c) d = k' (compute_conversation_id our their) (stored our their req t i row now k d).
Proof.
  intros Hc Hig. unfold get_or_create_conversation, se_bind, exec, se_modify, se_ret, insert_message, stored.
  cbn [fst snd with_conversations messages conversations]. rewrite Hc.
  destruct (insert_or_ignore_is_Some (compute_conversation_id our their) (fresh_conv our their req t)
              (conversations d)) as [x Hx]. unfold fresh_conv in *. rewrite Hx.
  destruct (messages d !! i) as [m|] eqn:Em.
  - destruct Hig as [->|]; [|done]. unfold with_messages, with_conversations. cbn.
    by rewrite (insert_or_ignore_present i row (messages d)) by eauto.
  - by rewrite (insert_or_ignore_fresh i row (messages d)) by done.
Qed.

Lemma store_clash {B} (k' : bytes → unit → SE MetadataDb MessageError B) our their req t i row now k d m :
  messages d !! i = Some m →
  (let! c := get_or_create_conversation t our their req in
   let! _ := insert_message false i row in
   let! u := exec (touch_conversation c now k) in
   k' c u) d =
  (with_conversations (insert_or_ignore (compute_conversation_id our their) (fresh_conv our their req t)
     (conversations d)) d,
   Err (Database "UNIQUE constraint failed: messages.message_id")).
Proof.
  intros Hm. unfold get_or_create_conversation, se_bind, exec, se_modify, se_ret, insert_message.
  cbn [fst snd with_conversations messages conversations]. by rewrite Hm.
Qed.

Definition received_row (conv : bytes) (now : N) (e : SealedEnvelope) (p : SealedPayload) : MsgRow :=
  MkMsg conv (sender p) (as_i64 now) (add_i64 (as_i64 (timestamp e)) (as_i64 (ttl_secs (ttl e)))) false
    (preview_of (body p)) false None false.

Definition note_request (req : bool) (t : N) (s our : bytes) (d : MetadataDb) : MetadataDb :=
  if req then with_message_requests (insert_or_ignore (s, our) (MkReq "pending" (as_i64 t)) (message_requests d)) d
  else d.

(** Every branch of [receive_message]. *)
Lemma receive_message_eq t1 t2 t3 t4 e our sk d :
  receive_message t1 t2 t3 t4 e our sk d =
    if is_expired t1 e then (d, Err Expired)
    else match open sk e with
    | Err err => (d, Err err)
    | Ok p =>
        let req := negb (admitted our (sender p) d) in
        if req && is_request_rejected our (sender p) d
        then (d, Err (NotAllowed "message request was rejected"))
        else (note_request req t4 (sender p) our
                (stored our (sender p) req t2 (blake3_hash (ciphertext e))
                   (received_row (compute_conversation_id our (sender p)) t3 e p) (as_i64 t3) 1 d), Ok p)
    end.
Proof.
  unfold receive_message. destruct (is_expired t1 e); [done|].
  unfold se_bind at 1, se_lift at 1. destruct (open sk e) as [p|err]; [|done].
  unfold se_bind at 1, se_get at 1. cbv zeta. unfold admitted. rewrite negb_orb.
  destruct (negb _ && negb _ && _); [done|].
  assert (Hk : ∀ req, (let! conversation_id := get_or_create_conversation t2 our (sender p) req in
     let! _ := insert_message true (blake3_hash (ciphertext e))
       (received_row conversation_id t3 e p) in
     let! _ := exec (touch_conversation conversation_id (as_i64 t3) 1) in
     let! _ := if req then store_message_request t4 (sender p) our else se_ret tt in se_ret p) d =
    (note_request req t4 (sender p) our (stored our (sender p) req t2 (blake3_hash (ciphertext e))
      (received_row (compute_conversation_id our (sender p)) t3 e p) (as_i64 t3) 1 d), Ok p)); [|apply Hk].
  intros req.
  etransitivity.
  - apply (store_run (λ _, let! _ := if req then store_message_request t4 (sender p) our else se_ret tt in se_ret p)
      our (sender p) req t2 true _ (received_row (compute_conversation_id our (sender p)) t3 e p)); auto.
  - by destruct req.
Qed.

Definition may_send (from to : bytes) (d : MetadataDb) : bool :=
  is_connected from to d || is_request_accepted to from d.
Definition sent_row (conv : bytes) (now : N) (sender text : bytes) (t : Ttl) : MsgRow :=
  MkMsg conv sender (as_i64 now) (add_i64 (as_i64 now) (as_i64 (ttl_secs t))) true (preview_of text) false None false.

(** Every branch of [send_message]. *)
Lemma send_message_eq fresh nonce t1 t2 t3 from to pk text t d :
  send_message fresh nonce t1 t2 t3 from to pk text t d =
    if (MAX_MESSAGE_TTL_SECS <? ttl_secs t)%N
    then (d, Err (MInvalidTtl (InvalidTtl (ttl_secs t) MIN_TTL_SECS MAX_MESSAGE_TTL_SECS)))
    else if negb (may_send from to d)
    then (d, Err (NotAllowed "no connection or accepted message request with recipient"))
    else match seal fresh nonce t1 from to pk text t with
    | Err err => (d, Err err)
    | Ok e =>
        let i := blake3_hash (ciphertext e) in
        let c := compute_conversation_id from to in
        match messages d !! i with
        | Some _ => (with_conversations (insert_or_ignore c (fresh_conv from to false t2) (conversations d)) d,
                     Err (Database "UNIQUE constraint failed: messages.message_id"))
        | None => (stored from to false t2 i (sent_row c t3 from text t) (as_i64 t3) 0 d, Ok (c, e))
        end
    end.
Proof.
  unfold send_message. destruct (MAX_MESSAGE_TTL_SECS <? ttl_secs t)%N; [done|].
  unfold se_bind at 1, se_get at 1. cbv zeta. unfold may_send. rewrite negb_orb.
  destruct (negb _ && negb _); [done|].
  unfold se_bind at 1, se_lift at 1. destruct (seal _ _ _ _ _ _ _ _) as [e|err]; [|done].
  destruct (messages d !! blake3_hash (ciphertext e)) as [m|] eqn:Em.
  - by rewrite <- (store_clash (λ c _, se_ret (c, e)) from to false t2 (blake3_hash (ciphertext e))
      (sent_row (compute_conversation_id from to) t3 from text t) (as_i64 t3) 0 d m Em).
  - etransitivity; [apply (store_run (λ c, se_ret (c, e)) from to false t2 false _
      (sent_row (compute_conversation_id from to) t3 from text t)); auto|done].
Qed.

Lemma decide_request_eq st our s d :
  decide_request st our s d =
    if request_has "pending" our s d
    then (with_message_requests (alter (λ r, MkReq st (rq_created_at r)) (s, our) (message_requests d)) d, Ok 1)
    else (d, Ok 0).
Proof.
  unfold decide_request. rewrite request_has_lookup. destruct (message_requests d !! (s, our)) as [r|] eqn:E; [|done].
  destruct (bool_decide _) eqn:Eb; [|done]. do 2 f_equal. apply map_eq. intros k.
  destruct (decide ((s, our) = k)) as [<-|].
  - by rewrite lookup_insert_eq, lookup_alter_eq, E.
  - by rewrite lookup_insert_ne, lookup_alter_ne.
Qed.

(** *** Well-formed message tables *)

Definition unread (c : bytes) (d : MetadataDb) : nat :=
  count_where (λ _ m, bool_decide (m_conversation m = c) && negb (m_is_read m)) (messages d).
Definition statuses : list string := ["pending"; "accepted"; "rejected"]%string.

(** Messages are in conversations that exist; a conversation's key is the
    hash of its parties; it counts at least its unread messages; a request
    has one of three states. *)
Record tables_ok (d : MetadataDb) : Prop := {
  ok_conv i m : messages d !! i = Some m → is_Some (conversations d !! m_conversation m);
  ok_key c r : conversations d !! c = Some r → c = compute_conversation_id (our_pubkey r) (their_pubkey r);
  ok_unread c r : conversations d !! c = Some r → (Z.of_nat (unread c d) ≤ unread_count r)%Z;
  ok_status k r : message_requests d !! k = Some r → rq_status r ∈ statuses
}.

Lemma empty_ok : tables_ok empty_db.
Proof. split; intros *; cbn; rewrite lookup_empty; done. Qed.

Lemma unread_orphan c d : tables_ok d → conversations d !! c = None → unread c d = 0.
Proof.
  intros Hd Hc. destruct (unread c d) eqn:E; [done|]. exfalso.
  assert (0 < unread c d) as (i & m & Hm & Hp)%count_where_pos by lia. bprop. subst c.
  destruct (ok_conv d Hd i m Hm) as [x Hx]. congruence.
Qed.

Lemma unread_insert c i row d d' :
  messages d' = insert_or_ignore i row (messages d) →
  unread c d' ≤ (if bool_decide (m_conversation row = c) && negb (m_is_read row) then 1 else 0) + unread c d.
Proof.
  intros E. unfold unread. rewrite E. unfold insert_or_ignore. destruct (messages d !! i) eqn:Ei; [lia|].
  by rewrite count_where_insert.
Qed.

Lemma stored_ok our their req t i row now k d :
  tables_ok d → m_conversation row = compute_conversation_id our their →
  (0 ≤ k)%Z → (m_is_read row = true ∨ 1 ≤ k)%Z → tables_ok (stored our their req t i row now k d).
Proof.
  intros Hd Hrow Hk0 Hk. set (c := compute_conversation_id our their) in *.
  assert (Hconv : ∀ c' r, conversations (stored our their req t i row now k d) !! c' = Some r →
    ∃ r0, default (fresh_conv our their req t) (conversations d !! c') = r0 ∧
      (c' = c ∨ conversations d !! c' = Some r0) ∧
      our_pubkey r = our_pubkey r0 ∧ their_pubkey r = their_pubkey r0 ∧
      unread_count r = (unread_count r0 + if bool_decide (c' = c) then k else 0)%Z).
  { intros c' r. unfold stored. fold c. cbn. destruct (decide (c' = c)) as [->|Hne].
    - rewrite lookup_alter_eq, lookup_insert_or_ignore, decide_True by done. cbn. intros [= <-].
      eexists. split_and!; [done|by left|done..|]. by rewrite bool_decide_true.
    - rewrite lookup_alter_ne, lookup_insert_or_ignore, decide_False by done. intros Hr. exists r.
      rewrite Hr. split_and!; [done|by right|done..|]. rewrite bool_decide_false by done. lia. }
  split.
  - intros j m. unfold stored. fold c. cbn. rewrite lookup_insert_or_ignore. rewrite lookup_alter_is_Some.
    destruct (decide (i = j)) as [->|].
    + destruct (messages d !! j) as [m0|] eqn:Ej; intros [= <-].
      * apply insert_or_ignore_mono. by eapply ok_conv.
      * rewrite Hrow. apply insert_or_ignore_is_Some.
    + intros Hm. apply insert_or_ignore_mono. by eapply ok_conv.
  - intros c' r Hr. destruct (Hconv c' r Hr) as (r0 & Hr0 & Hwhere & -> & -> & _).
    destruct (conversations d !! c') as [r1|] eqn:E; cbn in Hr0; subst r0.
    + by apply (ok_key d Hd).
    + by destruct Hwhere as [->|].
  - intros c' r Hr. destruct (Hconv c' r Hr) as (r0 & Hr0 & Hwhere & _ & _ & ->).
    pose proof (unread_insert c' i row d (stored our their req t i row now k d) eq_refl) as Hu.
    rewrite Hrow in Hu.
    assert ((Z.of_nat (unread c' d) ≤ unread_count r0)%Z).
    { destruct (conversations d !! c') as [r1|] eqn:E; cbn in Hr0; subst r0.
      - by apply (ok_unread d Hd).
      - rewrite (unread_orphan c' d Hd E). cbn. lia. }
    destruct (decide (c' = c)) as [->|Hne].
    + rewrite bool_decide_true in * by done. destruct (m_is_read row); cbn in Hu; [lia|].
      destruct Hk as [|Hk]; [done|]. lia.
    + rewrite (bool_decide_false (c = c')) in Hu by congruence. rewrite bool_decide_false by done.
      cbn in Hu. lia.
  - intros q r. apply (ok_status d Hd).
Qed.

Lemma requests_ok (f : gmap (bytes * bytes) ReqRow → gmap (bytes * bytes) ReqRow) d :
  tables_ok d → (∀ k r, f (message_requests d) !! k = Some r → rq_status r ∈ statuses) →
  tables_ok (with_message_requests (f (message_requests d)) d).
Proof. intros [H1 H2 H3 _] Hf. by split. Qed.

Lemma create_ok our their req t d :
  tables_ok d →
  tables_ok (with_conversations (insert_or_ignore (compute_conversation_id our their) (fresh_conv our their req t)
    (conversations d)) d).
Proof.
  intros Hd. set (c := compute_conversation_id our their).
  assert (Hl : ∀ c' r, insert_or_ignore c (fresh_conv our their req t) (conversations d) !! c' = Some r →
     conversations d !! c' = Some r ∨ conversations d !! c' = None ∧ c' = c ∧ r = fresh_conv our their req t).
  { intros c' r. rewrite lookup_insert_or_ignore. destruct (decide (c = c')) as [<-|]; [|by left].
    destruct (conversations d !! c); cbn; intros [= <-]; auto. }
  split; cbn.
  - intros i m Hm. apply insert_or_ignore_mono. by apply (ok_conv d Hd i).
  - intros c' r [Hr|(_ & -> & ->)]%Hl; [by apply (ok_key d Hd)|done].
  - intros c' r [Hr|(Hn & -> & ->)]%Hl; [by apply (ok_unread d Hd)|].
    pose proof (unread_orphan c d Hd Hn) as E. unfold unread in *. cbn in *. lia.
  - apply (ok_status d Hd).
Qed.

Lemma send_ok fresh nonce t1 t2 t3 from to pk text t d :
  tables_ok d → tables_ok (send_message fresh nonce t1 t2 t3 from to pk text t d).1.
Proof.
  intros Hd. rewrite send_message_eq. destruct (_ <? _)%N; [done|]. destruct (negb _); [done|].
  destruct (seal _ _ _ _ _ _ _ _) as [e|]; [|done]. cbv zeta. destruct (messages d !! _).
  - by apply create_ok.
  - apply stored_ok; auto; lia.
Qed.

Lemma note_request_ok req t s our d : tables_ok d → tables_ok (note_request req t s our d).
Proof.
  intros Hd. destruct req; [|done].
  apply (requests_ok (insert_or_ignore (s, our) (MkReq "pending" (as_i64 t)))); [done|].
  intros k r. rewrite lookup_insert_or_ignore. destruct (decide _) as [<-|]; [|apply (ok_status d Hd)].
  destruct (message_requests d !! (s, our)) as [r0|] eqn:E; cbn; intros [= <-].
  - by eapply ok_status.
  - apply elem_of_cons. by left.
Qed.

Lemma receive_ok t1 t2 t3 t4 e our sk d :
  tables_ok d → tables_ok (receive_message t1 t2 t3 t4 e our sk d).1.
Proof.
  intros Hd. rewrite receive_message_eq. destruct (is_expired _ _); [done|].
  destruct (open _ _) as [p|]; [|done]. cbv zeta. destruct (negb _ && _); [done|].
  apply note_request_ok, stored_ok; auto; lia.
Qed.

Lemma decide_ok st our s d : st ∈ statuses → tables_ok d → tables_ok (decide_request st our s d).1.
Proof.
  intros Hst Hd. rewrite decide_request_eq. destruct (request_has _ _ _ _); [|done]. cbn.
  apply (requests_ok (alter (λ r, MkReq st (rq_created_at r)) (s, our))); [done|].
  intros k r. rewrite lookup_alter_Some.
  intros [(<- & r0 & _ & ->)|[_ Hr]]; [done|by eapply ok_status].
Qed.

Lemma accept_ok our s d : tables_ok d → tables_ok (accept_request our s d).1.
Proof.
  intros Hd. assert (Hd1 : tables_ok (decide_request "accepted" our s d).1) by (apply decide_ok; [set_solver|done]).
  unfold accept_request, se_bind. destruct (decide_request _ our s d) as [d1 [n|]]; [|done].
  cbn in Hd1. destruct (n =? 0); [done|]. destruct Hd1 as [H1 H2 H3 H4]. split; cbn.
  - intros i m Hm. rewrite lookup_update_where, fmap_is_Some. by eapply H1.
  - intros c r. rewrite lookup_update_where. destruct (conversations d1 !! c) as [r0|] eqn:E; cbn; [|done].
    intros [= <-]. apply H2 in E. by destruct (_ && _).
  - intros c r. rewrite lookup_update_where. destruct (conversations d1 !! c) as [r0|] eqn:E; cbn; [|done].
    intros [= <-]. apply H3 in E. by destruct (_ && _).
  - done.
Qed.

Lemma reject_ok our s d : tables_ok d → tables_ok (reject_request our s d).1.
Proof.
  intros Hd. assert (Hd1 : tables_ok (decide_request "rejected" our s d).1) by (apply decide_ok; [set_solver|done]).
  unfold reject_request, se_bind. destruct (decide_request _ our s d) as [d1 [n|]]; [|done].
  by destruct (n =? 0).
Qed.

Lemma gc_lookup now d c r :
  conversations (gc_expired_messages now d).1 !! c = Some r →
  conversations d !! c = Some r.
Proof. cbn. by intros [? _]%lookup_delete_where. Qed.

Lemma gc_ok now d : tables_ok d → tables_ok (gc_expired_messages now d).1.
Proof.
  intros Hd. split.
  - intros i m Hm. cbn in Hm |- *. pose proof Hm as [Hm0 _]%lookup_delete_where.
    destruct (ok_conv d Hd i m Hm0) as [r Hr]. exists r. apply lookup_delete_where. split; [done|].
    apply negb_false_iff. refine (proj2 (Nat.ltb_lt 0 _) _). apply count_where_pos. exists i, m.
    split; [done|by apply bool_decide_eq_true].
  - intros c r Hr%gc_lookup. by apply (ok_key d Hd).
  - intros c r Hr%gc_lookup. apply (ok_unread d Hd) in Hr.
    assert (unread c (gc_expired_messages now d).1 ≤ unread c d); [|lia].
    unfold unread. apply count_where_le. cbn. intros i m [Hm _]%lookup_delete_where Hp. eauto.
  - apply (ok_status d Hd).
Qed.
End service.
End Service.

(* ------------------------------------------------------------------ *)
(** ** Dead drops *)

Module DeadDrop.
Section dead_drop.
Context `{Primitives, SealedJson, Hex}.

Definition DEAD_DROP_MAX_TTL_SECS : N := 14 * 24 * 60 * 60.

Record DeadDropEnvelope := MkDeadDrop {
  mailbox_key_ : bytes;
  message_id : bytes;
  sealed_data : bytes;
  deposited_at : N;
  expires_at : N
}.

Record PendingMessage := MkPending {
  id : ContentId;
  sealed_envelope : bytes;
  p_deposited_at : N;
  p_expires_at : N
}.

Definition mailbox_key (pubkey : bytes) : ContentId :=
  from_digest (blake3_hash (bstr "ephemera-dead-drop-mailbox-v1" ++ [0%N] ++ pubkey)).

Definition deposit (now : N) (recipient_pubkey : bytes) (sealed : SealedEnvelope) :
    SE MetadataDb MessageError ContentId :=
  let mailbox := mailbox_key recipient_pubkey in
  let! sealed_data := se_lift (map_err Deserialization (envelope_to_vec sealed)) in
  let msg_id := from_digest (blake3_hash sealed_data) in
  let expires_at := add64 now DEAD_DROP_MAX_TTL_SECS in
  let! dep := se_lift (sql_u64 now) in
  let! exp := se_lift (sql_u64 expires_at) in
  let! _ := insert_drop (hash msg_id) (MkDrop (hash mailbox) sealed_data dep exp) in
  se_ret msg_id.

(** A stored id that is not 32 bytes long is read back as zeros. *)
Definition id_of_row (id_bytes : bytes) : ContentId :=
  from_digest (if Nat.eqb (length id_bytes) 32 then id_bytes else replicate 32 0%N).

Definition check_mailbox (now : N) (our_pubkey : bytes) (d : MetadataDb) : list PendingMessage :=
  (λ kr, MkPending (id_of_row kr.1) (dd_sealed kr.2) (as_u64 (dd_deposited_at kr.2)) (as_u64 (dd_expires_at kr.2))) <$>
  stable_sort (λ a b, dd_deposited_at a.2 <=? dd_deposited_at b.2)%Z
    (select_where (λ _ r, bool_decide (dd_mailbox r = hash (mailbox_key our_pubkey)) &&
                          (as_i64 now <? dd_expires_at r)%Z) (dead_drops d)).

Definition acknowledge (message_id : ContentId) : SE MetadataDb MessageError unit := λ d,
  match dead_drops d !! hash message_id with
  | Some _ => (with_dead_drops (delete (hash message_id) (dead_drops d)) d, Ok tt)
  | None => (d, Err (ConversationNotFound ("dead drop message " +:+ show (hex_encode (hash message_id)))))
  end.

Definition gc (now : N) : SE MetadataDb MessageError nat := λ d,
  let expired := λ (_ : bytes) r, (dd_expires_at r <=? as_i64 now)%Z in
  (with_dead_drops (delete_where expired (dead_drops d)) d, Ok (count_where expired (dead_drops d))).

Definition deposit_raw (now : N) (mailbox_key message_id : ContentId) (sealed_data : bytes)
    (deposited_at expires_at : N) : SE MetadataDb MessageError unit :=
  if (expires_at <=? now)%N then se_lift (Err Expired)
  else
    let clamped_expires := N.min expires_at (add64 now DEAD_DROP_MAX_TTL_SECS) in
    let! dep := se_lift (sql_u64 deposited_at) in
    let! exp := se_lift (sql_u64 clamped_expires) in
    insert_drop (hash message_id) (MkDrop (hash mailbox_key) sealed_data dep exp).

Definition mailbox_count (now : N) (pubkey : bytes) (d : MetadataDb) : nat :=
  count_where (λ _ r, bool_decide (dd_mailbox r = hash (mailbox_key pubkey)) && (as_i64 now <? dd_expires_at r)%Z)
    (dead_drops d).
End dead_drop.
End DeadDrop.

(* ------------------------------------------------------------------ *)
(** ** Properties of the service *)

Section service_properties.
Context `{Primitives, SealedJson, Hex}.
Import Service.

(** Everything the crate does to the database of the device of [our]. *)
Inductive device_step (our : bytes) (d : MetadataDb) : MetadataDb → Prop :=
| ds_send fresh nonce t1 t2 t3 to pk text t :
    device_step our d (send_message fresh nonce t1 t2 t3 our to pk text t d).1
| ds_receive t1 t2 t3 t4 e sk : device_step our d (receive_message t1 t2 t3 t4 e our sk d).1
| ds_accept s : device_step our d (accept_request our s d).1
| ds_reject s : device_step our d (reject_request our s d).1
| ds_gc now : device_step our d (gc_expired_messages now d).1
| ds_deposit now to e : device_step our d (DeadDrop.deposit now to e d).1
| ds_deposit_raw now mb i data dep exp : device_step our d (DeadDrop.deposit_raw now mb i data dep exp d).1
| ds_acknowledge i : device_step our d (DeadDrop.acknowledge i d).1
| ds_drop_gc now : device_step our d (DeadDrop.gc now d).1.

(** The dead-drop operations change one table. *)
Definition drops_only (d d' : MetadataDb) : Prop := ∃ t, d' = with_dead_drops t d.

Lemma drops_only_refl d : drops_only d d.
Proof. exists (dead_drops d). by destruct d. Qed.

Lemma insert_drop_only i r d : drops_only d (insert_drop i r d).1.
Proof. by eexists. Qed.

Lemma deposit_only now to e d : drops_only d (DeadDrop.deposit now to e d).1.
Proof.
  unfold DeadDrop.deposit, se_bind, se_lift, sql_u64.
  destruct (map_err _ _); [|apply drops_only_refl].
  do 2 (destruct (_ <? _)%N; [|apply drops_only_refl]). by eexists.
Qed.

Lemma deposit_raw_only now mb i data dep exp d : drops_only d (DeadDrop.deposit_raw now mb i data dep exp d).1.
Proof.
  unfold DeadDrop.deposit_raw, se_bind, se_lift, sql_u64. destruct (exp <=? now)%N; [apply drops_only_refl|].
  do 2 (destruct (_ <? _)%N; [|apply drops_only_refl]). by eexists.
Qed.

Lemma acknowledge_only i d : drops_only d (DeadDrop.acknowledge i d).1.
Proof. unfold DeadDrop.acknowledge. destruct (_ !! _); [by eexists|apply drops_only_refl]. Qed.

Lemma drop_gc_only now d : drops_only d (DeadDrop.gc now d).1.
Proof. by eexists. Qed.

(** A step, seen from one pending table: what it may do to the request of
    [s], and which messages it may add. *)
Record quiet (our s : bytes) (d d' : MetadataDb) : Prop := {
  q_conn : connections d' = connections d;
  q_rejected : is_request_rejected our s d = true → is_request_rejected our s d' = true;
  q_msgs i m : messages d' !! i = Some m → m_sender m = s →
    messages d !! i = Some m ∨ s = our ∨ is_connected our s d = true ∨ is_request_rejected our s d = false
}.

Lemma quiet_refl our s d : quiet our s d d.
Proof. split; auto. Qed.

Lemma quiet_drops our s d d' : drops_only d d' → quiet our s d d'.
Proof. intros [t ->]. split; auto. Qed.

Lemma stored_quiet our their req t i row now k s d :
  m_sender row ≠ s ∨ s = our ∨ is_connected our s d = true ∨ is_request_rejected our s d = false →
  quiet our s d (stored our their req t i row now k d).
Proof.
  intros Hs. split; [done|done|]. intros j m Hm Hsm. cbn in Hm.
  rewrite lookup_insert_or_ignore in Hm. destruct (decide (i = j)) as [->|]; [|by left].
  destruct (messages d !! j) as [m0|] eqn:Ej; cbn in Hm; [left; congruence|].
  injection Hm as <-. destruct Hs; [done|by right].
Qed.

Lemma rejected_note our s s' req t d :
  is_request_rejected our s d = true → is_request_rejected our s (note_request req t s' our d) = true.
Proof.
  unfold is_request_rejected. rewrite !request_has_lookup. destruct req; [|done]. cbn.
  rewrite lookup_insert_or_ignore. destruct (decide _) as [E|]; [|done]. injection E as ->.
  by destruct (message_requests d !! (s, our)).
Qed.

Lemma rejected_decide st our s s' d :
  is_request_rejected our s d = true → is_request_rejected our s (decide_request st our s' d).1 = true.
Proof.
  intros Hr. rewrite decide_request_eq. destruct (request_has "pending" our s' d) eqn:Hp; [|done].
  unfold is_request_rejected in *. rewrite request_has_lookup in *. cbn.
  destruct (decide ((s', our) = (s, our))) as [E|Hne]; [|by rewrite lookup_alter_ne].
  injection E as ->. destruct (message_requests d !! (s, our)) as [r|]; [|done]. bprop. congruence.
Qed.

Lemma quiet_decide st our s s' d : quiet our s d (decide_request st our s' d).1.
Proof.
  split.
  - rewrite decide_request_eq. by destruct (request_has _ _ _ _).
  - apply rejected_decide.
  - rewrite decide_request_eq. destruct (request_has _ _ _ _); cbn; auto.
Qed.

Lemma quiet_conversations our s d d' f : quiet our s d d' → quiet our s d (with_conversations f d').
Proof. intros [? ? ?]. by split. Qed.

Lemma step_quiet our s d d' : device_step our d d' → quiet our s d d'.
Proof.
  intros Hstep. destruct Hstep; try (apply quiet_drops; first
    [apply deposit_only|apply deposit_raw_only|apply acknowledge_only|apply drop_gc_only]).
  - rewrite send_message_eq. destruct (_ <? _)%N; [apply quiet_refl|]. destruct (negb _); [apply quiet_refl|].
    destruct (seal _ _ _ _ _ _ _ _); [|apply quiet_refl]. cbv zeta. destruct (messages d !! _).
    + apply quiet_conversations, quiet_refl.
    + apply stored_quiet. destruct (decide (our = s)); [right; by left|by left].
  - rewrite receive_message_eq. destruct (is_expired _ _); [apply quiet_refl|].
    destruct (open _ _) as [p|]; [|apply quiet_refl]. cbv zeta.
    destruct (negb _ && _) eqn:Hg; [apply quiet_refl|]. cbn [fst].
    assert (Hs : sender p ≠ s ∨ s = our ∨ is_connected our s d = true ∨ is_request_rejected our s d = false).
    { destruct (decide (sender p = s)) as [<-|]; [|by left]. right; right.
      destruct (is_request_rejected our (sender p) d) eqn:Er; [|by right]. left.
      rewrite andb_true_r in Hg. unfold admitted in Hg. apply negb_false_iff, orb_true_iff in Hg as [Hg|Hg]; [done|].
      unfold is_request_rejected, is_request_accepted in *. rewrite request_has_lookup in *.
      destruct (message_requests d !! _); [|done]. bprop. congruence. }
    destruct (stored_quiet our (sender p) (negb (admitted our (sender p) d)) t2
      (blake3_hash (ciphertext e)) (received_row (compute_conversation_id our (sender p)) t3 e p) (as_i64 t3) 1 s d Hs)
      as [Q1 Q2 Q3].
    split.
    + by destruct (negb _).
    + intros Hr. by apply rejected_note, Q2.
    + intros i m Hm. apply Q3. by destruct (negb _).
  - unfold accept_request, se_bind. pose proof (quiet_decide "accepted" our s s0 d) as Hq.
    destruct (decide_request _ _ _ _) as [d1 [n|]]; [|done]. cbn in Hq. destruct (n =? 0); [done|].
    by apply quiet_conversations.
  - unfold reject_request, se_bind. pose proof (quiet_decide "rejected" our s s0 d) as Hq.
    destruct (decide_request _ _ _ _) as [d1 [n|]]; [|done]. cbn in Hq. by destruct (n =? 0).
  - split; [done|done|]. intros i m Hm. cbn in Hm. apply lookup_delete_where in Hm as [Hm _]. by left.
Qed.

(** A rejection holds for good: once the request of a sender who is not
    connected has been rejected, nothing the device does brings it back - the
    request cannot be accepted, every message opened as from that sender is
    refused with the database unchanged, and no message of theirs is stored
    that was not there before. *)
Theorem rejected_stays_rejected (our s : bytes) (d0 d : MetadataDb)
  (Hother : s ≠ our) (Hrej : is_request_rejected our s d0 = true) (Hcon : is_connected our s d0 = false)
  (Hrun : rtc (device_step our) d0 d) :
  (∀ i m, messages d !! i = Some m → m_sender m = s → messages d0 !! i = Some m) ∧
  accept_request our s d = (d, Err (InvalidRequestState "Pending" "no matching request found")) ∧
  ∀ t1 t2 t3 t4 e sk p, is_expired t1 e = false → open sk e = Ok p → sender p = s →
    receive_message t1 t2 t3 t4 e our sk d = (d, Err (NotAllowed "message request was rejected")).
Proof.
  assert (Hinv : connections d = connections d0 ∧ is_request_rejected our s d = true ∧
    ∀ i m, messages d !! i = Some m → m_sender m = s → messages d0 !! i = Some m).
  { refine (rtc_preserve (λ x, connections x = connections d0 ∧ is_request_rejected our s x = true ∧
      ∀ i m, messages x !! i = Some m → m_sender m = s → messages d0 !! i = Some m) _ _ _ _ _ Hrun); [|done].
    clear Hrun d. intros x y (Hc & Hr & Hm) Hxy. destruct (step_quiet our s x y Hxy) as [Q1 Q2 Q3].
    split_and!; [congruence|auto|]. intros i m Hy Hs. destruct (Q3 i m Hy Hs) as [Hx|[?|[Hx|Hx]]]; [auto|done| |congruence].
    rewrite is_connected_lookup, Hc, <- is_connected_lookup in Hx. congruence. }
  destruct Hinv as (Hc & Hr & Hm). split_and!; [done| |].
  - unfold accept_request, se_bind. rewrite decide_request_eq.
    assert (request_has "pending" our s d = false) as ->; [|done].
    unfold is_request_rejected in Hr. rewrite request_has_lookup in *.
    destruct (message_requests d !! (s, our)); [|done]. bprop. apply bool_decide_eq_false. congruence.
  - intros t1 t2 t3 t4 e sk p He Hp Hs. rewrite receive_message_eq, He, Hp, Hs. cbv zeta.
    assert (admitted our s d = false) as ->.
    { unfold admitted. rewrite orb_false_iff. split.
      - by rewrite is_connected_lookup, Hc, <- is_connected_lookup.
      - unfold is_request_rejected, is_request_accepted in *. rewrite request_has_lookup in *.
        destruct (message_requests d !! (s, our)); [|done]. bprop. apply bool_decide_eq_false. congruence. }
    by rewrite Hr.
Qed.

Context `{!PrimitiveLaws, !SealedJsonLaws}.

(** Sealing takes no secret of the sender, and what is sealed opens. *)
Lemma open_sealed fresh nonce now from to sk text t pb :
  length fresh = 32 → length nonce = NONCE_LEN →
  payload_to_vec (MkPayload from text) = Ok pb → length pb ≤ MAX_SEALED_WIRE_SIZE →
  ∃ ct, seal fresh nonce now from to (x25519_public sk) text t = Ok (MkEnvelope to ct now t) ∧
        MessageEncryption.encrypt_message fresh nonce pb (x25519_public sk) = Ok ct ∧
        ∀ rcpt ts ttl, open sk (MkEnvelope rcpt ct ts ttl) = Ok (MkPayload from text).
Proof.
  intros Hf Hn Hp Hl. destruct (encryption_roundtrip fresh nonce pb sk Hf Hn) as [(ct & He & _ & Hd) _].
  exists ct. unfold seal, open. rewrite Hp. cbn [map_err result_bind].
  rewrite (proj2 (Nat.ltb_ge _ _)) by done. rewrite He. split_and!; [done..|].
  intros rcpt ts ttl. cbn [ciphertext]. rewrite Hd. cbn [result_bind]. by rewrite (payload_parse _ _ Hp).
Qed.

(** C8. A text sent over a connection arrives: the sender's call succeeds, and
    the recipient, who is connected to the sender, opens the envelope any time
    before it expires to the same sender and text; both databases then hold
    the message under the same id, in the same conversation, with the first
    hundred characters as its preview. *)
Theorem sealed_delivery (fresh nonce : bytes) (t_seal t_conv now t1 t2 t3 t4 : N) (alice bob sk : bytes)
  (text : str) (t : Ttl) (pb : bytes) (da db : MetadataDb)
  (Hf : length fresh = 32) (Hn : length nonce = NONCE_LEN)
  (Hpb : payload_to_vec (MkPayload alice (as_bytes text)) = Ok pb) (Hlen : length pb ≤ MAX_SEALED_WIRE_SIZE)
  (Htext : Forall scalar text)
  (Httl : (ttl_secs t ≤ MAX_MESSAGE_TTL_SECS)%N) (Hclock : (t_seal < 2 ^ 63)%N)
  (Hintime : (t1 ≤ t_seal + ttl_secs t)%N)
  (Hnew : ∀ ct, MessageEncryption.encrypt_message fresh nonce pb (x25519_public sk) = Ok ct →
     messages da !! blake3_hash ct = None ∧ messages db !! blake3_hash ct = None)
  (Ha : is_connected alice bob da = true) (Hb : is_connected bob alice db = true) :
  ∃ e da' db' i c row_a row_b,
    send_message fresh nonce t_seal t_conv now alice bob (x25519_public sk) (as_bytes text) t da = (da', Ok (c, e)) ∧
    receive_message t1 t2 t3 t4 e bob sk db = (db', Ok (MkPayload alice (as_bytes text))) ∧
    messages da' !! i = Some row_a ∧ messages db' !! i = Some row_b ∧
    m_conversation row_a = c ∧ m_conversation row_b = c ∧
    m_sender row_a = alice ∧ m_sender row_b = alice ∧
    m_preview row_a = Some (take 100 text) ∧ m_preview row_b = Some (take 100 text) ∧
    m_is_read row_a = true ∧ m_is_read row_b = false ∧
    message_requests db' = message_requests db.
Proof.
  destruct (open_sealed fresh nonce t_seal alice bob sk (as_bytes text) t pb Hf Hn Hpb Hlen) as (ct & Hs & He & Ho).
  destruct (Hnew ct He) as [Hna Hnb].
  exists (MkEnvelope bob ct t_seal t). rewrite send_message_eq, receive_message_eq, Hs, Ho.
  rewrite (proj2 (N.ltb_ge _ _)) by done. unfold may_send, admitted. rewrite Ha. cbn [sender ciphertext].
  assert (is_expired t1 (MkEnvelope bob ct t_seal t) = false) as ->.
  { unfold is_expired. cbn. apply N.ltb_ge. rewrite add64_small; [done|].
    unfold u64, u64_modulus, MAX_MESSAGE_TTL_SECS in *. lia. }
  rewrite Hb. cbn [orb negb andb]. cbv zeta. rewrite Hna.
  eexists _, _, (blake3_hash ct), _, _, _. split; [reflexivity|]. split; [reflexivity|].
  cbn. rewrite !insert_or_ignore_fresh by done. rewrite !lookup_insert_eq.
  split; [reflexivity|]. split; [reflexivity|]. cbn. unfold preview_of.
  rewrite !from_utf8_as_bytes by done.
  rewrite (conversation_id_comm bob alice). split_and!; done.
Qed.

(** The sender inside an envelope is a claim anyone can make: sealing uses
    only public data, so whoever knows the encryption key of [bob] can make a
    message that his node accepts as from his contact [alice], and files in
    the conversation with her as an ordinary message. *)
Theorem sealed_sender_forged (fresh nonce : bytes) (now t1 t2 t3 t4 : N) (alice bob sk text pb : bytes) (t : Ttl)
  (db : MetadataDb)
  (Hf : length fresh = 32) (Hn : length nonce = NONCE_LEN)
  (Hpb : payload_to_vec (MkPayload alice text) = Ok pb) (Hlen : length pb ≤ MAX_SEALED_WIRE_SIZE)
  (Hintime : (t1 ≤ now + ttl_secs t)%N) (Hclock : u64 (now + ttl_secs t))
  (Hnew : ∀ ct, MessageEncryption.encrypt_message fresh nonce pb (x25519_public sk) = Ok ct →
     messages db !! blake3_hash ct = None)
  (Hb : is_connected bob alice db = true) :
  ∃ forged, seal fresh nonce now alice bob (x25519_public sk) text t = Ok forged ∧
    (receive_message t1 t2 t3 t4 forged bob sk db).2 = Ok (MkPayload alice text) ∧
    messages (receive_message t1 t2 t3 t4 forged bob sk db).1 !! blake3_hash (ciphertext forged) =
      Some (received_row (compute_conversation_id bob alice) t3 forged (MkPayload alice text)) ∧
    message_requests (receive_message t1 t2 t3 t4 forged bob sk db).1 = message_requests db.
Proof.
  destruct (open_sealed fresh nonce now alice bob sk text t pb Hf Hn Hpb Hlen) as (ct & Hs & He & Ho).
  exists (MkEnvelope bob ct now t). rewrite receive_message_eq, Ho.
  assert (is_expired t1 (MkEnvelope bob ct now t) = false) as ->.
  { unfold is_expired. cbn. apply N.ltb_ge. by rewrite add64_small. }
  unfold admitted. cbn [sender]. rewrite Hb. cbn [orb negb andb]. cbv zeta. split_and!; [done..| |done].
  cbn. rewrite insert_or_ignore_fresh by (by apply Hnew). by rewrite lookup_insert_eq.
Qed.

(** Recipient, timestamp and lifetime are outside the ciphertext, so a
    relay can change them: an envelope the recipient once accepted from a
    contact is accepted again under any recipient and any timestamp and
    lifetime that are not over; if its row is still there the unread count
    grows without a new message, and if it was garbage-collected the message
    is stored again as new, with the lifetime the relay chose. *)
Theorem sealed_replay (e : SealedEnvelope) (bob sk : bytes) (p : SealedPayload) (t1 t2 t3 t4 : N)
  (rcpt : bytes) (ts : N) (t : Ttl) (d : MetadataDb) (r : ConvRow)
  (Hopen : open sk e = Ok p) (Hlive : (t1 ≤ ts + ttl_secs t)%N) (Hclock : u64 (ts + ttl_secs t))
  (Hcon : is_connected bob (sender p) d = true)
  (Hconv : conversations d !! compute_conversation_id bob (sender p) = Some r) :
  let e' := MkEnvelope rcpt (ciphertext e) ts t in
  let d' := (receive_message t1 t2 t3 t4 e' bob sk d).1 in
  (receive_message t1 t2 t3 t4 e' bob sk d).2 = Ok p ∧
  (unread_count <$> conversations d' !! compute_conversation_id bob (sender p) = Some (unread_count r + 1)%Z) ∧
  match messages d !! blake3_hash (ciphertext e) with
  | Some _ => messages d' = messages d
  | None => messages d' = <[blake3_hash (ciphertext e) :=
      received_row (compute_conversation_id bob (sender p)) t3 e' p]> (messages d)
  end.
Proof.
  intros e' d'. assert (Ho : open sk e' = Ok p) by exact Hopen.
  subst d'. rewrite receive_message_eq, Ho.
  assert (is_expired t1 e' = false) as ->.
  { unfold is_expired. cbn. apply N.ltb_ge. by rewrite add64_small. }
  unfold admitted. rewrite Hcon. cbn [orb negb andb]. cbv zeta. split_and!; [done| |].
  - cbn. rewrite lookup_alter_eq, insert_or_ignore_present by eauto. by rewrite Hconv.
  - cbn. unfold insert_or_ignore. by destruct (messages d !! blake3_hash (ciphertext e)).
Qed.

(** The life of a stranger's message: it is taken, its conversation is
    flagged as a request and a pending request is recorded; accepting clears
    the flag once - a second decision is refused - and lets the stranger's
    later messages into the inbox, however many; but the one who accepted
    still cannot answer, because sending looks for a request in the other
    direction. *)
Theorem request_lifecycle (e : SealedEnvelope) (p : SealedPayload) (bob sk : bytes) (t1 t2 t3 t4 : N) (d : MetadataDb)
  (Hopen : open sk e = Ok p) (Hlive : is_expired t1 e = false)
  (Hstranger : connections d !! (bob, sender p) = None) (Hself : sender p ≠ bob)
  (Hnone : message_requests d !! (sender p, bob) = None) (Hback : message_requests d !! (bob, sender p) = None)
  (Hrev : connections d !! (sender p, bob) = None)
  (Hconv : conversations d !! compute_conversation_id bob (sender p) = None) :
  let s := sender p in
  let d1 := (receive_message t1 t2 t3 t4 e bob sk d).1 in
  let d2 := (accept_request bob s d1).1 in
  let flag x := Metadata.is_request <$> conversations x !! compute_conversation_id bob s in
  (receive_message t1 t2 t3 t4 e bob sk d).2 = Ok p ∧
  flag d1 = Some true ∧ message_requests d1 !! (s, bob) = Some (MkReq "pending" (as_i64 t4)) ∧
  (accept_request bob s d1).2 = Ok tt ∧ flag d2 = Some false ∧
  (accept_request bob s d2).2 = Err (InvalidRequestState "Pending" "no matching request found") ∧
  (reject_request bob s d2).2 = Err (InvalidRequestState "Pending" "no matching request found") ∧
  (∀ u1 u2 u3 u4 e2 p2, open sk e2 = Ok p2 → sender p2 = s → is_expired u1 e2 = false →
     (receive_message u1 u2 u3 u4 e2 bob sk d2).2 = Ok p2 ∧
     flag (receive_message u1 u2 u3 u4 e2 bob sk d2).1 = Some false) ∧
  (∀ fresh nonce u1 u2 u3 pk text t, (ttl_secs t ≤ MAX_MESSAGE_TTL_SECS)%N →
     send_message fresh nonce u1 u2 u3 bob s pk text t d2 =
       (d2, Err (NotAllowed "no connection or accepted message request with recipient"))).
Proof.
  intros s d1 d2 flag. subst s. set (s := sender p) in *. set (c := compute_conversation_id bob s) in *.
  assert (Hadm : admitted bob s d = false).
  { unfold admitted, is_request_accepted. rewrite is_connected_lookup, request_has_lookup. by rewrite Hstranger, Hnone. }
  assert (Hrej : is_request_rejected bob s d = false)
    by (unfold is_request_rejected; by rewrite request_has_lookup, Hnone).
  assert (E1 : receive_message t1 t2 t3 t4 e bob sk d =
    (note_request true t4 s bob (stored bob s true t2 (blake3_hash (ciphertext e)) (received_row c t3 e p) (as_i64 t3) 1 d), Ok p)).
  { rewrite receive_message_eq, Hlive, Hopen. cbv zeta. fold s c. by rewrite Hadm, Hrej. }
  subst d2 d1. rewrite E1. cbn [fst snd].
  set (d1 := note_request _ _ _ _ _).
  assert (Hr1 : message_requests d1 !! (s, bob) = Some (MkReq "pending" (as_i64 t4))).
  { cbn. rewrite lookup_insert_or_ignore, decide_True by done. by rewrite Hnone. }
  assert (Hc1 : ∃ r, conversations d1 !! c = Some r ∧ our_pubkey r = bob ∧ their_pubkey r = s ∧ Metadata.is_request r = true).
  { cbn. fold c. rewrite lookup_alter_eq, lookup_insert_or_ignore, decide_True, Hconv by done. cbn. by eexists. }
  destruct Hc1 as (r & Hc1 & Hour & Htheir & Hreq).
  assert (E2 : ∃ d2, accept_request bob s d1 = (d2, Ok tt) ∧
     message_requests d2 = alter (λ x, MkReq "accepted" (rq_created_at x)) (s, bob) (message_requests d1) ∧
     connections d2 = connections d ∧ flag d2 = Some false).
  { unfold accept_request, se_bind. rewrite decide_request_eq, request_has_lookup, Hr1. eexists.
    split; [reflexivity|]. split; [done|]. split; [done|]. unfold flag. cbn -[d1]. rewrite lookup_update_where, Hc1. cbn.
    by rewrite Hour, Htheir, !bool_decide_true. }
  destruct E2 as (d2 & -> & Hreq2 & Hcon2 & Hflag2). cbn [fst snd].
  assert (Hr2 : message_requests d2 !! (s, bob) = Some (MkReq "accepted" (as_i64 t4)))
    by (rewrite Hreq2, lookup_alter_eq, Hr1; done).
  assert (Hnp : request_has "pending" bob s d2 = false) by (by rewrite request_has_lookup, Hr2).
  split_and!; [done| |done|done|done| | | |].
  - unfold flag. rewrite Hc1. cbn. by rewrite Hreq.
  - unfold accept_request, se_bind. by rewrite decide_request_eq, Hnp.
  - unfold reject_request, se_bind. by rewrite decide_request_eq, Hnp.
  - intros u1 u2 u3 u4 e2 p2 Ho2 Hs2 He2. rewrite receive_message_eq, He2, Ho2, Hs2. cbv zeta.
    assert (admitted bob s d2 = true) as ->.
    { unfold admitted, is_request_accepted. rewrite request_has_lookup, Hr2. apply orb_true_r. }
    cbn [negb andb snd fst]. split; [done|]. unfold flag in *. cbn. fold c.
    destruct (conversations d2 !! c) as [r2|] eqn:E; [|done]. cbn in Hflag2.
    rewrite lookup_alter_eq, insert_or_ignore_present, E by eauto. done.
  - intros fresh nonce u1 u2 u3 pk text t Ht. rewrite send_message_eq.
    rewrite (proj2 (N.ltb_ge _ _)) by done. unfold may_send, is_request_accepted.
    rewrite is_connected_lookup, request_has_lookup, Hcon2, Hstranger, Hreq2, lookup_alter_ne by congruence.
    cbn. rewrite lookup_insert_or_ignore, decide_False by congruence. by rewrite Hback.
Qed.

(* ------------------------------------------------------------------ *)
(** ** Properties of dead drops *)

Import DeadDrop.

Lemma sql_u64_ok n : (n < 2 ^ 63)%N → sql_u64 n = Ok (Z.of_N n).
Proof. intros Hn. unfold sql_u64. by rewrite (proj2 (N.ltb_lt _ _) Hn). Qed.

(** What others may do to the table while a drop waits: anything but
    acknowledge it, or collect after it has expired. *)
Inductive waiting_step (i : bytes) (expiry : Z) (d : MetadataDb) : MetadataDb → Prop :=
| ws_deposit now to e : waiting_step i expiry d (deposit now to e d).1
| ws_deposit_raw now mb j data dep exp : waiting_step i expiry d (deposit_raw now mb j data dep exp d).1
| ws_acknowledge j : hash j ≠ i → waiting_step i expiry d (acknowledge j d).1
| ws_gc now : (as_i64 now < expiry)%Z → waiting_step i expiry d (gc now d).1.

Lemma insert_drop_keeps i j r row d :
  dead_drops d !! i = Some row → dead_drops (insert_drop j r d).1 !! i = Some row.
Proof.
  intros Hi. cbn. rewrite lookup_insert_or_ignore. destruct (decide (j = i)) as [->|]; [by rewrite Hi|done].
Qed.

Lemma waiting_keeps i row d d' :
  dead_drops d !! i = Some row → waiting_step i (dd_expires_at row) d d' → dead_drops d' !! i = Some row.
Proof.
  intros Hi Hs. destruct Hs as [now to e|now mb j data dep exp|j Hj|now Hn].
  - unfold deposit, se_bind, se_lift, sql_u64. destruct (map_err _ _); [|done].
    do 2 (destruct (_ <? _)%N; [|done]). by apply insert_drop_keeps.
  - unfold deposit_raw, se_bind, se_lift, sql_u64. destruct (exp <=? now)%N; [done|].
    do 2 (destruct (_ <? _)%N; [|done]). by apply insert_drop_keeps.
  - unfold acknowledge. destruct (dead_drops d !! hash j); [|done]. cbn. by rewrite lookup_delete_ne.
  - cbn. apply lookup_delete_where. split; [done|]. apply Z.leb_gt. lia.
Qed.

Lemma mailbox_count_length now bob d : length (check_mailbox now bob d) = mailbox_count now bob d.
Proof. unfold check_mailbox, mailbox_count. by rewrite length_fmap, length_stable_sort, length_select_where. Qed.

Lemma elem_of_check_mailbox now bob d j row :
  dead_drops d !! j = Some row → dd_mailbox row = hash (mailbox_key bob) → (as_i64 now < dd_expires_at row)%Z →
  MkPending (id_of_row j) (dd_sealed row) (as_u64 (dd_deposited_at row)) (as_u64 (dd_expires_at row))
    ∈ check_mailbox now bob d.
Proof.
  intros Hj Hm Hn. unfold check_mailbox. apply list_elem_of_fmap. exists (j, row). split; [done|].
  rewrite stable_sort_perm. apply elem_of_select_where. split; [done|].
  rewrite andb_true_iff. split; [by apply bool_decide_eq_true|by apply Z.ltb_lt].
Qed.

(** A deposited message waits for its recipient: however many deposits,
    acknowledgements of other messages and timely collections come in
    between, until fourteen days have passed the mailbox check returns it,
    and its bytes parse back to the envelope; acknowledging removes exactly
    it, and only once; and a collection at its expiry or later removes it. *)
Theorem dead_drop_delivery (t now : N) (bob : bytes) (e : SealedEnvelope) (data : bytes) (d d' : MetadataDb)
  (Hdata : envelope_to_vec e = Ok data) (Ht : (t + DEAD_DROP_MAX_TTL_SECS < 2 ^ 63)%N)
  (Hnow : (now < t + DEAD_DROP_MAX_TTL_SECS)%N)
  (Hnew : dead_drops d !! blake3_hash data = None)
  (Hrun : rtc (waiting_step (blake3_hash data) (Z.of_N (t + DEAD_DROP_MAX_TTL_SECS))) (deposit t bob e d).1 d') :
  let i := from_digest (blake3_hash data) in
  let acked := (acknowledge i d').1 in
  (deposit t bob e d).2 = Ok i ∧ envelope_from_slice data = Ok e ∧
  MkPending i data t (t + DEAD_DROP_MAX_TTL_SECS) ∈ check_mailbox now bob d' ∧
  (acknowledge i d').2 = Ok tt ∧ S (length (check_mailbox now bob acked)) = length (check_mailbox now bob d') ∧
  (∀ j, j ≠ hash i → dead_drops acked !! j = dead_drops d' !! j) ∧ is_ok (acknowledge i acked).2 = false ∧
  (∀ late, (t + DEAD_DROP_MAX_TTL_SECS ≤ late < 2 ^ 63)%N → dead_drops (gc late d').1 !! hash i = None).
Proof.
  intros i acked. set (row := MkDrop (hash (mailbox_key bob)) data (Z.of_N t) (Z.of_N (t + DEAD_DROP_MAX_TTL_SECS))).
  assert (Hsum : add64 t DEAD_DROP_MAX_TTL_SECS = (t + DEAD_DROP_MAX_TTL_SECS)%N)
    by (apply add64_small; unfold u64, u64_modulus; lia).
  assert (Hdep : deposit t bob e d = (with_dead_drops (<[blake3_hash data := row]> (dead_drops d)) d, Ok i)).
  { unfold deposit, se_bind, se_lift. rewrite Hdata. cbn [map_err]. rewrite Hsum, !sql_u64_ok by lia.
    cbn. by rewrite insert_or_ignore_fresh. }
  rewrite Hdep in Hrun |- *. cbn [fst snd] in Hrun |- *.
  assert (Hrow : dead_drops d' !! blake3_hash data = Some row).
  { refine (rtc_preserve (λ x, dead_drops x !! blake3_hash data = Some row) _ _ _ _ _ Hrun).
    - intros x y Hx Hxy. by eapply waiting_keeps.
    - cbn. apply lookup_insert_eq. }
  assert (Hlate : (as_i64 now < dd_expires_at row)%Z) by (rewrite as_i64_small by lia; cbn; lia).
  assert (Hack : acknowledge i d' = (with_dead_drops (delete (hash i) (dead_drops d')) d', Ok tt)).
  { unfold acknowledge. change (hash i) with (blake3_hash data). by rewrite Hrow. }
  subst acked. rewrite Hack. cbn [fst snd]. split_and!; [done|by apply envelope_parse| |done| | | |].
  - pose proof (elem_of_check_mailbox now bob d' (blake3_hash data) row Hrow eq_refl Hlate) as Hin.
    unfold id_of_row in Hin. rewrite blake3_len in Hin. cbn -[as_u64] in Hin.
    rewrite !as_u64_of_N in Hin by (unfold u64, u64_modulus; lia). exact Hin.
  - rewrite !mailbox_count_length. unfold mailbox_count. cbn [dead_drops with_dead_drops].
    rewrite (count_where_delete _ (hash i) row (dead_drops d')) by done.
    rewrite bool_decide_true by done. by rewrite (proj2 (Z.ltb_lt _ _) Hlate).
  - intros j Hj. cbn. by apply lookup_delete_ne.
  - unfold acknowledge. cbn. by rewrite lookup_delete_eq.
  - intros late Hl. cbn. apply eq_None_not_Some. intros [x [Hx Hp]%lookup_delete_where].
    rewrite Hrow in Hx. injection Hx as <-. bprop. rewrite as_i64_small in Hp by lia. cbn in Hp. lia.
Qed.

(** Everything that touches the dead drops by a given time. *)
Inductive drop_step (T : N) (d : MetadataDb) : MetadataDb → Prop :=
| dr_deposit now to e : (now ≤ T)%N → drop_step T d (deposit now to e d).1
| dr_deposit_raw now mb j data dep exp : (now ≤ T)%N → drop_step T d (deposit_raw now mb j data dep exp d).1
| dr_acknowledge j : drop_step T d (acknowledge j d).1
| dr_gc now : (now ≤ T)%N → drop_step T d (gc now d).1.

Definition drops_within (T : N) (d : MetadataDb) : Prop :=
  ∀ i r, dead_drops d !! i = Some r → (dd_expires_at r ≤ Z.of_N (T + DEAD_DROP_MAX_TTL_SECS))%Z.

Lemma insert_drop_within T i r d :
  drops_within T d → (dd_expires_at r ≤ Z.of_N (T + DEAD_DROP_MAX_TTL_SECS))%Z → drops_within T (insert_drop i r d).1.
Proof.
  intros Hd Hr j x. cbn. rewrite lookup_insert_or_ignore. destruct (decide _); [|apply Hd].
  destruct (dead_drops d !! i) as [x0|] eqn:E; cbn; intros [= <-]; [by apply Hd in E|done].
Qed.

Lemma drop_step_within T d d' :
  (T + DEAD_DROP_MAX_TTL_SECS < 2 ^ 63)%N → drops_within T d → drop_step T d d' → drops_within T d'.
Proof.
  intros HT Hd Hs. destruct Hs as [now to e Hn|now mb j data dep exp Hn|j|now Hn].
  - unfold deposit, se_bind, se_lift. destruct (map_err _ _); [|done].
    rewrite add64_small by (unfold u64, u64_modulus; lia). rewrite !sql_u64_ok by lia.
    apply insert_drop_within; [done|]. cbn. lia.
  - unfold deposit_raw, se_bind, se_lift. destruct (exp <=? now)%N; [done|].
    rewrite add64_small by (unfold u64, u64_modulus; lia).
    unfold sql_u64. destruct (dep <? _)%N; [|done]. destruct (_ <? _)%N; [|done].
    apply insert_drop_within; [done|]. cbn [dd_expires_at]. lia.
  - unfold acknowledge. destruct (_ !! _); [|done]. intros k r. cbn. intros [_ Hk]%lookup_delete_Some. eauto.
  - intros k r. cbn. intros [Hk _]%lookup_delete_where. eauto.
Qed.

(** Nobody can store a dead drop for longer than fourteen days, whatever
    deposit and expiry times a relayed record claims: if every operation so
    far ran by time [T], then fourteen days later every mailbox is empty and
    a collection empties the table. *)
Theorem dead_drop_bounds (T now : N) (d0 d : MetadataDb) (pk : bytes)
  (HT : (T + DEAD_DROP_MAX_TTL_SECS < 2 ^ 63)%N) (Hempty : dead_drops d0 = ∅)
  (Hrun : rtc (drop_step T) d0 d) (Hnow : (T + DEAD_DROP_MAX_TTL_SECS ≤ now < 2 ^ 63)%N) :
  (∀ i r, dead_drops d !! i = Some r → (dd_expires_at r ≤ Z.of_N (T + DEAD_DROP_MAX_TTL_SECS))%Z) ∧
  check_mailbox now pk d = [] ∧ mailbox_count now pk d = 0 ∧ dead_drops (gc now d).1 = ∅.
Proof.
  assert (Hd : drops_within T d).
  { refine (rtc_preserve (drops_within T) _ _ _ _ _ Hrun).
    - intros x y. by apply drop_step_within.
    - intros i r. by rewrite Hempty, lookup_empty. }
  assert (Hc : mailbox_count now pk d = 0).
  { destruct (mailbox_count now pk d) eqn:E; [done|]. exfalso.
    assert (0 < mailbox_count now pk d) as Hpos by lia. unfold mailbox_count in Hpos.
    apply count_where_pos in Hpos as (i & r & Hi & Hp). bprop. rewrite as_i64_small in * by lia.
    apply Hd in Hi. lia. }
  split_and!; [done| |done|].
  - apply nil_length_inv. by rewrite mailbox_count_length.
  - cbn. apply map_empty. intros i. apply eq_None_not_Some. intros [r [Hi Hp]%lookup_delete_where].
    bprop. rewrite as_i64_small in * by lia. apply Hd in Hi. lia.
Qed.
End service_properties.

(* ------------------------------------------------------------------ *)
(** ** Witnesses *)

(** A concrete serialisation: length-prefixed fields. *)
Module SealedToy.
#[export] Instance json : SealedJson := {|
  payload_to_vec p := Ok (N.of_nat (length (sender p)) :: sender p ++ body p);
  payload_from_slice b :=
    match b with
    | n :: r => Ok (MkPayload (take (N.to_nat n) r) (drop (N.to_nat n) r))
    | [] => Err "EOF while parsing a value"%string
    end;
  envelope_to_vec e := Ok (N.of_nat (length (recipient e)) :: timestamp e :: ttl_secs (ttl e) :: recipient e ++ ciphertext e);
  envelope_from_slice b :=
    match b with
    | n :: ts :: t :: r => Ok (MkEnvelope (take (N.to_nat n) r) (drop (N.to_nat n) r) ts (MkTtl t))
    | _ => Err "EOF while parsing a value"%string
    end
|}.

#[export] Instance json_laws : SealedJsonLaws.
Proof.
  split.
  - intros [s b] v [= <-]. cbn. by rewrite Nat2N.id, take_app_length, drop_app_length.
  - intros [r c ts [t]] v [= <-]. cbn. by rewrite Nat2N.id, take_app_length, drop_app_length.
Qed.
End SealedToy.

Section witnesses.
Import Toy HexToy SealedToy Service DeadDrop.

Definition w_alice : bytes := replicate 32 1%N.
Definition w_bob : bytes := replicate 32 2%N.
Definition w_secret : bytes := replicate 32 3%N.
Definition w_fresh : bytes := replicate 32 4%N.
Definition w_nonce : bytes := replicate 24 5%N.
Definition w_text : str := lit "hi".
Definition w_connected (a b : bytes) : MetadataDb :=
  with_connections {[(a, b) := MkConn "connected" 0 0 None None]} empty_db.
Definition w_payload : SealedPayload := MkPayload w_alice (as_bytes w_text).
Definition w_json (p : SealedPayload) : bytes := match payload_to_vec p with Ok b => b | Err _ => [] end.
Definition w_envelope : SealedEnvelope :=
  match seal w_fresh w_nonce 1000 w_alice w_bob w_secret (as_bytes w_text) one_day with
  | Ok e => e | Err _ => MkEnvelope [] [] 0 one_day end.

Lemma rejected_stays_rejected_witness :
  let d := with_message_requests {[(w_alice, w_bob) := MkReq "rejected" 0]} empty_db in
  accept_request w_bob w_alice d = (d, Err (InvalidRequestState "Pending" "no matching request found")).
Proof.
  cbv zeta. set (d := with_message_requests _ _).
  apply (rejected_stays_rejected w_bob w_alice d d); [vm_compute; congruence|reflexivity|reflexivity|apply rtc_refl].
Defined.

Lemma sealed_delivery_witness :
  ∃ e da' db' c,
    send_message w_fresh w_nonce 1000 1000 1000 w_alice w_bob (x25519_public w_secret) (as_bytes w_text) one_day
      (w_connected w_alice w_bob) = (da', Ok (c, e)) ∧
    receive_message 2000 2000 2000 2000 e w_bob w_secret (w_connected w_bob w_alice) = (db', Ok w_payload).
Proof.
  destruct (sealed_delivery w_fresh w_nonce 1000 1000 1000 2000 2000 2000 2000 w_alice w_bob w_secret w_text
    one_day (w_json w_payload) (w_connected w_alice w_bob) (w_connected w_bob w_alice))
    as (e & da' & db' & i & c & ra & rb & E1 & E2 & _).
  - reflexivity.
  - reflexivity.
  - reflexivity.
  - apply Nat.leb_le. reflexivity.
  - repeat constructor.
  - vm_compute. congruence.
  - reflexivity.
  - vm_compute. congruence.
  - intros ct _. split; apply lookup_empty.
  - reflexivity.
  - reflexivity.
  - exists e, da', db', c. split; [exact E1|exact E2].
Defined.

Lemma sealed_sender_forged_witness :
  ∃ forged, seal w_fresh w_nonce 1000 w_alice w_bob (x25519_public w_secret) [7]%N one_day = Ok forged ∧
    (receive_message 2000 2000 2000 2000 forged w_bob w_secret (w_connected w_bob w_alice)).2 = Ok (MkPayload w_alice [7]%N).
Proof.
  destruct (sealed_sender_forged w_fresh w_nonce 1000 2000 2000 2000 2000 w_alice w_bob w_secret [7]%N
    (w_json (MkPayload w_alice [7]%N)) one_day (w_connected w_bob w_alice)) as (f & E1 & E2 & _).
  - reflexivity.
  - reflexivity.
  - reflexivity.
  - apply Nat.leb_le. reflexivity.
  - vm_compute. congruence.
  - reflexivity.
  - intros ct _. apply lookup_empty.
  - reflexivity.
  - exists f. split; [exact E1|exact E2].
Defined.

Lemma sealed_replay_witness :
  let d := with_conversations
    {[compute_conversation_id w_bob w_alice := MkConv w_bob w_alice (Some 0%Z) 3 false 0]} (w_connected w_bob w_alice) in
  (receive_message 9000000 9000000 9000000 9000000 (MkEnvelope [] (ciphertext w_envelope) 9000000 one_day) w_bob w_secret d).2
    = Ok w_payload.
Proof.
  cbv zeta. eapply (sealed_replay w_envelope w_bob w_secret w_payload).
  - vm_compute. reflexivity.
  - vm_compute. congruence.
  - vm_compute. reflexivity.
  - reflexivity.
  - apply lookup_singleton_eq.
Defined.

Lemma request_lifecycle_witness :
  (accept_request w_bob w_alice (receive_message 2000 2000 2000 2000 w_envelope w_bob w_secret empty_db).1).2 = Ok tt.
Proof.
  pose proof (request_lifecycle w_envelope w_payload w_bob w_secret 2000 2000 2000 2000 empty_db) as Hl.
  apply Hl; [vm_compute; reflexivity|vm_compute; reflexivity|apply lookup_empty|vm_compute; congruence|
    apply lookup_empty..].
Defined.

Lemma dead_drop_delivery_witness :
  let data := match envelope_to_vec w_envelope with Ok b => b | Err _ => [] end in
  MkPending (from_digest (blake3_hash data)) data 1000 (1000 + DEAD_DROP_MAX_TTL_SECS) ∈
    check_mailbox 5000 w_bob (deposit 1000 w_bob w_envelope empty_db).1.
Proof.
  cbv zeta. eapply (dead_drop_delivery 1000 5000 w_bob w_envelope _ empty_db).
  - reflexivity.
  - reflexivity.
  - reflexivity.
  - apply lookup_empty.
  - apply rtc_refl.
Defined.

Lemma dead_drop_bounds_witness :
  check_mailbox 2000000 w_bob (deposit_raw 1000 (mailbox_key w_bob) (from_digest w_alice) [1]%N 7 (2 ^ 62) empty_db).1 = [].
Proof.
  eapply (dead_drop_bounds 2000 2000000 empty_db).
  - reflexivity.
  - reflexivity.
  - apply rtc_once, dr_deposit_raw. vm_compute. congruence.
  - split; [vm_compute; congruence|reflexivity].
Defined.
End witnesses.
