(* ===== verification/Connections.v ===== *)
(** * Connections and blocks: [crates/ephemera-social/src]

    The connection table behind [ConnectionService]
    ([connection.rs], [store/connection.rs]) and the block and mute tables
    behind [BlockService] ([block.rs], [store/block.rs]).  The lock on the
    database and SQLite's own failures are not modelled. *)
From S2P Require Import Prelude Types Crypto Unicode Ratchet Tables Metadata Messages.

(** [SocialError]; [Connection] is not raised by what is modelled. *)
Inductive SocialError :=
| Validation (reason : string)
| NotFound (what : string)
| Storage (e : string)
| PermissionDenied (reason : string)
| RateLimited (action : string) (retry_after_secs : N).

(* ------------------------------------------------------------------ *)
(** ** Connections *)

Inductive ConnectionStatus := PendingOutgoing | PendingIncoming | Active | Blocked.
#[global] Instance ConnectionStatus_eq_dec : EqDecision ConnectionStatus.
Proof. solve_decision. Defined.

Definition status_to_str (s : ConnectionStatus) : string :=
  match s with
  | PendingOutgoing => "pending_outgoing"
  | PendingIncoming => "pending_incoming"
  | Active => "connected"
  | Blocked => "blocked"
  end.

Definition str_to_status (s : string) : ConnectionStatus :=
  if bool_decide (s = "pending_outgoing"%string) then PendingOutgoing
  else if bool_decide (s = "pending_incoming"%string) then PendingIncoming
  else if bool_decide (s = "connected"%string) then Active
  else if bool_decide (s = "blocked"%string) then Blocked
  else PendingOutgoing.

Record Connection := MkConnection {
  initiator : bytes;
  responder : bytes;
  status : ConnectionStatus;
  created_at : N;
  updated_at : N;
  message : option str
}.

Definition is_active (c : Connection) : bool := bool_decide (status c = Active).
Definition is_blocked_status (c : Connection) : bool := bool_decide (status c = Blocked).
Definition remote_party (local : bytes) (c : Connection) : bytes :=
  if bool_decide (initiator c = local) then responder c else initiator c.

Inductive ConnectionError :=
| AlreadyExists (status : ConnectionStatus)
| CNotFound
| MessageTooLong (len : nat)
| CStorage (e : string).

Definition MAX_CONNECTION_MESSAGE_LEN : nat := 280.

Definition bytes_to_identity_key (b : bytes) : bytes :=
  if Nat.eqb (length b) 32 then b else replicate 32 0%N.

(** The length limit is on bytes. *)
Definition message_too_long (msg : option str) : bool :=
  match msg with Some m => MAX_CONNECTION_MESSAGE_LEN <? str_len m | None => false end.
Definition request (now : N) (from to : bytes) (msg : option str) : SE MetadataDb ConnectionError Connection :=
  if message_too_long msg then
    se_lift (Err (MessageTooLong (match msg with Some m => str_len m | None => 0 end)))
  else λ d,
    match connections d !! (from, to) with
    | Some row => (d, Err (AlreadyExists (str_to_status (c_status row))))
    | None =>
        let now_secs := as_i64 now in
        (with_connections (<[(from, to) := MkConn "pending_outgoing" now_secs now_secs msg (Some from)]> (connections d)) d,
         Ok (MkConnection from to PendingOutgoing now now msg))
    end.

(** [UPDATE connections SET status = 'connected', updated_at = ?3 WHERE] the
    primary key. *)
Definition set_connected (local remote : bytes) (now : Z) (d : MetadataDb) : MetadataDb :=
  with_connections
    (alter (λ r, MkConn "connected" (c_created_at r) now (c_message r) (c_initiator r)) (local, remote)
       (connections d)) d.
Definition delete_connection (local remote : bytes) (d : MetadataDb) : MetadataDb :=
  with_connections (delete (local, remote) (connections d)) d.

Definition accept (now : N) (local remote : bytes) : SE MetadataDb ConnectionError Connection :=
  let now_secs := as_i64 now in
  let! _ := exec (set_connected local remote now_secs) in
  let! _ := exec (set_connected remote local now_secs) in
  se_ret (MkConnection remote local Active now now None).

Definition reject (local remote : bytes) : SE MetadataDb ConnectionError unit :=
  exec (delete_connection local remote).

Definition remove (local remote : bytes) : SE MetadataDb ConnectionError unit :=
  let! _ := exec (delete_connection local remote) in
  exec (delete_connection remote local).

(** Newest change first; rows of equal time in key order. *)
Definition list_rows (identity : bytes) (status_filter : option ConnectionStatus) (d : MetadataDb) :
    list ((bytes * bytes) * ConnRow) :=
  stable_sort (λ a b, c_updated_at b.2 <=? c_updated_at a.2)%Z
    (select_where (λ k r, bool_decide (k.1 = identity) &&
        match status_filter with Some s => bool_decide (c_status r = status_to_str s) | None => true end)
       (connections d)).

Definition connection_of_row (kr : (bytes * bytes) * ConnRow) : Connection :=
  let '((local_pk, remote_pk), r) := kr in
  let local_key := bytes_to_identity_key local_pk in
  let remote_key := bytes_to_identity_key remote_pk in
  let initiator := match c_initiator r with Some i => bytes_to_identity_key i | None => local_key end in
  let responder := if bool_decide (initiator = local_key) then remote_key else local_key in
  MkConnection initiator responder (str_to_status (c_status r)) (as_u64 (c_created_at r)) (as_u64 (c_updated_at r))
    (c_message r).

Definition list_connections (identity : bytes) (status_filter : option ConnectionStatus) (d : MetadataDb) :
    list Connection :=
  connection_of_row <$> list_rows identity status_filter d.

Definition is_blocked (checker target : bytes) (d : MetadataDb) : bool :=
  0 <? count_where (λ k _, bool_decide (k = (checker, target))) (blocks d).

(** [INSERT OR REPLACE] of the request, unless the sender is blocked. *)
Definition receive_connection_request (now : N) (receiver sender : bytes) (msg : option str) :
    SE MetadataDb ConnectionError (option Connection) := λ d,
  if is_blocked receiver sender d then (d, Ok None)
  else
    let now_secs := as_i64 now in
    (with_connections (<[(receiver, sender) := MkConn "pending_incoming" now_secs now_secs msg (Some sender)]>
        (connections d)) d,
     Ok (Some (MkConnection sender receiver PendingIncoming now now msg))).

(* ------------------------------------------------------------------ *)
(** ** Blocks and mutes *)

Record Mute := MkMuteRec { muter : bytes; muted : bytes; mu_at : N; mu_until : option N }.

(** [Mute::is_expired_at]. *)
Definition mute_is_expired_at (now : N) (m : Mute) : bool :=
  match mu_until m with Some exp => (exp <? now)%N | None => false end.

Definition block (now : N) (blocker blocked : bytes) (reason : option str) : SE MetadataDb SocialError unit :=
  let! _ := exec (λ d, with_blocks (<[(blocker, blocked) := MkBlock (as_i64 now) reason]> (blocks d)) d) in
  exec (delete_connection blocker blocked).

Definition unblock (blocker blocked : bytes) : SE MetadataDb SocialError unit :=
  exec (λ d, with_blocks (delete (blocker, blocked) (blocks d)) d).

Definition mute (now : N) (muter muted : bytes) (expires_at : option N) : SE MetadataDb SocialError unit :=
  exec (λ d, with_mutes (<[(muter, muted) := MkMute (as_i64 now) (as_i64 <$> expires_at)]> (mutes d)) d).

Definition unmute (muter muted : bytes) : SE MetadataDb SocialError unit :=
  exec (λ d, with_mutes (delete (muter, muted) (mutes d)) d).

Definition is_muted (now : N) (checker target : bytes) (d : MetadataDb) : bool :=
  0 <? count_where (λ k m, bool_decide (k = (checker, target)) &&
         match mu_expires_at m with None => true | Some exp => (as_i64 now <? exp)%Z end) (mutes d).

(* ------------------------------------------------------------------ *)
(** ** Lemmas *)

Lemma str_to_status_to_str s : str_to_status (status_to_str s) = s.
Proof. by destruct s. Qed.

Lemma is_blocked_lookup checker target d :
  is_blocked checker target d = bool_decide (is_Some (blocks d !! (checker, target))).
Proof.
  unfold is_blocked.
  rewrite (count_where_key (checker, target) (λ _, true)) by (intros; by rewrite andb_true_r).
  destruct (blocks d !! (checker, target)); [by rewrite bool_decide_true by eauto|].
  rewrite bool_decide_false; [done|]. by intros [].
Qed.

Definition conn_status (local remote : bytes) (d : MetadataDb) : option ConnectionStatus :=
  str_to_status ∘ c_status <$> connections d !! (local, remote).

Lemma set_connected_status l r now d l' r' :
  conn_status l' r' (set_connected l r now d) =
    if decide ((l, r) = (l', r')) then (λ _, Active) <$> conn_status l' r' d else conn_status l' r' d.
Proof.
  unfold conn_status, set_connected. cbn. destruct (decide _) as [<-|].
  - rewrite lookup_alter_eq. by destruct (connections d !! (l, r)).
  - by rewrite lookup_alter_ne.
Qed.

Lemma delete_connection_status l r d l' r' :
  conn_status l' r' (delete_connection l r d) = if decide ((l, r) = (l', r')) then None else conn_status l' r' d.
Proof.
  unfold conn_status, delete_connection. cbn. destruct (decide _) as [<-|].
  - by rewrite lookup_delete_eq.
  - by rewrite lookup_delete_ne.
Qed.

(** Every row has one of the three states this code writes, and rows it made
    name one of the two parties as initiator. *)
Definition conns_ok (d : MetadataDb) : Prop :=
  ∀ l r row, connections d !! (l, r) = Some row →
    c_status row ∈ ["pending_outgoing"; "pending_incoming"; "connected"]%string ∧
    (c_initiator row = Some l ∨ c_initiator row = Some r).

Inductive conn_step (d : MetadataDb) : MetadataDb → Prop :=
| cs_request now f t m : conn_step d (request now f t m d).1
| cs_accept now l r : conn_step d (accept now l r d).1
| cs_reject l r : conn_step d (reject l r d).1
| cs_remove l r : conn_step d (remove l r d).1
| cs_receive now f t m : conn_step d (receive_connection_request now f t m d).1
| cs_block now b t why : conn_step d (block now b t why d).1
| cs_unblock b t : conn_step d (unblock b t d).1
| cs_mute now b t till : conn_step d (mute now b t till d).1
| cs_unmute b t : conn_step d (unmute b t d).1.

Lemma set_connected_ok l r now d : conns_ok d → conns_ok (set_connected l r now d).
Proof.
  intros Hd l' r' row. cbn. rewrite lookup_alter_Some. intros [(E & row0 & H0 & ->)|[_ Hr]]; [|eauto].
  apply Hd in H0 as [_ Hi]. split; [set_solver|done].
Qed.

Lemma delete_connection_ok l r d : conns_ok d → conns_ok (delete_connection l r d).
Proof. intros Hd l' r' row. cbn. intros [_ Hr]%lookup_delete_Some. eauto. Qed.

Lemma insert_conn_ok k row d :
  conns_ok d → c_status row ∈ ["pending_outgoing"; "pending_incoming"; "connected"]%string →
  (c_initiator row = Some k.1 ∨ c_initiator row = Some k.2) →
  conns_ok (with_connections (<[k := row]> (connections d)) d).
Proof.
  intros Hd Hs Hi l r row'. cbn. rewrite lookup_insert_Some. intros [[-> <-]|[_ Hr]]; eauto.
Qed.

Lemma conn_step_ok d d' : conns_ok d → conn_step d d' → conns_ok d'.
Proof.
  intros Hd Hs. destruct Hs; try exact Hd.
  - unfold request. destruct (message_too_long m); [done|].
    destruct (connections d !! (f, t)); [done|]. refine (insert_conn_ok (f, t) _ d Hd _ _); cbn; [set_solver|by left].
  - by do 2 apply set_connected_ok.
  - by apply delete_connection_ok.
  - by do 2 apply delete_connection_ok.
  - unfold receive_connection_request. destruct (is_blocked _ _ _); [done|].
    refine (insert_conn_ok (f, t) _ d Hd _ _); cbn; [set_solver|by right].
  - unfold block, se_bind, exec, se_modify. cbn. by apply (delete_connection_ok _ _ (with_blocks _ d)).
Qed.

(* ------------------------------------------------------------------ *)
(** ** Properties *)

(** In every reachable table each row is pending one way, pending the
    other or connected, and was started by one of its two parties, so the
    list of an identity shows each of its rows once, newest change first,
    with that identity as one of the parties and the status it was filtered
    by. *)
Theorem connection_table_invariant (d0 d : MetadataDb) (identity : bytes) (filter : option ConnectionStatus)
  (Hempty : connections d0 = ∅) (Hrun : rtc conn_step d0 d) (Hid : length identity = 32) :
  (∀ l r row, connections d !! (l, r) = Some row →
     c_status row ∈ ["pending_outgoing"; "pending_incoming"; "connected"]%string) ∧
  (∀ l r, conn_status l r d ≠ Some Blocked) ∧
  NoDup (list_rows identity filter d) ∧
  StronglySorted (λ a b, (c_updated_at b.2 ≤ c_updated_at a.2)%Z) (list_rows identity filter d) ∧
  ∀ c, c ∈ list_connections identity filter d →
    (initiator c = identity ∨ responder c = identity) ∧
    match filter with Some s => status c = s | None => True end.
Proof.
  assert (Hok : conns_ok d).
  { refine (rtc_preserve conns_ok _ _ _ conn_step_ok _ Hrun). intros l r row. by rewrite Hempty, lookup_empty. }
  split_and!.
  - intros l r row Hr. by apply Hok in Hr as [? _].
  - intros l r. unfold conn_status. destruct (connections d !! (l, r)) as [row|] eqn:E; [|done].
    apply Hok in E as [Hs _]. cbn. destruct_or? Hs. set_unfold in Hs. by destruct Hs as [->|[->|[->|[]]]].
  - unfold list_rows. rewrite stable_sort_perm. apply NoDup_map_to_list.
  - unfold list_rows. eapply sorted_weaken; [|apply stable_sort_sorted].
    + intros x y. cbn. rewrite Z.leb_le. done.
    + intros x y. rewrite !Z.leb_le. lia.
    + intros x y z. rewrite !Z.leb_le. lia.
  - intros c (k & -> & Hk)%list_elem_of_fmap. unfold list_rows in Hk. rewrite stable_sort_perm in Hk.
    destruct k as [[l r] row]. apply elem_of_select_where in Hk as [Hl Hp]. cbn in Hp. bprop. subst l.
    assert (Hkey : bytes_to_identity_key identity = identity) by (unfold bytes_to_identity_key; by rewrite Hid).
    cbn. rewrite Hkey. split.
    + apply Hok in Hl as [_ [->| ->]].
      * left. by rewrite Hkey.
      * destruct (bool_decide _) eqn:E; [bprop; by left|by right].
    + destruct filter as [s|]; [|done]. bprop. match goal with E : c_status row = _ |- _ => rewrite E end. apply str_to_status_to_str.
Qed.


(** A request needs no answer: the one who sent it can accept it himself,
    and is then connected to a peer who never replied, with messages to and
    from that peer let through; [accept] asks neither that a request is
    there nor that it came from the other side. *)
Theorem self_accepted (t1 t2 : N) (alice bob : bytes) (m : option str) (d : MetadataDb)
  (Hnew : connections d !! (alice, bob) = None) (Hlen : message_too_long m = false) (Hne : alice ≠ bob) :
  let d1 := (request t1 alice bob m d).1 in
  let d2 := (accept t2 alice bob d1).1 in
  conn_status alice bob d1 = Some PendingOutgoing ∧
  conn_status alice bob d2 = Some Active ∧ Service.admitted alice bob d2 = true ∧
  Service.may_send alice bob d2 = true.
Proof.
  intros d1 d2. assert (H1 : connections d1 !! (alice, bob) =
    Some (MkConn "pending_outgoing" (as_i64 t1) (as_i64 t1) m (Some alice))).
  { subst d1. unfold request. rewrite Hlen, Hnew. apply lookup_insert_eq. }
  assert (H2 : connections d2 !! (alice, bob) =
    Some (MkConn "connected" (as_i64 t1) (as_i64 t2) m (Some alice))).
  { subst d2. unfold accept, se_bind, exec, se_modify, set_connected. cbn.
    rewrite lookup_alter_ne by congruence. by rewrite lookup_alter_eq, H1. }
  unfold conn_status, Service.admitted, Service.may_send. rewrite !Service.is_connected_lookup, H1, H2. done.
Qed.

(* ------------------------------------------------------------------ *)
(** ** Witnesses *)

Definition c_alice : bytes := replicate 32 1%N.
Definition c_bob : bytes := replicate 32 2%N.

Lemma connection_table_invariant_witness :
  conn_status c_alice c_bob (accept 6 c_bob c_alice
    (receive_connection_request 5 c_bob c_alice None (request 5 c_alice c_bob None empty_db).1).1).1 ≠ Some Blocked.
Proof.
  refine (proj1 (proj2 (connection_table_invariant empty_db _ c_alice None eq_refl _ eq_refl)) c_alice c_bob).
  eapply rtc_l; [apply (cs_request _ 5 c_alice c_bob None)|].
  eapply rtc_l; [apply (cs_receive _ 5 c_bob c_alice None)|].
  apply rtc_once, cs_accept.
Defined.

Lemma self_accepted_witness :
  conn_status c_alice c_bob (accept 6 c_alice c_bob (request 5 c_alice c_bob (Some (lit "hi")) empty_db).1).1 = Some Active.
Proof.
  apply (self_accepted 5 6 c_alice c_bob (Some (lit "hi")) empty_db); [apply lookup_empty|reflexivity|vm_compute; congruence].
Defined.
