(* ===== verification/Ingest.v ===== *)
(** * Direct messages and connections in the node: [crates/ephemera-node/src]

    What the running node does with messages and connections: sending
    ([services/social.rs]), ingesting gossip on the [dm_delivery] topic
    ([message_ingest.rs]) and polling dead drops ([background.rs]).  The
    payloads handed to the gossip service are the node's [outbox], the events
    its [events], both oldest first.  Identities are unlocked; a lock that
    is held is waited for in no time, except where one thread takes the same
    lock twice ([retrieve_dht_dead_drops]).  JSON is the parameter [Json]. *)
From S2P Require Import Prelude Types Crypto Unicode Ratchet Tables Metadata Messages Connections Dht.
Import DeadDrop.

(* ------------------------------------------------------------------ *)
(** ** JSON values *)

Inductive field := FStr (s : str) | FOptStr (s : option str) | FU64 (n : N).

(** [serde_json]: parsing to a [Value], [v.get(k).and_then(Value::as_str)]
    and its kin, printing a [json!] object with the given fields, and the
    derived format of [DeadDropEnvelope]. *)
Class Json := {
  value : Type;
  value_from_slice : bytes → option value;
  get_str : string → value → option str;
  get_u64 : string → value → option N;
  get_i64 : string → value → option Z;
  object_to_vec : list (string * field) → result string bytes;
  drop_to_vec : DeadDropEnvelope → result string bytes;
  drop_from_slice : bytes → result string DeadDropEnvelope
}.

Fixpoint field_of (k : string) (fs : list (string * field)) : option field :=
  match fs with
  | [] => None
  | (k', f) :: fs' => if bool_decide (k' = k) then Some f else field_of k fs'
  end.
Definition str_field (k : string) (fs : list (string * field)) : option str :=
  match field_of k fs with Some (FStr s) => Some s | Some (FOptStr o) => o | _ => None end.
Definition u64_field (k : string) (fs : list (string * field)) : option N :=
  match field_of k fs with Some (FU64 n) => Some n | _ => None end.
Definition i64_field (k : string) (fs : list (string * field)) : option Z :=
  match field_of k fs with Some (FU64 n) => if (n <? 2 ^ 63)%N then Some (Z.of_N n) else None | _ => None end.

(** Printed objects parse back with their fields; a printed dead drop parses
    back and has no string under ["type"]; an object without the fields of a
    dead drop is not one. *)
Class JsonLaws `{Json} : Prop := {
  object_parse fs : NoDup (fs.*1) → ∃ b v, object_to_vec fs = Ok b ∧ value_from_slice b = Some v ∧
    (∀ k, get_str k v = str_field k fs) ∧ (∀ k, get_u64 k v = u64_field k fs) ∧ (∀ k, get_i64 k v = i64_field k fs);
  drop_parse e : ∃ b, drop_to_vec e = Ok b ∧ drop_from_slice b = Ok e ∧
    ∀ v, value_from_slice b = Some v → get_str "type" v = None;
  object_not_drop fs b : object_to_vec fs = Ok b → field_of "mailbox_key" fs = None → is_ok (drop_from_slice b) = false
}.

Inductive Event :=
| MessageReceived (from : bytes) (message_id : str)
| ConnectionRequestReceived (from : bytes)
| ConnectionEstablished (peer : bytes).

Record Node := MkNode {
  db : MetadataDb;
  dht : Storage.DhtStorage;
  outbox : list bytes;
  events : list Event
}.
Definition with_db d st := MkNode d (dht st) (outbox st) (events st).
Definition with_dht s st := MkNode (db st) s (outbox st) (events st).
Definition publish (payload : bytes) st := MkNode (db st) (dht st) (outbox st ++ [payload]) (events st).
Definition emit (e : Event) st := MkNode (db st) (dht st) (outbox st) (events st ++ [e]).

(** The services answer with a string that wraps the cause. *)
Inductive NodeError :=
| NMessage (context : string) (e : MessageError)
| NConnection (context : string) (e : ConnectionError)
| NCrypto (context : string) (e : EphemeraError)
| NJson (context : string) (e : string).

(** What becomes of a thread that takes locks. *)
Inductive outcome (A : Type) := Done (a : A) | Deadlock.
Arguments Done {A} _.
Arguments Deadlock {A}.

Section node.
Context `{Primitives, Hex, Json}.

(* ------------------------------------------------------------------ *)
(** ** Sending: [MessageService::send] *)

Record Sent := MkSent { message_hash : bytes; conversation_id : bytes; published_gossip : bool; published_dht : bool }.

Definition preview_chars (body : str) : str := take 100 body.

(** The database part, under one lock: conversation, message row, dead drop;
    its result is what the wire envelope is made of. *)
Definition send_db (fresh nonce : bytes) (now t_conv t_drop : N) (local recipient recipient_x25519 : bytes)
    (body : str) (ttl_secs : N) : SE MetadataDb NodeError (bytes * DeadDropEnvelope) :=
  let msg_hash := blake3_hash (as_bytes body) in
  let expires_at := add_i64 (as_i64 now) (as_i64 ttl_secs) in
  let! encrypted_body := se_lift (map_err (NMessage "encrypt message")
    (MessageEncryption.encrypt_message fresh nonce (as_bytes body) recipient_x25519)) in
  let! conversation_id := se_map_err (NMessage "get/create conversation")
    (Service.get_or_create_conversation t_conv local recipient false) in
  let! _ := se_map_err (NMessage "store message")
    (insert_message false msg_hash
       (MkMsg conversation_id local (as_i64 now) expires_at true (Some (preview_chars body)) false
          (Some encrypted_body) true)) in
  let! _ := exec (Service.touch_conversation conversation_id (as_i64 now) 0) in
  let mailbox := mailbox_key recipient in
  let dead_drop_ttl := N.min ttl_secs DEAD_DROP_MAX_TTL_SECS in
  let deposited := as_u64 (as_i64 now) in
  let dd_expires := add64 deposited dead_drop_ttl in
  let! _ := λ d, ((deposit_raw t_drop mailbox (from_digest msg_hash) encrypted_body deposited dd_expires d).1, Ok tt) in
  se_ret (conversation_id, MkDeadDrop (hash mailbox) msg_hash encrypted_body deposited dd_expires).

Definition direct_message (local : bytes) (to body : str) (now : N) : list (string * field) :=
  [("type", FStr (lit "direct_message")); ("sender", FStr (hex_encode local)); ("recipient", FStr to);
   ("body", FStr body); ("timestamp", FU64 (as_u64 (as_i64 now)))].

Definition publish_vec (r : result string bytes) (st : Node) : Node :=
  match r with Ok payload => publish payload st | Err _ => st end.

(** [x25519] is the answer of the key conversion for the recipient. *)
Definition send (fresh nonce : bytes) (now t_conv t_drop t_dht : N) (network dht_on : bool)
    (local recipient : bytes) (to body : str) (ttl : option N) (x25519 : result EphemeraError bytes) (st : Node) :
    Node * result NodeError Sent :=
  let ttl_secs := default 86400%N ttl in
  match x25519 with
  | Err e => (st, Err (NCrypto "derive recipient x25519" e))
  | Ok recipient_x25519 =>
      match send_db fresh nonce now t_conv t_drop local recipient recipient_x25519 body ttl_secs (db st) with
      | (d, Err e) => (with_db d st, Err e)
      | (d, Ok (conversation_id, envelope)) =>
          let st := with_db d st in
          let st :=
            if network
            then publish_vec (drop_to_vec envelope) (publish_vec (object_to_vec (direct_message local to body now)) st)
            else st in
          let published_gossip := network && is_ok (object_to_vec (direct_message local to body now)) in
          let stored :=
            if dht_on then
              match drop_to_vec envelope with
              | Ok envelope_bytes =>
                  let record := Storage.MkRecord (mailbox_key_ envelope) Storage.DeadDrop envelope_bytes local
                                  (deposited_at envelope) (N.min ttl_secs DEAD_DROP_MAX_TTL_SECS mod 2 ^ 32)%N [] in
                  Some (Storage.put t_dht record (dht st))
              | Err _ => None
              end
            else None in
          let st := match stored with Some p => with_dht p.1 st | None => st end in
          let published_dht := match stored with Some p => is_ok p.2 | None => false end in
          (st, Ok (MkSent (blake3_hash (as_bytes body)) conversation_id published_gossip published_dht))
      end
  end.

(** [MessageService::mark_read]. *)
Definition mark_read (conv_id : bytes) (d : MetadataDb) : MetadataDb :=
  let d := with_messages (update_where (λ _ m, bool_decide (m_conversation m = conv_id) && negb (m_is_read m))
      (λ m, MkMsg (m_conversation m) (m_sender m) (m_received_at m) (m_expires_at m) true (m_preview m)
              (m_has_media m) (m_encrypted_body m) (m_is_encrypted m)) (messages d)) d in
  with_conversations (alter (λ c, MkConv (our_pubkey c) (their_pubkey c) (last_message_at c) 0
      (Metadata.is_request c) (conv_created_at c)) conv_id (conversations d)) d.

(* ------------------------------------------------------------------ *)
(** ** Ingest: [message_ingest_loop] *)

Definition MAX_ENVELOPE_SIZE : nat := 64 * 1024.

(** [format!("{}:{}:{}", sender_hex, body, timestamp)]. *)
Definition dm_id (sender_hex body : str) (timestamp : N) : bytes :=
  blake3_hash (as_bytes (sender_hex ++ lit ":" ++ body ++ lit ":" ++ lit (pretty timestamp))).

Definition bump_unread (id : bytes) (at_ : Z) : MetadataDb → MetadataDb := Service.touch_conversation id at_ 1.

Definition handle_plaintext_dm (t_default t_conv now : N) (v : value) (our : option bytes) (st : Node) : Node :=
  match get_str "sender" v, get_str "recipient" v, get_str "body" v, our with
  | Some sender_hex, Some recipient_hex, Some body, Some our_pk =>
      let timestamp := default t_default (get_u64 "timestamp" v) in
      if negb (bool_decide (recipient_hex = hex_encode our_pk)) then st
      else match hex_decode sender_hex with
      | Some sender =>
          if negb (Nat.eqb (length sender) 32) then st
          else
            let msg_id := dm_id sender_hex body timestamp in
            match Service.get_or_create_conversation t_conv our_pk sender false (db st) with
            | (d, Err _) => with_db d st
            | (d, Ok conversation_id) =>
                let expires_at := add_i64 (as_i64 now) 86400 in
                let row := MkMsg conversation_id sender (as_i64 timestamp) expires_at false
                             (Some (preview_chars body)) false None false in
                let d := match insert_message true msg_id row d with
                         | (d', Ok rows) =>
                             if 0 <? rows then bump_unread conversation_id (as_i64 timestamp) d' else d'
                         | (d', Err _) => d'
                         end in
                emit (MessageReceived sender (hex_encode msg_id)) (with_db d st)
            end
      | None => st
      end
  | _, _, _, _ => st
  end.

(** A connection message for us, in the clear. *)
Definition store_request (our initiator : bytes) (at_ : Z) (message : option str) (d : MetadataDb) : MetadataDb :=
  with_connections (insert_or_ignore (our, initiator) (MkConn "pending_incoming" at_ at_ message (Some initiator))
    (connections d)) d.

(** The [UPDATE] to connected of a row that is [pending_outgoing], and the
    number of rows it changed. *)
Definition establish (our peer : bytes) (at_ : Z) (d : MetadataDb) : MetadataDb * nat :=
  match connections d !! (our, peer) with
  | Some r =>
      if bool_decide (c_status r = "pending_outgoing"%string)
      then (with_connections (<[(our, peer) := MkConn "connected" (c_created_at r) at_ (c_message r) (c_initiator r)]>
              (connections d)) d, 1)
      else (d, 0)
  | None => (d, 0)
  end.

(** A field that holds the hex of a 32-byte key. *)
Definition key_field (k : string) (v : value) : option bytes :=
  b ← hex_decode (default [] (get_str k v)); if Nat.eqb (length b) 32 then Some b else None.

Definition type_is (t : string) (v : value) : bool := bool_decide (get_str "type" v = Some (lit t)).

Definition handle_connection (now : N) (our : bytes) (v : value) (d : MetadataDb) : MetadataDb :=
  if type_is "connection_request" v then
    match key_field "initiator" v with
    | Some initiator =>
        store_request our initiator (default (as_i64 now) (get_i64 "created_at" v)) (get_str "message" v) d
    | None => d
    end
  else if type_is "connection_accepted" v then
    match key_field "acceptor" v with
    | Some acceptor => (establish our acceptor (default (as_i64 now) (get_i64 "created_at" v)) d).1
    | None => d
    end
  else d.

Definition connection_event (our : bytes) (message_id : bytes) (v : option value) : option Event :=
  match v with
  | Some v =>
      if type_is "connection_request" v then ConnectionRequestReceived <$> key_field "initiator" v
      else if type_is "connection_accepted" v then ConnectionEstablished <$> key_field "acceptor" v
      else Some (MessageReceived our (hex_encode message_id))
  | None => Some (MessageReceived our (hex_encode message_id))
  end.

Definition emit_opt (e : option Event) (st : Node) : Node := match e with Some e => emit e st | None => st end.

Definition handle_drop (now t_drop : N) (envelope : DeadDropEnvelope) (our : option bytes) (st : Node) : Node :=
  if (expires_at envelope <=? now)%N then st
  else
    let clamped_expires := N.min (expires_at envelope) (add64 now DEAD_DROP_MAX_TTL_SECS) in
    let mailbox := from_digest (mailbox_key_ envelope) in
    match deposit_raw t_drop mailbox (from_digest (message_id envelope)) (sealed_data envelope)
            (deposited_at envelope) clamped_expires (db st) with
    | (d, Err _) => with_db d st
    | (d, Ok _) =>
        match our with
        | Some pk =>
            if bool_decide (mailbox_key pk = mailbox) then
              let v := value_from_slice (sealed_data envelope) in
              let d := match v with Some v => handle_connection now pk v d | None => d end in
              emit_opt (connection_event pk (message_id envelope) v) (with_db d st)
            else with_db d st
        | None => with_db d st
        end
    end.

(** One payload of the subscription. *)
Definition ingest (t_default t_conv now t_drop : N) (our : option bytes) (payload : bytes) (st : Node) : Node :=
  if (MAX_ENVELOPE_SIZE <? length payload) then st
  else
    match value_from_slice payload with
    | Some v =>
        if type_is "direct_message" v then handle_plaintext_dm t_default t_conv now v our st
        else match drop_from_slice payload with
             | Ok envelope => handle_drop now t_drop envelope our st
             | Err _ => st
             end
    | None =>
        match drop_from_slice payload with
        | Ok envelope => handle_drop now t_drop envelope our st
        | Err _ => st
        end
    end.

(* ------------------------------------------------------------------ *)
(** ** Connection requests: [SocialService] *)

Definition request_fields (local remote : bytes) (msg : option str) (created_at : N) : list (string * field) :=
  [("type", FStr (lit "connection_request")); ("initiator", FStr (hex_encode local));
   ("responder", FStr (hex_encode remote)); ("message", FOptStr msg); ("created_at", FU64 created_at)].
Definition acceptance_fields (local remote : bytes) (now : N) : list (string * field) :=
  [("type", FStr (lit "connection_accepted")); ("acceptor", FStr (hex_encode local));
   ("requester", FStr (hex_encode remote)); ("created_at", FU64 now)].

Definition CONNECTION_TTL : N := 7 * 24 * 60 * 60.

(** Publishing a connection payload to the peer's mailbox: on gossip inside a
    dead-drop envelope, in the hash table bare. *)
Definition publish_connection (now t_dht : N) (network dht_on : bool) (local remote payload : bytes) (st : Node) : Node :=
  let mailbox := hash (mailbox_key remote) in
  let st := if network
            then publish_vec (drop_to_vec (MkDeadDrop mailbox (blake3_hash payload) payload now (add64 now CONNECTION_TTL))) st
            else st in
  if dht_on
  then with_dht (Storage.put t_dht (Storage.MkRecord mailbox Storage.DeadDrop payload local now CONNECTION_TTL []) (dht st)).1 st
  else st.

Definition connect (t_req now t_dht : N) (network dht_on : bool) (local remote : bytes) (msg : str) (st : Node) :
    Node * result NodeError Connection :=
  let m := if bool_decide (msg = []) then None else Some msg in
  match request t_req local remote m (db st) with
  | (d, Err e) => (with_db d st, Err (NConnection "connection request" e))
  | (d, Ok conn) =>
      let st := with_db d st in
      match object_to_vec (request_fields local remote (message conn) (created_at conn)) with
      | Err e => (st, Err (NJson "serialize connection request" e))
      | Ok payload => (publish_connection now t_dht network dht_on local remote payload st, Ok conn)
      end
  end.

Definition accept_connection (t_acc now t_dht : N) (network dht_on : bool) (local remote : bytes) (st : Node) :
    Node * result NodeError Connection :=
  match accept t_acc local remote (db st) with
  | (d, Err e) => (with_db d st, Err (NConnection "accept connection" e))
  | (d, Ok conn) =>
      let st := with_db d st in
      match object_to_vec (acceptance_fields local remote now) with
      | Err e => (st, Err (NJson "serialize acceptance" e))
      | Ok payload => (publish_connection now t_dht network dht_on local remote payload st, Ok conn)
      end
  end.

Definition reject_connection (local remote : bytes) (st : Node) : Node := with_db (reject local remote (db st)).1 st.
Definition cancel_request (local remote : bytes) (st : Node) : Node := with_db (reject local remote (db st)).1 st.
Definition disconnect (local remote : bytes) (st : Node) : Node := with_db (remove local remote (db st)).1 st.
Definition resend_request (t_req now t_dht : N) (network dht_on : bool) (local remote : bytes) (msg : str) (st : Node) :
    Node * result NodeError Connection :=
  let st := with_db (reject local remote (db st)).1 st in
  let st := with_db (reject remote local (db st)).1 st in
  connect t_req now t_dht network dht_on local remote msg st.
Definition follow (t_req : N) (local remote : bytes) (st : Node) : Node * result NodeError Connection :=
  connect t_req t_req t_req false false local remote [] st.

(* ------------------------------------------------------------------ *)
(** ** The dead-drop poll: [background.rs] *)

(** Reading our mailbox of the local hash table.  The thread holds the
    database lock; storing a notification takes the same lock again. *)

(** Whether the record counts as handled, and the new database. *)
Definition drop_from_dht (now : N) (our : bytes) (envelope : DeadDropEnvelope) (st : Node) : outcome (Node * bool) :=
  let deposit st :=
    match deposit_raw now (mailbox_key our) (from_digest (message_id envelope)) (sealed_data envelope)
            (deposited_at envelope) (expires_at envelope) (db st) with
    | (d, Ok _) => (with_db d st, true)
    | (d, Err Ratchet.Expired) => (with_db d st, true)
    | (d, Err _) => (with_db d st, false)
    end in
  match value_from_slice (sealed_data envelope) with
  | Some v =>
      if type_is "connection_request" v then
        match key_field "initiator" v with
        | Some initiator =>
            match connections (db st) !! (our, initiator) with
            | None => Deadlock
            | Some _ => Done (st, true)
            end
        | None => Done (deposit st)
        end
      else if type_is "connection_accepted" v then
        match key_field "acceptor" v with
        | Some acceptor =>
            let '(d, rows) := establish our acceptor (default 0%Z (get_i64 "created_at" v)) (db st) in
            if 0 <? rows then Deadlock else Done (with_db d st, true)
        | None => Done (deposit st)
        end
      else Done (deposit st)
  | None => Done (deposit st)
  end.

Definition retrieve_dht_dead_drops (t_get now : N) (our : bytes) (st : Node) : outcome Node :=
  let dht_key := hash (mailbox_key our) in
  match Storage.get t_get dht_key (dht st) with
  | None => Done st
  | Some record =>
      match drop_from_slice (Storage.value record) with
      | Err _ => Done st
      | Ok envelope =>
          match drop_from_dht now our envelope st with
          | Deadlock => Deadlock
          | Done (st, processed) =>
              Done (if processed then with_dht (Storage.remove dht_key (dht st)).1 st else st)
          end
      end
  end.

(** Each pending message is announced and acknowledged. *)
Definition poll_one (our : bytes) (st : Node) (pm : PendingMessage) : Node :=
  let st := emit (MessageReceived our (hex_encode (hash (id pm)))) st in
  with_db (acknowledge (id pm) (db st)).1 st.

Definition poll (t_gc t_get t_drop now : N) (our : option bytes) (st : Node) : outcome Node :=
  let st := with_db (gc t_gc (db st)).1 st in
  match our with
  | None => Done st
  | Some pk =>
      match retrieve_dht_dead_drops t_get t_drop pk st with
      | Deadlock => Deadlock
      | Done st => Done (foldl (poll_one pk) st (check_mailbox now pk (db st)))
      end
  end.

(* ------------------------------------------------------------------ *)
(** ** Lemmas *)

Definition sent_dm_row (now ttl_secs : N) (conv local : bytes) (body : str) (enc : bytes) : MsgRow :=
  MkMsg conv local (as_i64 now) (add_i64 (as_i64 now) (as_i64 ttl_secs)) true (Some (preview_chars body)) false
    (Some enc) true.

(** Every branch of the database part of sending. *)
Lemma send_db_eq fresh nonce now t_conv t_drop local recipient x body ttl_secs d :
  send_db fresh nonce now t_conv t_drop local recipient x body ttl_secs d =
    match MessageEncryption.encrypt_message fresh nonce (as_bytes body) x with
    | Err e => (d, Err (NMessage "encrypt message" e))
    | Ok enc =>
        let i := blake3_hash (as_bytes body) in
        let c := Service.compute_conversation_id local recipient in
        match messages d !! i with
        | Some _ =>
            (with_conversations (insert_or_ignore c (Service.fresh_conv local recipient false t_conv) (conversations d)) d,
             Err (NMessage "store message" (Database "UNIQUE constraint failed: messages.message_id")))
        | None =>
            let dep := as_u64 (as_i64 now) in
            let exp := add64 dep (N.min ttl_secs DEAD_DROP_MAX_TTL_SECS) in
            ((deposit_raw t_drop (mailbox_key recipient) (from_digest i) enc dep exp
                (Service.stored local recipient false t_conv i (sent_dm_row now ttl_secs c local body enc) (as_i64 now) 0 d)).1,
             Ok (c, MkDeadDrop (hash (mailbox_key recipient)) i enc dep exp))
        end
    end.
Proof.
  unfold send_db. unfold se_bind at 1, se_lift at 1.
  destruct (MessageEncryption.encrypt_message _ _ _ _) as [enc|]; [|done]. cbn [map_err]. cbv zeta.
  unfold se_map_err, Service.get_or_create_conversation, exec, se_modify, se_ret, insert_message, se_bind.
  cbn [fst snd with_conversations messages conversations map_err m_conversation].
  destruct (messages d !! blake3_hash (as_bytes body)) as [m|] eqn:Em; [done|].
  destruct (insert_or_ignore_is_Some (Service.compute_conversation_id local recipient)
    (Service.fresh_conv local recipient false t_conv) (conversations d)) as [y Hy].
  unfold Service.fresh_conv in Hy. rewrite Hy. unfold Service.stored.
  rewrite (insert_or_ignore_fresh (blake3_hash (as_bytes body)) _ (messages d) Em). done.
Qed.

Definition dm_row (conv sender : bytes) (timestamp now : N) (body : str) : MsgRow :=
  MkMsg conv sender (as_i64 timestamp) (add_i64 (as_i64 now) 86400) false (Some (preview_chars body)) false None false.

(** A direct message that names us and a key is stored unless its id is
    taken; nothing else about it is looked at. *)
Lemma handle_dm_eq t_default t_conv now v our sender_hex sender body st :
  get_str "sender" v = Some sender_hex → get_str "recipient" v = Some (hex_encode our) →
  get_str "body" v = Some body → hex_decode sender_hex = Some sender → length sender = 32 →
  let timestamp := default t_default (get_u64 "timestamp" v) in
  let i := dm_id sender_hex body timestamp in
  let c := Service.compute_conversation_id our sender in
  handle_plaintext_dm t_default t_conv now v (Some our) st =
    emit (MessageReceived sender (hex_encode i))
      (with_db match messages (db st) !! i with
               | Some _ => with_conversations (insert_or_ignore c (Service.fresh_conv our sender false t_conv)
                             (conversations (db st))) (db st)
               | None => Service.stored our sender false t_conv i (dm_row c sender timestamp now body)
                           (as_i64 timestamp) 1 (db st)
               end st).
Proof.
  intros Hs Hr Hb Hh Hl timestamp i c. unfold handle_plaintext_dm. rewrite Hs, Hr, Hb, Hh, Hl.
  rewrite bool_decide_true by done. cbn [negb Nat.eqb]. cbv zeta. fold timestamp. fold i.
  unfold Service.get_or_create_conversation, exec, se_modify, se_ret, insert_message, se_bind. fold c.
  cbn [fst snd with_conversations messages conversations m_conversation].
  destruct (messages (db st) !! i) as [m|] eqn:Em; [done|].
  destruct (insert_or_ignore_is_Some c (Service.fresh_conv our sender false t_conv) (conversations (db st))) as [y Hy].
  unfold Service.fresh_conv in Hy. rewrite Hy. unfold Service.stored. fold c.
  rewrite (insert_or_ignore_fresh i _ (messages (db st)) Em). done.
Qed.

(** The messages a handler can leave behind: those tables alone decide
    [tables_ok]. *)
Lemma tables_ok_ext d d' :
  conversations d' = conversations d → messages d' = messages d → message_requests d' = message_requests d →
  Service.tables_ok d → Service.tables_ok d'.
Proof.
  intros E1 E2 E3 [H1' H2' H3' H4']. unfold Service.unread in *.
  split; unfold Service.unread; rewrite ?E1, ?E2, ?E3; done.
Qed.

Lemma tables_ok_drops d d' : drops_only d d' → Service.tables_ok d → Service.tables_ok d'.
Proof. intros [t ->]. by apply tables_ok_ext. Qed.
Lemma conns_ok_drops d d' : drops_only d d' → conns_ok d → conns_ok d'.
Proof. by intros [t ->]. Qed.

Lemma mark_read_ok c d : Service.tables_ok d → Service.tables_ok (mark_read c d).
Proof.
  intros Hd. unfold mark_read. cbv zeta.
  set (p := λ (_ : bytes) m, bool_decide (m_conversation m = c) && negb (m_is_read m)).
  assert (Hm : ∀ i m, update_where p (λ m, MkMsg (m_conversation m) (m_sender m) (m_received_at m) (m_expires_at m)
      true (m_preview m) (m_has_media m) (m_encrypted_body m) (m_is_encrypted m)) (messages d) !! i = Some m →
      ∃ m0, messages d !! i = Some m0 ∧ m_conversation m = m_conversation m0 ∧
        (m_is_read m = false → m_is_read m0 = false ∧ m_conversation m0 ≠ c)).
  { intros i m. rewrite lookup_update_where. destruct (messages d !! i) as [m0|]; cbn; [|done]. intros [= <-].
    exists m0. split; [done|]. destruct (p i m0) eqn:E; cbn; [split; done|]. split; [done|]. intros Hf. split; [done|].
    intros Hc. subst p. cbn in E. rewrite Hf, Hc, bool_decide_true in E by done. done. }
  split; cbn.
  - intros i m Hi. apply Hm in Hi as (m0 & Hi & -> & _). apply lookup_alter_is_Some. by eapply Service.ok_conv.
  - intros k r. rewrite lookup_alter_Some. intros [(<- & r0 & Hr & ->)|[_ Hr]]; by apply (Service.ok_key d Hd) in Hr.
  - intros k r Hr. unfold Service.unread in *. cbn.
    apply lookup_alter_Some in Hr as [(<- & r0 & Hr & ->)|[Hne Hr]]; cbn.
    + match goal with |- (Z.of_nat ?n ≤ 0)%Z => assert (¬ 0 < n) as ?; [|lia] end.
      intros (i & m & Hi & Hpm)%count_where_pos. apply Hm in Hi as (m0 & _ & Hc & Hf).
      bprop. destruct Hf; congruence.
    + etrans; [|apply (Service.ok_unread d Hd k r Hr)]. apply Nat2Z.inj_le. unfold Service.unread. apply count_where_le.
      intros i m Hi Hpm. apply Hm in Hi as (m0 & Hi & Hc & Hf). bprop. exists m0.
      destruct Hf as [Hf _]; [done|]. split; [done|]. by rewrite <- Hc, Hf, bool_decide_true by done.
  - apply (Service.ok_status d Hd).
Qed.
End node.

(* ------------------------------------------------------------------ *)
(** ** Everything the node does to its tables *)

Section properties.
Context `{Primitives, Hex, Json}.

Inductive node_step (st : Node) : Node → Prop :=
| ns_send fresh nonce now t1 t2 t3 net on local recipient to body ttl x :
    node_step st (send fresh nonce now t1 t2 t3 net on local recipient to body ttl x st).1
| ns_read c : node_step st (with_db (mark_read c (db st)) st)
| ns_ingest t1 t2 now t3 our payload : node_step st (ingest t1 t2 now t3 our payload st)
| ns_connect t1 now t2 net on local remote msg : node_step st (connect t1 now t2 net on local remote msg st).1
| ns_accept t1 now t2 net on local remote : node_step st (accept_connection t1 now t2 net on local remote st).1
| ns_reject local remote : node_step st (reject_connection local remote st)
| ns_cancel local remote : node_step st (cancel_request local remote st)
| ns_disconnect local remote : node_step st (disconnect local remote st)
| ns_resend t1 now t2 net on local remote msg : node_step st (resend_request t1 now t2 net on local remote msg st).1
| ns_follow t local remote : node_step st (follow t local remote st).1
| ns_poll t1 t2 t3 now our st' : poll t1 t2 t3 now our st = Done st' → node_step st st'.

Definition db_ok (d : MetadataDb) : Prop := Service.tables_ok d ∧ conns_ok d.

Lemma db_ok_drops d d' : drops_only d d' → db_ok d → db_ok d'.
Proof. intros Hd [? ?]. split; [by eapply tables_ok_drops|by eapply conns_ok_drops]. Qed.

Lemma db_ok_conns d d' : conn_step d d' → conversations d' = conversations d → messages d' = messages d →
  message_requests d' = message_requests d → db_ok d → db_ok d'.
Proof. intros Hs E1 E2 E3 [? ?]. split; [by eapply tables_ok_ext|by eapply conn_step_ok]. Qed.

Lemma create_db_ok our their req t d : db_ok d →
  db_ok (with_conversations (insert_or_ignore (Service.compute_conversation_id our their)
    (Service.fresh_conv our their req t) (conversations d)) d).
Proof. intros [? ?]. split; [by apply Service.create_ok|done]. Qed.

Lemma stored_db_ok our their req t i row now k d : db_ok d →
  m_conversation row = Service.compute_conversation_id our their → (0 ≤ k)%Z → (m_is_read row = true ∨ 1 ≤ k)%Z →
  db_ok (Service.stored our their req t i row now k d).
Proof. intros [? ?] ???. split; [by apply Service.stored_ok|done]. Qed.

Lemma send_db_ok fresh nonce now t1 t2 local recipient x body ttl d :
  db_ok d → db_ok (send_db fresh nonce now t1 t2 local recipient x body ttl d).1.
Proof.
  intros Hd. rewrite send_db_eq. destruct (MessageEncryption.encrypt_message _ _ _ _) as [enc|]; [|done].
  cbv zeta. destruct (messages d !! _); [by apply create_db_ok|].
  eapply db_ok_drops; [apply deposit_raw_only|]. apply stored_db_ok; [done..|]. by left.
Qed.

Lemma publish_vec_db r st : db (publish_vec r st) = db st.
Proof. by destruct r. Qed.

Lemma send_db_of fresh nonce now t1 t2 t3 net on local recipient to body ttl x st :
  db (send fresh nonce now t1 t2 t3 net on local recipient to body ttl x st).1 =
    match x with
    | Ok k => (send_db fresh nonce now t1 t2 local recipient k body (default 86400%N ttl) (db st)).1
    | Err _ => db st
    end.
Proof.
  unfold send. destruct x as [k|]; [|done]. destruct (send_db _ _ _ _ _ _ _ _ _ _ _) as [d [[c e]|]]; [|done].
  cbv zeta. destruct net, on; try destruct (drop_to_vec e); cbn; by rewrite ?publish_vec_db.
Qed.

Lemma publish_connection_db now t net on local remote payload st :
  db (publish_connection now t net on local remote payload st) = db st.
Proof. unfold publish_connection. destruct net, on; cbn; by rewrite ?publish_vec_db. Qed.

Lemma connect_db t1 now t2 net on local remote msg st :
  db (connect t1 now t2 net on local remote msg st).1 =
    (request t1 local remote (if bool_decide (msg = []) then None else Some msg) (db st)).1.
Proof.
  unfold connect. cbv zeta. destruct (request _ _ _ _ _) as [d [c|]]; [|done].
  destruct (object_to_vec _); [|done]. apply publish_connection_db.
Qed.

Lemma accept_connection_db t1 now t2 net on local remote st :
  db (accept_connection t1 now t2 net on local remote st).1 = (accept t1 local remote (db st)).1.
Proof.
  unfold accept_connection. destruct (accept _ _ _ _) as [d [c|]]; [|done].
  destruct (object_to_vec _); [|done]. apply publish_connection_db.
Qed.

Lemma request_db_ok t from to m d : db_ok d → db_ok (request t from to m d).1.
Proof.
  intros Hd. apply (db_ok_conns d); [constructor|..|done];
    unfold request; destruct (message_too_long m); try done; by destruct (connections d !! _).
Qed.

Lemma establish_ok our peer at_ d : db_ok d → db_ok (establish our peer at_ d).1.
Proof.
  intros Hd. unfold establish. destruct (connections d !! (our, peer)) as [r|] eqn:Er; [|done].
  destruct (bool_decide _); [|done]. destruct Hd as [Ht Hc]. split; [by apply (tables_ok_ext d)|].
  apply (insert_conn_ok (our, peer) _ d Hc); cbn; [set_solver|]. by apply Hc in Er as [_ ?].
Qed.

Lemma handle_connection_ok now our v d : db_ok d → db_ok (handle_connection now our v d).
Proof.
  intros Hd. unfold handle_connection, store_request.
  destruct (type_is _ _); [destruct (key_field _ _) as [i|]; [|done]|].
  - destruct Hd as [Ht Hc]. split; [by apply (tables_ok_ext d)|]. unfold insert_or_ignore.
    destruct (connections d !! (our, i)); [done|]. apply (insert_conn_ok (our, i) _ d Hc); cbn; [set_solver|by right].
  - destruct (type_is _ _); [|done]. destruct (key_field _ _) as [a|]; [by apply establish_ok|done].
Qed.

Lemma handle_dm_ok t1 t2 now v our st : db_ok (db st) → db_ok (db (handle_plaintext_dm t1 t2 now v our st)).
Proof.
  intros Hd. destruct (get_str "sender" v) as [sh|] eqn:E1; [|by unfold handle_plaintext_dm; rewrite E1].
  destruct (get_str "recipient" v) as [rh|] eqn:E2; [|by unfold handle_plaintext_dm; rewrite E1, E2].
  destruct (get_str "body" v) as [b|] eqn:E3; [|by unfold handle_plaintext_dm; rewrite E1, E2, E3].
  destruct our as [pk|]; [|by unfold handle_plaintext_dm; rewrite E1, E2, E3].
  destruct (decide (rh = hex_encode pk)) as [->|Hne];
    [|unfold handle_plaintext_dm; rewrite E1, E2, E3; by rewrite bool_decide_false].
  destruct (hex_decode sh) as [s|] eqn:E4;
    [|unfold handle_plaintext_dm; rewrite E1, E2, E3, E4; by rewrite bool_decide_true].
  destruct (decide (length s = 32)) as [E5|E5];
    [|unfold handle_plaintext_dm; rewrite E1, E2, E3, E4, bool_decide_true by done;
      by rewrite (proj2 (Nat.eqb_neq _ _) E5)].
  rewrite (handle_dm_eq _ _ _ _ _ _ s b st E1 E2 E3 E4 E5). cbn.
  destruct (messages (db st) !! _); [by apply create_db_ok|]. apply stored_db_ok; [done..|lia|right; lia].
Qed.

Lemma handle_drop_ok now t e our st : db_ok (db st) → db_ok (db (handle_drop now t e our st)).
Proof.
  intros Hd. unfold handle_drop. destruct (_ <=? now)%N; [done|]. cbv zeta.
  pose proof (deposit_raw_only t (from_digest (mailbox_key_ e)) (from_digest (message_id e)) (sealed_data e)
    (deposited_at e) (N.min (expires_at e) (add64 now DEAD_DROP_MAX_TTL_SECS)) (db st)) as Ho.
  destruct (deposit_raw _ _ _ _ _ _ _) as [d [u|]]; cbn in *; [|by eapply db_ok_drops].
  assert (Hd' : db_ok d) by by eapply db_ok_drops.
  destruct our as [pk|]; [|done]. destruct (bool_decide _); [|done].
  destruct (connection_event _ _ _); cbn; destruct (value_from_slice _); try done; by apply handle_connection_ok.
Qed.

Lemma ingest_ok t1 t2 now t3 our payload st : db_ok (db st) → db_ok (db (ingest t1 t2 now t3 our payload st)).
Proof.
  intros Hd. unfold ingest. destruct (_ <? _); [done|].
  destruct (value_from_slice payload); [destruct (type_is _ _); [by apply handle_dm_ok|]|];
    (destruct (drop_from_slice payload); [by apply handle_drop_ok|done]).
Qed.

Lemma poll_one_only our pms st : drops_only (db st) (db (foldl (poll_one our) st pms)).
Proof.
  revert st. induction pms as [|pm pms IH]; intros st; [apply drops_only_refl|]. cbn.
  destruct (IH (poll_one our st pm)) as [t ->]. cbn.
  destruct (acknowledge_only (id pm) (db st)) as [t' ->]. by exists t.
Qed.

Lemma retrieve_ok t now our st st' :
  retrieve_dht_dead_drops t now our st = Done st' → db_ok (db st) → db_ok (db st').
Proof.
  unfold retrieve_dht_dead_drops. destruct (Storage.get _ _ _) as [record|]; [|by intros [= <-]].
  destruct (drop_from_slice _) as [e|]; [|by intros [= <-]].
  intros Hr Hd. assert (Ho : ∀ st1 b, drop_from_dht now our e st = Done (st1, b) → db_ok (db st1)).
  { intros st1 b. unfold drop_from_dht.
    pose proof (deposit_raw_only now (mailbox_key our) (from_digest (message_id e)) (sealed_data e)
      (deposited_at e) (expires_at e) (db st)) as Hdrop.
    destruct (deposit_raw _ _ _ _ _ _ _) as [d r] eqn:Er. cbn in Hdrop.
    assert (Hdep : db_ok d) by by eapply db_ok_drops.
    assert (Hfin : Done match r with Ok _ => (with_db d st, true) | Err Ratchet.Expired => (with_db d st, true)
                        | Err _ => (with_db d st, false) end = Done (st1, b) → db_ok (db st1)).
    { intros E. destruct r as [|[]]; by injection E as <- <-. }
    destruct (value_from_slice _) as [v|]; [|exact Hfin].
    destruct (type_is _ v); [destruct (key_field _ v) as [i|]; [|exact Hfin]|
      destruct (type_is _ v); [destruct (key_field _ v) as [a|]; [|exact Hfin]|exact Hfin]].
    - destruct (connections (db st) !! (our, i)); [|done]. by intros [= <- <-].
    - pose proof (establish_ok our a (default 0%Z (get_i64 "created_at" v)) (db st) Hd) as He.
      destruct (establish _ _ _ _) as [d' rows]. destruct (0 <? rows); [done|]. by intros [= <- <-]. }
  destruct (drop_from_dht now our e st) as [[st1 b]|]; [|done]. specialize (Ho st1 b eq_refl).
  injection Hr as <-. by destruct b.
Qed.

Lemma poll_ok t1 t2 t3 now our st st' : poll t1 t2 t3 now our st = Done st' → db_ok (db st) → db_ok (db st').
Proof.
  unfold poll. cbv zeta. intros Hp Hd. assert (Hg : db_ok (gc t1 (db st)).1) by (eapply db_ok_drops; [apply drop_gc_only|done]).
  destruct our as [pk|]; [|by injection Hp as <-].
  destruct (retrieve_dht_dead_drops _ _ _ _) as [st1|] eqn:Er; [|done]. injection Hp as <-.
  eapply db_ok_drops; [apply poll_one_only|]. by eapply retrieve_ok.
Qed.

Lemma node_step_ok st st' : db_ok (db st) → node_step st st' → db_ok (db st').
Proof.
  intros Hd Hs. destruct Hs.
  - rewrite send_db_of. destruct x; [by apply send_db_ok|done].
  - destruct Hd. split; [by apply mark_read_ok|done].
  - by apply ingest_ok.
  - rewrite connect_db. by apply request_db_ok.
  - rewrite accept_connection_db. apply (db_ok_conns (db st)); [constructor|done..].
  - apply (db_ok_conns (db st)); [constructor|done..].
  - apply (db_ok_conns (db st)); [constructor|done..].
  - apply (db_ok_conns (db st)); [constructor|done..].
  - unfold resend_request. rewrite connect_db. apply request_db_ok.
    eapply db_ok_conns; [apply cs_reject|done..|]. eapply db_ok_conns; [apply cs_reject|done..].
  - unfold follow. rewrite connect_db. by apply request_db_ok.
  - by eapply poll_ok.
Qed.

(** C11. Whatever is sent, ingested, polled, requested, accepted, rejected or
    read, in any order and with any payloads from the network, the node's
    tables stay well formed: every message is in a conversation, a
    conversation's key is the hash of its two parties, its unread counter is
    never below the number of its unread messages, and every connection is
    pending or connected and was started by one of its two parties. *)
Theorem node_tables_invariant (st0 st : Node) (Hempty : db st0 = empty_db) (Hrun : rtc node_step st0 st) :
  (∀ i m, messages (db st) !! i = Some m → ∃ r, conversations (db st) !! m_conversation m = Some r ∧
     m_conversation m = Service.compute_conversation_id (our_pubkey r) (their_pubkey r) ∧
     (Z.of_nat (Service.unread (m_conversation m) (db st)) ≤ unread_count r)%Z) ∧
  (∀ l r row, connections (db st) !! (l, r) = Some row →
     c_status row ∈ ["pending_outgoing"; "pending_incoming"; "connected"]%string ∧
     (c_initiator row = Some l ∨ c_initiator row = Some r)).
Proof.
  assert (db_ok (db st)) as [Ht Hc].
  { refine (rtc_preserve (λ st, db_ok (db st)) _ _ _ node_step_ok _ Hrun). rewrite Hempty.
    split; [apply Service.empty_ok|]. intros l r row. cbn. by rewrite lookup_empty. }
  split; [|exact Hc]. intros i m Hi. destruct (Service.ok_conv _ Ht i m Hi) as [r Hr]. exists r.
  split_and!; [done|by apply (Service.ok_key _ Ht)|by apply (Service.ok_unread _ Ht)].
Qed.
End properties.

(* ------------------------------------------------------------------ *)
(** ** A concrete JSON *)

#[global] Instance field_eq_dec : EqDecision field.
Proof. solve_decision. Defined.
#[global] Instance field_countable : Countable field.
Proof.
  refine (inj_countable' (λ f, match f with FStr s => inl (inl s) | FOptStr o => inl (inr o) | FU64 n => inr n end)
    (λ x, match x with inl (inl s) => FStr s | inl (inr o) => FOptStr o | inr n => FU64 n end) _).
  by intros [].
Defined.
#[global] Instance drop_eq_dec : EqDecision DeadDropEnvelope.
Proof. solve_decision. Defined.
#[global] Instance drop_countable : Countable DeadDropEnvelope.
Proof.
  refine (inj_countable' (λ e, (mailbox_key_ e, message_id e, sealed_data e, deposited_at e, expires_at e))
    (λ x, match x with (m, i, s, d, e) => MkDeadDrop m i s d e end) _).
  by intros [].
Defined.

(** Documents as numbers; a document is one big byte. *)
Module JsonToy.
Definition doc : Type := list (string * field) + DeadDropEnvelope.
Definition to_vec (x : doc) : bytes := [Npos (encode x)].
Definition from_slice (b : bytes) : option doc :=
  match b with [Npos p] => decode p | _ => None end.

#[export] Instance json : Json := {|
  value := list (string * field);
  value_from_slice b := match from_slice b with Some (inl fs) => Some fs | Some (inr _) => Some [] | None => None end;
  get_str := str_field;
  get_u64 := u64_field;
  get_i64 := i64_field;
  object_to_vec fs := Ok (to_vec (inl fs));
  drop_to_vec e := Ok (to_vec (inr e));
  drop_from_slice b := match from_slice b with Some (inr e) => Ok e | _ => Err "missing field `mailbox_key`"%string end
|}.

Lemma from_to_vec x : from_slice (to_vec x) = Some x.
Proof. apply decode_encode. Qed.

#[export] Instance json_laws : JsonLaws.
Proof.
  split.
  - intros fs _. exists (to_vec (inl fs)), fs. cbn -[to_vec from_slice]. by rewrite from_to_vec.
  - intros e. exists (to_vec (inr e)). cbn -[to_vec from_slice]. rewrite from_to_vec. split_and!; [done..|].
    by intros v [= <-].
  - intros fs b [= <-] _. cbn -[to_vec from_slice]. by rewrite from_to_vec.
Qed.
End JsonToy.

Section witnesses.
Import Toy HexToy JsonToy.

Definition iw_alice : bytes := replicate 32 1%N.
Definition iw_bob : bytes := replicate 32 2%N.
Definition iw_node : Node := MkNode empty_db (Storage.new 10 100) [] [].

Lemma node_tables_invariant_witness (* a request, made and accepted by its maker *) :
  ∃ row, connections (db (accept_connection 6 6 6 true true iw_alice iw_bob
      (connect 5 5 5 true true iw_alice iw_bob (lit "hi") iw_node).1).1) !! (iw_alice, iw_bob) = Some row ∧
    (c_initiator row = Some iw_alice ∨ c_initiator row = Some iw_bob).
Proof.
  assert (Hr : connections (db (accept_connection 6 6 6 true true iw_alice iw_bob
      (connect 5 5 5 true true iw_alice iw_bob (lit "hi") iw_node).1).1) !! (iw_alice, iw_bob) =
    Some (MkConn "connected" 5 6 (Some (lit "hi")) (Some iw_alice))).
  { rewrite accept_connection_db, connect_db. vm_compute. reflexivity. }
  eexists. split; [exact Hr|]. eapply (node_tables_invariant iw_node).
  - reflexivity.
  - eapply rtc_l; [apply (ns_connect _ 5 5 5 true true iw_alice iw_bob (lit "hi"))|].
    apply rtc_once, (ns_accept _ 6 6 6 true true iw_alice iw_bob).
  - exact Hr.
Defined.
End witnesses.
