(* ===== verification/Delivery.v ===== *)
(** * What delivery promises: two nodes and the network

    The node's handlers ([Ingest]) run on both ends of an exchange.  A
    payload is what one node puts in its outbox and the other ingests; the
    network is whoever hands it over, and may make payloads of its own. *)
From S2P Require Import Prelude Types Crypto Unicode Ratchet Tables Metadata Messages Connections Dht Ingest.
Import DeadDrop.

Section delivery.
Context `{Primitives, HexLaws, JsonLaws}.

(** A public key. *)
Definition key_ok (k : bytes) : Prop := length k = 32 ∧ Forall byte_ok k.

(* ------------------------------------------------------------------ *)
(** ** Printed payloads *)

Ltac distinct := refine (bool_decide_unpack _ _); by vm_compute.

Lemma object_field fs b : NoDup (fs.*1) → object_to_vec fs = Ok b →
  ∃ v, value_from_slice b = Some v ∧ (∀ k, get_str k v = str_field k fs) ∧ (∀ k, get_u64 k v = u64_field k fs).
Proof.
  intros Hd Hb. destruct (object_parse fs Hd) as (b' & v & Hb' & Hv & Hs & Hu & _).
  rewrite Hb in Hb'. injection Hb' as <-. eauto.
Qed.

Lemma object_printed fs : NoDup (fs.*1) → ∃ b, object_to_vec fs = Ok b.
Proof. intros Hd. destruct (object_parse fs Hd) as (b & v & Hb & _). eauto. Qed.

Lemma key_field_str k v key : key_ok key → get_str k v = Some (hex_encode key) → key_field k v = Some key.
Proof.
  intros [Hl Hb] Hv. unfold key_field. rewrite Hv. cbn. rewrite hex_decode_encode by done. cbn. by rewrite Hl.
Qed.

(** A direct message in clear, printed by whoever. *)
Lemma ingest_dm t_default t_conv now t_drop sender our body at_ payload st :
  object_to_vec (direct_message sender (hex_encode our) body at_) = Ok payload →
  length payload ≤ MAX_ENVELOPE_SIZE → key_ok sender →
  let timestamp := as_u64 (as_i64 at_) in
  let i := dm_id (hex_encode sender) body timestamp in
  let c := Service.compute_conversation_id our sender in
  ingest t_default t_conv now t_drop (Some our) payload st =
    emit (MessageReceived sender (hex_encode i))
      (with_db match messages (db st) !! i with
               | Some _ => with_conversations (insert_or_ignore c (Service.fresh_conv our sender false t_conv)
                             (conversations (db st))) (db st)
               | None => Service.stored our sender false t_conv i (dm_row c sender timestamp now body)
                           (as_i64 timestamp) 1 (db st)
               end st).
Proof.
  intros Hp Hl [Hs Hb]. apply object_field in Hp as (v & Hv & Hstr & Hu); [|distinct].
  unfold ingest. rewrite (proj2 (Nat.ltb_ge _ _) Hl), Hv. unfold type_is. rewrite (Hstr "type"%string).
  rewrite bool_decide_true by done.
  rewrite (handle_dm_eq t_default t_conv now v our (hex_encode sender) sender body st);
    rewrite ?Hstr; try done; [|by apply hex_decode_encode].
  by rewrite Hu.
Qed.

(** A dead drop, printed by whoever. *)
Lemma ingest_drop t_default t_conv now t_drop our e payload st :
  drop_to_vec e = Ok payload → length payload ≤ MAX_ENVELOPE_SIZE →
  ingest t_default t_conv now t_drop our payload st = handle_drop now t_drop e our st.
Proof.
  intros Hp Hl. destruct (drop_parse e) as (b & Hb & Hd & Ht). rewrite Hp in Hb. injection Hb as <-.
  unfold ingest. rewrite (proj2 (Nat.ltb_ge _ _) Hl), Hd.
  destruct (value_from_slice payload) as [v|] eqn:Ev; [|done].
  unfold type_is. by rewrite (Ht v).
Qed.

(** When a drop deposited at [sent] is taken in while it lasts. *)
Record in_time (sent now t_drop : N) : Prop := {
  it_sent : (sent ≤ now)%N;
  it_now : (now ≤ t_drop)%N;
  it_left : (t_drop < sent + CONNECTION_TTL)%N;
  it_small : (t_drop < 2 ^ 62)%N
}.

(** A connection payload in a drop for us reaches the connection handler. *)
Lemma handle_connection_drop sent now t_drop our i data v st :
  in_time sent now t_drop → value_from_slice data = Some v →
  ∃ drops, handle_drop now t_drop (MkDeadDrop (hash (mailbox_key our)) i data sent (add64 sent CONNECTION_TTL)) (Some our) st =
    emit_opt (connection_event our i (Some v))
      (with_db (handle_connection now our v (with_dead_drops drops (db st))) st).
Proof.
  intros [Hs Hn Hl Hm] Hv. unfold handle_drop. cbn [expires_at deposited_at sealed_data mailbox_key_ message_id].
  unfold CONNECTION_TTL in *. pose proof (eq_refl : DEAD_DROP_MAX_TTL_SECS = 1209600%N) as Hmax.
  rewrite !add64_small by (unfold u64, u64_modulus; lia).
  destruct (N.leb_spec (sent + 7 * 24 * 60 * 60) now); [lia|]. cbv zeta.
  rewrite (N.min_l (sent + _)) by lia. unfold deposit_raw.
  destruct (N.leb_spec (sent + 7 * 24 * 60 * 60) t_drop); [lia|].
  rewrite add64_small by (unfold u64, u64_modulus; lia). rewrite N.min_l by lia.
  unfold se_bind, se_lift. rewrite !sql_u64_ok by lia. unfold insert_drop, exec, se_modify.
  rewrite bool_decide_true by done. rewrite Hv. by eexists.
Qed.

Lemma request_field_v local remote msg at_ data : object_to_vec (request_fields local remote msg at_) = Ok data →
  ∃ v, value_from_slice data = Some v ∧ get_str "type" v = Some (lit "connection_request") ∧
    get_str "initiator" v = Some (hex_encode local) ∧ get_str "message" v = msg.
Proof.
  intros Hd. apply object_field in Hd as (v & Hv & Hs & _); [|distinct]. exists v. rewrite !Hs. done.
Qed.

Lemma acceptance_field_v local remote at_ data : object_to_vec (acceptance_fields local remote at_) = Ok data →
  ∃ v, value_from_slice data = Some v ∧ get_str "type" v = Some (lit "connection_accepted") ∧
    get_str "acceptor" v = Some (hex_encode local).
Proof.
  intros Hd. apply object_field in Hd as (v & Hv & Hs & _); [|distinct]. exists v. rewrite !Hs. done.
Qed.

(** A request in a drop for us makes a pending row, unless there is one, and
    is announced. *)
Lemma request_arrives sent now t_drop our peer msg at_ i data st :
  in_time sent now t_drop → key_ok peer → object_to_vec (request_fields peer our msg at_) = Ok data →
  let st' := handle_drop now t_drop (MkDeadDrop (hash (mailbox_key our)) i data sent (add64 sent CONNECTION_TTL)) (Some our) st in
  events st' = events st ++ [ConnectionRequestReceived peer] ∧ outbox st' = outbox st ∧
  blocks (db st') = blocks (db st) ∧
  match connections (db st) !! (our, peer) with
  | None => ∃ at', connections (db st') = <[(our, peer) := MkConn "pending_incoming" at' at' msg (Some peer)]> (connections (db st))
  | Some _ => connections (db st') = connections (db st)
  end.
Proof.
  intros Ht Hk Hd. apply request_field_v in Hd as (v & Hv & Hty & Hin & Hm).
  destruct (handle_connection_drop sent now t_drop our i data v st Ht Hv) as [drops Hh]. cbv zeta. rewrite Hh. clear Hh.
  unfold connection_event, handle_connection, type_is. rewrite Hty, !bool_decide_true by done.
  rewrite (key_field_str "initiator" v peer Hk Hin), Hm. cbn. split_and!; [done..|].
  unfold insert_or_ignore. destruct (connections (db st) !! (our, peer)); [done|by eexists].
Qed.

(** An acceptance in a drop for us connects a pending request of ours. *)
Lemma acceptance_arrives sent now t_drop our peer at_ i data st r :
  in_time sent now t_drop → key_ok peer → object_to_vec (acceptance_fields peer our at_) = Ok data →
  connections (db st) !! (our, peer) = Some r → c_status r = "pending_outgoing"%string →
  let st' := handle_drop now t_drop (MkDeadDrop (hash (mailbox_key our)) i data sent (add64 sent CONNECTION_TTL)) (Some our) st in
  events st' = events st ++ [ConnectionEstablished peer] ∧ outbox st' = outbox st ∧
  ∃ at', connections (db st') =
    <[(our, peer) := MkConn "connected" (c_created_at r) at' (c_message r) (c_initiator r)]> (connections (db st)).
Proof.
  intros Ht Hk Hd Hr Hs. apply acceptance_field_v in Hd as (v & Hv & Hty & Hin).
  destruct (handle_connection_drop sent now t_drop our i data v st Ht Hv) as [drops Hh]. cbv zeta. rewrite Hh. clear Hh.
  unfold connection_event, handle_connection, type_is. rewrite Hty.
  rewrite (bool_decide_false (Some (lit "connection_accepted") = Some (lit "connection_request"))) by by vm_compute.
  rewrite bool_decide_true by done.
  rewrite (key_field_str "acceptor" v peer Hk Hin). cbn. unfold establish. cbn. rewrite Hr, bool_decide_true by done.
  split_and!; [done..|by eexists].
Qed.

(** What a publication leaves in the outbox. *)
Lemma publish_connection_outbox now t on local remote payload st :
  ∃ p, drop_to_vec (MkDeadDrop (hash (mailbox_key remote)) (blake3_hash payload) payload now (add64 now CONNECTION_TTL)) = Ok p ∧
    outbox (publish_connection now t true on local remote payload st) = outbox st ++ [p].
Proof.
  destruct (drop_parse (MkDeadDrop (hash (mailbox_key remote)) (blake3_hash payload) payload now (add64 now CONNECTION_TTL)))
    as (p & Hp & _). exists p. split; [done|].
  unfold publish_connection. cbv zeta. rewrite Hp. by destruct on.
Qed.

Lemma connect_published t1 now t on local remote msg st :
  let m := if bool_decide (msg = []) then None else Some msg in
  connections (db st) !! (local, remote) = None → message_too_long m = false →
  let st' := (connect t1 now t true on local remote msg st).1 in
  ∃ data p, object_to_vec (request_fields local remote m t1) = Ok data ∧
    drop_to_vec (MkDeadDrop (hash (mailbox_key remote)) (blake3_hash data) data now (add64 now CONNECTION_TTL)) = Ok p ∧
    outbox st' = outbox st ++ [p] ∧
    connections (db st') =
      <[(local, remote) := MkConn "pending_outgoing" (as_i64 t1) (as_i64 t1) m (Some local)]> (connections (db st)).
Proof.
  intros m Hn Hl. cbv zeta. rewrite connect_db. unfold connect. fold m. cbv zeta. unfold request at 1 2. rewrite Hl, Hn.
  destruct (object_printed (request_fields local remote m t1)) as [data Hd]; [distinct|].
  unfold m in *. cbn [message created_at]. rewrite Hd.
  destruct (publish_connection_outbox now t on local remote data
    (with_db (with_connections (<[(local, remote):=MkConn "pending_outgoing" (as_i64 t1) (as_i64 t1) (if bool_decide (msg = []) then None else Some msg)
      (Some local)]> (connections (db st))) (db st)) st)) as (p & Hp & Ho).
  exists data, p. cbn [fst]. by rewrite Ho.
Qed.

Lemma accept_published t1 now t on local remote st :
  let st' := (accept_connection t1 now t true on local remote st).1 in
  ∃ data p, object_to_vec (acceptance_fields local remote now) = Ok data ∧
    drop_to_vec (MkDeadDrop (hash (mailbox_key remote)) (blake3_hash data) data now (add64 now CONNECTION_TTL)) = Ok p ∧
    outbox st' = outbox st ++ [p] ∧ db st' = (accept t1 local remote (db st)).1.
Proof.
  cbv zeta. rewrite accept_connection_db. unfold accept_connection.
  assert (E : (accept t1 local remote (db st)).2 = Ok (MkConnection remote local Active t1 t1 None)) by reflexivity.
  destruct (accept t1 local remote (db st)) as [d r]. cbn [snd] in E. subst r.
  destruct (object_printed (acceptance_fields local remote now)) as [data Hd]; [distinct|]. rewrite Hd. cbv zeta.
  destruct (publish_connection_outbox now t on local remote data (with_db d st)) as (p & Hp & Ho).
  exists data, p. cbn [fst]. by rewrite Ho.
Qed.

(* ------------------------------------------------------------------ *)
(** ** Properties *)

(** C7. A connection is made by one exchange.  The request goes out in one
    drop; the peer that takes it in has a pending request naming its sender
    and its message, and accepting it connects the peer and sends one drop
    back; when that arrives the requester is connected too, and messages may
    be sent. *)
Theorem connection_handshake (t1 s1 h1 r1 d1 t2 s2 h2 r2 d2 x1 x2 x3 x4 : N) (on1 on2 : bool) (alice bob : bytes)
  (msg : str) (a b : Node)
  (Ha : key_ok alice) (Hb : key_ok bob) (Hne : alice ≠ bob)
  (Hna : connections (db a) !! (alice, bob) = None) (Hnb : connections (db b) !! (bob, alice) = None)
  (Hlen : message_too_long (Some msg) = false) (Hmsg : msg ≠ [])
  (Hgo : in_time s1 r1 d1) (Hback : in_time s2 r2 d2) :
  let a1 := (connect t1 s1 h1 true on1 alice bob msg a).1 in
  ∃ request, outbox a1 = outbox a ++ [request] ∧ (length request ≤ MAX_ENVELOPE_SIZE →
  let b1 := ingest x1 x2 r1 d1 (Some bob) request b in
  let b2 := (accept_connection t2 s2 h2 true on2 bob alice b1).1 in
  conn_status bob alice (db b1) = Some PendingIncoming ∧
  c_message <$> connections (db b1) !! (bob, alice) = Some (Some msg) ∧
  events b1 = events b ++ [ConnectionRequestReceived alice] ∧
  conn_status bob alice (db b2) = Some Active ∧
  ∃ acceptance, outbox b2 = outbox b ++ [acceptance] ∧ (length acceptance ≤ MAX_ENVELOPE_SIZE →
  let a2 := ingest x3 x4 r2 d2 (Some alice) acceptance a1 in
  conn_status alice bob (db a2) = Some Active ∧ events a2 = events a1 ++ [ConnectionEstablished bob] ∧
  Service.may_send alice bob (db a2) = true ∧ Service.may_send bob alice (db b2) = true)).
Proof.
  cbv zeta. pose proof (connect_published t1 s1 h1 on1 alice bob msg a) as Hc. cbv zeta in Hc.
  rewrite bool_decide_false in Hc by done. destruct (Hc Hna Hlen) as (data & p & Hd & Hp & Ho & Hrow). clear Hc.
  exists p. split; [done|]. intros Hpl. rewrite (ingest_drop _ _ _ _ _ _ p b Hp Hpl).
  pose proof (request_arrives s1 r1 d1 bob alice (Some msg) t1 (blake3_hash data) data b Hgo Ha Hd) as Hr.
  cbv zeta in Hr. rewrite Hnb in Hr. set (b1 := handle_drop _ _ _ _ _) in *.
  destruct Hr as (Hev & Hob & _ & at' & Hrb).
  assert (Hb1 : connections (db b1) !! (bob, alice) = Some (MkConn "pending_incoming" at' at' (Some msg) (Some alice)))
    by (rewrite Hrb; apply lookup_insert_eq).
  destruct (accept_published t2 s2 h2 on2 bob alice b1) as (data2 & p2 & Hd2 & Hp2 & Ho2 & Hdb2). cbv zeta in *.
  set (b2 := (accept_connection _ _ _ _ _ _ _ _).1) in *.
  assert (Hb2 : connections (db b2) !! (bob, alice) =
    Some (MkConn "connected" at' (as_i64 t2) (Some msg) (Some alice))).
  { rewrite Hdb2. unfold accept, se_bind, exec, se_modify, set_connected. cbn.
    rewrite lookup_alter_ne by congruence. by rewrite lookup_alter_eq, Hb1. }
  unfold conn_status. rewrite Hb1, Hb2. split_and!; [done..|]. exists p2. split; [by rewrite Ho2, Hob|].
  intros Hpl2. rewrite (ingest_drop _ _ _ _ _ _ p2 _ Hp2 Hpl2).
  set (a1 := (connect _ _ _ _ _ _ _ _ _).1) in *.
  destruct (acceptance_arrives s2 r2 d2 alice bob s2 (blake3_hash data2) data2 a1
    (MkConn "pending_outgoing" (as_i64 t1) (as_i64 t1) (Some msg) (Some alice)) Hback Hb Hd2) as (Hev2 & _ & at2 & Hra);
    [rewrite Hrow; apply lookup_insert_eq|done|]. cbv zeta in *.
  unfold Service.may_send. rewrite !Service.is_connected_lookup, Hb2, Hra, lookup_insert_eq. done.
Qed.

(** Nobody has to accept for a connection to be made: an acceptance is
    not signed, so anyone who can publish a drop to the mailbox turns a
    pending request of its owner into a connection, in the name of a peer who
    may never have seen the request, and the owner's messages to that peer
    then go through. *)
Theorem forged_acceptance (sent now t_drop at_ x1 x2 : N) (alice bob i data forged : bytes) (a : Node) (r : ConnRow)
  (Hb : key_ok bob) (Hr : connections (db a) !! (alice, bob) = Some r)
  (Hs : c_status r = "pending_outgoing"%string) (Ht : in_time sent now t_drop)
  (Hd : object_to_vec (acceptance_fields bob alice at_) = Ok data)
  (Hf : drop_to_vec (MkDeadDrop (hash (mailbox_key alice)) i data sent (add64 sent CONNECTION_TTL)) = Ok forged)
  (Hl : length forged ≤ MAX_ENVELOPE_SIZE) :
  let a' := ingest x1 x2 now t_drop (Some alice) forged a in
  conn_status alice bob (db a') = Some Active ∧ events a' = events a ++ [ConnectionEstablished bob] ∧
  Service.may_send alice bob (db a') = true.
Proof.
  cbv zeta. rewrite (ingest_drop _ _ _ _ _ _ forged a Hf Hl).
  destruct (acceptance_arrives sent now t_drop alice bob at_ i data a r Ht Hb Hd Hr Hs) as (He & _ & at' & Hc).
  cbv zeta in *. unfold conn_status, Service.may_send.
  rewrite Service.is_connected_lookup, Hc, lookup_insert_eq. done.
Qed.

Lemma publish_vec_outbox b st : outbox (publish_vec (Ok b) st) = outbox st ++ [b].
Proof. done. Qed.

Lemma publish_vec_dht r st : dht (publish_vec r st) = dht st.
Proof. by destruct r. Qed.

(** A direct message that is not a repeat: what the sender keeps and what it
    hands to the network. *)
Lemma send_published fresh nonce now t1 t2 t3 on alice bob to body ttl x enc a :
  MessageEncryption.encrypt_message fresh nonce (as_bytes body) x = Ok enc →
  messages (db a) !! blake3_hash (as_bytes body) = None →
  let a' := (send fresh nonce now t1 t2 t3 true on alice bob to body ttl (Ok x) a).1 in
  let c := Service.compute_conversation_id alice bob in
  ∃ clear sealed, object_to_vec (direct_message alice to body now) = Ok clear ∧
    outbox a' = outbox a ++ [clear; sealed] ∧
    messages (db a') = <[blake3_hash (as_bytes body) :=
      sent_dm_row now (default 86400%N ttl) c alice body enc]> (messages (db a)) ∧
    (∃ stored, (send fresh nonce now t1 t2 t3 true on alice bob to body ttl (Ok x) a).2 =
      Ok (MkSent (blake3_hash (as_bytes body)) c true stored)) ∧
    (∃ e, drop_from_slice sealed = Ok e ∧ sealed_data e = enc).
Proof.
  intros He Hn. destruct (object_printed (direct_message alice to body now)) as [clear Hc]; [distinct|].
  cbv zeta. unfold send. rewrite send_db_eq, He. cbv zeta. rewrite Hn.
  match goal with |- context [deposit_raw ?t ?m ?i ?s ?dep ?e ?d] =>
    destruct (deposit_raw_only t m i s dep e d) as [drops ->];
    destruct (drop_parse (MkDeadDrop (hash m) (hash i) s dep e)) as (sealed & Hs & Hd & _)
  end.
  exists clear, sealed. change (hash (from_digest ?x)) with x in *. rewrite Hc, Hs.
  split_and!; [done| | |eauto|by eauto]; try (destruct on; cbn; by rewrite <- ?app_assoc).
  rewrite <- (insert_or_ignore_fresh _ _ _ Hn). by destruct on.
Qed.

(** A direct message that is not a repeat, taken in: its row, the count of
    its conversation and the event. *)
Lemma dm_taken_in now now' t_conv t_drop x alice bob body clear b :
  object_to_vec (direct_message alice (hex_encode bob) body now) = Ok clear → length clear ≤ MAX_ENVELOPE_SIZE →
  key_ok alice → messages (db b) !! dm_id (hex_encode alice) body now = None →
  (now < 2 ^ 63)%N → (now' + 86400 < 2 ^ 63)%N →
  let b' := ingest x t_conv now' t_drop (Some bob) clear b in
  let c := Service.compute_conversation_id alice bob in
  messages (db b') = <[dm_id (hex_encode alice) body now :=
    MkMsg c alice (Z.of_N now) (Z.of_N now' + 86400) false (Some (take 100 body)) false None false]> (messages (db b)) ∧
  unread_count <$> conversations (db b') !! c = Some (1 + default 0 (unread_count <$> conversations (db b) !! c))%Z ∧
  events b' = events b ++ [MessageReceived alice (hex_encode (dm_id (hex_encode alice) body now))].
Proof.
  intros Hc Hl Ha Hid Hnow Hnow' b' c. unfold b'. rewrite (ingest_dm _ _ _ _ alice bob body now clear b Hc Hl Ha). cbv zeta.
  assert (Hat : as_u64 (as_i64 now) = now) by (apply as_u64_i64; unfold u64, u64_modulus; clear -Hnow; lia).
  rewrite Hat, Hid. rewrite (Service.conversation_id_comm bob alice). fold c. cbn [events messages db emit with_db].
  unfold Service.stored. rewrite (Service.conversation_id_comm bob alice). fold c.
  unfold Service.touch_conversation. cbn [messages conversations with_messages with_conversations].
  rewrite lookup_alter_eq, !lookup_insert_or_ignore, !decide_True, (insert_or_ignore_fresh _ _ _ Hid) by done.
  cbn [default fmap option_fmap option_map].
  split_and!; [|by destruct (conversations (db b) !! c) as [r|]; cbn -[Z.add]; rewrite 1?Z.add_comm|done].
  unfold dm_row. rewrite !as_i64_small, add_i64_small by lia. done.
Qed.

(** C22. A direct message arrives: what the sender's node publishes makes the
    recipient's node store it, under the conversation id the sender has, with
    the sender's key, as unread and announced.  It also travels in the clear:
    the first payload holds the body, the sender and the recipient for
    anyone who carries it, beside the sealed drop.  And the recipient keeps
    it for a day whatever the sender chose. *)
Theorem plaintext_dm_delivered (now t1 t2 t3 now' t1' t2' t3' x : N) (on : bool) (alice bob fresh nonce key enc : bytes)
  (body : str) (ttl : option N) (a b : Node)
  (Ha : key_ok alice) (Hb : key_ok bob)
  (Henc : MessageEncryption.encrypt_message fresh nonce (as_bytes body) key = Ok enc)
  (Hnew : messages (db a) !! blake3_hash (as_bytes body) = None) (Hnow : (now < 2 ^ 63)%N) (Hnow' : (now' + 86400 < 2 ^ 63)%N)
  (Hid : messages (db b) !! dm_id (hex_encode alice) body now = None) :
  let a' := (send fresh nonce now t1 t2 t3 true on alice bob (hex_encode bob) body ttl (Ok key) a).1 in
  let c := Service.compute_conversation_id alice bob in
  ∃ clear sealed, outbox a' = outbox a ++ [clear; sealed] ∧
  (∃ v, value_from_slice clear = Some v ∧ get_str "body" v = Some body ∧ get_str "sender" v = Some (hex_encode alice)) ∧
  m_conversation <$> messages (db a') !! blake3_hash (as_bytes body) = Some c ∧
  (length clear ≤ MAX_ENVELOPE_SIZE →
   let b' := ingest x t1' now' t3' (Some bob) clear b in
   messages (db b') !! dm_id (hex_encode alice) body now =
     Some (MkMsg c alice (Z.of_N now) (Z.of_N now' + 86400) false (Some (take 100 body)) false None false) ∧
   unread_count <$> conversations (db b') !! c =
     Some (1 + default 0 (unread_count <$> conversations (db b) !! c))%Z ∧
   events b' = events b ++ [MessageReceived alice (hex_encode (dm_id (hex_encode alice) body now))]).
Proof.
  intros a' c. destruct (send_published fresh nonce now t1 t2 t3 on alice bob (hex_encode bob) body ttl key enc a Henc Hnew)
    as (clear & sealed & Hc & Ho & Hm & _).
  cbv zeta in *. fold a' c in Ho, Hm. exists clear, sealed. split_and!; [done| | |].
  - apply object_field in Hc as (v & Hv & Hs & _); [|distinct]. exists v. by rewrite !Hs.
  - by rewrite Hm, lookup_insert_eq.
  - intros Hl. destruct (dm_taken_in now now' t1' t3' x alice bob body clear b Hc Hl Ha Hid Hnow Hnow') as (Hmb & Hu & He).
    cbv zeta. by rewrite Hmb, lookup_insert_eq.
Qed.

(** A block does not keep anything out.  With the sender blocked, no
    connection and no accepted request, a direct message in the sender's
    name (nothing proves it is the sender's) is stored and announced like
    any other, and a connection request is listed, although the service's
    own [receive_connection_request] would have ignored it. *)
Theorem blocks_not_enforced (at_ now now' t1 t2 t3 sent d1 x1 x2 : N) (sender our body i data clear drop : bytes)
  (msg : option str) (b : Node)
  (Hs : key_ok sender) (Hblock : is_blocked our sender (db b) = true)
  (Hnone : connections (db b) !! (our, sender) = None) (Hat : (at_ < 2 ^ 63)%N)
  (Hid : messages (db b) !! dm_id (hex_encode sender) body at_ = None)
  (Hc : object_to_vec (direct_message sender (hex_encode our) body at_) = Ok clear)
  (Hd : object_to_vec (request_fields sender our msg at_) = Ok data)
  (Hp : drop_to_vec (MkDeadDrop (hash (mailbox_key our)) i data sent (add64 sent CONNECTION_TTL)) = Ok drop)
  (Hl1 : length clear ≤ MAX_ENVELOPE_SIZE) (Hl2 : length drop ≤ MAX_ENVELOPE_SIZE) (Ht : in_time sent now' d1) :
  let b1 := ingest t1 t2 now t3 (Some our) clear b in
  let b2 := ingest x1 x2 now' d1 (Some our) drop b in
  (∃ m, messages (db b1) !! dm_id (hex_encode sender) body at_ = Some m ∧ m_sender m = sender ∧ m_is_read m = false ∧
     m_conversation m = Service.compute_conversation_id our sender) ∧
  events b1 = events b ++ [MessageReceived sender (hex_encode (dm_id (hex_encode sender) body at_))] ∧
  conn_status our sender (db b2) = Some PendingIncoming ∧
  events b2 = events b ++ [ConnectionRequestReceived sender] ∧
  is_blocked our sender (db b1) = true ∧ is_blocked our sender (db b2) = true ∧
  receive_connection_request now' our sender msg (db b) = (db b, Ok None).
Proof.
  assert (Hat' : as_u64 (as_i64 at_) = at_) by (apply as_u64_i64; unfold u64, u64_modulus; clear -Hat; lia).
  cbv zeta. rewrite (ingest_drop _ _ _ _ _ _ drop b Hp Hl2).
  destruct (request_arrives sent now' d1 our sender msg at_ i data b Ht Hs Hd) as (He & _ & Hbl & Hr). cbv zeta in *.
  rewrite Hnone in Hr. destruct Hr as [at' Hr].
  rewrite (ingest_dm _ _ _ _ sender our body at_ clear b Hc Hl1 Hs). cbv zeta. rewrite Hat', Hid.
  cbn [events messages db emit with_db]. unfold Service.stored, Service.touch_conversation.
  cbn [messages conversations blocks with_messages with_conversations].
  split_and!; [|done|unfold conn_status; by rewrite Hr, lookup_insert_eq|done|by rewrite is_blocked_lookup in *|
    rewrite is_blocked_lookup, Hbl; by rewrite is_blocked_lookup in Hblock|].
  - eexists. rewrite lookup_insert_or_ignore, decide_True, Hid by done. done.
  - unfold receive_connection_request. by rewrite Hblock.
Qed.

(** No text can be sent twice: the id of a message is the hash of its
    body, so the same text again, to anyone and at any later time while the
    first is kept, is refused after it was encrypted, and nothing leaves the
    node. *)
Theorem same_body_twice (t1 t1' t1'' t2 t2' t2'' now now2 : N) (on net2 on2 : bool)
  (local bob carol fresh nonce fresh2 nonce2 key key2 enc enc2 : bytes) (to to2 body : str) (ttl ttl2 : option N) (a : Node)
  (Hbob : MessageEncryption.encrypt_message fresh nonce (as_bytes body) key = Ok enc)
  (Hcarol : MessageEncryption.encrypt_message fresh2 nonce2 (as_bytes body) key2 = Ok enc2)
  (Hnew : messages (db a) !! blake3_hash (as_bytes body) = None) :
  let first := send fresh nonce now t1 t1' t1'' true on local bob to body ttl (Ok key) a in
  let second := send fresh2 nonce2 now2 t2 t2' t2'' net2 on2 local carol to2 body ttl2 (Ok key2) first.1 in
  is_ok first.2 = true ∧
  second.2 = Err (NMessage "store message" (Database "UNIQUE constraint failed: messages.message_id")) ∧
  outbox second.1 = outbox first.1 ∧ dht second.1 = dht first.1 ∧ messages (db second.1) = messages (db first.1) ∧
  dead_drops (db second.1) = dead_drops (db first.1).
Proof.
  destruct (send_published fresh nonce now t1 t1' t1'' on local bob to body ttl key enc a Hbob Hnew)
    as (clear & sealed & _ & _ & Hm & [stored Hr] & _). cbv zeta in *.
  destruct (send fresh nonce now t1 t1' t1'' true on local bob to body ttl (Ok key) a) as [a1 r1]. cbn [fst snd] in *.
  rewrite Hr. unfold send. rewrite send_db_eq, Hcarol. cbv zeta. rewrite Hm, lookup_insert_eq. done.
Qed.

(** What is announced for the messages of a mailbox. *)
Definition announcements (our : bytes) (pms : list PendingMessage) : list Event :=
  (λ pm, MessageReceived our (hex_encode (hash (id pm)))) <$> pms.

Lemma poll_one_run our pms st :
  let st' := foldl (poll_one our) st pms in
  messages (db st') = messages (db st) ∧ dht st' = dht st ∧
  events st' = events st ++ announcements our pms ∧
  (∀ k r, dead_drops (db st') !! k = Some r → dead_drops (db st) !! k = Some r ∧ k ∉ (λ pm, hash (id pm)) <$> pms).
Proof.
  revert st. induction pms as [|pm pms IH]; intros st; cbv zeta.
  { cbn. rewrite app_nil_r. split_and!; try done. intros k r Hk. split; [done|]. by intros ?%elem_of_nil. }
  cbn [foldl]. destruct (IH (poll_one our st pm)) as (Em & Ed & Ee & Ek). cbv zeta in *.
  destruct (acknowledge_only (id pm) (db st)) as [t Et].
  assert (Hdb : db (poll_one our st pm) = with_dead_drops t (db st)) by (cbn; by rewrite Et).
  split_and!; [by rewrite Em, Hdb|by rewrite Ed|by rewrite Ee; cbn; rewrite <- app_assoc|].
  intros k r Hk. apply Ek in Hk as [Hk Hnin].
  assert (Hold : dead_drops (db st) !! k = Some r ∧ k ≠ hash (id pm)).
  { revert Hk. unfold poll_one, acknowledge. cbn. destruct (dead_drops (db st) !! hash (id pm)) as [x|] eqn:Ex; cbn.
    - intros [? ?]%lookup_delete_Some. split; [done|]. congruence.
    - intros Hk. split; [done|]. intros ->. cbn in *. congruence. }
  destruct Hold as [Hold Hne]. split; [done|]. cbn. rewrite not_elem_of_cons. done.
Qed.

(** Polling loses the sealed messages.  Every drop waiting in the mailbox
    is announced, as coming from ourselves, and deleted; none is opened or
    stored: the message table is as before, and nothing is left to fetch. *)
Theorem poll_loses_messages (t_gc t_get t_drop now : N) (our : bytes) (st : Node)
  (Hkeys : ∀ k r, dead_drops (db st) !! k = Some r → length k = 32)
  (Hdht : Storage.get t_get (hash (mailbox_key our)) (dht st) = None) :
  ∃ st', poll t_gc t_get t_drop now (Some our) st = Done st' ∧
    messages (db st') = messages (db st) ∧ check_mailbox now our (db st') = [] ∧
    events st' = events st ++ announcements our (check_mailbox now our (gc t_gc (db st)).1).
Proof.
  unfold poll. cbv zeta. set (st1 := with_db (gc t_gc (db st)).1 st).
  assert (Hr : retrieve_dht_dead_drops t_get t_drop our st1 = Done st1)
    by (unfold retrieve_dht_dead_drops; cbn [dht with_db st1]; by rewrite Hdht).
  rewrite Hr. eexists. split; [done|].
  destruct (poll_one_run our (check_mailbox now our (db st1)) st1) as (Em & _ & Ee & Ek). cbv zeta in *.
  split_and!; [by rewrite Em| |by rewrite Ee].
  unfold check_mailbox at 1. match goal with |- _ <$> ?l = [] => assert (l = []) as ->; [|done] end.
  apply Permutation_nil_r. rewrite stable_sort_perm.
  destruct (select_where _ _) as [|[k r] l] eqn:El; [done|exfalso].
  assert (Hin : (k, r) ∈ (k, r) :: l) by apply list_elem_of_here.
  rewrite <- El in Hin. apply elem_of_select_where in Hin as [Hk Hp].
  apply Ek in Hk as [Hk Hnin]. apply Hnin. apply list_elem_of_fmap.
  assert (Hlen : length k = 32).
  { cbn in Hk. apply lookup_delete_where in Hk as [Hk _]. by eapply Hkeys. }
  exists (MkPending (id_of_row k) (dd_sealed r) (as_u64 (dd_deposited_at r)) (as_u64 (dd_expires_at r))).
  split; [cbn; unfold id_of_row; by rewrite Hlen|].
  unfold check_mailbox. apply list_elem_of_fmap. exists (k, r). split; [done|].
  rewrite stable_sort_perm. by apply elem_of_select_where.
Qed.

(** A connection request cannot come through the hash table.  What
    [connect] puts there is the request itself, which the poll of its
    addressee does not take for a drop: it learns nothing and leaves the
    record there.  Wrapped in a drop, as the poll expects it, a new request
    stops the node: the poll stores a notification, which takes the lock it
    already holds. *)
Theorem dht_requests_fail (t1 now h t_gc t_get t_drop now' : N) (net : bool) (alice bob i p : bytes) (msg : str)
  (a b b2 : Node) (r r2 : Storage.DhtRecord) (data : bytes) (dep exp : N)
  (Ha : key_ok alice) (Hmsg : msg ≠ []) (Hlen : message_too_long (Some msg) = false)
  (Hnew : connections (db a) !! (alice, bob) = None)
  (Hd : object_to_vec (request_fields alice bob (Some msg) t1) = Ok data)
  (Hb : Storage.get t_get (hash (mailbox_key bob)) (dht b) = Some r) (Hv : Storage.value r = data)
  (Hb2 : Storage.get t_get (hash (mailbox_key bob)) (dht b2) = Some r2) (Hv2 : Storage.value r2 = p)
  (Hp : drop_to_vec (MkDeadDrop (hash (mailbox_key bob)) i data dep exp) = Ok p)
  (Hnone : connections (db b2) !! (bob, alice) = None) :
  dht (connect t1 now h net true alice bob msg a).1 =
    (Storage.put h (Storage.MkRecord (hash (mailbox_key bob)) Storage.DeadDrop data alice now CONNECTION_TTL []) (dht a)).1 ∧
  retrieve_dht_dead_drops t_get t_drop bob b = Done b ∧
  poll t_gc t_get t_drop now' (Some bob) b2 = Deadlock.
Proof.
  split_and!.
  - unfold connect, request. rewrite bool_decide_false by done. rewrite Hlen, Hnew. cbn [message created_at]. rewrite Hd.
    unfold publish_connection. destruct net; cbn [dht with_dht fst]; by rewrite ?publish_vec_dht.
  - unfold retrieve_dht_dead_drops. rewrite Hb, Hv.
    pose proof (object_not_drop _ _ Hd eq_refl) as Hn. by destruct (drop_from_slice data).
  - unfold poll. cbv zeta. unfold retrieve_dht_dead_drops. cbn [dht with_db]. rewrite Hb2, Hv2.
    destruct (drop_parse (MkDeadDrop (hash (mailbox_key bob)) i data dep exp)) as (p' & Hp' & Hs & _).
    rewrite Hp in Hp'. injection Hp' as <-. rewrite Hs. unfold drop_from_dht. cbn [sealed_data].
    apply request_field_v in Hd as (v & Hv' & Hty & Hin & _). rewrite Hv'. unfold type_is.
    rewrite Hty, bool_decide_true, (key_field_str "initiator" v alice Ha Hin) by done.
    cbn. by rewrite Hnone.
Qed.
End delivery.

(* ------------------------------------------------------------------ *)
(** ** Witnesses *)

Section witnesses.
Import Toy HexToy JsonToy.

Definition v_hi : str := lit "hi".
Definition v_fresh : bytes := replicate 32 4%N.
Definition v_nonce : bytes := replicate 24 5%N.
Definition v_key : bytes := replicate 32 6%N.
Definition v_with (d : MetadataDb) : Node := with_db d iw_node.
Definition v_pending : Node :=
  v_with (with_connections {[(iw_alice, iw_bob) := MkConn "pending_outgoing" 5 5 None (Some iw_alice)]} empty_db).
Definition v_blocking : Node := v_with (with_blocks {[(iw_bob, iw_alice) := MkBlock 0 None]} empty_db).
Definition v_enc (fresh : bytes) : bytes :=
  match MessageEncryption.encrypt_message fresh v_nonce (as_bytes v_hi) v_key with Ok e => e | Err _ => [] end.

Lemma v_alice_ok : key_ok iw_alice.
Proof. split; [reflexivity|]. by apply Forall_replicate. Qed.
Lemma v_bob_ok : key_ok iw_bob.
Proof. split; [reflexivity|]. by apply Forall_replicate. Qed.
Lemma v_in_time : in_time 1000 1010 1011.
Proof. split; by vm_compute. Qed.
Lemma v_short x : length (to_vec x) ≤ MAX_ENVELOPE_SIZE.
Proof. apply Nat.leb_le. reflexivity. Qed.

Lemma connection_handshake_witness :
  ∃ request, outbox (connect 1000 1000 1000 true true iw_alice iw_bob v_hi iw_node).1 = [request] ∧
    conn_status iw_bob iw_alice (db (ingest 0 0 1010 1011 (Some iw_bob) request iw_node)) = Some PendingIncoming.
Proof.
  destruct (connection_handshake 1000 1000 1000 1010 1011 1000 1000 1000 1010 1011 0 0 0 0 true true iw_alice iw_bob v_hi
    iw_node iw_node) as (p & Ho & Hp).
  - apply v_alice_ok.
  - apply v_bob_ok.
  - vm_compute. congruence.
  - apply lookup_empty.
  - apply lookup_empty.
  - reflexivity.
  - vm_compute. congruence.
  - apply v_in_time.
  - apply v_in_time.
  - exists p. split; [exact Ho|]. refine (proj1 (Hp _)).
    assert (∃ x, outbox (connect 1000 1000 1000 true true iw_alice iw_bob v_hi iw_node).1 = [to_vec x]) as [x Hx]
      by (eexists; reflexivity).
    rewrite Hx in Ho. injection Ho as <-. apply v_short.
Defined.

Lemma forged_acceptance_witness :
  ∃ forged, conn_status iw_alice iw_bob (db (ingest 0 0 1010 1011 (Some iw_alice) forged v_pending)) = Some Active.
Proof.
  eexists. eapply (forged_acceptance 1000 1010 1011 1000 0 0 iw_alice iw_bob [7%N] _ _ v_pending).
  - apply v_bob_ok.
  - apply lookup_singleton_eq.
  - reflexivity.
  - apply v_in_time.
  - reflexivity.
  - reflexivity.
  - apply v_short.
Defined.

Lemma plaintext_dm_delivered_witness :
  ∃ clear sealed, outbox (send v_fresh v_nonce 1000 0 0 0 true false iw_alice iw_bob (hex_encode iw_bob) v_hi None
    (Ok v_key) iw_node).1 = [clear; sealed] ∧ ∃ v, value_from_slice clear = Some v ∧ get_str "body" v = Some v_hi.
Proof.
  destruct (plaintext_dm_delivered 1000 0 0 0 1010 0 0 0 0 false iw_alice iw_bob v_fresh v_nonce v_key (v_enc v_fresh)
    v_hi None iw_node iw_node) as (c & s & Ho & (v & Hv & Hb & _) & _).
  - apply v_alice_ok.
  - apply v_bob_ok.
  - reflexivity.
  - apply lookup_empty.
  - reflexivity.
  - reflexivity.
  - apply lookup_empty.
  - exists c, s. split; [exact Ho|]. exists v. split; [exact Hv|exact Hb].
Defined.

Lemma blocks_not_enforced_witness :
  ∃ drop, conn_status iw_bob iw_alice (db (ingest 0 0 1010 1011 (Some iw_bob) drop v_blocking)) = Some PendingIncoming.
Proof.
  eexists. eapply (blocks_not_enforced 1000 1000 1010 0 0 0 1000 1011 0 0 iw_alice iw_bob v_hi [7%N] _ _ _ None v_blocking).
  - apply v_alice_ok.
  - reflexivity.
  - apply lookup_empty.
  - reflexivity.
  - apply lookup_empty.
  - reflexivity.
  - reflexivity.
  - reflexivity.
  - apply v_short.
  - apply v_short.
  - apply v_in_time.
Defined.

Lemma same_body_twice_witness :
  let first := send v_fresh v_nonce 1000 0 0 0 true false iw_alice iw_bob (lit "b") v_hi None (Ok v_key) iw_node in
  (send v_key v_nonce 2000 0 0 0 true false iw_alice v_fresh (lit "c") v_hi None (Ok v_key) first.1).2 =
    Err (NMessage "store message" (Database "UNIQUE constraint failed: messages.message_id")).
Proof.
  eapply (same_body_twice 0 0 0 0 0 0 1000 2000 false true false iw_alice iw_bob v_fresh v_fresh v_nonce v_key v_nonce
    v_key v_key (v_enc v_fresh) (v_enc v_key)); [reflexivity|reflexivity|apply lookup_empty].
Defined.

Lemma poll_loses_messages_witness :
  let st := v_with (with_dead_drops {[v_fresh := MkDrop (hash (mailbox_key iw_bob)) [1%N] 0 9000]} empty_db) in
  ∃ st', poll 100 100 100 100 (Some iw_bob) st = Done st' ∧ check_mailbox 100 iw_bob (db st') = [].
Proof.
  cbv zeta. set (st := v_with _).
  destruct (poll_loses_messages 100 100 100 100 iw_bob st) as (st' & Hp & _ & Hc & _).
  - intros k r Hk. change (({[v_fresh := MkDrop (hash (mailbox_key iw_bob)) [1%N] 0 9000]} : gmap bytes DropRow) !! k = Some r) in Hk.
    apply lookup_singleton_Some in Hk as [<- _]. reflexivity.
  - reflexivity.
  - exists st'. split; [exact Hp|exact Hc].
Defined.

Definition v_record (p : bytes) : Storage.DhtRecord :=
  Storage.MkRecord (hash (mailbox_key iw_bob)) Storage.DeadDrop p iw_alice 1000 CONNECTION_TTL [].
Definition v_holding (p : bytes) : Node := with_dht (Storage.put 1000 (v_record p) (dht iw_node)).1 iw_node.
Lemma v_held n : Storage.get 1001 (hash (mailbox_key iw_bob)) (dht (v_holding [n])) = Some (v_record [n]).
Proof. vm_compute. reflexivity. Qed.
Definition v_request : bytes := to_vec (inl (request_fields iw_alice iw_bob (Some v_hi) 1000)).
Definition v_wrapped : bytes := to_vec (inr (MkDeadDrop (hash (mailbox_key iw_bob)) [7%N] v_request 1000 9000)).

Lemma dht_requests_fail_witness :
  poll 1001 1001 1001 1001 (Some iw_bob) (v_holding v_wrapped) = Deadlock.
Proof.
  eapply (dht_requests_fail 1000 1000 1000 1001 1001 1001 1001 true iw_alice iw_bob [7%N] v_wrapped v_hi iw_node
    (v_holding v_request) (v_holding v_wrapped) (v_record v_request) (v_record v_wrapped) v_request 1000 9000).
  - apply v_alice_ok.
  - vm_compute. congruence.
  - reflexivity.
  - apply lookup_empty.
  - unfold v_request. reflexivity.
  - apply v_held.
  - reflexivity.
  - apply v_held.
  - reflexivity.
  - unfold v_wrapped. reflexivity.
  - apply lookup_empty.
Defined.
End witnesses.
