(* ===== verification/Groups.v ===== *)
(** * Groups and group chats: [crates/ephemera-social/src], [services/social.rs]

    The domain types ([group.rs], [group_chat.rs], [feed.rs]), the storage
    methods ([store/group.rs], [store/group_chat.rs]; [Module Store]) and the
    operations of the node's [SocialService] with their permission checks
    ([Module Api]).  The group tables are kept apart from the other tables of
    the database, as no statement joins them; the one query that reads
    [blocks] takes the other half as an argument.  Keys and ids are the hex
    TEXT the code stores.  SQLite's own failures other than a taken key are
    not modelled. *)
From S2P Require Import Prelude Types Crypto Unicode Ratchet Tables Listing Paging Metadata Messages Connections Handles.

(* ------------------------------------------------------------------ *)
(** ** Visibility and roles ([group.rs]) *)

Definition MAX_GROUP_NAME_LEN : nat := 50.
Definition MAX_GROUP_DESCRIPTION_LEN : nat := 500.

Inductive GroupVisibility := Public | Private | Secret.
#[global] Instance GroupVisibility_eq_dec : EqDecision GroupVisibility.
Proof. solve_decision. Defined.

Definition visibility_as_str (v : GroupVisibility) : string :=
  match v with Public => "public" | Private => "private" | Secret => "secret" end.
Definition visibility_from_str_lossy (s : string) : GroupVisibility :=
  if bool_decide (s = "private"%string) then Private
  else if bool_decide (s = "secret"%string) then Secret else Public.

Inductive GroupRole := Owner | Admin | Moderator | Member.
#[global] Instance GroupRole_eq_dec : EqDecision GroupRole.
Proof. solve_decision. Defined.

(** The discriminant, by which roles are also ordered. *)
Definition role_rank (r : GroupRole) : nat :=
  match r with Owner => 0 | Admin => 1 | Moderator => 2 | Member => 3 end.
Definition role_as_str (r : GroupRole) : string :=
  match r with Owner => "owner" | Admin => "admin" | Moderator => "moderator" | Member => "member" end.
Definition role_from_str_lossy (s : string) : GroupRole :=
  if bool_decide (s = "owner"%string) then Owner
  else if bool_decide (s = "admin"%string) then Admin
  else if bool_decide (s = "moderator"%string) then Moderator else Member.

Definition can_set_role (self target : GroupRole) : bool := role_rank self <? role_rank target.
Definition can_kick (r : GroupRole) : bool := match r with Owner | Admin | Moderator => true | Member => false end.
Definition can_ban (r : GroupRole) : bool := match r with Owner | Admin => true | _ => false end.
Definition can_invite (r : GroupRole) : bool := match r with Owner | Admin | Moderator => true | Member => false end.
Definition can_edit_info (r : GroupRole) : bool := match r with Owner | Admin => true | _ => false end.
Definition can_delete_posts (r : GroupRole) : bool := match r with Owner | Admin | Moderator => true | Member => false end.
Definition can_delete_group (r : GroupRole) : bool := match r with Owner => true | _ => false end.

Record Group := MkGroup {
  group_id : str;
  name : str;
  handle : option str;
  description : option str;
  avatar_cid : option str;
  visibility : GroupVisibility;
  created_by : str;
  created_at : N
}.

Record GroupMember := MkGroupMember {
  member_pubkey : str;
  role : GroupRole;
  joined_at : N;
  invited_by : option str
}.

Record GroupInfo := MkInfo { group : Group; member_count : N; my_role : option GroupRole }.

Definition validate_group_name (n : str) : result SocialError unit :=
  if Nat.eqb (length n) 0 then Err (Validation "group name cannot be empty")
  else if MAX_GROUP_NAME_LEN <? length n
  then Err (Validation ("group name is " +:+ pretty (length n) +:+ " chars, max is 50"))
  else Ok tt.
Definition validate_group_description (d : str) : result SocialError unit :=
  if MAX_GROUP_DESCRIPTION_LEN <? length d
  then Err (Validation ("group description is " +:+ pretty (length d) +:+ " chars, max is 500"))
  else Ok tt.

(* ------------------------------------------------------------------ *)
(** ** Chats ([group_chat.rs]) *)

Definition MAX_PRIVATE_CHAT_MEMBERS : nat := 50.

Record GroupChat := MkGroupChat {
  chat_id : str;
  chat_name : option str;
  is_group_linked : bool;
  chat_group : option str;
  chat_created_at : N
}.

Record GroupChatMessage := MkChatMessage {
  message_id : str;
  msg_chat_id : str;
  sender_pubkey : str;
  body : option str;
  msg_created_at : N;
  msg_expires_at : N
}.

Record GroupChatSummary := MkSummary {
  chat : GroupChat;
  chat_member_count : N;
  last_message : option str;
  last_message_at : option N
}.

(* ------------------------------------------------------------------ *)
(** ** Rows *)

Record GroupRow := MkGroupRow {
  g_name : str;
  g_handle : option str;
  g_description : option str;
  g_avatar_cid : option str;
  g_visibility : string;
  g_created_by : str;
  g_created_at : Z
}.
Record MemberRow := MkMember { gm_role : string; gm_joined_at : Z; gm_invited_by : option str }.
Record BanRow := MkBan { gb_by : str; gb_reason : option str; gb_at : Z }.
Record PostRow := MkPost { gp_author : str; gp_created_at : Z }.
Record ChatRow := MkChat { gc_name : option str; gc_linked : bool; gc_group : option str; gc_created_at : Z }.
Record ChatMsgRow := MkChatMsg {
  cm_chat : str;
  cm_sender : str;
  cm_body : option str;
  cm_created_at : Z;
  cm_expires_at : Z
}.

(** Keys: members and bans by (group, key), posts by (group, content hash),
    chat members by (chat, key) with the time they joined. *)
Record GroupDb := MkGroupDb {
  groups : gmap str GroupRow;
  group_members : gmap (str * str) MemberRow;
  group_bans : gmap (str * str) BanRow;
  group_posts : gmap (str * bytes) PostRow;
  group_chats : gmap str ChatRow;
  chat_members : gmap (str * str) Z;
  chat_messages : gmap str ChatMsgRow
}.

Definition empty_groups : GroupDb := MkGroupDb ∅ ∅ ∅ ∅ ∅ ∅ ∅.
Definition with_groups t d := MkGroupDb t (group_members d) (group_bans d) (group_posts d) (group_chats d) (chat_members d) (chat_messages d).
Definition with_members t d := MkGroupDb (groups d) t (group_bans d) (group_posts d) (group_chats d) (chat_members d) (chat_messages d).
Definition with_bans t d := MkGroupDb (groups d) (group_members d) t (group_posts d) (group_chats d) (chat_members d) (chat_messages d).
Definition with_posts t d := MkGroupDb (groups d) (group_members d) (group_bans d) t (group_chats d) (chat_members d) (chat_messages d).
Definition with_chats t d := MkGroupDb (groups d) (group_members d) (group_bans d) (group_posts d) t (chat_members d) (chat_messages d).
Definition with_chat_members t d := MkGroupDb (groups d) (group_members d) (group_bans d) (group_posts d) (group_chats d) t (chat_messages d).
Definition with_chat_messages t d := MkGroupDb (groups d) (group_members d) (group_bans d) (group_posts d) (group_chats d) (chat_members d) t.

(** The row of a group as the code hands it out. *)
Definition group_of_row (gid : str) (r : GroupRow) : Group :=
  MkGroup gid (g_name r) (g_handle r) (g_description r) (g_avatar_cid r) (visibility_from_str_lossy (g_visibility r))
    (g_created_by r) (as_u64 (g_created_at r)).

(** SQLite's LIKE: [%] is any text, [_] any character; ASCII letters match
    without case. *)
Definition like_char (a b : N) : bool :=
  let lower c := if in_range 65 90 c then (c + 32)%N else c in (lower a =? lower b)%N.
Fixpoint like (pattern s : str) : bool :=
  match pattern with
  | [] => match s with [] => true | _ => false end
  | p :: ps =>
      if (p =? 37)%N then
        (fix any (s : str) : bool := like ps s || match s with [] => false | _ :: s' => any s' end) s
      else match s with
           | [] => false
           | c :: s' => ((p =? 95)%N || like_char p c) && like ps s'
           end
  end.

(* ------------------------------------------------------------------ *)
(** ** Storage *)

Module Store.
Section store.
Context `{Primitives, Hex}.

Abbreviation M := (SE GroupDb SocialError).
Definition exec (f : GroupDb → GroupDb) : M unit := se_modify f.

Definition group_id_from_name (n : str) : str := hex_encode (blake3_hash (as_bytes n)).
Definition generate_chat_id (creator : str) (timestamp_secs : N) : str :=
  hex_encode (blake3_hash (as_bytes (creator ++ lit ":" ++ lit (pretty timestamp_secs)))).

(** *** Groups *)

(** Both the id and the name are unique. *)
Definition group_taken (gid n : str) (d : GroupDb) : bool :=
  bool_decide (is_Some (groups d !! gid)) || (0 <? count_where (λ _ g, bool_decide (g_name g = n)) (groups d)).

Definition create_group (n : str) (description : option str) (vis : GroupVisibility) (creator : str) (at_ : Z) : M Group :=
  let! _ := se_lift (validate_group_name n) in
  let! _ := se_lift (match description with Some desc => validate_group_description desc | None => Ok tt end) in
  let gid := group_id_from_name n in
  λ d,
    if group_taken gid n d then (d, Err (Validation ("group '" +:+ show n +:+ "' already exists")))
    else
      let d := with_groups (<[gid := MkGroupRow n None description None (visibility_as_str vis) creator at_]> (groups d)) d in
      match insert_new (gid, creator) (MkMember "owner" at_ None) (group_members d) with
      | None => (d, Err (Storage "UNIQUE constraint failed: group_members.group_id, group_members.member_pubkey"))
      | Some t => (with_members t d, Ok (MkGroup gid n None description None vis creator (as_u64 at_)))
      end.

(** The reason of a format error is not kept. *)
Definition register_group_handle (gid h : str) : M unit :=
  let! _ := se_lift (map_err (λ _, Validation "invalid group handle") (validate_handle_format h)) in
  let! d := se_get in
  if 0 <? count_where (λ gid' g, bool_decide (g_handle g = Some h) && negb (bool_decide (gid' = gid))) (groups d)
  then se_lift (Err (Validation ("handle '@" +:+ show h +:+ "' is already taken by another group")))
  else exec (λ d, with_groups (alter (λ g, MkGroupRow (g_name g) (Some h) (g_description g) (g_avatar_cid g)
                                (g_visibility g) (g_created_by g) (g_created_at g)) gid (groups d)) d).

Definition get_group (gid : str) (d : GroupDb) : option Group := group_of_row gid <$> groups d !! gid.

(** The chats of a group. *)
Definition of_group (gid : str) (d : GroupDb) (cid : str) : bool :=
  match group_chats d !! cid with Some c => bool_decide (gc_group c = Some gid) | None => false end.

Definition delete_group (gid : str) : M unit :=
  let! _ := exec (λ d, with_chat_messages (delete_where (λ _ m, of_group gid d (cm_chat m)) (chat_messages d)) d) in
  let! _ := exec (λ d, with_chat_members (delete_where (λ k _, of_group gid d k.1) (chat_members d)) d) in
  let! _ := exec (λ d, with_chats (delete_where (λ _ c, bool_decide (gc_group c = Some gid)) (group_chats d)) d) in
  let! _ := exec (λ d, with_posts (delete_where (λ k _, bool_decide (k.1 = gid)) (group_posts d)) d) in
  let! _ := exec (λ d, with_bans (delete_where (λ k _, bool_decide (k.1 = gid)) (group_bans d)) d) in
  let! _ := exec (λ d, with_members (delete_where (λ k _, bool_decide (k.1 = gid)) (group_members d)) d) in
  exec (λ d, with_groups (delete gid (groups d)) d).

(** *** Membership *)

Definition is_banned (gid who : str) (d : GroupDb) : bool :=
  0 <? count_where (λ k _, bool_decide (k = (gid, who))) (group_bans d).
Definition add_member (gid who : str) (at_ : Z) (inviter : option str) : M unit :=
  exec (λ d, with_members (insert_or_ignore (gid, who) (MkMember "member" at_ inviter) (group_members d)) d).
Definition remove_member (gid who : str) : M unit :=
  exec (λ d, with_members (delete (gid, who) (group_members d)) d).
Definition set_role (gid who : str) (r : string) : M unit :=
  exec (λ d, with_members (alter (λ m, MkMember r (gm_joined_at m) (gm_invited_by m)) (gid, who) (group_members d)) d).

Definition join_group (gid who : str) (at_ : Z) : M unit :=
  let! d := se_get in
  match groups d !! gid with
  | None => se_lift (Err (NotFound ("group " +:+ show gid +:+ " not found")))
  | Some g =>
      if negb (bool_decide (g_visibility g = "public"%string))
      then se_lift (Err (Validation "cannot self-join a non-public group; an invite is required"))
      else if is_banned gid who d then se_lift (Err (Validation "you are banned from this group"))
      else add_member gid who at_ None
  end.

Definition invite_to_group (gid target inviter : str) (at_ : Z) : M unit :=
  let! d := se_get in
  if is_banned gid target d then se_lift (Err (Validation "target user is banned from this group"))
  else add_member gid target at_ (Some inviter).

Definition member_role (gid who : str) (d : GroupDb) : option string := gm_role <$> group_members d !! (gid, who).
Definition get_member_role (gid who : str) (d : GroupDb) : option GroupRole :=
  role_from_str_lossy <$> member_role gid who d.

Definition leave_group (gid who : str) : M unit :=
  let! d := se_get in
  if bool_decide (member_role gid who d = Some "owner"%string)
  then se_lift (Err (Validation "owner cannot leave; transfer ownership or delete the group"))
  else remove_member gid who.

Definition set_group_role (gid target : str) (new_role : GroupRole) : M unit := set_role gid target (role_as_str new_role).
Definition kick_member (gid target : str) : M unit := remove_member gid target.

Definition ban_member (gid banned by_ : str) (reason : option str) (at_ : Z) : M unit :=
  let! _ := remove_member gid banned in
  exec (λ d, with_bans (<[(gid, banned) := MkBan by_ reason at_]> (group_bans d)) d).

Definition transfer_ownership (gid current_owner new_owner : str) : M unit :=
  let! d := se_get in
  match member_role gid new_owner d with
  | None => se_lift (Err (Validation "target is not a member of this group"))
  | Some _ =>
      let! _ := set_role gid current_owner "admin" in
      set_role gid new_owner "owner"
  end.

Definition is_member (gid who : str) (d : GroupDb) : bool :=
  0 <? count_where (λ k _, bool_decide (k = (gid, who))) (group_members d).
Definition count_members (gid : str) (d : GroupDb) : nat :=
  count_where (λ k _, bool_decide (k.1 = gid)) (group_members d).

(** Ordered by the time of joining. *)
Definition list_group_members (gid : str) (d : GroupDb) : list GroupMember :=
  (λ km, MkGroupMember km.1.2 (role_from_str_lossy (gm_role km.2)) (as_u64 (gm_joined_at km.2)) (gm_invited_by km.2)) <$>
  stable_sort (λ a b, gm_joined_at a.2 <=? gm_joined_at b.2)%Z
    (select_where (λ k _, bool_decide (k.1 = gid)) (group_members d)).

(** *** Posts *)

Definition delete_group_post (gid : str) (hash : bytes) : M unit :=
  exec (λ d, with_posts (delete (gid, hash) (group_posts d)) d).
Definition post_to_group (gid : str) (hash : bytes) (author : str) (at_ : Z) : M unit :=
  exec (λ d, with_posts (insert_or_ignore (gid, hash) (MkPost author at_) (group_posts d)) d).

Definition item_of_row (kr : (str * bytes) * PostRow) : FeedItem :=
  MkItem (bytes_to_content_hash kr.1.2) (bytes_to_identity_key (default [] (hex_decode (gp_author kr.2))))
    (as_u64 (gp_created_at kr.2)) false None.
(** The posts of a group older than the cursor's time, newest first. *)
Definition feed_rows (gid : str) (d : GroupDb) : option FeedCursor → list ((str * bytes) * PostRow) :=
  query_rows (λ kr, gp_created_at kr.2) (select_where (λ k _, bool_decide (k.1 = gid)) (group_posts d)).
Definition get_group_feed (gid : str) (cursor : option FeedCursor) (limit : nat) (d : GroupDb) : FeedPage :=
  feed_of item_of_row (feed_rows gid d) limit cursor.

(** *** Queries *)

Definition info (d : GroupDb) (my_role : option GroupRole) (gr : str * GroupRow) : GroupInfo :=
  MkInfo (group_of_row gr.1 gr.2) (N.of_nat (count_members gr.1 d) mod 2 ^ 32)%N my_role.

(** Ordered by name, in the byte order of UTF-8. *)
Definition list_my_groups (who : str) (d : GroupDb) : list GroupInfo :=
  (λ gr, info d (get_member_role gr.1 who d) gr) <$>
  stable_sort (λ a b, bytes_leb (as_bytes (g_name a.2)) (as_bytes (g_name b.2)))
    (select_where (λ gid _, bool_decide (is_Some (group_members d !! (gid, who)))) (groups d)).

(** Public groups by name or handle, the largest fifty. *)
Definition search_groups (query : str) (d : GroupDb) : list GroupInfo :=
  let pattern := lit "%" ++ query ++ lit "%" in
  info d None <$>
  take 50 (stable_sort (λ a b, count_members b.1 d <=? count_members a.1 d)
    (select_where (λ _ g, bool_decide (g_visibility g = "public"%string) &&
        (like pattern (g_name g) || match g_handle g with Some h => like pattern h | None => false end)) (groups d))).

Definition get_group_info (gid : str) (viewer : option str) (d : GroupDb) : option GroupInfo :=
  (λ g, MkInfo g (N.of_nat (count_members gid d) mod 2 ^ 32)%N (v ← viewer; get_member_role gid v d)) <$> get_group gid d.

(** *** Chats *)

Definition in_chat (cid who : str) (d : GroupDb) : bool :=
  0 <? count_where (λ k _, bool_decide (k = (cid, who))) (chat_members d).
Definition count_chat_members (cid : str) (d : GroupDb) : nat :=
  count_where (λ k _, bool_decide (k.1 = cid)) (chat_members d).

(** [INSERT INTO group_chats]. *)
Definition insert_chat (cid : str) (row : ChatRow) : M unit := λ d,
  match insert_new cid row (group_chats d) with
  | None => (d, Err (Storage "UNIQUE constraint failed: group_chats.chat_id"))
  | Some t => (with_chats t d, Ok tt)
  end.

Definition create_group_linked_chat (gid : str) (at_ : Z) : M GroupChat :=
  let! d := se_get in
  match groups d !! gid with
  | None => se_lift (Err (NotFound ("group " +:+ show gid +:+ " not found")))
  | Some g =>
      let answer cid := MkGroupChat cid (Some (g_name g)) true (Some gid) (as_u64 at_) in
      match select_where (λ _ c, bool_decide (gc_group c = Some gid) && gc_linked c) (group_chats d) with
      | (cid, _) :: _ => se_ret (answer cid)
      | [] =>
          let cid := generate_chat_id gid (as_u64 at_) in
          let! _ := insert_chat cid (MkChat (Some (g_name g)) true (Some gid) at_) in
          se_ret (answer cid)
      end
  end.

Definition add_chat_row (cid : str) (at_ : Z) (d : GroupDb) (who : str) : GroupDb :=
  with_chat_members (insert_or_ignore (cid, who) at_ (chat_members d)) d.

Definition create_private_group_chat (n : option str) (creator : str) (members : list str) (at_ : Z) : M GroupChat :=
  if MAX_PRIVATE_CHAT_MEMBERS <? length members + 1
  then se_lift (Err (Validation "group chat cannot have more than 50 members"))
  else
    let cid := generate_chat_id creator (as_u64 at_) in
    let! _ := insert_chat cid (MkChat n false None at_) in
    let! _ := λ d, match insert_new (cid, creator) at_ (chat_members d) with
                   | None => (d, Err (Storage "UNIQUE constraint failed: group_chat_members.chat_id, group_chat_members.member_pubkey"))
                   | Some t => (with_chat_members t d, Ok tt)
                   end in
    let! _ := exec (λ d, foldl (add_chat_row cid at_) d (filter (λ pk, pk ≠ creator) members)) in
    se_ret (MkGroupChat cid n false None (as_u64 at_)).

(** [other] is the rest of the database. *)
Definition add_chat_member (other : MetadataDb) (cid who : str) (adder : option str) (at_ : Z) : M unit :=
  let! d := se_get in
  let! _ := se_lift match adder with
    | None => Ok tt
    | Some adder =>
        if negb (in_chat cid adder d) then Err (PermissionDenied "only current members can add people to the chat")
        else match hex_decode who, hex_decode adder with
             | Some target_bytes, Some adder_bytes =>
                 if is_blocked target_bytes adder_bytes other
                 then Err (PermissionDenied "cannot add this user (they have blocked you)") else Ok tt
             | _, _ => Ok tt
             end
    end in
  if MAX_PRIVATE_CHAT_MEMBERS <=? count_chat_members cid d
  then se_lift (Err (Validation "group chat is full (50 members max)"))
  else exec (λ d, add_chat_row cid at_ d who).

Definition leave_chat (cid who : str) : M unit :=
  exec (λ d, with_chat_members (delete (cid, who) (chat_members d)) d).

Definition send_group_chat_message (mid cid sender : str) (body : option str) (at_ expires : Z) : M GroupChatMessage :=
  let! d := se_get in
  if negb (in_chat cid sender d) then se_lift (Err (PermissionDenied "not a member of this chat"))
  else λ d,
    match insert_new mid (MkChatMsg cid sender body at_ expires) (chat_messages d) with
    | None => (d, Err (Storage "UNIQUE constraint failed: group_chat_messages.message_id"))
    | Some t => (with_chat_messages t d, Ok (MkChatMessage mid cid sender body (as_u64 at_) (as_u64 expires)))
    end.

Definition chat_message_of_row (kr : str * ChatMsgRow) : GroupChatMessage :=
  MkChatMessage kr.1 (cm_chat kr.2) (cm_sender kr.2) (cm_body kr.2) (as_u64 (cm_created_at kr.2)) (as_u64 (cm_expires_at kr.2)).
(** The messages of a chat before a time, newest first. *)
Definition chat_rows (cid : str) (before : option Z) (d : GroupDb) : list (str * ChatMsgRow) :=
  stable_sort (λ a b, cm_created_at b.2 <=? cm_created_at a.2)%Z
    (select_where (λ _ m, bool_decide (cm_chat m = cid) &&
        match before with Some ts => (cm_created_at m <? ts)%Z | None => true end) (chat_messages d)).
Definition get_chat_messages (cid : str) (limit : nat) (before : option Z) (reader : option str) (d : GroupDb) :
    result SocialError (list GroupChatMessage) :=
  if match reader with Some r => negb (in_chat cid r d) | None => false end
  then Err (PermissionDenied "not a member of this chat")
  else Ok (chat_message_of_row <$> take (Nat.min limit 200) (chat_rows cid before d)).

(** Latest activity first. *)
Definition last_chat_row (cid : str) (d : GroupDb) : option ChatMsgRow := snd <$> head (chat_rows cid None d).
Definition last_activity (d : GroupDb) (kc : str * ChatRow) : Z :=
  match last_chat_row kc.1 d with Some m => cm_created_at m | None => gc_created_at kc.2 end.
Definition list_my_group_chats (who : str) (d : GroupDb) : list GroupChatSummary :=
  (λ kc, MkSummary (MkGroupChat kc.1 (gc_name kc.2) (gc_linked kc.2) (gc_group kc.2) (as_u64 (gc_created_at kc.2)))
           (N.of_nat (count_chat_members kc.1 d) mod 2 ^ 32)%N
           (m ← last_chat_row kc.1 d; cm_body m) (as_u64 ∘ cm_created_at <$> last_chat_row kc.1 d)) <$>
  stable_sort (λ a b, last_activity d b <=? last_activity d a)%Z
    (select_where (λ cid _, bool_decide (is_Some (chat_members d !! (cid, who)))) (group_chats d)).
End store.
End Store.

(* ------------------------------------------------------------------ *)
(** ** The node's operations *)

Module Api.
Import Store.

Inductive ApiError :=
| Context (what : string) (e : SocialError)
| Refused (reason : string).

Section api.
Context `{Primitives, Hex}.

Abbreviation M := (SE GroupDb ApiError).
Definition ctx {A} (what : string) (m : SE GroupDb SocialError A) : M A := λ d,
  let '(d', r) := m d in (d', map_err (Context what) r).

(** The caller's role, which must have a permission. *)
Definition my_role (gid me : str) (d : GroupDb) : result ApiError GroupRole :=
  match get_member_role gid me d with Some r => Ok r | None => Err (Refused "not a member of this group") end.
Definition require (gid me : str) (allowed : GroupRole → bool) (denied : string) : M GroupRole := λ d,
  (d, let? r := my_role gid me d in if allowed r then Ok r else Err (Refused denied)).

(** [limited] is the rate limiter's refusal. *)
Definition unless_limited (limited : option string) : M unit :=
  se_lift match limited with Some e => Err (Refused ("Rate limited: " +:+ e)) | None => Ok tt end.

Definition create_group (limited : option string) (n : str) (description : option str) (vis : string) (local : bytes)
    (now : N) : M Group :=
  let! _ := unless_limited limited in
  ctx "create group"
    (Store.create_group n description (visibility_from_str_lossy vis) (hex_encode local) (as_i64 now)).

Definition register_group_handle (gid h : str) (local : bytes) : M unit :=
  let! _ := require gid (hex_encode local) can_edit_info "only owner or admin can register a group handle" in
  ctx "register handle" (Store.register_group_handle gid h).

Definition join_group (gid : str) (local : bytes) (now : N) : M unit :=
  ctx "join group" (Store.join_group gid (hex_encode local) (as_i64 now)).

Definition invite_to_group (limited : option string) (gid target : str) (local : bytes) (now : N) : M unit :=
  let! _ := unless_limited limited in
  let! _ := require gid (hex_encode local) can_invite "insufficient permissions to invite" in
  ctx "invite" (Store.invite_to_group gid target (hex_encode local) (as_i64 now)).

Definition leave_group (gid : str) (local : bytes) : M unit :=
  ctx "leave group" (Store.leave_group gid (hex_encode local)).

(** Only the new role is compared with the caller's. *)
Definition set_group_role (gid target : str) (new_role : string) (local : bytes) : M unit :=
  let target_role := role_from_str_lossy new_role in
  let! _ := require gid (hex_encode local) (λ r, can_set_role r target_role) "insufficient permissions to set this role" in
  ctx "set role" (Store.set_group_role gid target target_role).

Definition kick_member (gid target : str) (local : bytes) : M unit :=
  let! my_role := require gid (hex_encode local) can_kick "insufficient permissions to kick" in
  let! d := se_get in
  let target_role := default Member (get_member_role gid target d) in
  if role_rank target_role <=? role_rank my_role
  then se_lift (Err (Refused "cannot kick someone with equal or higher role"))
  else ctx "kick" (Store.kick_member gid target).

Definition ban_member (gid target : str) (reason : option str) (local : bytes) (now : N) : M unit :=
  let! _ := require gid (hex_encode local) can_ban "insufficient permissions to ban" in
  ctx "ban" (Store.ban_member gid target (hex_encode local) reason (as_i64 now)).

(** A hash of 32 bytes is stored in its wire form. *)
Definition post_to_group (gid content_hash_hex : str) (local : bytes) (now : N) : M unit :=
  let! _ := require gid (hex_encode local) (λ _, true) "" in
  match hex_decode content_hash_hex with
  | None => se_lift (Err (Refused "bad hash"))
  | Some hash_bytes =>
      let wire_bytes := if Nat.eqb (length hash_bytes) 32 then to_wire_bytes (from_digest hash_bytes) else hash_bytes in
      ctx "post to group" (Store.post_to_group gid wire_bytes (hex_encode local) (as_i64 now))
  end.

Definition get_group_feed (gid : str) (limit : nat) (local : bytes) (d : GroupDb) : result ApiError FeedPage :=
  match get_group gid d with
  | None => Err (Refused "group not found")
  | Some g =>
      if negb (bool_decide (visibility g = Public)) && negb (is_member gid (hex_encode local) d)
      then Err (Refused "not a member of this private/secret group")
      else Ok (Store.get_group_feed gid None limit d)
  end.

Definition delete_group (gid : str) (local : bytes) : M unit :=
  let! _ := require gid (hex_encode local) can_delete_group "only the owner can delete a group" in
  ctx "delete group" (Store.delete_group gid).

Definition transfer_ownership (gid new_owner : str) (local : bytes) : M unit :=
  let! _ := require gid (hex_encode local) can_delete_group "only the owner can transfer ownership" in
  ctx "transfer ownership" (Store.transfer_ownership gid (hex_encode local) new_owner).

(** The hash is used as it is given. *)
Definition delete_group_post (gid content_hash_hex : str) (local : bytes) : M unit :=
  let! _ := require gid (hex_encode local) can_delete_posts "insufficient permissions to delete posts" in
  match hex_decode content_hash_hex with
  | None => se_lift (Err (Refused "bad hash"))
  | Some hash_bytes => ctx "delete group post" (Store.delete_group_post gid hash_bytes)
  end.

Definition create_private_chat (n : option str) (members : list str) (local : bytes) (now : N) : M GroupChat :=
  ctx "create chat" (create_private_group_chat n (hex_encode local) members (as_i64 now)).
Definition create_group_chat (gid : str) (now : N) : M GroupChat :=
  ctx "create group chat" (create_group_linked_chat gid (as_i64 now)).
Definition add_chat_member (other : MetadataDb) (cid who : str) (local : bytes) (now : N) : M unit :=
  ctx "add chat member" (Store.add_chat_member other cid who (Some (hex_encode local)) (as_i64 now)).
Definition leave_chat (cid : str) (local : bytes) : M unit :=
  ctx "leave chat" (Store.leave_chat cid (hex_encode local)).

Definition chat_message_id (cid sender : str) (now : Z) (body : str) : str :=
  hex_encode (blake3_hash (as_bytes (cid ++ lit ":" ++ sender ++ lit ":" ++ lit (pretty now) ++ lit ":" ++ body))).
Definition send_group_chat_message (limited : option string) (cid body : str) (local : bytes) (now : N) : M GroupChatMessage :=
  let! _ := unless_limited limited in
  let sender := hex_encode local in
  let now := as_i64 now in
  ctx "send chat message"
    (Store.send_group_chat_message (chat_message_id cid sender now body) cid sender (Some body) now (add_i64 now 86400)).

Definition get_chat_messages (cid : str) (limit : nat) (local : bytes) (d : GroupDb) :
    result ApiError (list GroupChatMessage) :=
  map_err (Context "get chat messages") (Store.get_chat_messages cid limit None (Some (hex_encode local)) d).
End api.

(** Every operation that changes the tables, by whoever. *)
Inductive group_step `{Primitives, Hex} (me : bytes) (d : GroupDb) : GroupDb → Prop :=
| gs_create l n desc vis now : group_step me d (create_group l n desc vis me now d).1
| gs_handle gid h : group_step me d (register_group_handle gid h me d).1
| gs_join gid now : group_step me d (join_group gid me now d).1
| gs_invite l gid t now : group_step me d (invite_to_group l gid t me now d).1
| gs_leave gid : group_step me d (leave_group gid me d).1
| gs_role gid t r : group_step me d (set_group_role gid t r me d).1
| gs_kick gid t : group_step me d (kick_member gid t me d).1
| gs_ban gid t why now : group_step me d (ban_member gid t why me now d).1
| gs_post gid h now : group_step me d (post_to_group gid h me now d).1
| gs_delete gid : group_step me d (delete_group gid me d).1
| gs_transfer gid t : group_step me d (transfer_ownership gid t me d).1
| gs_delete_post gid h : group_step me d (delete_group_post gid h me d).1
| gs_private n ms now : group_step me d (create_private_chat n ms me now d).1
| gs_linked gid now : group_step me d (create_group_chat gid now d).1
| gs_add other cid who now : group_step me d (add_chat_member other cid who me now d).1
| gs_leave_chat cid : group_step me d (leave_chat cid me d).1
| gs_send l cid body now : group_step me d (send_group_chat_message l cid body me now d).1.
End Api.
