(* ===== verification/GroupProps.v ===== *)
(** * What groups and chats guarantee

    The invariant of the tables of [Groups] under every operation of the
    node, who may change what, and how pages of a feed follow each other. *)
From stdpp Require Import sorting.
From S2P Require Import Prelude Types Crypto Unicode Ratchet Tables Listing Paging Metadata Messages Connections Handles Groups.
Import Store.

Section groups.
Context `{Primitives, Hex}.

Definition roles : list string := ["owner"; "admin"; "moderator"; "member"]%string.

Record grp_ok (d : GroupDb) : Prop := {
  go_key gid g : groups d !! gid = Some g → gid = group_id_from_name (g_name g) ∧ 1 ≤ length (g_name g) ≤ MAX_GROUP_NAME_LEN;
  go_handle gid gid' g g' h : groups d !! gid = Some g → groups d !! gid' = Some g' →
    g_handle g = Some h → g_handle g' = Some h → gid = gid' ∧ validate_handle_format h = Ok tt;
  go_member gid w m : group_members d !! (gid, w) = Some m →
    is_Some (groups d !! gid) ∧ gm_role m ∈ roles ∧ group_bans d !! (gid, w) = None;
  go_owner gid w w' : member_role gid w d = Some "owner"%string → member_role gid w' d = Some "owner"%string → w = w';
  go_ban gid w b : group_bans d !! (gid, w) = Some b → is_Some (groups d !! gid);
  go_post gid h p : group_posts d !! (gid, h) = Some p → is_Some (groups d !! gid)
}.

Record chat_ok (d : GroupDb) : Prop := {
  co_group cid c : group_chats d !! cid = Some c →
    if gc_linked c then ∃ gid, gc_group c = Some gid ∧ is_Some (groups d !! gid) else gc_group c = None;
  co_linked cid cid' c c' : group_chats d !! cid = Some c → group_chats d !! cid' = Some c' →
    gc_linked c = true → gc_linked c' = true → gc_group c = gc_group c' → cid = cid';
  co_member cid w at_ : chat_members d !! (cid, w) = Some at_ →
    ∃ c, group_chats d !! cid = Some c ∧ gc_linked c = false;
  co_count cid : count_chat_members cid d ≤ MAX_PRIVATE_CHAT_MEMBERS;
  co_message mid m : chat_messages d !! mid = Some m → is_Some (group_chats d !! cm_chat m)
}.

Definition ok (d : GroupDb) : Prop := grp_ok d ∧ chat_ok d.

Lemma empty_groups_ok : ok empty_groups.
Proof.
  split; split; intros *; try (cbn; by rewrite !lookup_empty); try (unfold member_role; cbn; by rewrite lookup_empty).
  unfold count_chat_members. cbn. unfold count_where, rows_where. rewrite map_filter_empty, map_size_empty. lia.
Qed.

(* ------------------------------------------------------------------ *)
(** ** One table at a time *)

(** The chat half only looks at which groups there are. *)
Lemma chat_ok_groups d d' :
  group_chats d' = group_chats d → chat_members d' = chat_members d → chat_messages d' = chat_messages d →
  (∀ gid, is_Some (groups d !! gid) → is_Some (groups d' !! gid)) → chat_ok d → chat_ok d'.
Proof.
  intros E1 E2 E3 Hg [H1' H2' H3' H4' H5']. split; rewrite ?E1, ?E2, ?E3; eauto.
  - intros cid c Hc. apply H1' in Hc. destruct (gc_linked c); [|done]. destruct Hc as (gid & ? & ?). eauto.
  - intros cid. unfold count_chat_members. rewrite E2. apply H4'.
Qed.

Lemma grp_ok_chats d d' :
  groups d' = groups d → group_members d' = group_members d → group_bans d' = group_bans d →
  group_posts d' = group_posts d → grp_ok d → grp_ok d'.
Proof.
  intros E1 E2 E3 E4 [H1' H2' H3' H4' H5' H6']. unfold member_role in *.
  split; unfold member_role; rewrite ?E1, ?E2, ?E3, ?E4; eauto.
Qed.

Lemma members_ok t d : ok d →
  (∀ gid w m, t !! (gid, w) = Some m →
     is_Some (groups d !! gid) ∧ gm_role m ∈ roles ∧ group_bans d !! (gid, w) = None) →
  (∀ gid w w', gm_role <$> t !! (gid, w) = Some "owner"%string → gm_role <$> t !! (gid, w') = Some "owner"%string → w = w') →
  ok (with_members t d).
Proof.
  intros [[H1' H2' H3' H4' H5' H6'] Hc] Hm Ho. split; [|by apply (chat_ok_groups d)]. by split.
Qed.

Lemma is_banned_lookup gid w d : is_banned gid w d = bool_decide (is_Some (group_bans d !! (gid, w))).
Proof.
  unfold is_banned. rewrite (count_where_key (gid, w) (λ _, true)) by (intros; by rewrite andb_true_r).
  destruct (group_bans d !! (gid, w)); [by rewrite bool_decide_true by eauto|]. rewrite bool_decide_false; [done|]. by intros [].
Qed.
Lemma in_chat_lookup cid w d : in_chat cid w d = bool_decide (is_Some (chat_members d !! (cid, w))).
Proof.
  unfold in_chat. rewrite (count_where_key (cid, w) (λ _, true)) by (intros; by rewrite andb_true_r).
  destruct (chat_members d !! (cid, w)); [by rewrite bool_decide_true by eauto|]. rewrite bool_decide_false; [done|]. by intros [].
Qed.

Lemma add_member_ok gid w at_ inv d : ok d → is_Some (groups d !! gid) → is_banned gid w d = false →
  ok (add_member gid w at_ inv d).1.
Proof.
  intros Hd Hg Hb. rewrite is_banned_lookup in Hb. bprop. apply eq_None_not_Some in Hb.
  destruct (group_members d !! (gid, w)) as [m0|] eqn:E.
  { unfold add_member, exec, se_modify. cbn. rewrite insert_or_ignore_present by eauto. by destruct d. }
  unfold add_member, exec, se_modify. cbn. rewrite insert_or_ignore_fresh by done.
  apply members_ok; [done|..].
  - intros gid' w' m. rewrite lookup_insert_Some. intros [[[= <- <-] <-]|[_ Hm]]; [|by apply (go_member d (proj1 Hd)) in Hm].
    split_and!; [done|set_solver|done].
  - intros gid' w1 w2. rewrite !lookup_insert. do 2 destruct (decide _); try done. apply (go_owner d (proj1 Hd)).
Qed.

Lemma remove_member_ok gid w d : ok d → ok (remove_member gid w d).1.
Proof.
  intros Hd. apply members_ok; [done|..].
  - intros gid' w' m [_ Hm]%lookup_delete_Some. by apply (go_member d (proj1 Hd)) in Hm.
  - intros gid' w1 w2. rewrite !lookup_delete. do 2 destruct (decide _); try done. apply (go_owner d (proj1 Hd)).
Qed.

Lemma set_role_members gid w r d :
  group_members (set_role gid w r d).1 =
    alter (λ m, MkMember r (gm_joined_at m) (gm_invited_by m)) (gid, w) (group_members d).
Proof. done. Qed.

Lemma set_role_lookup gid w r d gid' w' :
  member_role gid' w' (set_role gid w r d).1 =
    if decide ((gid, w) = (gid', w')) then (λ _, r) <$> member_role gid' w' d else member_role gid' w' d.
Proof.
  unfold member_role. rewrite set_role_members. destruct (decide _) as [<-|].
  - rewrite lookup_alter_eq. by destruct (group_members d !! (gid, w)).
  - by rewrite lookup_alter_ne.
Qed.

(** A role given to one who is not to be the second owner. *)
Lemma set_role_ok gid w r d : ok d → r ∈ roles →
  (r = "owner"%string → ∀ w', member_role gid w' d = Some "owner"%string → w' = w) →
  ok (set_role gid w r d).1.
Proof.
  intros Hd Hr Ho. apply members_ok; [done|..].
  - intros gid' w' m [([= <- <-] & m0 & Hm & ->)|[_ Hm]]%lookup_alter_Some; [|by apply (go_member d (proj1 Hd)) in Hm].
    by apply (go_member d (proj1 Hd)) in Hm as (? & _ & ?).
  - intros gid' w1 w2 E1 E2.
    change (member_role gid' w1 (set_role gid w r d).1 = Some "owner"%string) in E1.
    change (member_role gid' w2 (set_role gid w r d).1 = Some "owner"%string) in E2.
    rewrite set_role_lookup in E1, E2.
    destruct (decide ((gid, w) = (gid', w1))) as [Q1|N1], (decide ((gid, w) = (gid', w2))) as [Q2|N2];
      simplify_eq; try done.
    + apply fmap_Some in E1 as (? & _ & <-). symmetry. by apply Ho.
    + apply fmap_Some in E2 as (? & _ & <-). by apply Ho.
    + by apply (go_owner d (proj1 Hd) gid').
Qed.

(* ------------------------------------------------------------------ *)
(** ** One operation at a time *)

Lemma bind_ok {E A B} (m : SE GroupDb E A) (k : A → SE GroupDb E B) d :
  ok (m d).1 → (∀ a d', m d = (d', Ok a) → ok (k a d').1) → ok (se_bind m k d).1.
Proof. intros Hm Hk. unfold se_bind. destruct (m d) as [d' [a|e]]; [by apply Hk|done]. Qed.

Lemma lift_ok {E A B} (r : result E A) (k : A → SE GroupDb E B) d :
  ok d → (∀ a, r = Ok a → ok (k a d).1) → ok (se_bind (se_lift r) k d).1.
Proof. intros Hd Hk. apply bind_ok; [done|]. intros a d' [= <- ->]. by apply Hk. Qed.

Lemma get_ok {E B} (k : GroupDb → SE GroupDb E B) d : ok (k d d).1 → ok (se_bind se_get k d).1.
Proof. done. Qed.

Lemma create_group_ok n desc vis creator at_ d : ok d → ok (create_group n desc vis creator at_ d).1.
Proof.
  intros Hd. unfold create_group. apply lift_ok; [done|]. intros u Hn. apply lift_ok; [done|]. intros _ _. cbv zeta.
  destruct (group_taken (group_id_from_name n) n d) eqn:Et; [done|].
  unfold group_taken in Et. bprop. match goal with Q : ¬ is_Some _ |- _ => apply eq_None_not_Some in Q; rename Q into Hnew end.
  set (gid := group_id_from_name n) in *. set (row := MkGroupRow _ _ _ _ _ _ _).
  assert (Hl : 1 ≤ length n ≤ MAX_GROUP_NAME_LEN).
  { unfold validate_group_name in Hn. destruct (Nat.eqb_spec (length n) 0); [done|].
    destruct (Nat.ltb_spec MAX_GROUP_NAME_LEN (length n)); [done|lia]. }
  assert (Hmono : ∀ g, is_Some (groups d !! g) → is_Some (<[gid := row]> (groups d) !! g)).
  { intros g Hg. rewrite lookup_insert. by destruct (decide _). }
  assert (Hg : ok (with_groups (<[gid := row]> (groups d)) d)).
  { destruct Hd as [[H1' H2' H3' H4' H5' H6'] Hc]. split; [|by apply (chat_ok_groups d)].
    split; cbn; try done.
    - intros g r [[<- <-]|[_ Hr]]%lookup_insert_Some; [done|by apply H1'].
    - intros g g' r r' h [[<- <-]|[_ Hr]]%lookup_insert_Some [[<- <-]|[_ Hr']]%lookup_insert_Some Eh Eh'; try done.
      by apply (H2' _ _ _ _ _ Hr Hr').
    - intros g w m Hm. apply H3' in Hm as (? & ? & ?). auto.
    - intros g w b Hb. apply H5' in Hb. auto.
    - intros g h p' Hp. apply H6' in Hp. auto. }
  assert (Hnone : group_members d !! (gid, creator) = None).
  { apply eq_None_not_Some. intros [m Hm]. apply (go_member d (proj1 Hd)) in Hm as ([? ?] & _). congruence. }
  unfold insert_new. cbn [group_members with_groups]. rewrite Hnone. apply members_ok; [done|..]; cbn.
  - intros g w m [[[= <- <-] <-]|[_ Hm]]%lookup_insert_Some.
    + split_and!; [by rewrite lookup_insert_eq|set_solver|].
      apply eq_None_not_Some. intros [b Hb]. apply (go_ban d (proj1 Hd)) in Hb as [? ?]. congruence.
    + apply (go_member d (proj1 Hd)) in Hm as (? & ? & ?). auto.
  - intros g w w' E1 E2. rewrite !lookup_insert in *.
    assert (Hnm : ∀ w, gm_role <$> group_members d !! (gid, w) = Some "owner"%string → False).
    { intros w0. destruct (group_members d !! (gid, w0)) as [m|] eqn:Em; [|done]. intros _.
      apply (go_member d (proj1 Hd)) in Em as ([? ?] & _). congruence. }
    destruct (decide ((gid, creator) = (g, w))) as [Q1|N1], (decide ((gid, creator) = (g, w'))) as [Q2|N2];
      simplify_eq; try done; [by apply Hnm in E2|by apply Hnm in E1|by apply (go_owner d (proj1 Hd) g)].
Qed.

Lemma register_handle_ok gid h d : ok d → ok (register_group_handle gid h d).1.
Proof.
  intros Hd. unfold register_group_handle. apply lift_ok; [done|]. intros [] Hv. apply get_ok.
  destruct (0 <? _) eqn:Ec; [done|]. apply Nat.ltb_ge in Ec. unfold exec, se_modify. cbn [fst].
  assert (Hfree : ∀ g r, groups d !! g = Some r → g_handle r = Some h → g = gid).
  { intros g r Hr Eh. destruct (decide (g = gid)) as [|Hne]; [done|]. exfalso.
    refine (Nat.lt_irrefl 0 (Nat.lt_le_trans _ _ _ _ Ec)). apply count_where_pos. exists g, r. split; [done|].
    by rewrite bool_decide_true, bool_decide_false by done. }
  destruct Hd as [[H1' H2' H3' H4' H5' H6'] Hc].
  assert (Hdom : ∀ f g, is_Some (alter f gid (groups d) !! g) ↔ is_Some (groups d !! g))
    by (intros f g; apply lookup_alter_is_Some).
  split; [|apply (chat_ok_groups d); try done; intros g; apply Hdom].
  split; cbn; try done.
  - intros g r [(<- & r0 & Hr & ->)|[_ Hr]]%lookup_alter_Some; by apply H1' in Hr.
  - intros g g' r r' h' [(<- & r0 & Hr & ->)|[N1 Hr]]%lookup_alter_Some [(<- & r1 & Hr' & ->)|[N2 Hr']]%lookup_alter_Some;
      cbn; intros Eh Eh'; simplify_eq.
    + split; [done|]. by destruct (validate_handle_format h') as [[]|].
    + destruct N2. symmetry. by eapply Hfree.
    + destruct N1. symmetry. by eapply Hfree.
    + by apply (H2' _ _ _ _ _ Hr Hr').
  - intros g w m Hm. apply H3' in Hm as (? & ? & ?). split_and!; [by apply Hdom|done|done].
  - intros g w b Hb. apply H5' in Hb. by apply Hdom.
  - intros g hh p' Hp. apply H6' in Hp. by apply Hdom.
Qed.

Lemma join_group_ok gid w at_ d : ok d → ok (join_group gid w at_ d).1.
Proof.
  intros Hd. unfold join_group. apply get_ok. destruct (groups d !! gid) as [g|] eqn:Eg; [|done].
  destruct (negb _); [done|]. destruct (is_banned gid w d) eqn:Eb; [done|]. apply add_member_ok; [done|by rewrite Eg|done].
Qed.

Lemma invite_ok gid t inv at_ d : ok d → is_Some (groups d !! gid) → ok (invite_to_group gid t inv at_ d).1.
Proof.
  intros Hd Hg. unfold invite_to_group. apply get_ok. destruct (is_banned gid t d) eqn:Eb; [done|]. by apply add_member_ok.
Qed.

Lemma leave_group_ok gid w d : ok d → ok (leave_group gid w d).1.
Proof. intros Hd. unfold leave_group. apply get_ok. destruct (bool_decide _); [done|]. by apply remove_member_ok. Qed.

Lemma ban_ok gid w by_ why at_ d : ok d → is_Some (groups d !! gid) → ok (ban_member gid w by_ why at_ d).1.
Proof.
  intros Hd Hg. unfold ban_member. apply bind_ok; [by apply remove_member_ok|]. intros [] d' [= <-].
  pose proof (remove_member_ok gid w d Hd) as [[H1' H2' H3' H4' H5' H6'] Hc]. cbn in *.
  split; [|by refine (chat_ok_groups _ _ _ _ _ _ Hc)]. split; cbn; try done.
  - intros g w' m Hm. pose proof Hm as Hm'. apply H3' in Hm as (? & ? & ?). split_and!; [done..|].
    rewrite lookup_insert_ne; [done|]. intros [= <- <-]. by rewrite lookup_delete_eq in Hm'.
  - intros g w' b [[[= <- <-] <-]|[_ Hb]]%lookup_insert_Some; [done|by apply H5' in Hb].
Qed.

Lemma posts_ok t d : ok d → (∀ gid h p, t !! (gid, h) = Some p → is_Some (groups d !! gid)) → ok (with_posts t d).
Proof. intros [[H1' H2' H3' H4' H5' H6'] Hc] Ht. split; [by split|by apply (chat_ok_groups d)]. Qed.

Lemma owner_role s : s ∈ roles → role_from_str_lossy s = Owner → s = "owner"%string.
Proof. intros Hs. set_unfold in Hs. by destruct Hs as [->|[->|[->|[->|[]]]]]. Qed.

Lemma transfer_ok gid cur new d : ok d → member_role gid cur d = Some "owner"%string → ok (transfer_ownership gid cur new d).1.
Proof.
  intros Hd Hcur. unfold transfer_ownership. apply get_ok. destruct (member_role gid new d); [|done].
  assert (Hs : ok (set_role gid cur "admin" d).1) by (apply set_role_ok; [done|set_solver|done]).
  apply bind_ok; [done|]. intros [] d' Ed. assert (d' = (set_role gid cur "admin" d).1) as -> by (by rewrite Ed).
  apply set_role_ok; [done|set_solver|]. intros _ w'. rewrite set_role_lookup. destruct (decide _) as [[= <-]|N].
  - by rewrite Hcur.
  - intros Hw. destruct N. f_equal. by apply (go_owner d (proj1 Hd) gid).
Qed.

Lemma delete_group_eq gid d :
  delete_group gid d =
    (MkGroupDb (delete gid (groups d))
       (delete_where (λ k _, bool_decide (k.1 = gid)) (group_members d))
       (delete_where (λ k _, bool_decide (k.1 = gid)) (group_bans d))
       (delete_where (λ k _, bool_decide (k.1 = gid)) (group_posts d))
       (delete_where (λ _ c, bool_decide (gc_group c = Some gid)) (group_chats d))
       (delete_where (λ k _, of_group gid d k.1) (chat_members d))
       (delete_where (λ _ m, of_group gid d (cm_chat m)) (chat_messages d)), Ok tt).
Proof. done. Qed.

Lemma delete_group_ok gid d : ok d → ok (delete_group gid d).1.
Proof.
  intros [[H1' H2' H3' H4' H5' H6'] [K1 K2 K3 K4 K5]]. rewrite delete_group_eq.
  assert (Hother : ∀ g, g ≠ gid → is_Some (groups d !! g) → is_Some (delete gid (groups d) !! g)).
  { intros g Hne Hg. by rewrite lookup_delete_ne. }
  assert (Hchat : ∀ cid c, group_chats d !! cid = Some c → of_group gid d cid = false →
    delete_where (λ _ c, bool_decide (gc_group c = Some gid)) (group_chats d) !! cid = Some c).
  { intros cid c Hc Hf. apply lookup_delete_where. split; [done|]. unfold of_group in Hf. by rewrite Hc in Hf. }
  split; split; cbn.
  - intros g r [_ Hr]%lookup_delete_Some. by apply H1'.
  - intros g g' r r' h [_ Hr]%lookup_delete_Some [_ Hr']%lookup_delete_Some. by apply (H2' _ _ _ _ _ Hr Hr').
  - intros g w m [Hm Hp]%lookup_delete_where. cbn in Hp. bprop. apply H3' in Hm as (? & ? & Hb). split_and!; [auto|done|].
    apply eq_None_not_Some. intros [b [Hb' _]%lookup_delete_where]. congruence.
  - intros g w w' E1 E2. apply (H4' g).
    + apply fmap_Some in E1 as (m & [Hm _]%lookup_delete_where & E1). unfold member_role. by rewrite Hm, E1.
    + apply fmap_Some in E2 as (m & [Hm _]%lookup_delete_where & E2). unfold member_role. by rewrite Hm, E2.
  - intros g w b [Hb Hp]%lookup_delete_where. cbn in Hp. bprop. apply H5' in Hb. auto.
  - intros g h p' [Hp' Hp]%lookup_delete_where. cbn in Hp. bprop. apply H6' in Hp'. auto.
  - intros cid c [Hc Hp]%lookup_delete_where. bprop. apply K1 in Hc. destruct (gc_linked c); [|done].
    destruct Hc as (g & Eg & Hg). exists g. split; [done|]. apply Hother; [congruence|done].
  - intros cid cid' c c' [Hc _]%lookup_delete_where [Hc' _]%lookup_delete_where. by apply (K2 _ _ _ _ Hc Hc').
  - intros cid w a [Ha Hp]%lookup_delete_where. cbn in Hp. apply K3 in Ha as (c & Hc & Hl). exists c. auto.
  - intros cid. etrans; [|apply (K4 cid)]. apply count_where_le. intros k a [Ha _]%lookup_delete_where Hk. eauto.
  - intros mid m [Hm Hp]%lookup_delete_where. apply K5 in Hm as [c Hc]. exists c. by apply Hchat.
Qed.

(* ------------------------------------------------------------------ *)
(** ** Chats *)

Lemma insert_chat_ok cid row d : ok d →
  (if gc_linked row
   then ∃ gid, gc_group row = Some gid ∧ is_Some (groups d !! gid) ∧
     ∀ cid' c', group_chats d !! cid' = Some c' → gc_linked c' = true → gc_group c' ≠ Some gid
   else gc_group row = None) →
  ok (insert_chat cid row d).1.
Proof.
  intros [Hg [K1 K2 K3 K4 K5]] Hrow. unfold insert_chat, insert_new. destruct (group_chats d !! cid) as [c0|] eqn:Ec; [done|].
  split; [by apply (grp_ok_chats d)|].
  assert (Hmono : ∀ cid' c, group_chats d !! cid' = Some c → <[cid := row]> (group_chats d) !! cid' = Some c).
  { intros cid' c Hc. rewrite lookup_insert_ne; [done|congruence]. }
  split; cbn.
  - intros cid' c [[<- <-]|[_ Hc]]%lookup_insert_Some; [|by apply (K1 cid')].
    destruct (gc_linked row); [|done]. destruct Hrow as (gid & ? & ? & _). eauto.
  - intros c1 c2 r1 r2 [[<- <-]|[_ Hc1]]%lookup_insert_Some [[<- <-]|[_ Hc2]]%lookup_insert_Some L1 L2 E; try done.
    + rewrite L1 in Hrow. destruct Hrow as (gid & Eg & _ & Hf). destruct (Hf c2 r2 Hc2 L2). congruence.
    + rewrite L2 in Hrow. destruct Hrow as (gid & Eg & _ & Hf). destruct (Hf c1 r1 Hc1 L1). congruence.
    + by apply (K2 _ _ _ _ Hc1 Hc2).
  - intros cid' w a Ha. apply K3 in Ha as (c & Hc & ?). eauto.
  - apply K4.
  - intros mid m Hm. apply K5 in Hm as [c Hc]. eauto.
Qed.

Lemma count_add_row cid at_ d w cid' :
  count_chat_members cid' (add_chat_row cid at_ d w) ≤ (if decide (cid = cid') then 1 else 0) + count_chat_members cid' d.
Proof.
  unfold count_chat_members, add_chat_row. cbn. unfold insert_or_ignore.
  destruct (chat_members d !! (cid, w)) eqn:E; [lia|]. rewrite count_where_insert by done. cbn.
  destruct (decide (cid = cid')) as [<-|]; [by rewrite bool_decide_true|by rewrite bool_decide_false].
Qed.

Definition private_chat (cid : str) (d : GroupDb) : Prop := ∃ c, group_chats d !! cid = Some c ∧ gc_linked c = false.

Lemma add_chat_row_ok cid at_ d w : ok d → private_chat cid d →
  count_chat_members cid d < MAX_PRIVATE_CHAT_MEMBERS → ok (add_chat_row cid at_ d w).
Proof.
  intros [Hg [K1 K2 K3 K4 K5]] Hc Hn. split; [by apply (grp_ok_chats d)|]. split; try done.
  - intros cid' w' a. cbn. rewrite lookup_insert_or_ignore. destruct (decide _) as [[= <- <-]|]; [done|by apply K3].
  - intros cid'. pose proof (count_add_row cid at_ d w cid') as Hle. pose proof (K4 cid').
    destruct (decide (cid = cid')) as [<-|]; unfold count_chat_members in *; lia.
Qed.

Lemma add_rows_ok cid at_ ws d : ok d → private_chat cid d →
  count_chat_members cid d + length ws ≤ MAX_PRIVATE_CHAT_MEMBERS → ok (foldl (add_chat_row cid at_) d ws).
Proof.
  revert d. induction ws as [|w ws IH]; intros d Hd Hc Hn; [done|]. cbn in *. apply IH.
  - apply add_chat_row_ok; [done..|]. lia.
  - exact Hc.
  - pose proof (count_add_row cid at_ d w cid) as Hle. rewrite decide_True in Hle by done. lia.
Qed.

Lemma private_count cid d : ok d → group_chats d !! cid = None → count_chat_members cid d = 0.
Proof.
  intros Hd Hc. destruct (count_chat_members cid d) eqn:E; [done|exfalso].
  assert (0 < count_chat_members cid d) as ([c w] & a & Ha & Hp)%count_where_pos by lia. cbn in Hp. bprop. subst c.
  apply (co_member d (proj2 Hd)) in Ha as (c & Hc' & _). congruence.
Qed.

Lemma create_private_ok n creator ms at_ d : ok d → ok (create_private_group_chat n creator ms at_ d).1.
Proof.
  intros Hd. unfold create_private_group_chat. destruct (Nat.ltb_spec MAX_PRIVATE_CHAT_MEMBERS (length ms + 1)); [done|].
  set (cid := generate_chat_id creator (as_u64 at_)). cbv zeta.
  apply bind_ok; [by apply insert_chat_ok|]. intros [] d1 E1.
  assert (Hd1 : ok d1).
  { change d1 with (d1, @Ok SocialError unit tt).1. rewrite <- E1. by apply insert_chat_ok. }
  unfold insert_chat, insert_new in E1. destruct (group_chats d !! cid) eqn:Ec; [done|]. injection E1 as <-.
  assert (Hp : private_chat cid (with_chats (<[cid := MkChat n false None at_]> (group_chats d)) d))
    by (eexists; split; [apply lookup_insert_eq|done]).
  assert (Hz : count_chat_members cid (with_chats (<[cid := MkChat n false None at_]> (group_chats d)) d) = 0)
    by apply (private_count cid d Hd Ec).
  set (d1 := with_chats _ d) in *. cbn [chat_members].
  destruct (insert_new (cid, creator) at_ (chat_members d1)) as [t|] eqn:Et; unfold se_bind at 1; rewrite Et; [|done].
  unfold insert_new in Et. destruct (chat_members d1 !! (cid, creator)) eqn:Em; [done|]. injection Et as <-.
  assert (Hrow : with_chat_members (<[(cid, creator) := at_]> (chat_members d1)) d1 = add_chat_row cid at_ d1 creator)
    by (unfold add_chat_row; by rewrite insert_or_ignore_fresh).
  change (chat_members d) with (chat_members d1). rewrite Hrow. unfold se_bind, exec, se_modify, se_ret. cbn [fst].
  pose proof (count_add_row cid at_ d1 creator cid) as Hle. rewrite decide_True in Hle by done.
  apply add_rows_ok.
  - apply add_chat_row_ok; [done..|]. rewrite Hz. unfold MAX_PRIVATE_CHAT_MEMBERS. lia.
  - exact Hp.
  - pose proof (length_filter (λ pk, pk ≠ creator) ms). lia.
Qed.

Lemma create_linked_ok gid at_ d : ok d → ok (create_group_linked_chat gid at_ d).1.
Proof.
  intros Hd. unfold create_group_linked_chat. apply get_ok. destruct (groups d !! gid) as [g|] eqn:Eg; [|done].
  destruct (select_where _ _) as [|[cid c] l] eqn:El; [|exact Hd].
  assert (Hnone : ∀ cid' c', group_chats d !! cid' = Some c' → gc_linked c' = true → gc_group c' ≠ Some gid).
  { intros cid' c' Hc Hl E. refine (not_elem_of_nil (cid', c') _). rewrite <- El. apply elem_of_select_where.
    by rewrite bool_decide_true, Hl. }
  cbv zeta. apply bind_ok; [|intros [] d' Ed; change (ok (d', @Ok SocialError unit tt).1); rewrite <- Ed];
    (apply insert_chat_ok; [done|]; cbn; exists gid; split_and!; [done|by rewrite Eg|done]).
Qed.

Lemma add_chat_member_ok other cid who adder at_ d : ok d → ok (add_chat_member other cid who (Some adder) at_ d).1.
Proof.
  intros Hd. unfold add_chat_member. apply get_ok. apply lift_ok; [done|]. intros u Hu.
  destruct (in_chat cid adder d) eqn:Ei; [|done]. rewrite in_chat_lookup in Ei. bprop.
  destruct (Nat.leb_spec MAX_PRIVATE_CHAT_MEMBERS (count_chat_members cid d)); [done|].
  apply add_chat_row_ok; [done| |done]. match goal with Q : is_Some _ |- _ => destruct Q as [a Ha] end.
  by apply (co_member d (proj2 Hd)) in Ha.
Qed.

Lemma leave_chat_ok cid w d : ok d → ok (leave_chat cid w d).1.
Proof.
  intros [Hg [K1 K2 K3 K4 K5]]. split; [by apply (grp_ok_chats d)|]. split; cbn; try done.
  - intros cid' w' a [_ Ha]%lookup_delete_Some. by apply K3 in Ha.
  - intros cid'. etrans; [|apply (K4 cid')]. apply count_where_le. intros k a Ha Hk. cbn in Ha. apply lookup_delete_Some in Ha as [_ Ha]. eauto.
Qed.

Lemma send_chat_ok mid cid sender b at_ ex d : ok d → ok (send_group_chat_message mid cid sender b at_ ex d).1.
Proof.
  intros Hd. unfold send_group_chat_message. apply get_ok. destruct (in_chat cid sender d) eqn:Ei; [|done]. cbn [negb].
  unfold insert_new. destruct (chat_messages d !! mid); [done|]. rewrite in_chat_lookup in Ei. bprop.
  match goal with Q : is_Some _ |- _ => destruct Q as [a Ha] end. apply (co_member d (proj2 Hd)) in Ha as (c & Hc & _).
  destruct Hd as [Hg [K1 K2 K3 K4 K5]]. split; [by apply (grp_ok_chats d)|]. split; cbn; try done.
  intros mid' m [[<- <-]|[_ Hm]]%lookup_insert_Some; [by eexists|by apply K5 in Hm].
Qed.

(* ------------------------------------------------------------------ *)
(** ** The node's operations *)

Lemma ctx_fst {A} what (m : SE GroupDb SocialError A) d : (Api.ctx what m d).1 = (m d).1.
Proof. unfold Api.ctx. by destruct (m d). Qed.

Lemma require_run {B} gid me allowed denied (k : GroupRole → SE GroupDb Api.ApiError B) d :
  (se_bind (Api.require gid me allowed denied) k d).1 =
    match get_member_role gid me d with
    | Some r => if allowed r then (k r d).1 else d
    | None => d
    end.
Proof.
  unfold se_bind, Api.require, Api.my_role. destruct (get_member_role gid me d) as [r|]; [|done]. cbn. by destruct (allowed r).
Qed.

Lemma require_refused {B} gid me denied (k : GroupRole → SE GroupDb Api.ApiError B) d :
  (∀ w, get_member_role gid w d ≠ Some Owner) →
  is_ok (se_bind (Api.require gid me can_delete_group denied) k d).2 = false.
Proof.
  intros Hno. unfold se_bind, Api.require, Api.my_role. specialize (Hno me).
  destruct (get_member_role gid me d) as [[]|]; done.
Qed.

Lemma limited_run {B} l (k : unit → SE GroupDb Api.ApiError B) d :
  (se_bind (Api.unless_limited l) k d).1 = match l with Some _ => d | None => (k tt d).1 end.
Proof. by destruct l. Qed.

Lemma role_group gid w d r : ok d → get_member_role gid w d = Some r → is_Some (groups d !! gid).
Proof.
  intros Hd. unfold get_member_role, member_role. destruct (group_members d !! (gid, w)) as [m|] eqn:E; [|done].
  by apply (go_member d (proj1 Hd)) in E as (? & _).
Qed.

Lemma role_of_str gid w d r : ok d → get_member_role gid w d = Some r → member_role gid w d = Some (role_as_str r).
Proof.
  intros Hd. unfold get_member_role, member_role. destruct (group_members d !! (gid, w)) as [m|] eqn:E; [|done].
  apply (go_member d (proj1 Hd)) in E as (_ & Hr & _). cbn. intros [= <-]. f_equal.
  set_unfold in Hr. by destruct Hr as [->|[->|[->|[->|[]]]]].
Qed.

Lemma role_as_str_roles r : role_as_str r ∈ roles.
Proof. destruct r; set_solver. Qed.

Lemma group_step_ok me d d' : ok d → Api.group_step me d d' → ok d'.
Proof.
  intros Hd Hs. destruct Hs.
  - unfold Api.create_group. rewrite limited_run. destruct l; [done|]. rewrite ctx_fst. by apply create_group_ok.
  - unfold Api.register_group_handle. rewrite require_run. destruct (get_member_role _ _ _) as [r|]; [|done].
    destruct (can_edit_info r); [|done]. rewrite ctx_fst. by apply register_handle_ok.
  - unfold Api.join_group. rewrite ctx_fst. by apply join_group_ok.
  - unfold Api.invite_to_group. rewrite limited_run. destruct l; [done|]. rewrite require_run.
    destruct (get_member_role _ _ _) as [r|] eqn:Er; [|done]. destruct (can_invite r); [|done]. rewrite ctx_fst.
    apply invite_ok; [done|]. by eapply role_group.
  - unfold Api.leave_group. rewrite ctx_fst. by apply leave_group_ok.
  - unfold Api.set_group_role. cbv zeta. rewrite require_run. destruct (get_member_role _ _ _) as [r0|]; [|done].
    destruct (can_set_role r0 _) eqn:Ec; [|done]. rewrite ctx_fst. apply set_role_ok; [done|apply role_as_str_roles|].
    unfold can_set_role in Ec. by destruct (role_from_str_lossy r).
  - unfold Api.kick_member. rewrite require_run. destruct (get_member_role _ _ _) as [r0|]; [|done].
    destruct (can_kick r0); [|done]. apply get_ok. cbv zeta. destruct (_ <=? _); [done|]. rewrite ctx_fst. by apply remove_member_ok.
  - unfold Api.ban_member. rewrite require_run. destruct (get_member_role _ _ _) as [r|] eqn:Er; [|done].
    destruct (can_ban r); [|done]. rewrite ctx_fst. apply ban_ok; [done|]. by eapply role_group.
  - unfold Api.post_to_group. rewrite require_run. destruct (get_member_role _ _ _) as [r|] eqn:Er; [|done].
    destruct (hex_decode h) as [hb|]; [|done]. cbv zeta. rewrite ctx_fst. apply posts_ok; [done|].
    intros g h' p. rewrite lookup_insert_or_ignore. destruct (decide _) as [[= <- <-]|]; [intros _; by eapply role_group|].
    by apply (go_post d (proj1 Hd)).
  - unfold Api.delete_group. rewrite require_run. destruct (get_member_role _ _ _) as [r|]; [|done].
    destruct (can_delete_group r); [|done]. rewrite ctx_fst. by apply delete_group_ok.
  - unfold Api.transfer_ownership. rewrite require_run. destruct (get_member_role _ _ _) as [r|] eqn:Er; [|done].
    destruct r; try done. rewrite ctx_fst. apply transfer_ok; [done|]. by apply role_of_str in Er.
  - unfold Api.delete_group_post. rewrite require_run. destruct (get_member_role _ _ _) as [r|]; [|done].
    destruct (can_delete_posts r); [|done]. destruct (hex_decode h) as [hb|]; [|done]. rewrite ctx_fst.
    apply posts_ok; [done|]. intros g h' p [_ Hp]%lookup_delete_Some. by apply (go_post d (proj1 Hd)) in Hp.
  - unfold Api.create_private_chat. rewrite ctx_fst. by apply create_private_ok.
  - unfold Api.create_group_chat. rewrite ctx_fst. by apply create_linked_ok.
  - unfold Api.add_chat_member. rewrite ctx_fst. by apply add_chat_member_ok.
  - unfold Api.leave_chat. rewrite ctx_fst. by apply leave_chat_ok.
  - unfold Api.send_group_chat_message. rewrite limited_run. destruct l; [done|]. cbv zeta. rewrite ctx_fst. by apply send_chat_ok.
Qed.

(* ------------------------------------------------------------------ *)
(** ** What an operation leaves alone *)

Record same_group (gid : str) (d d' : GroupDb) : Prop := {
  sg_group : groups d' !! gid = groups d !! gid;
  sg_member w : group_members d' !! (gid, w) = group_members d !! (gid, w);
  sg_ban w : group_bans d' !! (gid, w) = group_bans d !! (gid, w);
  sg_post h : group_posts d' !! (gid, h) = group_posts d !! (gid, h)
}.

Lemma same_group_refl gid d : same_group gid d d.
Proof. by split. Qed.
Hint Resolve same_group_refl : core.

(** The step of [me], seen from one group: what happens there when [me] has
    no staff role, and what becomes of a group without an owner. *)
Definition staff (r : option GroupRole) : bool := match r with Some (Owner | Admin | Moderator) => true | _ => false end.

Record outside (gid me : str) (d d' : GroupDb) : Prop := {
  ou_group : groups d' !! gid = groups d !! gid;
  ou_member w : w ≠ me → group_members d' !! (gid, w) = group_members d !! (gid, w);
  ou_self : staff (get_member_role gid me d') = false;
  ou_ban w : group_bans d' !! (gid, w) = group_bans d !! (gid, w);
  ou_post h p : group_posts d !! (gid, h) = Some p → group_posts d' !! (gid, h) = Some p;
  ou_new h p : group_posts d' !! (gid, h) = Some p → group_posts d !! (gid, h) = None →
    gp_author p = me ∧ get_member_role gid me d = Some Member
}.

Lemma same_outside gid me d d' : staff (get_member_role gid me d) = false → same_group gid d d' → outside gid me d d'.
Proof.
  intros Hs [E1 E2 E3 E4]. split; try done; unfold get_member_role, member_role in *; rewrite ?E2; try done.
  - intros h p. by rewrite E4.
  - intros h p. rewrite E4. congruence.
Qed.

(** Operations on another group. *)
Lemma create_same gid n desc vis c at_ d : is_Some (groups d !! gid) → same_group gid d (create_group n desc vis c at_ d).1.
Proof.
  intros [g Hg]. unfold create_group, se_bind, se_lift. destruct (validate_group_name n); [|done].
  destruct (match desc with Some _ => _ | None => _ end); [|done]. cbv zeta.
  destruct (group_taken (group_id_from_name n) n d) eqn:Et; [done|]. unfold group_taken in Et. bprop.
  assert (Hne : group_id_from_name n ≠ gid) by (intros <-; eauto).
  destruct (insert_new _ _ _) as [tb|] eqn:Ei; cbn.
  - unfold insert_new in Ei. cbn in Ei. destruct (group_members d !! _); [done|]. injection Ei as <-.
    split; intros; cbn; rewrite ?lookup_insert_ne by congruence; done.
  - split; intros; cbn; rewrite ?lookup_insert_ne by congruence; done.
Qed.

Lemma handle_same gid gid' h d : gid' ≠ gid → same_group gid d (register_group_handle gid' h d).1.
Proof.
  intros Hne. unfold register_group_handle, se_bind, se_lift, se_get. destruct (map_err _ _); [|done].
  destruct (0 <? _); [done|]. split; intros; cbn; by rewrite ?lookup_alter_ne by congruence.
Qed.

Lemma members_same gid f d : (∀ w, f (group_members d) !! (gid, w) = group_members d !! (gid, w)) →
  same_group gid d (exec (λ d, with_members (f (group_members d)) d) d).1.
Proof. by split. Qed.

Lemma add_member_same gid gid' w at_ inv d : gid' ≠ gid → same_group gid d (add_member gid' w at_ inv d).1.
Proof.
  intros Hne. apply members_same with (f := insert_or_ignore (gid', w) (MkMember "member" at_ inv)). intros w'.
  rewrite lookup_insert_or_ignore. destruct (decide _) as [|]; [congruence|done].
Qed.
Lemma remove_member_same gid gid' w d : gid' ≠ gid → same_group gid d (remove_member gid' w d).1.
Proof. intros Hne. apply members_same with (f := delete (gid', w)). intros w'. by rewrite lookup_delete_ne by congruence. Qed.
Lemma set_role_same gid gid' w r d : gid' ≠ gid → same_group gid d (set_role gid' w r d).1.
Proof.
  intros Hne. apply members_same with (f := alter (λ m, MkMember r (gm_joined_at m) (gm_invited_by m)) (gid', w)).
  intros w'. by rewrite lookup_alter_ne by congruence.
Qed.

Lemma same_trans gid d1 d2 d3 : same_group gid d1 d2 → same_group gid d2 d3 → same_group gid d1 d3.
Proof. intros [A1 A2 A3 A4] [B1 B2 B3 B4]. split; intros; congruence. Qed.

Lemma ban_same gid gid' w by_ why at_ d : gid' ≠ gid → same_group gid d (ban_member gid' w by_ why at_ d).1.
Proof.
  intros Hne. eapply same_trans; [by apply (remove_member_same gid gid' w)|].
  split; intros; cbn; by rewrite ?lookup_insert_ne by congruence.
Qed.

Lemma transfer_same gid gid' c n d : gid' ≠ gid → same_group gid d (transfer_ownership gid' c n d).1.
Proof.
  intros Hne. unfold transfer_ownership, se_bind at 1, se_get. destruct (member_role gid' n d); [|done].
  eapply same_trans; [by apply (set_role_same gid gid' c "admin")|]. by apply (set_role_same gid gid' n "owner").
Qed.

Lemma delete_same gid gid' d : gid' ≠ gid → same_group gid d (delete_group gid' d).1.
Proof.
  intros Hne. rewrite delete_group_eq.
  assert (Hkeep : ∀ {K V} `{Countable K} (t : gmap (str * K) V) k,
    delete_where (λ (k : str * K) _, bool_decide (k.1 = gid')) t !! (gid, k) = t !! (gid, k)).
  { intros K V ? ? tb k. destruct (tb !! (gid, k)) as [v|] eqn:E.
    - apply lookup_delete_where. split; [done|]. cbn. by rewrite bool_decide_false.
    - apply eq_None_not_Some. intros [v [Hv _]%lookup_delete_where]. congruence. }
  split; intros; cbn; [by rewrite lookup_delete_ne|apply Hkeep..].
Qed.

(** The chat operations leave the group tables alone. *)
Definition chat_only (d d' : GroupDb) : Prop :=
  groups d' = groups d ∧ group_members d' = group_members d ∧ group_bans d' = group_bans d ∧ group_posts d' = group_posts d.

Lemma chat_only_same gid d d' : chat_only d d' → same_group gid d d'.
Proof. intros (E1 & E2 & E3 & E4). split; intros; by rewrite ?E1, ?E2, ?E3, ?E4. Qed.

Lemma insert_chat_only cid row d : chat_only d (insert_chat cid row d).1.
Proof. unfold insert_chat. by destruct (insert_new _ _ _). Qed.

Lemma add_rows_only cid at_ ws d : chat_only d (foldl (add_chat_row cid at_) d ws).
Proof.
  revert d. induction ws as [|w ws IH]; intros d; [done|]. cbn. destruct (IH (add_chat_row cid at_ d w)) as (E1 & E2 & E3 & E4).
  split_and!; by rewrite ?E1, ?E2, ?E3, ?E4.
Qed.

Lemma create_private_only n c ms at_ d : chat_only d (create_private_group_chat n c ms at_ d).1.
Proof.
  unfold create_private_group_chat. destruct (_ <? _); [done|]. cbv zeta. unfold se_bind at 1.
  pose proof (insert_chat_only (generate_chat_id c (as_u64 at_)) (MkChat n false None at_) d) as (E1 & E2 & E3 & E4).
  destruct (insert_chat _ _ d) as [d1 [u|]]; [|done]. cbn [fst] in *. unfold se_bind at 1.
  destruct (insert_new _ _ _) as [tb|]; [|done]. unfold se_bind, exec, se_modify, se_ret. cbn [fst].
  match goal with |- chat_only _ (foldl (add_chat_row ?k ?a) ?x ?l) => destruct (add_rows_only k a l x) as (F1 & F2 & F3 & F4) end.
  split_and!; [rewrite F1|rewrite F2|rewrite F3|rewrite F4]; done.
Qed.

Lemma create_linked_only gid at_ d : chat_only d (create_group_linked_chat gid at_ d).1.
Proof.
  unfold create_group_linked_chat, se_bind at 1, se_get. destruct (groups d !! gid) as [g|]; [|done].
  destruct (select_where _ _) as [|[cid c] l]; [|done]. cbv zeta. unfold se_bind.
  match goal with |- context [insert_chat ?k ?r d] => pose proof (insert_chat_only k r d) as Hi end.
  by destruct (insert_chat _ _ d) as [d1 [u|]].
Qed.

Lemma add_chat_member_only other cid who adder at_ d : chat_only d (add_chat_member other cid who adder at_ d).1.
Proof.
  unfold add_chat_member, se_bind, se_get, se_lift. destruct (match adder with Some _ => _ | None => _ end); [|done].
  by destruct (_ <=? _).
Qed.

Lemma send_chat_only mid cid sender b at_ ex d : chat_only d (send_group_chat_message mid cid sender b at_ ex d).1.
Proof.
  unfold send_group_chat_message, se_bind, se_get. destruct (negb _); [done|]. by destruct (insert_new _ _ _).
Qed.

Lemma add_member_outside gid me at_ inv d :
  staff (get_member_role gid me d) = false → outside gid me d (add_member gid me at_ inv d).1.
Proof.
  intros Hs. split; try done.
  - intros w Hw. cbn. rewrite lookup_insert_or_ignore. destruct (decide _) as [|]; [congruence|done].
  - unfold get_member_role, member_role in *. cbn. rewrite lookup_insert_or_ignore, decide_True by done.
    by destruct (group_members d !! (gid, me)).
  - cbn. congruence.
Qed.

Lemma remove_member_outside gid me d : outside gid me d (remove_member gid me d).1.
Proof.
  split; try done.
  - intros w Hw. cbn. by rewrite lookup_delete_ne by congruence.
  - unfold get_member_role, member_role. cbn. by rewrite lookup_delete_eq.
  - cbn. congruence.
Qed.

Lemma staff_refuses gid me d allowed : staff (get_member_role gid me d) = false → allowed Member = false →
  match get_member_role gid me d with Some r => allowed r = false | None => True end.
Proof. destruct (get_member_role gid me d) as [[]|]; done. Qed.

(** An operation that needs a staff role, on this or another group. *)
Lemma guarded_outside {B} gid gid' me allowed denied (k : GroupRole → SE GroupDb Api.ApiError B) d :
  staff (get_member_role gid me d) = false → allowed Member = false →
  (∀ r, gid' ≠ gid → same_group gid d (k r d).1) →
  outside gid me d (se_bind (Api.require gid' me allowed denied) k d).1.
Proof.
  intros Hs Ha Hk. apply same_outside; [done|]. rewrite require_run. destruct (decide (gid' = gid)) as [->|Hne].
  - pose proof (staff_refuses gid me d allowed Hs Ha) as Hr. destruct (get_member_role gid me d) as [r|]; [|done]. by rewrite Hr.
  - destruct (get_member_role gid' me d) as [r|]; [|done]. destruct (allowed r); [by apply Hk|done].
Qed.

Lemma step_outside gid me d d' : is_Some (groups d !! gid) → staff (get_member_role gid (hex_encode me) d) = false →
  Api.group_step me d d' → outside gid (hex_encode me) d d'.
Proof.
  intros Hg Hs Hstep. destruct Hstep.
  - unfold Api.create_group. rewrite limited_run. destruct l; [by apply same_outside|]. rewrite ctx_fst.
    apply same_outside; [done|]. by apply create_same.
  - apply guarded_outside; [done..|]. intros r Hne. rewrite ctx_fst. by apply handle_same.
  - unfold Api.join_group. rewrite ctx_fst. unfold join_group, se_bind, se_get. destruct (groups d !! gid0); [|by apply same_outside].
    destruct (negb _); [by apply same_outside|]. destruct (is_banned _ _ _); [by apply same_outside|].
    destruct (decide (gid0 = gid)) as [->|Hne]; [by apply add_member_outside|].
    apply same_outside; [done|]. by apply (add_member_same gid gid0).
  - unfold Api.invite_to_group. rewrite limited_run. destruct l; [by apply same_outside|].
    apply guarded_outside; [done..|]. intros r Hne. rewrite ctx_fst. unfold invite_to_group, se_bind, se_get.
    destruct (is_banned _ _ _); [done|]. by apply (add_member_same gid gid0).
  - unfold Api.leave_group. rewrite ctx_fst. unfold leave_group, se_bind, se_get.
    destruct (bool_decide _); [by apply same_outside|].
    destruct (decide (gid0 = gid)) as [->|Hne]; [by apply remove_member_outside|].
    apply same_outside; [done|]. by apply (remove_member_same gid gid0).
  - unfold Api.set_group_role. cbv zeta. apply guarded_outside; [done|by destruct (role_from_str_lossy r)|].
    intros r' Hne. rewrite ctx_fst. by apply (set_role_same gid gid0).
  - unfold Api.kick_member. apply guarded_outside; [done..|]. intros r Hne. unfold se_bind, se_get. cbv zeta.
    destruct (_ <=? _); [done|]. rewrite ctx_fst. by apply (remove_member_same gid gid0).
  - apply guarded_outside; [done..|]. intros r Hne. rewrite ctx_fst. by apply ban_same.
  - unfold Api.post_to_group. rewrite require_run. destruct (get_member_role gid0 _ _) as [r|] eqn:Er; [|by apply same_outside].
    destruct (hex_decode h) as [hb|]; [|by apply same_outside]. cbv zeta. rewrite ctx_fst.
    set (wire := if Nat.eqb (length hb) 32 then _ else _).
    split; try done; cbn; intros h' p; rewrite lookup_insert_or_ignore; destruct (decide _) as [Q|]; simplify_eq; try done.
    + by intros ->.
    + intros Q Hnew. rewrite Hnew in Q. injection Q as <-. split; [done|]. rewrite Er in *. by destruct r.
    + congruence.
  - apply guarded_outside; [done..|]. intros r Hne. rewrite ctx_fst. by apply delete_same.
  - apply guarded_outside; [done..|]. intros r Hne. rewrite ctx_fst. by apply transfer_same.
  - apply guarded_outside; [done..|]. intros r Hne. destruct (hex_decode h) as [hb|]; [|done]. rewrite ctx_fst.
    split; intros; cbn; by rewrite ?lookup_delete_ne by congruence.
  - unfold Api.create_private_chat. rewrite ctx_fst. apply same_outside; [done|]. apply chat_only_same, create_private_only.
  - unfold Api.create_group_chat. rewrite ctx_fst. apply same_outside; [done|]. apply chat_only_same, create_linked_only.
  - unfold Api.add_chat_member. rewrite ctx_fst. apply same_outside; [done|]. apply chat_only_same, add_chat_member_only.
  - unfold Api.leave_chat. rewrite ctx_fst. by apply same_outside.
  - unfold Api.send_group_chat_message. rewrite limited_run. destruct l; [by apply same_outside|]. cbv zeta. rewrite ctx_fst.
    apply same_outside; [done|]. apply chat_only_same, send_chat_only.
Qed.

(* ------------------------------------------------------------------ *)
(** ** A group without an owner *)

Definition ownerless (gid : str) (d : GroupDb) : Prop :=
  is_Some (groups d !! gid) ∧ ∀ w, member_role gid w d ≠ Some "owner"%string.

Lemma ownerless_same gid d d' : same_group gid d d' → ownerless gid d → ownerless gid d'.
Proof. intros [E1 E2 _ _] [Hg Ho]. unfold ownerless, member_role in *. rewrite E1. split; [done|]. intros w. by rewrite E2. Qed.

Lemma ownerless_members gid d d' : groups d' = groups d →
  (∀ w s, member_role gid w d' = Some s → member_role gid w d = Some s ∨ s ≠ "owner"%string) →
  ownerless gid d → ownerless gid d'.
Proof. intros E Hm [Hg Ho]. split; [by rewrite E|]. intros w Hw. destruct (Hm w _ Hw); [by eapply Ho|done]. Qed.

Lemma ownerless_add gid gid' w at_ inv d : ownerless gid d → ownerless gid (add_member gid' w at_ inv d).1.
Proof.
  apply ownerless_members; [done|]. intros w' s. unfold member_role. cbn. rewrite lookup_insert_or_ignore.
  destruct (decide _) as [[= -> ->]|]; [|by left]. destruct (group_members d !! (gid, w')) as [m|]; cbn; [by left|].
  intros [= <-]. by right.
Qed.

Lemma ownerless_remove gid gid' w d : ownerless gid d → ownerless gid (remove_member gid' w d).1.
Proof.
  apply ownerless_members; [done|]. intros w' s. unfold member_role. cbn. rewrite lookup_delete.
  destruct (decide _); [done|by left].
Qed.

Lemma ownerless_role gid gid' w r d : r ≠ "owner"%string → ownerless gid d → ownerless gid (set_role gid' w r d).1.
Proof.
  intros Hr. apply ownerless_members; [done|]. intros w' s. rewrite set_role_lookup. destruct (decide _) as [|]; [|by left].
  destruct (member_role gid w' d); [|done]. intros [= <-]. by right.
Qed.

Lemma no_owner_role gid w d : ok d → ownerless gid d → get_member_role gid w d ≠ Some Owner.
Proof. intros Hd [_ Ho] Hr. by apply (role_of_str gid w d Owner Hd), Ho in Hr. Qed.

(** An operation only the owner may do. *)
Lemma owner_only {B} gid gid' me denied (k : GroupRole → SE GroupDb Api.ApiError B) d :
  ok d → ownerless gid d → (gid' ≠ gid → same_group gid d (k Owner d).1) →
  ownerless gid (se_bind (Api.require gid' me can_delete_group denied) k d).1.
Proof.
  intros Hd Ho Hk. rewrite require_run. destruct (get_member_role gid' me d) as [[]|] eqn:Er; try done.
  destruct (decide (gid' = gid)) as [->|Hne]; [by apply no_owner_role in Er|]. eapply ownerless_same; [by apply Hk|done].
Qed.

Lemma step_ownerless gid me d d' : ok d → ownerless gid d → Api.group_step me d d' → ownerless gid d'.
Proof.
  intros Hd Ho Hstep. destruct Hstep.
  - unfold Api.create_group. rewrite limited_run. destruct l; [done|]. rewrite ctx_fst.
    eapply ownerless_same; [|done]. apply create_same, Ho.
  - unfold Api.register_group_handle. rewrite require_run. destruct (get_member_role _ _ _) as [r|]; [|done].
    destruct (can_edit_info r); [|done]. rewrite ctx_fst. unfold register_group_handle, se_bind, se_lift, se_get.
    destruct (map_err _ _); [|done]. destruct (0 <? _); [done|]. destruct Ho as [Hg Ho]. split; [|exact Ho].
    by apply lookup_alter_is_Some.
  - unfold Api.join_group. rewrite ctx_fst. unfold join_group, se_bind, se_get. destruct (groups d !! gid0); [|done].
    destruct (negb _); [done|]. destruct (is_banned _ _ _); [done|]. by apply ownerless_add.
  - unfold Api.invite_to_group. rewrite limited_run. destruct l; [done|]. rewrite require_run.
    destruct (get_member_role _ _ _) as [r|]; [|done]. destruct (can_invite r); [|done]. rewrite ctx_fst.
    unfold invite_to_group, se_bind, se_get. destruct (is_banned _ _ _); [done|]. by apply ownerless_add.
  - unfold Api.leave_group. rewrite ctx_fst. unfold leave_group, se_bind, se_get.
    destruct (bool_decide _); [done|]. by apply ownerless_remove.
  - unfold Api.set_group_role. cbv zeta. rewrite require_run. destruct (get_member_role _ _ _) as [r0|]; [|done].
    destruct (can_set_role r0 _) eqn:Ec; [|done]. rewrite ctx_fst. apply ownerless_role; [|done].
    by destruct (role_from_str_lossy r).
  - unfold Api.kick_member. rewrite require_run. destruct (get_member_role _ _ _) as [r0|]; [|done].
    destruct (can_kick r0); [|done]. unfold se_bind, se_get. cbv zeta. destruct (_ <=? _); [done|]. rewrite ctx_fst.
    by apply ownerless_remove.
  - unfold Api.ban_member. rewrite require_run. destruct (get_member_role _ _ _) as [r|]; [|done].
    destruct (can_ban r); [|done]. rewrite ctx_fst.
    apply (ownerless_members gid (remove_member gid0 t d).1); [done|by left|]. by apply ownerless_remove.
  - unfold Api.post_to_group. rewrite require_run. destruct (get_member_role _ _ _) as [r|]; [|done].
    destruct (hex_decode h) as [hb|]; [|done]. cbv zeta. by rewrite ctx_fst.
  - apply owner_only; [done..|]. intros Hne. rewrite ctx_fst. by apply delete_same.
  - apply owner_only; [done..|]. intros Hne. rewrite ctx_fst. by apply transfer_same.
  - unfold Api.delete_group_post. rewrite require_run. destruct (get_member_role _ _ _) as [r|]; [|done].
    destruct (can_delete_posts r); [|done]. destruct (hex_decode h) as [hb|]; [|done]. by rewrite ctx_fst.
  - unfold Api.create_private_chat. rewrite ctx_fst. eapply ownerless_same; [apply chat_only_same, create_private_only|done].
  - unfold Api.create_group_chat. rewrite ctx_fst. eapply ownerless_same; [apply chat_only_same, create_linked_only|done].
  - unfold Api.add_chat_member. rewrite ctx_fst. eapply ownerless_same; [apply chat_only_same, add_chat_member_only|done].
  - unfold Api.leave_chat. by rewrite ctx_fst.
  - unfold Api.send_group_chat_message. rewrite limited_run. destruct l; [done|]. cbv zeta. rewrite ctx_fst.
    eapply ownerless_same; [apply chat_only_same, send_chat_only|done].
Qed.

(* ------------------------------------------------------------------ *)
(** ** Properties *)

(** Anyone's steps. *)
Definition any_step (d d' : GroupDb) : Prop := ∃ me, Api.group_step me d d'.

Lemma any_step_ok d d' : ok d → any_step d d' → ok d'.
Proof. intros Hd [me Hs]. by eapply group_step_ok. Qed.

Lemma reachable_ok d : rtc any_step empty_groups d → ok d.
Proof. intros Hr. exact (rtc_preserve ok _ _ _ any_step_ok empty_groups_ok Hr). Qed.

(** C38. Whoever does what in whatever order, the tables of groups and chats
    keep their shape: a group's id is the hash of its name of one to fifty
    characters, no two groups have one handle and handles are well formed;
    members and bans belong to groups that exist, nobody is member and
    banned, and a group has at most one owner; a linked chat belongs to a
    group that exists and is its only one; chat members and messages belong
    to chats, and no chat has more than fifty members. *)
Theorem group_tables_invariant (d : GroupDb) (Hrun : rtc any_step empty_groups d) :
  (∀ gid g, groups d !! gid = Some g → gid = group_id_from_name (g_name g) ∧ 1 ≤ length (g_name g) ≤ 50) ∧
  (∀ gid gid' g g' h, groups d !! gid = Some g → groups d !! gid' = Some g' →
     g_handle g = Some h → g_handle g' = Some h → gid = gid' ∧ validate_handle_format h = Ok tt) ∧
  (∀ gid w m, group_members d !! (gid, w) = Some m → is_Some (groups d !! gid) ∧ group_bans d !! (gid, w) = None) ∧
  (∀ gid w w', get_member_role gid w d = Some Owner → get_member_role gid w' d = Some Owner → w = w') ∧
  (∀ cid cid' c c', group_chats d !! cid = Some c → group_chats d !! cid' = Some c' → gc_linked c = true →
     gc_linked c' = true → gc_group c = gc_group c' →
     cid = cid' ∧ ∃ gid, gc_group c = Some gid ∧ is_Some (groups d !! gid)) ∧
  (∀ cid w t, chat_members d !! (cid, w) = Some t → is_Some (group_chats d !! cid)) ∧
  (∀ cid, length (select_where (λ k _, bool_decide (k.1 = cid)) (chat_members d)) ≤ 50) ∧
  (∀ mid m, chat_messages d !! mid = Some m → is_Some (group_chats d !! cm_chat m)).
Proof.
  pose proof (reachable_ok d Hrun) as Hd. pose proof Hd as [[H1' H2' H3' H4' H5' H6'] [K1 K2 K3 K4 K5]]. split_and!.
  - exact H1'.
  - exact H2'.
  - intros gid w m Hm. by apply H3' in Hm as (? & _ & ?).
  - intros gid w w' E1 E2. apply (role_of_str gid w d _ Hd) in E1. apply (role_of_str gid w' d _ Hd) in E2. by apply (H4' gid).
  - intros cid cid' c c' Hc Hc' L L' E. split; [by apply (K2 _ _ _ _ Hc Hc')|]. apply K1 in Hc. by rewrite L in Hc.
  - intros cid w a Ha. apply K3 in Ha as (c & Hc & _). eauto.
  - intros cid. rewrite length_select_where. apply K4.
  - exact K5.
Qed.

(** C40. Who is not on the staff of a group has no power over it.  Whatever an
    identity without the role of owner, admin or moderator does, through any
    operation on any group or chat, the group's row, its bans and the
    memberships of the others stay as they are, its own role does not rise
    above member, no post of the group is changed or removed, and a new post
    is its own and needed it to be a member. *)
Theorem outsiders_powerless (me : bytes) (gid : str) (d d' : GroupDb)
  (Hg : is_Some (groups d !! gid)) (Hstep : Api.group_step me d d')
  (Hrole : staff (get_member_role gid (hex_encode me) d) = false) :
  groups d' !! gid = groups d !! gid ∧
  (∀ w, w ≠ hex_encode me → group_members d' !! (gid, w) = group_members d !! (gid, w)) ∧
  staff (get_member_role gid (hex_encode me) d') = false ∧
  (∀ w, group_bans d' !! (gid, w) = group_bans d !! (gid, w)) ∧
  (∀ h p, group_posts d !! (gid, h) = Some p → group_posts d' !! (gid, h) = Some p) ∧
  (∀ h p, group_posts d' !! (gid, h) = Some p → group_posts d !! (gid, h) = None →
     gp_author p = hex_encode me ∧ get_member_role gid (hex_encode me) d = Some Member).
Proof.
  by destruct (step_outside gid me d d' Hg Hrole Hstep) as [E1 E2 E3 E4 E5 E6].
Qed.

(** A moderator deposes the owner.  The check compares the caller's role
    with the new role only, so a moderator makes the owner a plain member;
    and from then on, whatever anyone does, the group is there, nobody owns
    it, and nobody can delete it, hand it over, or take its name again. *)
Theorem owner_deposed (gid owner : str) (moderator : bytes) (d : GroupDb)
  (Hrun : rtc any_step empty_groups d)
  (Howner : get_member_role gid owner d = Some Owner)
  (Hmod : get_member_role gid (hex_encode moderator) d = Some Moderator) :
  let d1 := (Api.set_group_role gid owner "member" moderator d).1 in
  (Api.set_group_role gid owner "member" moderator d).2 = Ok tt ∧
  get_member_role gid owner d1 = Some Member ∧
  ∀ d2 me new, rtc any_step d1 d2 →
    is_Some (groups d2 !! gid) ∧ (∀ w, get_member_role gid w d2 ≠ Some Owner) ∧
    is_ok (Api.delete_group gid me d2).2 = false ∧ is_ok (Api.transfer_ownership gid new me d2).2 = false.
Proof.
  pose proof (reachable_ok d Hrun) as Hd. cbv zeta.
  assert (Hrole : member_role gid owner d = Some "owner"%string) by (by apply (role_of_str gid owner d Owner)).
  assert (Heq : Api.set_group_role gid owner "member" moderator d = ((set_role gid owner "member" d).1, Ok tt)).
  { unfold Api.set_group_role, se_bind at 1, Api.require, Api.my_role. rewrite Hmod. done. }
  assert (Hone : ownerless gid (set_role gid owner "member" d).1).
  { split; [exact (role_group gid owner d Owner Hd Howner)|]. intros w Hw. rewrite set_role_lookup in Hw. destruct (decide _) as [[= <-]|Hne].
    - rewrite Hrole in Hw. discriminate Hw.
    - destruct Hne. f_equal. by apply (go_owner d (proj1 Hd) gid). }
  rewrite Heq. cbn [fst snd]. split_and!; [done|..].
  - unfold get_member_role. rewrite set_role_lookup, decide_True, Hrole by done. done.
  - intros d2 me new Hr.
    assert (ok d2 ∧ ownerless gid d2) as [Hd2 Ho].
    { refine (rtc_preserve (λ x, ok x ∧ ownerless gid x) _ _ _ _ _ Hr).
      - intros x y [Hx Hox] Hxy. split; [by eapply any_step_ok|]. destruct Hxy as [who Hxy]. by eapply step_ownerless.
      - split; [|done]. apply set_role_ok; [done|set_solver|done]. }
    assert (Hno : ∀ w, get_member_role gid w d2 ≠ Some Owner) by (intros w; by apply no_owner_role).
    split_and!; [apply Ho|done|..].
    + unfold Api.delete_group. by apply require_refused.
    + unfold Api.transfer_ownership. by apply require_refused.
Qed.

(** Nobody ever takes part in a chat that is linked to a group: it starts
    with no members, and only a member adds members. *)
Lemma linked_chat_unusable (cid who : str) (me : bytes) (now : N) (other : MetadataDb) (text : str) (d : GroupDb) (c : ChatRow) :
  rtc any_step empty_groups d → group_chats d !! cid = Some c → gc_linked c = true →
  is_ok (Api.add_chat_member other cid who me now d).2 = false ∧
  is_ok (Api.send_group_chat_message None cid text me now d).2 = false ∧
  is_ok (Api.get_chat_messages cid 50 me d) = false.
Proof.
  intros Hrun Hc Hl. pose proof (reachable_ok d Hrun) as Hd.
  assert (Hn : in_chat cid (hex_encode me) d = false).
  { rewrite in_chat_lookup. apply bool_decide_false. intros [a Ha]. apply (co_member d (proj2 Hd)) in Ha as (c' & Hc' & Hl').
    congruence. }
  split_and!.
  - unfold Api.add_chat_member, Api.ctx, add_chat_member, se_bind, se_get, se_lift. by rewrite Hn.
  - unfold Api.send_group_chat_message, Api.unless_limited, Api.ctx, send_group_chat_message, se_bind, se_get, se_lift. by rewrite Hn.
  - unfold Api.get_chat_messages, get_chat_messages. by rewrite Hn.
Qed.

(* ------------------------------------------------------------------ *)
(** ** Paging through a feed *)

Definition newer_row (a b : (str * bytes) * PostRow) : Prop := (gp_created_at b.2 ≤ gp_created_at a.2)%Z.

Lemma elem_of_feed_rows gid c d k p :
  (k, p) ∈ feed_rows gid d c ↔ group_posts d !! k = Some p ∧ k.1 = gid ∧ older c (gp_created_at p) = true.
Proof.
  unfold feed_rows. rewrite elem_of_query_rows, elem_of_select_where, bool_decide_eq_true. cbn [fst snd]. naive_solver.
Qed.

(** The posts of a group have different times, all of them times. *)
Definition distinct_times (gid : str) (d : GroupDb) : Prop :=
  (∀ h p, group_posts d !! (gid, h) = Some p → (0 ≤ gp_created_at p < 2 ^ 63)%Z) ∧
  (∀ h h' p p', group_posts d !! (gid, h) = Some p → group_posts d !! (gid, h') = Some p' →
     gp_created_at p = gp_created_at p' → h = h').

Lemma group_query gid d : distinct_times gid d →
  feed_query (λ kr, gp_created_at kr.2) item_of_row (feed_rows gid d) ∧ Paging.distinct_times (λ kr, gp_created_at kr.2) (feed_rows gid d).
Proof.
  intros [Ht Hd]. split.
  - apply query_rows_feed; [apply NoDup_map_to_list|]. intros [[g h] p] [Hp Hg%bool_decide_eq_true]%elem_of_select_where. cbn in Hg. subst g.
    split; [|done]. specialize (Ht _ _ Hp). unfold i64. cbn. lia.
  - intros [[g h] p] [[g' h'] p']. rewrite !elem_of_feed_rows. cbn.
    intros (Hx & -> & _) (Hy & -> & _) E. assert (h = h') as <- by by eapply Hd. congruence.
Qed.

(** Paging shows a feed completely.  With a page size of one to two
    hundred and posts of different times, following the cursors from the
    start ends, and the pages together are the posts of the group, each
    once, newest first; each page is no longer than asked for. *)
Theorem feed_pages (gid : str) (limit fuel : nat) (d : GroupDb)
  (Htimes : distinct_times gid d) (Hlimit : 1 ≤ limit ≤ 200) (Hfuel : length (feed_rows gid d None) < fuel) :
  read_feed fuel (λ c, get_group_feed gid c limit d) None = item_of_row <$> feed_rows gid d None ∧
  NoDup (feed_rows gid d None) ∧ StronglySorted newer_row (feed_rows gid d None) ∧
  (∀ h p, group_posts d !! (gid, h) = Some p ↔ ((gid, h), p) ∈ feed_rows gid d None) ∧
  ∀ c, length (items (get_group_feed gid c limit d)) ≤ limit.
Proof.
  destruct (group_query gid d Htimes) as [Hq Hdist]. split_and!.
  - by apply (read_all _ _ _ Hq Hdist).
  - apply (fq_nodup _ _ _ Hq).
  - apply (fq_sorted _ _ _ Hq).
  - intros h p. rewrite elem_of_feed_rows. naive_solver.
  - intros c. apply length_feed_of. lia.
Qed.

(** Above two hundred, the page that is full says that nothing follows. *)
Lemma feed_large_limit gid limit d : 201 ≤ limit → 201 < length (feed_rows gid d None) →
  has_more (get_group_feed gid None limit d) = false ∧ length (items (get_group_feed gid None limit d)) = 201.
Proof.
  intros Hl Hn. unfold get_group_feed, feed_of, page_of, fetch_limit. cbv zeta. rewrite Nat.min_r by lia. rewrite length_fmap, length_take.
  destruct (Nat.ltb_spec limit (Nat.min (200 + 1) (length (feed_rows gid d None)))); [lia|]. cbn [has_more items].
  split; [done|]. rewrite length_fmap, length_take. lia.
Qed.

(** A post is stored under the wire form of its hash and looked for under the
    hash itself: what was posted by a hash cannot be deleted by it. *)
Lemma posted_not_deletable gid (poster mod_ : bytes) hash hex now (d d1 d2 : GroupDb) `{!HexLaws} :
  Forall byte_ok hash → length hash = 32 → hex = hex_encode hash →
  Api.post_to_group gid hex poster now d = (d1, Ok tt) →
  Api.delete_group_post gid hex mod_ d1 = (d2, Ok tt) →
  is_Some (group_posts d2 !! (gid, to_wire_bytes (from_digest hash))).
Proof.
  intros Hb Hl -> Hp Hdel.
  assert (H1p : is_Some (group_posts d1 !! (gid, to_wire_bytes (from_digest hash)))).
  { unfold Api.post_to_group in Hp. assert (E : d1 = (d1, @Ok Api.ApiError unit tt).1) by done. rewrite <- Hp in E.
    unfold se_bind, Api.require, Api.my_role in E, Hp. destruct (get_member_role _ _ _); [|done]. cbn in E, Hp.
    rewrite hex_decode_encode in E, Hp by done. rewrite Hl in E, Hp. cbn in E. subst d1. apply insert_or_ignore_is_Some. }
  unfold Api.delete_group_post in Hdel.
  assert (E : d2 = (d2, @Ok Api.ApiError unit tt).1) by done. rewrite <- Hdel in E.
  unfold se_bind, Api.require, Api.my_role in E, Hdel. destruct (get_member_role _ _ _) as [r|]; [|done]. cbn in E, Hdel.
  destruct (can_delete_posts r); [|done]. rewrite hex_decode_encode in E, Hdel by done. cbn in E. subst d2. cbn.
  rewrite lookup_delete_ne; [done|]. intros [= Q]. apply (f_equal length) in Q.
  unfold to_wire_bytes in Q. cbn in Q. lia.
Qed.
End groups.

(* ------------------------------------------------------------------ *)
(** ** Witnesses *)

Section witnesses.
Import Toy HexToy.

Definition gw_alice : bytes := replicate 32 1%N.
Definition gw_bob : bytes := replicate 32 2%N.
Definition gw_gid : str := group_id_from_name (lit "club").
Definition gw_db1 : GroupDb := (Api.create_group None (lit "club") None "public" gw_alice 100 empty_groups).1.
Definition gw_db2 : GroupDb := (Api.join_group gw_gid gw_bob 101 gw_db1).1.
Definition gw_db3 : GroupDb := (Api.set_group_role gw_gid (hex_encode gw_bob) "moderator" gw_alice gw_db2).1.

Lemma gw_run1 : rtc any_step empty_groups gw_db1.
Proof. apply rtc_once. exists gw_alice. apply (Api.gs_create gw_alice _ None (lit "club") None "public" 100). Qed.
Lemma gw_run3 : rtc any_step empty_groups gw_db3.
Proof.
  etrans; [apply gw_run1|]. eapply rtc_l; [exists gw_bob; apply (Api.gs_join gw_bob _ gw_gid 101)|].
  apply rtc_once. exists gw_alice. apply (Api.gs_role gw_alice _ gw_gid (hex_encode gw_bob) "moderator").
Qed.

Lemma group_tables_invariant_witness :
  length (select_where (λ k _, bool_decide (k.1 = lit "chat"))
    (chat_members (Api.create_private_chat None [hex_encode gw_bob] gw_alice 7 gw_db1).1)) ≤ 50.
Proof.
  refine (proj1 (proj2 (proj2 (proj2 (proj2 (proj2 (proj2 (group_tables_invariant _ _))))))) (lit "chat")).
  eapply rtc_r; [apply gw_run1|]. exists gw_alice. apply Api.gs_private.
Defined.

Lemma outsiders_powerless_witness :
  group_members (Api.kick_member gw_gid (hex_encode gw_alice) gw_bob gw_db1).1 !! (gw_gid, hex_encode gw_alice) =
    group_members gw_db1 !! (gw_gid, hex_encode gw_alice).
Proof.
  eapply (outsiders_powerless gw_bob gw_gid gw_db1).
  - vm_compute. eexists. reflexivity.
  - apply Api.gs_kick.
  - vm_compute. reflexivity.
  - vm_compute. congruence.
Defined.

Lemma owner_deposed_witness :
  get_member_role gw_gid (hex_encode gw_alice)
    (Api.set_group_role gw_gid (hex_encode gw_alice) "member" gw_bob gw_db3).1 = Some Member.
Proof.
  apply (owner_deposed gw_gid (hex_encode gw_alice) gw_bob gw_db3).
  - apply gw_run3.
  - vm_compute. reflexivity.
  - vm_compute. reflexivity.
Defined.

Definition two_posts (gid : str) : gmap (str * bytes) PostRow :=
  <[(gid, [1%N]) := MkPost (lit "a") 10]> {[(gid, [2%N]) := MkPost (lit "b") 20]}.
Definition gw_posts : GroupDb := with_posts (two_posts gw_gid) gw_db1.

Lemma two_posts_times gid d : distinct_times gid (with_posts (two_posts gid) d).
Proof.
  assert (Hin : ∀ h p, two_posts gid !! (gid, h) = Some p →
    (h = [1%N] ∧ p = MkPost (lit "a") 10) ∨ (h = [2%N] ∧ p = MkPost (lit "b") 20)).
  { intros h p Hp. unfold two_posts in Hp.
    apply lookup_insert_Some in Hp as [[Q <-]|[_ [Q <-]%lookup_singleton_Some]]; injection Q as <-; auto. }
  split; cbn.
  - intros h p [[_ ->]|[_ ->]]%Hin; cbn; lia.
  - intros h h' p p' [[-> ->]|[-> ->]]%Hin [[-> ->]|[-> ->]]%Hin; cbn; congruence.
Qed.

Lemma feed_pages_witness :
  read_feed 3 (λ c, get_group_feed gw_gid c 1 gw_posts) None = item_of_row <$> feed_rows gw_gid gw_posts None.
Proof.
  apply (feed_pages gw_gid 1 3 gw_posts).
  - apply two_posts_times.
  - lia.
  - vm_compute. lia.
Defined.
End witnesses.
