(* ===== verification/Protocol.v ===== *)
(** * Wire protocol: [crates/ephemera-protocol/src]

    Versions ([version.rs]), message types ([messages.rs]), the envelope with
    its hop count ([envelope.rs]) and the length-prefixed frames
    ([codec.rs]) on a byte buffer that fills as bytes arrive.  The JSON of
    an envelope is the parameter [EnvelopeJson]. *)
From S2P Require Import Prelude.

(* ------------------------------------------------------------------ *)
(** ** Versions *)

Definition PROTOCOL_MAJOR : N := 1.
Definition PROTOCOL_MINOR : N := 0.

Record ProtocolVersion := MkVersion { major : N; minor : N }.
#[global] Instance ProtocolVersion_eq_dec : EqDecision ProtocolVersion.
Proof. solve_decision. Defined.
Definition current : ProtocolVersion := MkVersion PROTOCOL_MAJOR PROTOCOL_MINOR.
Definition is_compatible_with (self other : ProtocolVersion) : bool := (major self =? major other)%N.
Definition is_exact_match (self other : ProtocolVersion) : bool :=
  (major self =? major other)%N && (minor self =? minor other)%N.

(* ------------------------------------------------------------------ *)
(** ** Envelopes *)

Inductive MessageType :=
| Post | DirectMessage | SocialEvent | DhtRequest | DhtResponse | ProfileUpdate | BloomFilterUpdate
| ModerationVote | ContentReport | Tombstone | PrekeyBundle | PeerExchange | ChunkRequest | ChunkResponse
| CapabilityHandshake | GossipControl | Ping | Pong.

Record ProtocolEnvelope := MkEnvelope {
  version : ProtocolVersion;
  sender_node_id : bytes;
  payload_type : MessageType;
  payload_bytes : bytes;
  signature : option bytes;
  hop_count : N;
  ttl : N;
  timestamp : N;
  compressed : bool;
  content_hash : option bytes
}.

Definition DEFAULT_TTL : N := 7.
Definition MAX_TTL : N := 20.

Definition new (now : N) (sender : bytes) (t : MessageType) (payload : bytes) : ProtocolEnvelope :=
  MkEnvelope current sender t payload None 0 DEFAULT_TTL now false None.
Definition is_expired (e : ProtocolEnvelope) : bool := (ttl e <=? hop_count e)%N.
Definition set_hop_count (n : N) (e : ProtocolEnvelope) : ProtocolEnvelope :=
  MkEnvelope (version e) (sender_node_id e) (payload_type e) (payload_bytes e) (signature e) n (ttl e) (timestamp e)
    (compressed e) (content_hash e).
Definition increment_hop (e : ProtocolEnvelope) : ProtocolEnvelope * bool :=
  if (ttl e <=? hop_count e)%N then (e, false) else (set_hop_count (hop_count e + 1) e, true).
Definition set_signature (sig : bytes) (e : ProtocolEnvelope) : ProtocolEnvelope :=
  MkEnvelope (version e) (sender_node_id e) (payload_type e) (payload_bytes e) (Some sig) (hop_count e) (ttl e)
    (timestamp e) (compressed e) (content_hash e).

(* ------------------------------------------------------------------ *)
(** ** Frames *)

Definition MAX_FRAME_SIZE : N := 1048576.

Inductive CodecError :=
| FrameTooLarge (size max : N)
| Incomplete (needed : nat)
| Serialization (e : string).

Class EnvelopeJson := {
  to_vec : ProtocolEnvelope → result string bytes;
  from_slice : bytes → result string ProtocolEnvelope
}.
Class EnvelopeJsonLaws `{EnvelopeJson} : Prop := {
  from_to_vec e b : to_vec e = Ok b → from_slice b = Ok e
}.

Section codec.
Context `{EnvelopeJson}.

(** The length is taken [as u32] before it is compared. *)
Definition encode (envelope : ProtocolEnvelope) : SE bytes CodecError unit := λ dst,
  match to_vec envelope with
  | Err e => (dst, Err (Serialization e))
  | Ok payload =>
      let len := (N.of_nat (length payload) mod 2 ^ 32)%N in
      if (MAX_FRAME_SIZE <? len)%N then (dst, Err (FrameTooLarge len MAX_FRAME_SIZE))
      else (dst ++ be_bytes 4 len ++ payload, Ok tt)
  end.

Definition decode : SE bytes CodecError (option ProtocolEnvelope) := λ src,
  if length src <? 4 then (src, Ok None)
  else
    let len := be_value (take 4 src) in
    if (MAX_FRAME_SIZE <? len)%N then (src, Err (FrameTooLarge len MAX_FRAME_SIZE))
    else
      let total := 4 + N.to_nat len in
      if length src <? total then (src, Ok None)
      else
        let src := drop 4 src in
        let payload := take (N.to_nat len) src in
        let src := drop (N.to_nat len) src in
        match from_slice payload with
        | Err e => (src, Err (Serialization e))
        | Ok envelope => (src, Ok (Some envelope))
        end.

Definition encode_bare (envelope : ProtocolEnvelope) : result CodecError bytes := map_err Serialization (to_vec envelope).
Definition decode_bare (data : bytes) : result CodecError ProtocolEnvelope := map_err Serialization (from_slice data).

(* ------------------------------------------------------------------ *)
(** ** Reading and writing a stream *)

(** A writer that encodes envelope after envelope. *)
Fixpoint encode_all (es : list ProtocolEnvelope) : SE bytes CodecError unit :=
  match es with
  | [] => se_ret tt
  | e :: es => let! _ := encode e in encode_all es
  end.

(** A reader that decodes for as long as there is a frame; each takes at
    least four bytes, so the length of the buffer is fuel enough. *)
Fixpoint drain (fuel : nat) (src : bytes) : bytes * list ProtocolEnvelope :=
  match fuel with
  | 0 => (src, [])
  | S fuel =>
      match decode src with
      | (src', Ok (Some e)) => let '(rest, es) := drain fuel src' in (rest, e :: es)
      | (src', _) => (src', [])
      end
  end.
Definition receive (st : bytes * list ProtocolEnvelope) (chunk : bytes) : bytes * list ProtocolEnvelope :=
  let src := st.1 ++ chunk in
  let '(rest, es) := drain (S (length src)) src in (rest, st.2 ++ es).

Context `{!EnvelopeJsonLaws}.

Definition frame (payload : bytes) : bytes := be_bytes 4 (N.of_nat (length payload)) ++ payload.
Definition fits (payload : bytes) : Prop := (N.of_nat (length payload) ≤ MAX_FRAME_SIZE)%N.

Lemma encode_frame e payload dst : to_vec e = Ok payload → fits payload → encode e dst = (dst ++ frame payload, Ok tt).
Proof.
  intros He Hf. unfold fits, MAX_FRAME_SIZE in Hf. unfold encode. rewrite He. rewrite N.mod_small by lia. cbv zeta.
  destruct (N.ltb_spec MAX_FRAME_SIZE (N.of_nat (length payload))) as [Hl|]; [unfold MAX_FRAME_SIZE in Hl; lia|done].
Qed.

Lemma length_frame payload : length (frame payload) = 4 + length payload.
Proof. unfold frame. by rewrite length_app, length_be_bytes. Qed.

Lemma header_frame payload rest : fits payload → be_value (take 4 (frame payload ++ rest)) = N.of_nat (length payload).
Proof.
  intros Hf. unfold fits, MAX_FRAME_SIZE in Hf. unfold frame. rewrite <- app_assoc.
  rewrite take_app_le by (rewrite length_be_bytes; lia). rewrite take_ge by (rewrite length_be_bytes; lia).
  apply be_value_bytes. cbn. lia.
Qed.

Lemma decode_frame e payload rest : to_vec e = Ok payload → fits payload →
  decode (frame payload ++ rest) = (rest, Ok (Some e)).
Proof.
  intros He Hf. unfold decode. rewrite header_frame by done. rewrite length_app, length_frame.
  destruct (Nat.ltb_spec (4 + length payload + length rest) 4); [lia|]. cbv zeta. rewrite Nat2N.id.
  destruct (N.ltb_spec MAX_FRAME_SIZE (N.of_nat (length payload))) as [Hl|]; [unfold fits in Hf; lia|].
  destruct (Nat.ltb_spec (4 + length payload + length rest) (4 + length payload)); [lia|].
  unfold frame. rewrite <- app_assoc. rewrite (drop_app_length' (be_bytes 4 _)) by (symmetry; apply length_be_bytes).
  rewrite take_app_length, drop_app_length. by rewrite (from_to_vec e).
Qed.

(** A buffer that ends within a frame has none to give. *)
Lemma decode_partial payload src tail : fits payload → src ++ tail = frame payload → tail ≠ [] →
  decode src = (src, Ok None).
Proof.
  intros Hf Hs Ht. assert (Hlen : length src < 4 + length payload).
  { pose proof (f_equal length Hs) as E. rewrite length_app, length_frame in E. destruct tail; [done|]. cbn in E. lia. }
  unfold decode. destruct (Nat.ltb_spec (length src) 4); [done|]. cbv zeta.
  assert (be_value (take 4 src) = N.of_nat (length payload)) as ->.
  { rewrite <- (header_frame payload [] Hf), app_nil_r, <- Hs. by rewrite take_app_le by lia. }
  rewrite Nat2N.id. unfold fits in Hf. destruct (N.ltb_spec MAX_FRAME_SIZE (N.of_nat (length payload))); [lia|].
  destruct (Nat.ltb_spec (length src) (4 + length payload)); [done|lia].
Qed.

Inductive stream_of : list ProtocolEnvelope → bytes → Prop :=
| so_nil : stream_of [] []
| so_cons e payload es s : to_vec e = Ok payload → fits payload → stream_of es s → stream_of (e :: es) (frame payload ++ s).

Lemma encode_all_stream es dst : Forall (λ e, ∃ p, to_vec e = Ok p ∧ fits p) es →
  ∃ s, stream_of es s ∧ encode_all es dst = (dst ++ s, Ok tt).
Proof.
  intros Hall. revert dst. induction Hall as [|e es (p & Hp & Hf) Hall IH]; intros dst.
  - exists []. rewrite app_nil_r. split; [constructor|done].
  - destruct (IH (dst ++ frame p)) as (s & Hs & He). exists (frame p ++ s). split; [by constructor|].
    cbn [encode_all]. unfold se_bind. rewrite (encode_frame e p dst Hp Hf), He. by rewrite <- app_assoc.
Qed.

(** Draining the start of a stream gives its complete frames and keeps the
    start of what is left. *)
Lemma drain_prefix es s src rest fuel : stream_of es s → src ++ rest = s → length src < fuel →
  ∃ es1 es2 src' s2, es = es1 ++ es2 ∧ drain fuel src = (src', es1) ∧ stream_of es2 s2 ∧ src' ++ rest = s2 ∧
    (rest = [] → es2 = []).
Proof.
  intros Hs. revert src fuel. induction Hs as [|e p es s Hp Hf Hs IH]; intros src fuel Hsrc Hfuel.
  - apply app_eq_nil in Hsrc as [-> ->]. exists [], [], [], []. split_and!; [done| |constructor|done|done].
    destruct fuel; [lia|done].
  - destruct fuel as [|fuel]; [lia|]. destruct (decide (length (frame p) ≤ length src)) as [Hle|Hgt].
    + assert (∃ src1, src = frame p ++ src1 ∧ src1 ++ rest = s) as (src1 & -> & Hrest).
      { exists (drop (length (frame p)) src). apply (f_equal (take (length (frame p)))) in Hsrc as Ht.
        apply (f_equal (drop (length (frame p)))) in Hsrc as Hd. rewrite take_app_length, take_app_le in Ht by done.
        rewrite drop_app_length, drop_app_le in Hd by done. split; [|done]. by rewrite <- Ht at 1; rewrite take_drop. }
      rewrite length_app, length_frame in Hfuel. destruct (IH src1 fuel Hrest ltac:(lia)) as (es1 & es2 & src' & s2 & -> & Hd & Hst & Hr & Hn).
      exists (e :: es1), es2, src', s2. split_and!; [done| |done..]. cbn [drain]. by rewrite (decode_frame e p src1 Hp Hf), Hd.
    + assert (∃ tail, src ++ tail = frame p ∧ tail ≠ [] ∧ rest = tail ++ s) as (tail & Ht & Hne & ->).
      { exists (drop (length src) (frame p)). apply (f_equal (take (length src))) in Hsrc as Hk.
        apply (f_equal (drop (length src))) in Hsrc as Hd. rewrite take_app_length, take_app_le in Hk by lia.
        rewrite drop_app_length, drop_app_le in Hd by lia. split_and!; [|intros E%(f_equal length); rewrite length_drop in E; change (length (@nil N)) with 0 in E; lia|done].
        rewrite Hk at 1. apply take_drop. }
      exists [], (e :: es), src, (frame p ++ s). split_and!; [done| |by constructor|by rewrite <- Ht, <- app_assoc|].
      * cbn [drain]. by rewrite (decode_partial p src tail Hf Ht Hne).
      * intros [-> _]%app_eq_nil. done.
Qed.

Lemma receive_chunks es s chunks buf got : stream_of es s → buf ++ concat chunks = s →
  (concat chunks = [] → es = []) →
  foldl receive (buf, got) chunks = ([], got ++ es).
Proof.
  revert es s buf got. induction chunks as [|chunk chunks IH]; intros es s buf got Hs Hb Hne.
  - cbn in *. rewrite app_nil_r in Hb. rewrite Hne in * by done. inversion Hs. subst. by rewrite app_nil_r.
  - cbn [concat foldl] in *. rewrite app_assoc in Hb. unfold receive at 2. cbn [fst snd].
    destruct (drain_prefix es s (buf ++ chunk) (concat chunks) (S (length (buf ++ chunk))) Hs Hb ltac:(lia))
      as (es1 & es2 & src' & s2 & -> & Hd & Hst & Hr & Hn).
    rewrite Hd. rewrite (IH es2 s2 src' (got ++ es1) Hst Hr Hn). by rewrite <- app_assoc.
Qed.

(** What is written to a connection is what is read from it.  Envelopes
    that are encoded one after the other and fit in a frame arrive as they
    were, in order, each once, with nothing left over, however the bytes are
    cut into chunks on the way; and decoding never reads past its frame. *)
Theorem stream_roundtrip (es : list ProtocolEnvelope) (chunks : list bytes) (stream : bytes)
  (Hfit : Forall (λ e, ∃ p, to_vec e = Ok p ∧ fits p) es)
  (Hsent : encode_all es [] = (stream, Ok tt)) (Hcut : concat chunks = stream) :
  foldl receive ([], []) chunks = ([], es) ∧
  (∀ e p rest, to_vec e = Ok p → fits p → decode (frame p ++ rest) = (rest, Ok (Some e))).
Proof.
  destruct (encode_all_stream es [] Hfit) as (s & Hs & He). rewrite He in Hsent. injection Hsent as E. cbn in E. subst s.
  split; [|intros e p rest; apply decode_frame].
  apply (receive_chunks es stream chunks [] [] Hs); [done|]. rewrite Hcut. intros ->. by inversion Hs.
Qed.

(** A frame that announces too much stays where it is: no more input helps. *)
Lemma oversized_stuck src chunk : 4 ≤ length src → (MAX_FRAME_SIZE < be_value (take 4 src))%N →
  decode (src ++ chunk) = (src ++ chunk, Err (FrameTooLarge (be_value (take 4 src)) MAX_FRAME_SIZE)).
Proof.
  intros Hl Hm. unfold decode. rewrite take_app_le, length_app by done.
  destruct (Nat.ltb_spec (length src + length chunk) 4); [lia|]. cbv zeta. by rewrite (proj2 (N.ltb_lt _ _) Hm).
Qed.

(** A frame that does not parse is taken out of the stream. *)
Lemma malformed_skipped payload e rest : fits payload → from_slice payload = Err e →
  decode (frame payload ++ rest) = (rest, Err (Serialization e)).
Proof.
  intros Hf He. unfold decode. rewrite header_frame by done. rewrite length_app, length_frame.
  destruct (Nat.ltb_spec (4 + length payload + length rest) 4); [lia|]. cbv zeta. rewrite Nat2N.id.
  destruct (N.ltb_spec MAX_FRAME_SIZE (N.of_nat (length payload))) as [Hl|]; [unfold fits in Hf; lia|].
  destruct (Nat.ltb_spec (4 + length payload + length rest) (4 + length payload)); [lia|].
  unfold frame. rewrite <- app_assoc. rewrite (drop_app_length' (be_bytes 4 _)) by (symmetry; apply length_be_bytes).
  rewrite take_app_length, drop_app_length. by rewrite He.
Qed.

(** Forwarding an envelope as long as it may be makes at most [ttl] hops. *)
Lemma hops_bounded e : (hop_count e ≤ ttl e)%N →
  (hop_count (increment_hop e).1 ≤ ttl e)%N ∧ ((increment_hop e).2 = negb (is_expired e)).
Proof.
  intros He. unfold increment_hop, is_expired. destruct (N.leb_spec (ttl e) (hop_count e)); cbn; [done|]. split; [lia|done].
Qed.
End codec.

(* ------------------------------------------------------------------ *)
(** ** Witnesses *)

(** The code of a type on the wire. *)
Definition type_code (t : MessageType) : N :=
  match t with
  | Post => 0 | DirectMessage => 1 | SocialEvent => 2 | DhtRequest => 3 | DhtResponse => 4 | ProfileUpdate => 5
  | BloomFilterUpdate => 6 | ModerationVote => 7 | ContentReport => 8 | Tombstone => 9 | PrekeyBundle => 10
  | PeerExchange => 11 | ChunkRequest => 12 | ChunkResponse => 13 | CapabilityHandshake => 14 | GossipControl => 15
  | Ping => 100 | Pong => 101
  end.
Definition type_of_code (n : N) : option MessageType :=
  list_find (λ t, type_code t = n) [Post; DirectMessage; SocialEvent; DhtRequest; DhtResponse; ProfileUpdate;
    BloomFilterUpdate; ModerationVote; ContentReport; Tombstone; PrekeyBundle; PeerExchange; ChunkRequest;
    ChunkResponse; CapabilityHandshake; GossipControl; Ping; Pong] ≫= λ p, Some p.2.

#[global] Instance MessageType_eq_dec : EqDecision MessageType.
Proof. solve_decision. Defined.
#[global] Instance MessageType_countable : Countable MessageType.
Proof. refine (inj_countable type_code type_of_code _). by intros []. Defined.
#[global] Instance ProtocolEnvelope_eq_dec : EqDecision ProtocolEnvelope.
Proof. solve_decision. Defined.
#[global] Instance ProtocolEnvelope_countable : Countable ProtocolEnvelope.
Proof.
  refine (inj_countable'
    (λ e, ((major (version e), minor (version e), sender_node_id e, payload_type e, payload_bytes e),
           (signature e, hop_count e, ttl e, timestamp e, compressed e, content_hash e)))
    (λ x, match x with ((a, b, c, d, e), (f, g, h, i, j, k)) => MkEnvelope (MkVersion a b) c d e f g h i j k end) _).
  by intros [[] ].
Defined.

(** An envelope as one number, in one big byte. *)
Module EnvelopeToy.
#[export] Instance json : EnvelopeJson := {|
  to_vec e := Ok [Npos (countable.encode e)];
  from_slice b := match b with
                  | [Npos p] => match countable.decode p with Some e => Ok e | None => Err "expected value"%string end
                  | _ => Err "expected value"%string
                  end
|}.
#[export] Instance json_laws : EnvelopeJsonLaws.
Proof. split. intros e b [= <-]. cbn -[countable.encode countable.decode]. by rewrite decode_encode. Qed.
End EnvelopeToy.

Section witnesses.
Import EnvelopeToy.

Definition pw_ping : ProtocolEnvelope := new 1000 [1%N; 2%N] Ping [3%N].
Definition pw_byte : N := match to_vec pw_ping with Ok [b] => b | _ => 0%N end.

Lemma stream_roundtrip_witness :
  foldl receive ([], []) [[0%N; 0%N]; [0%N; 1%N; pw_byte; 0%N]; [0%N; 0%N; 1%N]; [pw_byte]] = ([], [pw_ping; pw_ping]).
Proof.
  eapply (stream_roundtrip [pw_ping; pw_ping]); [|reflexivity|reflexivity].
  repeat constructor; (eexists; split; [reflexivity|]; vm_compute; congruence).
Defined.
End witnesses.
