(* ===== verification/Float64.v ===== *)
(** * IEEE doubles: the [f64] of the Rust language

    The executable specification of binary64 arithmetic of the standard
    library ([SpecFloat], 53 bits, largest exponent 1024), with the casts and
    the [min], [max] and [ceil] the sources use, and what the components need
    to know of it: results stay canonical, comparison agrees with values, and
    one rounding moves a value by less than one unit of its last place. *)
From S2P Require Import Prelude.
From Stdlib Require Import QArith Qpower Lqa SpecFloat.
#[local] Open Scope Z_scope.

(* ------------------------------------------------------------------ *)
(** ** Operations *)

Notation f64 := spec_float.
Definition f64_add : f64 → f64 → f64 := SFadd 53 1024.
Definition f64_sub : f64 → f64 → f64 := SFsub 53 1024.
Definition f64_mul : f64 → f64 → f64 := SFmul 53 1024.
Definition f64_div : f64 → f64 → f64 := SFdiv 53 1024.
Definition f64_sqrt : f64 → f64 := SFsqrt 53 1024.
(** An integer [as f64]. *)
Definition f64_of_Z (z : Z) : f64 := binary_normalize 53 1024 z 0 false.
Definition f64_of_N (n : N) : f64 := f64_of_Z (Z.of_N n).
Definition f64_ltb : f64 → f64 → bool := SFltb.
Definition f64_leb : f64 → f64 → bool := SFleb.
Definition f64_geb (x y : f64) : bool := SFleb y x.
Definition f64_is_nan (x : f64) : bool := match x with S754_nan => true | _ => false end.
(** [f64::min] and [f64::max] pass over a NaN. *)
Definition f64_min (x y : f64) : f64 :=
  if f64_is_nan x then y else if f64_is_nan y then x else if f64_ltb y x then y else x.
Definition f64_max (x y : f64) : f64 :=
  if f64_is_nan x then y else if f64_is_nan y then x else if f64_ltb x y then y else x.
(** [x.ceil() as u64], the cast saturating. *)
Definition f64_ceil_u64 (x : f64) : N :=
  match x with
  | S754_infinity false => 2 ^ 64 - 1
  | S754_finite false m e =>
      N.min (2 ^ 64 - 1) (Z.to_N (if (0 <=? e)%Z then Z.pos m * 2 ^ e else - ((- Z.pos m) / 2 ^ (- e)))%Z)
  | _ => 0
  end%N.

(** The literals 1.0 and 0.0. *)
Definition f64_one : f64 := Eval vm_compute in f64_of_Z 1.
Definition f64_zero : f64 := S754_zero false.

(* ------------------------------------------------------------------ *)
(** ** Values *)

Definition val (x : f64) : Q :=
  match x with
  | S754_finite s m e => inject_Z (cond_Zopp s (Z.pos m)) * 2 ^ e
  | _ => 0
  end%Q.

(** Canonical, not negative and not NaN. *)
Definition nonneg (x : f64) : Prop :=
  valid_binary 53 1024 x = true ∧
  match x with S754_zero _ | S754_finite false _ _ | S754_infinity false => True | _ => False end.
Definition finite (x : f64) : Prop := match x with S754_zero _ | S754_finite _ _ _ => True | _ => False end.
#[global] Instance finite_dec x : Decision (finite x).
Proof. destruct x; apply _. Defined.

(* ------------------------------------------------------------------ *)
(** ** Rounding, on mantissas *)

Lemma digits_log2 p : Z.pos (digits2_pos p) = Z.log2 (Z.pos p) + 1.
Proof.
  assert (digits2_pos p = Pos.size p) as -> by (induction p; cbn; congruence).
  destruct p; cbn; lia.
Qed.

Lemma shr_1_div r : 0 ≤ shr_m r → shr_m (shr_1 r) = shr_m r / 2.
Proof. destruct r as [[|[p|p|]|p] b c]; cbn -[Z.div]; intros H; try lia; rewrite <- Z.div2_div; done. Qed.

Lemma shr_iter p r : 0 ≤ shr_m r → shr_m (iter_pos shr_1 p r) = shr_m r / 2 ^ Z.pos p.
Proof.
  revert r. induction p as [p IH|p IH|]; intros r Hr; cbn [iter_pos].
  - assert (0 ≤ shr_m r / 2) by (apply Z.div_pos; lia).
    rewrite !IH, !shr_1_div; [|done|by rewrite shr_1_div|rewrite IH, shr_1_div by (rewrite ?shr_1_div; done); by apply Z.div_pos; [|apply Z.pow_pos_nonneg]].
    rewrite !Z.div_div by (try apply Z.pow_nonzero; try (apply Z.pow_pos_nonneg); lia).
    f_equal. replace (Z.pos p~1) with (1 + Z.pos p + Z.pos p) by lia. rewrite !Z.pow_add_r by lia. ring.
  - rewrite !IH; [|done|rewrite IH by done; apply Z.div_pos; [done|by apply Z.pow_pos_nonneg]].
    rewrite Z.div_div by (try apply Z.pow_nonzero; try apply Z.pow_pos_nonneg; lia).
    f_equal. rewrite <- Z.pow_add_r by lia. f_equal. lia.
  - by rewrite shr_1_div.
Qed.

Lemma shr_spec r e n : 0 ≤ shr_m r →
  shr_m (shr r e n).1 = shr_m r / 2 ^ Z.max 0 n ∧ (shr r e n).2 = e + Z.max 0 n.
Proof.
  intros Hr. destruct n as [|p|p]; cbn [shr fst snd].
  - rewrite Z.div_1_r. split; [done|lia].
  - split; [by apply shr_iter|done].
  - rewrite Z.div_1_r. split; [done|lia].
Qed.

Lemma shr_record_m m l : shr_m (shr_record_of_loc m l) = m.
Proof. by destruct l as [|[]]. Qed.

(** The exponent a value [m * 2 ^ e] is rounded to. *)
Definition unit_exp (m e : Z) : Z := fexp 53 1024 (Zdigits2 m + e).

Lemma shr_fexp_spec m e l : 0 ≤ m →
  let k := Z.max 0 (unit_exp m e - e) in
  shr_m (shr_fexp 53 1024 m e l).1 = m / 2 ^ k ∧ (shr_fexp 53 1024 m e l).2 = e + k.
Proof.
  intros Hm k. pose proof (shr_spec (shr_record_of_loc m l) e (unit_exp m e - e)) as Hs.
  rewrite shr_record_m in Hs. by apply Hs.
Qed.

Lemma shr_fexp_exact m e : unit_exp m e ≤ e → shr_fexp 53 1024 m e loc_Exact = (shr_record_of_loc m loc_Exact, e).
Proof.
  unfold unit_exp, shr_fexp. intros H. destruct (fexp 53 1024 (Zdigits2 m + e) - e) eqn:E; [done|lia|done].
Qed.

Lemma unit_exp_def m e : 0 < m → unit_exp m e = Z.max (Z.log2 m + 1 + e - 53) (-1074).
Proof. intros Hm. destruct m as [|p|p]; [lia| |lia]. unfold unit_exp, fexp, Zdigits2. rewrite digits_log2. done. Qed.

Lemma round_even_cases m l : round_nearest_even m l = m ∨ round_nearest_even m l = m + 1.
Proof. destruct l as [|[]]; cbn; repeat case_match; auto. Qed.

Definition f64_pack (s : bool) (m e : Z) : f64 :=
  match m with
  | Z0 => S754_zero s
  | Z.pos p => if e <=? 971 then S754_finite s p e else S754_infinity s
  | Z.neg _ => S754_nan
  end.

(** A value that is at least as fine as its rounding exponent [u] is rounded
    to a canonical neighbour: the multiple of [2 ^ u] at or below it, or the
    next one. *)
Lemma round_aux_spec s m e l : 0 < m → e ≤ unit_exp m e →
  let u := unit_exp m e in
  ∃ m' e', binary_round_aux 53 1024 s m e l = f64_pack s m' e' ∧ 0 ≤ m' ∧ u ≤ e' ∧
    (∀ p, m' = Z.pos p → canonical_mantissa 53 1024 p e' = true) ∧
    (m' * 2 ^ (e' - u) = m / 2 ^ (u - e) ∨ m' * 2 ^ (e' - u) = m / 2 ^ (u - e) + 1) ∧
    (l = loc_Exact → u = e → m' * 2 ^ (e' - u) = m).
Proof.
  intros Hm He u. pose proof (unit_exp_def m e Hm) as Hu. fold u in Hu, He.
  unfold binary_round_aux.
  destruct (shr_fexp 53 1024 m e l) as [mrs1 e1] eqn:E1.
  destruct (shr_fexp_spec m e l ltac:(lia)) as [Hm1 He1]. fold u in Hm1, He1. rewrite E1 in Hm1, He1. cbn [fst snd] in Hm1, He1.
  rewrite Z.max_r in Hm1, He1 by lia. assert (e1 = u) as -> by lia. clear He1.
  set (m1 := m / 2 ^ (u - e)) in *. rewrite Hm1.
  set (m2 := round_nearest_even m1 (loc_of_shr_record mrs1)).
  assert (Hm2 : m2 = m1 ∨ m2 = m1 + 1) by apply round_even_cases.
  assert (Hexact : l = loc_Exact → u = e → m2 = m).
  { intros -> Hue. rewrite shr_fexp_exact in E1 by (fold u; lia). injection E1 as <-.
    unfold m2, m1. rewrite Hue, Z.sub_diag. cbn. apply Z.div_1_r. }
  clearbody m2.
  pose proof (Z.log2_spec m Hm) as [Hlo Hhi]. pose proof (Z.log2_nonneg m) as Hd. set (d := Z.log2 m) in *.
  assert (Hm1lo : 0 ≤ m1) by (apply Z.div_pos; [lia|apply Z.pow_pos_nonneg; lia]).
  assert (Hm1hi : m1 < 2 ^ 53).
  { apply Z.div_lt_upper_bound; [apply Z.pow_pos_nonneg; lia|]. rewrite <- Z.pow_add_r by lia.
    eapply Z.lt_le_trans; [exact Hhi|]. apply Z.pow_le_mono_r; lia. }
  assert (Hnorm : -1074 < u → 2 ^ 52 ≤ m1).
  { intros Hn. apply Z.div_le_lower_bound; [apply Z.pow_pos_nonneg; lia|]. rewrite <- Z.pow_add_r by lia.
    replace (u - e + 52) with d by lia. exact Hlo. }
  clearbody m1. destruct (decide (m2 = 2 ^ 53)) as [->|Hne].
  - (* the carry *)
    destruct (shr_fexp 53 1024 (2 ^ 53) u loc_Exact) as [mrs2 e2] eqn:E2.
    destruct (shr_fexp_spec (2 ^ 53) u loc_Exact ltac:(lia)) as [Hm3 He2]. rewrite E2 in Hm3, He2. cbn [fst snd] in Hm3, He2.
    rewrite (unit_exp_def (2 ^ 53) u) in Hm3, He2 by lia. rewrite Z.log2_pow2 in Hm3, He2 by lia.
    replace (Z.max 0 (Z.max (53 + 1 + u - 53) (-1074) - u)) with 1 in Hm3, He2 by lia.
    replace (2 ^ 53 / 2 ^ 1) with (2 ^ 52) in Hm3 by reflexivity.
    exists (2 ^ 52), (u + 1). rewrite Hm3, He2. split_and!; [done|lia|lia| | |].
    + intros p Hp. unfold canonical_mantissa. rewrite digits_log2, <- Hp, Z.log2_pow2 by lia. unfold fexp, emin. lia.
    + replace (u + 1 - u) with 1 by lia. lia.
    + intros -> Hue. rewrite <- (Hexact eq_refl Hue). replace (u + 1 - u) with 1 by lia. done.
  - assert (Hm2r : 0 ≤ m2 < 2 ^ 53) by lia.
    assert (Hcan : 0 < m2 → unit_exp m2 u = u).
    { intros Hp. rewrite unit_exp_def by done. assert (Z.log2 m2 < 53) by (apply Z.log2_lt_pow2; lia).
      destruct (Z.lt_ge_cases (-1074) u) as [Hn|]; [|lia].
      assert (52 ≤ Z.log2 m2) by (apply Z.log2_le_pow2; [done|specialize (Hnorm Hn); lia]). lia. }
    assert (Hu2 : unit_exp m2 u ≤ u).
    { destruct (decide (m2 = 0)) as [->|]; [unfold unit_exp, fexp, emin; cbn [Zdigits2]; lia|]. rewrite Hcan by lia. lia. }
    rewrite shr_fexp_exact by done. rewrite shr_record_m.
    exists m2, u. replace (u - u) with 0 by lia. rewrite Z.mul_1_r. split_and!; [done|lia|lia| |done|done].
    intros p Hp. unfold canonical_mantissa. apply Z.eqb_eq. specialize (Hcan ltac:(lia)). subst m2. exact Hcan.
Qed.

(* ------------------------------------------------------------------ *)
(** ** Rounding, on values *)

Lemma pow2_pos e : (0 < 2 ^ e)%Q.
Proof. by apply Qpower_0_lt. Qed.
Lemma pow2_add a b : (2 ^ (a + b) == 2 ^ a * 2 ^ b)%Q.
Proof. by apply Qpower_plus. Qed.
Lemma pow2_Z a : 0 ≤ a → (inject_Z (2 ^ a) == 2 ^ a)%Q.
Proof. apply (Zpower_Qpower 2). Qed.
Lemma pow2_le a b : a ≤ b → (2 ^ a <= 2 ^ b)%Q.
Proof. intros. by apply Qpower_le_compat_l. Qed.

Lemma scale_up m e ez : ez ≤ e → (inject_Z (m * 2 ^ (e - ez)) * 2 ^ ez == inject_Z m * 2 ^ e)%Q.
Proof.
  intros H. rewrite inject_Z_mult, pow2_Z by lia. rewrite <- Qmult_assoc, <- pow2_add.
  by replace (e - ez + ez) with e by lia.
Qed.

(** [a] and [b] differ by at most [err]. *)
Definition within (err a b : Q) : Prop := (a <= b + err ∧ b <= a + err)%Q.

Lemma inject_le a b : a ≤ b → (inject_Z a <= inject_Z b)%Q.
Proof. by rewrite <- Zle_Qle. Qed.

(** The unit of the last place is small against the value. *)
Lemma unit_exp_le m e v err : 0 < m → (inject_Z m * 2 ^ e <= v)%Q →
  (2 ^ (-1074) <= err)%Q → (v <= err * 2 ^ 52)%Q → (2 ^ unit_exp m e <= err)%Q.
Proof.
  intros Hm Hlo He1 He2. rewrite unit_exp_def by done. destruct (Z.max_spec (Z.log2 m + 1 + e - 53) (-1074)) as [[_ ->]|[_ ->]]; [done|].
  replace (Z.log2 m + 1 + e - 53) with ((Z.log2 m + e) + -52) by lia.
  rewrite pow2_add. apply (Qmult_le_r _ _ (2 ^ 52)); [apply pow2_pos|]. rewrite <- Qmult_assoc, <- pow2_add.
  replace (-52 + 52) with 0 by lia. cbn [Qpower]. rewrite Qmult_1_r.
  eapply Qle_trans; [|exact He2]. eapply Qle_trans; [|exact Hlo]. rewrite pow2_add.
  apply Qmult_le_r; [apply pow2_pos|]. rewrite <- pow2_Z by apply Z.log2_nonneg. apply inject_le. by apply Z.log2_spec.
Qed.

(** A canonical number whose exponent is beyond the largest is large. *)
Lemma overflow_large p e : canonical_mantissa 53 1024 p e = true → 971 < e → (2 ^ 1024 <= inject_Z (Z.pos p) * 2 ^ e)%Q.
Proof.
  intros Hc%Z.eqb_eq He. change (unit_exp (Z.pos p) e = e) in Hc. rewrite unit_exp_def in Hc by lia.
  assert (Hm : 2 ^ 52 ≤ Z.pos p) by (apply Z.log2_le_pow2; lia).
  apply (Qle_trans _ (inject_Z (2 ^ 52) * 2 ^ e)).
  - rewrite pow2_Z, <- pow2_add by lia. apply pow2_le. lia.
  - apply Qmult_le_r; [apply pow2_pos|]. by apply inject_le.
Qed.

(** Rounding a value [v] whose leading bits are [m * 2 ^ e] errs by at most
    [err] when [err] is a unit in the last place or more. *)
Lemma round_aux_val m e l v err : 0 < m → e ≤ unit_exp m e →
  (inject_Z m * 2 ^ e <= v)%Q → (v <= inject_Z (m + 1) * 2 ^ e)%Q →
  (2 ^ (-1074) <= err)%Q → (v <= err * 2 ^ 52)%Q →
  let x := binary_round_aux 53 1024 false m e l in
  nonneg x ∧ (finite x → within err (val x) v) ∧ ((v <= 2 ^ 1000)%Q → finite x).
Proof.
  intros Hm He Hlo Hhi He1 He2 x. destruct (round_aux_spec false m e l Hm He) as (m' & e' & Hx & Hm' & Hu & Hcan & Hq & _).
  fold x in Hx. set (u := unit_exp m e) in *. pose proof (unit_exp_def m e Hm) as Hud. fold u in Hud.
  assert (Herr : (2 ^ u <= err)%Q) by (by apply (unit_exp_le m e v)).
  assert (Hv0 : (0 < v)%Q).
  { eapply Qlt_le_trans; [|exact Hlo]. apply Qmult_lt_0_compat; [by rewrite <- (Zlt_Qlt 0)|apply pow2_pos]. }
  assert (Hone : (2 ^ u <= v + 1)%Q).
  { apply (unit_exp_le m e v); [done..| |]; [|change (2 ^ 52)%Q with (inject_Z (2 ^ 52)); assert (1 <= inject_Z (2 ^ 52))%Q by (by apply (inject_le 1)); nra].
    assert (2 ^ (-1074) <= 1)%Q by (apply (pow2_le _ 0); lia). lra. }
  assert (Hval : (inject_Z m' * 2 ^ e' == inject_Z (m' * 2 ^ (e' - u)) * 2 ^ u)%Q) by (symmetry; by apply scale_up).
  set (q := m / 2 ^ (u - e)) in *. set (n := m' * 2 ^ (e' - u)) in *.
  pose proof (pow2_pos u) as Hpu.
  assert (Hk : 0 < 2 ^ (u - e)) by (apply Z.pow_pos_nonneg; lia).
  assert (Hq1 : (inject_Z q * 2 ^ u <= inject_Z m * 2 ^ e)%Q).
  { rewrite <- (scale_up q u e) by lia. apply Qmult_le_r; [apply pow2_pos|]. apply inject_le.
    rewrite Z.mul_comm. by apply Z.mul_div_le. }
  assert (Hq2 : (inject_Z (m + 1) * 2 ^ e <= inject_Z (q + 1) * 2 ^ u)%Q).
  { rewrite <- (scale_up (q + 1) u e) by lia. apply Qmult_le_r; [apply pow2_pos|]. apply inject_le.
    pose proof (Z.mul_succ_div_gt m (2 ^ (u - e)) Hk). unfold q. lia. }
  assert (Hn : (inject_Z q <= inject_Z n)%Q ∧ (inject_Z n <= inject_Z q + 1)%Q).
  { change 1%Q with (inject_Z 1). rewrite <- inject_Z_plus. split; apply inject_le; lia. }
  rewrite !inject_Z_plus in Hq2. rewrite inject_Z_plus in Hhi. change (inject_Z 1) with 1%Q in Hq2, Hhi.
  assert (Hbig : (inject_Z m' * 2 ^ e' <= v + (v + 1))%Q).
  { destruct Hn as [_ Hn2]. apply (Qmult_le_r _ _ _ Hpu) in Hn2. rewrite Qmult_plus_distr_l, Qmult_1_l in Hn2. rewrite Hval. lra. }
  assert (Hw : within err (inject_Z m' * 2 ^ e') v).
  { destruct Hn as [Hn1 Hn2]. apply (Qmult_le_r _ _ _ Hpu) in Hn1, Hn2. rewrite (Qmult_plus_distr_l (inject_Z q)) in Hn2, Hq2.
    rewrite (Qmult_plus_distr_l (inject_Z m)) in Hq2, Hhi. rewrite !Qmult_1_l in Hn2, Hhi, Hq2. split; rewrite Hval; lra. }
  rewrite Hx. destruct m' as [|p|p]; [| |lia]; cbn [f64_pack].
  - split_and!; [done| |done]. intros _. cbn [val]. change (inject_Z 0) with 0%Q in Hw.
    destruct Hw as [Hw1 Hw2]. split; lra.
  - specialize (Hcan p eq_refl). destruct (Z.leb_spec e' 971) as [Hle|Hgt].
    + split_and!; [|intros _; exact Hw|done]. split; [|done]. cbn [valid_binary]. unfold bounded. rewrite Hcan. cbn. lia.
    + split_and!; [done|intros []|]. intros Hs. pose proof (overflow_large p e' Hcan Hgt).
      assert (2 ^ 1000 * inject_Z 4 <= 2 ^ 1024)%Q by (vm_compute; discriminate).
      assert (1 <= 2 ^ 1000)%Q by (apply (pow2_le 0); lia). change (inject_Z 4) with 4%Q in *. lra.
Qed.

Lemma shl_align_spec p e ez : ez ≤ e → Z.pos (shl_align p e ez).1 = Z.pos p * 2 ^ (e - ez).
Proof.
  intros H. unfold shl_align. destruct (ez - e) eqn:E; [| lia |]; cbn [fst].
  - replace (e - ez) with 0 by lia. by rewrite Z.mul_1_r.
  - replace (e - ez) with (Z.pos p0) by lia. clear. induction p0 as [|q IH] using Pos.peano_ind; [cbn; lia|].
    rewrite Pos.iter_succ, Pos2Z.inj_succ, Z.pow_succ_r by lia. lia.
Qed.

Lemma unit_exp_scale m e k : 0 < m → 0 ≤ k → unit_exp (m * 2 ^ k) (e - k) = unit_exp m e.
Proof.
  intros Hm Hk. rewrite !unit_exp_def, Z.log2_mul_pow2 by (try apply Z.mul_pos_pos; try apply Z.pow_pos_nonneg; lia). lia.
Qed.

Lemma normalize_val m e err : 0 ≤ m → (2 ^ (-1074) <= err)%Q → (inject_Z m * 2 ^ e <= err * 2 ^ 52)%Q →
  let x := binary_normalize 53 1024 m e false in
  nonneg x ∧ (finite x → within err (val x) (inject_Z m * 2 ^ e)) ∧ ((inject_Z m * 2 ^ e <= 2 ^ 1000)%Q → finite x).
Proof.
  intros Hm He1 He2 x. pose proof (pow2_pos (-1074)) as Hp. destruct m as [|p|p]; [| |lia].
  - split_and!; [done| |done]. intros _. unfold within. subst x. cbn [binary_normalize val]. change (inject_Z 0) with 0%Q. split; lra.
  - subst x. cbn [binary_normalize]. unfold binary_round.
    assert (Hu : fexp 53 1024 (Z.pos (digits2_pos p) + e) = unit_exp (Z.pos p) e) by done. rewrite Hu.
    set (u := unit_exp (Z.pos p) e) in *. pose proof (pow2_pos e). destruct (Z.le_gt_cases u e) as [Hle|Hgt].
    + pose proof (shl_align_spec p e u Hle) as Hs.
      assert (Hsnd : (shl_align p e u).2 = u).
      { unfold shl_align. destruct (u - e) eqn:E; cbn; [lia|lia|done]. }
      destruct (shl_align p e u) as [p' e0]. cbn [fst snd] in *. subst e0.
      assert (Hv : (inject_Z (Z.pos p') * 2 ^ u == inject_Z (Z.pos p) * 2 ^ e)%Q) by (rewrite Hs; by apply scale_up).
      assert (Hu' : unit_exp (Z.pos p') u = u).
      { rewrite Hs. replace u with (e - (e - u)) at 2 by lia. by rewrite unit_exp_scale by lia. }
      apply round_aux_val; [lia|by rewrite Hu'| | |done|done]; pose proof (pow2_pos u);
        rewrite ?inject_Z_plus; change (inject_Z 1) with 1%Q; nra.
    + assert (shl_align p e u = (p, e)) as ->.
      { unfold shl_align. destruct (u - e) eqn:E; [lia|done|lia]. }
      apply round_aux_val; [lia|fold u; lia|lra| |done|done]. rewrite inject_Z_plus. change (inject_Z 1) with 1%Q. nra.
Qed.

(* ------------------------------------------------------------------ *)
(** ** The operations on canonical, non-negative numbers *)

Lemma canonical_unit p e : canonical_mantissa 53 1024 p e = true → unit_exp (Z.pos p) e = e.
Proof. intros H%Z.eqb_eq. exact H. Qed.

Lemma nonneg_bounded s p e : nonneg (S754_finite s p e) → s = false ∧ unit_exp (Z.pos p) e = e.
Proof.
  intros [Hv Hs]. destruct s; [done|]. split; [done|]. cbn [valid_binary] in Hv. unfold bounded in Hv.
  apply andb_prop in Hv as [Hc _]. by apply canonical_unit.
Qed.

Lemma val_nonneg x : nonneg x → (0 <= val x)%Q.
Proof.
  intros [_ Hx]. destruct x as [| | |[] m e]; cbn in *; try done. pose proof (pow2_pos e).
  apply Qmult_le_0_compat; [by apply (inject_le 0)|lra].
Qed.

Lemma val_finite_pos m e : (0 < val (S754_finite false m e))%Q.
Proof. cbn. pose proof (pow2_pos e). apply Qmult_lt_0_compat; [by rewrite <- (Zlt_Qlt 0)|done]. Qed.

Lemma val_lt_exp m1 e1 m2 e2 : unit_exp (Z.pos m1) e1 = e1 → unit_exp (Z.pos m2) e2 = e2 → e1 < e2 →
  (inject_Z (Z.pos m1) * 2 ^ e1 < inject_Z (Z.pos m2) * 2 ^ e2)%Q.
Proof.
  intros H1 H2 He. rewrite unit_exp_def in H1, H2 by lia.
  assert (Hm1 : Z.pos m1 < 2 ^ 53) by (apply Z.log2_lt_pow2; lia).
  assert (Hm2 : 2 ^ 52 ≤ Z.pos m2) by (apply Z.log2_le_pow2; lia).
  rewrite <- (scale_up (Z.pos m2) e2 e1) by lia. apply Qmult_lt_r; [apply pow2_pos|]. rewrite <- Zlt_Qlt.
  assert (2 ^ 1 ≤ 2 ^ (e2 - e1)) by (apply Z.pow_le_mono_r; lia). nia.
Qed.

(** Comparison of canonical numbers is comparison of their values. *)
Lemma compare_spec x y : nonneg x → nonneg y → finite x → finite y →
  SFcompare x y = Some (val x ?= val y)%Q.
Proof.
  intros Hx Hy Fx Fy. destruct x as [sx|sx| |sx mx ex], y as [sy|sy| |sy my ey]; try done.
  - apply nonneg_bounded in Hy as [-> _]. cbn [SFcompare]. f_equal. symmetry.
    change ((0 ?= val (S754_finite false my ey))%Q = Lt). rewrite <- Qlt_alt. apply val_finite_pos.
  - apply nonneg_bounded in Hx as [-> _]. cbn [SFcompare]. f_equal. symmetry.
    change ((val (S754_finite false mx ex) ?= 0)%Q = Gt). rewrite <- Qgt_alt. apply val_finite_pos.
  - apply nonneg_bounded in Hx as [-> Ux]. apply nonneg_bounded in Hy as [-> Uy]. cbn [SFcompare val cond_Zopp].
    f_equal. destruct (Z.compare_spec ex ey) as [->|Hlt|Hgt]; symmetry.
    + pose proof (pow2_pos ey). change (Pos.compare_cont Eq mx my) with (Pos.compare mx my).
      destruct (Pos.compare_spec mx my) as [->|Hm|Hm].
      * by rewrite <- Qeq_alt.
      * rewrite <- Qlt_alt. apply Qmult_lt_r; [done|]. by rewrite <- Zlt_Qlt.
      * rewrite <- Qgt_alt. apply Qmult_lt_r; [done|]. by rewrite <- Zlt_Qlt.
    + rewrite <- Qlt_alt. by apply val_lt_exp.
    + rewrite <- Qgt_alt. by apply val_lt_exp.
Qed.

Lemma leb_spec x y : nonneg x → nonneg y → finite x → finite y → f64_leb x y = true ↔ (val x <= val y)%Q.
Proof.
  intros Hx Hy Fx Fy. unfold f64_leb, SFleb. rewrite compare_spec by done.
  destruct (Qcompare_spec (val x) (val y)) as [E|E|E]; split; intros H; try done; lra.
Qed.

Lemma ltb_spec x y : nonneg x → nonneg y → finite x → finite y → f64_ltb x y = true ↔ (val x < val y)%Q.
Proof.
  intros Hx Hy Fx Fy. unfold f64_ltb, SFltb. rewrite compare_spec by done.
  destruct (Qcompare_spec (val x) (val y)) as [E|E|E]; split; intros H; try done; lra.
Qed.

(** [x] is canonical and the rounding of [v]. *)
Definition close_to (x : f64) (v : Q) : Prop :=
  nonneg x ∧ ((v <= 2 ^ 1000)%Q → finite x) ∧
  ∀ err, (2 ^ (-1074) <= err)%Q → (v <= err * 2 ^ 52)%Q → finite x → within err (val x) v.

Lemma close_self x v : nonneg x → finite x → (val x == v)%Q → close_to x v.
Proof.
  intros Hx Hf Hv. split_and!; [done..|]. intros err He _ _. pose proof (pow2_pos (-1074)). unfold within. split; lra.
Qed.

Lemma within_l err x a b : (a == b)%Q → within err x a → within err x b.
Proof. intros E [H1 H2]. unfold within. split; lra. Qed.

Lemma big_err v : (0 <= v)%Q → (2 ^ (-1074) <= 2 ^ (-1074) + v)%Q ∧ (v <= (2 ^ (-1074) + v) * 2 ^ 52)%Q.
Proof.
  intros Hv. pose proof (pow2_pos (-1074)). split; [lra|].
  change (2 ^ 52)%Q with (inject_Z (2 ^ 52)). assert (1 <= inject_Z (2 ^ 52))%Q by (by apply (inject_le 1)). nra.
Qed.

Lemma normalize_close m e v : 0 ≤ m → (inject_Z m * 2 ^ e == v)%Q → close_to (binary_normalize 53 1024 m e false) v.
Proof.
  intros Hm Hv. assert (Hv0 : (0 <= inject_Z m * 2 ^ e)%Q).
  { apply Qmult_le_0_compat; [by apply (inject_le 0)|]. pose proof (pow2_pos e). lra. }
  split_and!.
  - destruct (big_err _ Hv0) as [He1 He2]. by apply (normalize_val m e _ Hm He1 He2).
  - rewrite <- Hv. destruct (big_err _ Hv0) as [He1 He2]. by apply (normalize_val m e _ Hm He1 He2).
  - intros err He1 He2 Hf. apply (within_l _ _ _ _ Hv). rewrite <- Hv in He2. by apply normalize_val.
Qed.

Lemma round_close m e l v : 0 < m → e ≤ unit_exp m e →
  (inject_Z m * 2 ^ e <= v)%Q → (v <= inject_Z (m + 1) * 2 ^ e)%Q →
  close_to (binary_round_aux 53 1024 false m e l) v.
Proof.
  intros Hm He Hlo Hhi. assert (Hv0 : (0 <= inject_Z m * 2 ^ e)%Q).
  { apply Qmult_le_0_compat; [by apply (inject_le 0); lia|]. pose proof (pow2_pos e). lra. }
  destruct (big_err v ltac:(lra)) as [He1 He2].
  split_and!; [by apply (round_aux_val m e l v _ Hm He Hlo Hhi He1 He2)..|].
  intros err He1' He2' Hf. by apply (round_aux_val m e l v err Hm He Hlo Hhi He1' He2').
Qed.

Lemma of_Z_spec z : 0 ≤ z → close_to (f64_of_Z z) (inject_Z z).
Proof. intros Hz. apply normalize_close; [done|]. cbn [Qpower]. apply Qmult_1_r. Qed.

Ltac zeros := apply close_self; [done..|]; unfold f64_add, f64_sub, SFadd, SFsub; cbn [val]; try lra.

Lemma add_spec x y : nonneg x → nonneg y → finite x → finite y → close_to (f64_add x y) (val x + val y).
Proof.
  intros Hx Hy Fx Fy. destruct x as [sx|?| |sx mx ex], y as [sy|?| |sy my ey]; try done.
  - destruct sx, sy; zeros.
  - apply nonneg_bounded in Hy as Hb. destruct Hb as [-> _]. zeros.
  - apply nonneg_bounded in Hx as Hb. destruct Hb as [-> _]. zeros.
  - apply nonneg_bounded in Hx as [-> _]. apply nonneg_bounded in Hy as [-> _].
    unfold f64_add. cbn [SFadd cond_Zopp]. set (ez := Z.min ex ey). rewrite !shl_align_spec by lia. apply normalize_close.
    + apply Z.add_nonneg_nonneg; apply Z.mul_nonneg_nonneg; try apply Z.pow_nonneg; lia.
    + rewrite inject_Z_plus, Qmult_plus_distr_l, !scale_up by lia. done.
Qed.

(** Subtracting the smaller of two numbers. *)
Lemma sub_spec x y : nonneg x → nonneg y → finite x → finite y → (val y <= val x)%Q →
  close_to (f64_sub x y) (val x - val y).
Proof.
  intros Hx Hy Fx Fy Hle. destruct x as [sx|?| |sx mx ex], y as [sy|?| |sy my ey]; try done.
  - destruct sx, sy; zeros.
  - apply nonneg_bounded in Hy as Hb. destruct Hb as [-> _]. pose proof (val_finite_pos my ey). cbn [val] in *. lra.
  - apply nonneg_bounded in Hx as Hb. destruct Hb as [-> _]. zeros.
  - apply nonneg_bounded in Hx as [-> _]. apply nonneg_bounded in Hy as [-> _].
    unfold f64_sub. cbn [SFsub cond_Zopp]. set (ez := Z.min ex ey). rewrite !shl_align_spec by lia.
    assert (Hv : (inject_Z (Z.pos mx * 2 ^ (ex - ez) - Z.pos my * 2 ^ (ey - ez)) * 2 ^ ez ==
      val (S754_finite false mx ex) - val (S754_finite false my ey))%Q).
    { unfold Z.sub at 1, Qminus. rewrite inject_Z_plus, inject_Z_opp, Qmult_plus_distr_l.
      cbn [val cond_Zopp]. rewrite <- (scale_up (Z.pos mx) ex ez), <- (scale_up (Z.pos my) ey ez) by lia. ring. }
    apply normalize_close; [|done]. pose proof (pow2_pos ez) as Hpz. rewrite Zle_Qle. apply (Qmult_le_r _ _ _ Hpz).
    rewrite Hv. change (inject_Z 0) with 0%Q. lra.
Qed.

(** Multiplying by a positive finite number. *)
Lemma mul_spec x y : nonneg x → nonneg y → finite x → finite y → (0 < val y)%Q → close_to (f64_mul x y) (val x * val y).
Proof.
  intros Hx Hy Fx Fy Hpos. destruct y as [?|?| |sy my ey]; try done. apply nonneg_bounded in Hy as [-> Uy].
  destruct x as [sx|?| |sx mx ex]; try done.
  - apply close_self; [done..|]. unfold f64_mul, SFmul. cbn [val]. ring.
  - apply nonneg_bounded in Hx as [-> Ux]. unfold f64_mul. cbn [SFmul xorb].
    assert (Hv : (inject_Z (Z.pos (mx * my)) * 2 ^ (ex + ey) == val (S754_finite false mx ex) * val (S754_finite false my ey))%Q).
    { cbn [val cond_Zopp]. rewrite Pos2Z.inj_mul, inject_Z_mult, pow2_add. ring. }
    apply round_close; [lia| | |].
    + rewrite unit_exp_def in * by lia. rewrite Pos2Z.inj_mul.
      pose proof (Z.log2_mul_below (Z.pos mx) (Z.pos my)). pose proof (Z.log2_nonneg (Z.pos mx)).
      pose proof (Z.log2_nonneg (Z.pos my)). lia.
    + rewrite Hv. lra.
    + rewrite <- Hv. apply Qmult_le_r; [apply pow2_pos|]. apply inject_le. lia.
Qed.

Lemma finite_val_bounds m e : unit_exp (Z.pos m) e = e →
  let k := (Z.log2 (Z.pos m) + e) in
  (2 ^ k <= val (S754_finite false m e))%Q ∧ (val (S754_finite false m e) < 2 ^ (k + 1))%Q.
Proof.
  intros _ k. cbn [val cond_Zopp]. destruct (Z.log2_spec (Z.pos m) ltac:(lia)) as [Hlo Hhi].
  pose proof (Z.log2_nonneg (Z.pos m)). unfold k. replace (Z.log2 (Z.pos m) + e + 1) with ((Z.log2 (Z.pos m) + 1) + e) by lia.
  rewrite (pow2_add _ e), (pow2_add (Z.log2 (Z.pos m) + 1) e), <- (pow2_Z (Z.log2 (Z.pos m))), <- (pow2_Z (Z.log2 (Z.pos m) + 1)) by lia. pose proof (pow2_pos e).
  split; [apply Qmult_le_r|apply Qmult_lt_r]; try done; [by apply inject_le|by rewrite <- Zlt_Qlt].
Qed.

(** Division of normal numbers. *)
Lemma div_spec x y : nonneg x → nonneg y → finite x → finite y → (0 < val y)%Q →
  (val x == 0 ∨ val y * 2 ^ (-1000) <= val x)%Q → close_to (f64_div x y) (val x / val y).
Proof.
  intros Hx Hy Fx Fy Hpos Hbig. destruct y as [?|?| |sy my ey]; try done. apply nonneg_bounded in Hy as [-> Uy].
  destruct x as [sx|?| |sx mx ex]; try done.
  { apply close_self; [done..|]. unfold f64_div, SFdiv. cbn [val]. unfold Qdiv. ring. }
  apply nonneg_bounded in Hx as [-> Ux]. unfold f64_div. cbn [SFdiv xorb].
  destruct (finite_val_bounds mx ex Ux) as [_ Hxhi]. destruct (finite_val_bounds my ey Uy) as [Hylo _].
  pose proof (val_finite_pos mx ex) as Hxpos. destruct Hbig as [Hz|Hbig]; [lra|].
  assert (HD : -1001 < (Z.log2 (Z.pos mx) + ex) - (Z.log2 (Z.pos my) + ey)).
  { assert (Hlt : (2 ^ ((Z.log2 (Z.pos my) + ey) + -1000) < 2 ^ (Z.log2 (Z.pos mx) + ex + 1))%Q).
    { eapply Qle_lt_trans; [|exact Hxhi]. rewrite pow2_add. eapply Qle_trans; [|exact Hbig].
      apply Qmult_le_r; [apply pow2_pos|done]. }
    destruct (Z.le_gt_cases (Z.log2 (Z.pos mx) + ex + 1) (Z.log2 (Z.pos my) + ey + -1000)) as [Hle|]; [|lia].
    apply pow2_le in Hle. lra. }
  clear Hbig Hxhi Hylo. unfold SFdiv_core_binary. cbn [Zdigits2]. rewrite !digits_log2.
  set (dx := Z.log2 (Z.pos mx)) in *. set (dy := Z.log2 (Z.pos my)) in *.
  set (e' := Z.min _ _). assert (He' : e' = Z.min ((dx + ex) - (dy + ey) - 53) (ex - ey)) by (unfold e', fexp, emin; lia).
  clearbody e'. set (s := ex - ey - e').
  assert (Hs : 0 ≤ s) by lia.
  assert ((match s with Z0 => Z.pos mx | Z.pos _ => Z.shiftl (Z.pos mx) s | Z.neg _ => 0 end) = Z.pos mx * 2 ^ s) as ->.
  { destruct s; [lia|apply Z.shiftl_mul_pow2; lia|lia]. }
  set (M := Z.pos mx * 2 ^ s). pose proof (Z_div_mod M (Z.pos my) ltac:(lia)) as Hqr.
  destruct (Z.div_eucl M (Z.pos my)) as [q r]. destruct Hqr as [HM Hr].
  destruct (Z.log2_spec (Z.pos mx) ltac:(lia)) as [Hxlo _]. destruct (Z.log2_spec (Z.pos my) ltac:(lia)) as [_ Hyhi].
  fold dx in Hxlo. fold dy in Hyhi. pose proof (Z.log2_nonneg (Z.pos mx) : 0 ≤ dx) as Hdx. pose proof (Z.log2_nonneg (Z.pos my) : 0 ≤ dy) as Hdy.
  assert (Hq : 2 ^ 52 ≤ q).
  { assert (HMlo : 2 ^ (dx + s) ≤ M) by (unfold M; rewrite Z.pow_add_r by lia; apply Z.mul_le_mono_nonneg_r; [apply Z.pow_nonneg|]; lia).
    assert (HYlo : 2 ^ (Z.succ dy + 52) ≤ 2 ^ (dx + s)) by (apply Z.pow_le_mono_r; lia). rewrite Z.pow_add_r in HYlo by lia.
    destruct (Z.le_gt_cases (2 ^ 52) q) as [|Hlt]; [done|]. exfalso.
    assert (Z.pos my * (q + 1) ≤ Z.pos my * 2 ^ 52) by (apply Z.mul_le_mono_nonneg_l; lia).
    assert (Z.pos my * 2 ^ 52 < 2 ^ Z.succ dy * 2 ^ 52) by (apply Z.mul_lt_mono_pos_r; lia). lia. }
  assert (Hu : e' ≤ unit_exp q e').
  { rewrite unit_exp_def by lia. assert (52 ≤ Z.log2 q) by (apply Z.log2_le_pow2; lia). lia. }
  assert (HV : (val (S754_finite false mx ex) / val (S754_finite false my ey) == inject_Z M / inject_Z (Z.pos my) * 2 ^ e')%Q).
  { assert (Hmy : ¬ (inject_Z (Z.pos my) == 0)%Q) by (intros E; by apply (inject_Z_injective _ 0) in E).
    pose proof (pow2_pos ey). cbn [val cond_Zopp]. apply (Qmult_inj_r _ _ (inject_Z (Z.pos my) * 2 ^ ey)).
    { intros E. apply Qmult_integral in E as [E|E]; [done|lra]. }
    unfold M. rewrite inject_Z_mult, pow2_Z by lia. unfold s. replace ex with ((ex - ey - e') + e' + ey) at 1 by lia.
    rewrite !pow2_add. field. split; [done|lra]. }
  assert (Hmy : (0 < inject_Z (Z.pos my))%Q) by (by rewrite <- (Zlt_Qlt 0)).
  assert (Hlo : (inject_Z q <= inject_Z M / inject_Z (Z.pos my))%Q).
  { apply Qle_shift_div_l; [done|]. rewrite <- inject_Z_mult. apply inject_le. lia. }
  assert (Hhi : (inject_Z M / inject_Z (Z.pos my) <= inject_Z (q + 1))%Q).
  { apply Qle_shift_div_r; [done|]. rewrite <- inject_Z_mult. apply inject_le. lia. }
  pose proof (pow2_pos e'). apply round_close; [lia|done| |]; rewrite HV; by apply Qmult_le_r.
Qed.

(** [Duration::as_secs_f64], of a number of nanoseconds. *)
Definition as_secs_f64 (ns : N) : f64 :=
  f64_add (f64_of_N (ns / 1000000000)) (f64_div (f64_of_N (ns mod 1000000000)) (f64_of_Z 1000000000)).

(** A duration in seconds is exact up to its 52nd bit. *)
Lemma as_secs_spec ns : (ns < 2 ^ 64 * 1000000000)%N →
  let x := as_secs_f64 ns in
  let v := (inject_Z (Z.of_N ns) / 1000000000)%Q in
  nonneg x ∧ finite x ∧ (val x <= v * (1 + 2 ^ (-50)) + 2 ^ (-50))%Q.
Proof.
  intros Hns x v. set (s := (ns / 1000000000)%N). set (n := (ns mod 1000000000)%N).
  assert (Hs : (s < 2 ^ 64)%N) by (apply N.Div0.div_lt_upper_bound; lia).
  assert (Hn : (n < 1000000000)%N) by (apply N.mod_lt; lia).
  assert (Hsum : (v == inject_Z (Z.of_N s) + inject_Z (Z.of_N n) * (1 # 1000000000))%Q).
  { unfold v. rewrite (N.div_mod ns 1000000000) at 1 by lia. fold s n. rewrite N2Z.inj_add, N2Z.inj_mul, inject_Z_plus, inject_Z_mult.
    change (inject_Z (Z.of_N 1000000000)) with 1000000000%Q. field. }
  unfold x, as_secs_f64. fold s n.
  destruct (of_Z_spec (Z.of_N s) ltac:(lia)) as (Ss & Sf & Sw). destruct (of_Z_spec (Z.of_N n) ltac:(lia)) as (Ns & Nf & Nw).
  fold (f64_of_N s) in *. fold (f64_of_N n) in *.
  assert (B64 : (inject_Z (Z.of_N s) <= 2 ^ 64)%Q) by (change (2 ^ 64)%Q with (inject_Z (2 ^ 64)); apply inject_le; lia).
  assert (Bn : (inject_Z (Z.of_N n) <= 1000000000)%Q) by (change 1000000000%Q with (inject_Z 1000000000); apply inject_le; lia).
  assert (S0 : (0 <= inject_Z (Z.of_N s))%Q) by (apply (inject_le 0); lia).
  assert (N0' : (0 <= inject_Z (Z.of_N n))%Q) by (apply (inject_le 0); lia).
  assert (Big : (2 ^ 70 <= 2 ^ 1000)%Q) by (by apply pow2_le). assert (B70 : (2 ^ 70 == 1180591620717411303424)%Q) by done.
  assert (B64' : (2 ^ 64 == 18446744073709551616)%Q) by done.
  specialize (Sf ltac:(lra)). specialize (Nf ltac:(lra)).
  assert (Tiny : (2 ^ (-1074) <= 2 ^ (-60))%Q) by (by apply pow2_le).
  assert (T60 : (2 ^ (-60) == 1 # 1152921504606846976)%Q) by done.
  assert (P52 : (2 ^ 52 == 4503599627370496)%Q) by done. assert (T50 : (2 ^ (-50) == 1 # 1125899906842624)%Q) by done.
  (* the seconds *)
  assert (Sx : (val (f64_of_N s) <= inject_Z (Z.of_N s) * (1 + (1 # 4503599627370496)) + (1 # 1152921504606846976))%Q).
  { destruct (Sw (inject_Z (Z.of_N s) * (1 # 4503599627370496) + 2 ^ (-60))%Q) as [Hw _]; [lra|rewrite P52, T60; lra|done|]. lra. }
  (* the nanoseconds *)
  assert (Nx : (val (f64_of_N n) <= inject_Z (Z.of_N n) + (1 # 4194304))%Q ∧ (val (f64_of_N n) == 0 ∨ 1 # 2 <= val (f64_of_N n))%Q).
  { split; [destruct (Nw (1 # 4194304)%Q) as [Hw _]; [lra|rewrite P52; lra|done|lra]|].
    destruct (decide (n = 0%N)) as [->|Hn0]; [by left|right].
    assert (1 <= inject_Z (Z.of_N n))%Q by (apply (inject_le 1); lia).
    destruct (Nw (1 # 4194304)%Q) as [_ Hw]; [lra|rewrite P52; lra|done|lra]. }
  set (g := f64_of_Z 1000000000). assert (Hg : nonneg g ∧ finite g ∧ (val g == 1000000000)%Q) by (unfold g; split_and!; vm_compute; done).
  destruct Hg as (Gn & Gf & Gv). clearbody g. destruct Nx as [Nhi Nlo].
  assert (Hd : close_to (f64_div (f64_of_N n) g) (val (f64_of_N n) / val g)).
  { apply div_spec; [done..| |]; [lra|]. destruct Nlo as [|Nlo]; [by left|right]. rewrite Gv.
    assert (2 ^ (-1000) <= 2 ^ (-60))%Q by (by apply pow2_le). pose proof (pow2_pos (-1000)). lra. }
  destruct Hd as (Ds & Df & Dw).
  assert (Hdiv : (val (f64_of_N n) / val g == val (f64_of_N n) * (1 # 1000000000))%Q) by (rewrite Gv; field).
  rewrite Hdiv in Df. specialize (Df ltac:(lra)).
  assert (Dx : (val (f64_div (f64_of_N n) g) <= val (f64_of_N n) * (1 # 1000000000) + (1 # 2251799813685248))%Q).
  { destruct (Dw (1 # 2251799813685248)%Q) as [Hw _]; [lra|rewrite Hdiv, P52; lra|done|]. rewrite Hdiv in Hw. lra. }
  destruct (add_spec (f64_of_N s) (f64_div (f64_of_N n) g) Ss Ds Sf Df) as (An & Af & Aw).
  pose proof (val_nonneg _ Ss). pose proof (val_nonneg _ Ds).
  specialize (Af ltac:(lra)). split_and!; [done..|].
  set (t := (val (f64_of_N s) + val (f64_div (f64_of_N n) g))%Q) in *.
  destruct (Aw (t * (1 # 4503599627370496) + 2 ^ (-60))%Q) as [Hw _]; [unfold t; lra|rewrite P52, T60; unfold t; lra|done|].
  rewrite Hsum. unfold t in *. rewrite T50. rewrite T60 in *. lra.
Qed.

(** [f64::min] of two numbers. *)
Lemma min_spec x y : nonneg x → nonneg y → finite x → finite y →
  nonneg (f64_min x y) ∧ finite (f64_min x y) ∧ (val (f64_min x y) <= val x)%Q ∧ (val (f64_min x y) <= val y)%Q.
Proof.
  intros Hx Hy Fx Fy. unfold f64_min. destruct x as [?|?| |? ? ?] eqn:Ex, y as [?|?| |? ? ?] eqn:Ey; try done; cbn [f64_is_nan];
    rewrite <- Ex, <- Ey in *; pose proof (ltb_spec y x Hy Hx Fy Fx) as Hlt; destruct (f64_ltb y x);
    (assert (Hle : (val y < val x)%Q ∨ (val x <= val y)%Q) by
       (destruct (Qlt_le_dec (val y) (val x)); [by left|by right])); destruct Hle as [Hle|Hle];
    try (apply Hlt in Hle; done); split_and!; try done; try lra; destruct Hlt as [Hlt _]; specialize (Hlt eq_refl); lra.
Qed.
