(* ===== verification/Abuse.v ===== *)
(** * Abuse prevention: [crates/ephemera-abuse/src]

    Token buckets ([rate_limit.rs]), reputation ([reputation.rs]) and
    near-duplicate detection ([fingerprint.rs]), on the doubles of [Float64].
    Clock readings are nanoseconds of a monotonic clock and arguments; the
    power function of the standard library, whose precision it leaves open,
    is the parameter [powf]. *)
From S2P Require Import Prelude Crypto Unicode Pow Float64.
From Stdlib Require Import QArith Lqa.

(* ------------------------------------------------------------------ *)
(** ** Rate limits *)

Module RateLimit.
Inductive ActionType :=
| Post | Reply | Reaction | DirectMessageFriend | DirectMessageMutual | MessageRequest | Follow | ConnectionRequest
| GroupCreate | GroupInvite | GroupChatMessage.

#[global] Instance ActionType_eq_dec : EqDecision ActionType.
Proof. solve_decision. Defined.
Definition all_actions : list ActionType :=
  [Post; Reply; Reaction; DirectMessageFriend; DirectMessageMutual; MessageRequest; Follow; ConnectionRequest;
   GroupCreate; GroupInvite; GroupChatMessage].
#[global] Instance ActionType_countable : Countable ActionType.
Proof.
  refine (inj_countable (λ a, default 0%nat (position (λ b, bool_decide (b = a)) all_actions)) (λ n, all_actions !! n) _).
  by intros [].
Defined.

(** The [Debug] form. *)
Definition action_name (a : ActionType) : string :=
  match a with
  | Post => "Post" | Reply => "Reply" | Reaction => "Reaction" | DirectMessageFriend => "DirectMessageFriend"
  | DirectMessageMutual => "DirectMessageMutual" | MessageRequest => "MessageRequest" | Follow => "Follow"
  | ConnectionRequest => "ConnectionRequest" | GroupCreate => "GroupCreate" | GroupInvite => "GroupInvite"
  | GroupChatMessage => "GroupChatMessage"
  end.

Record RateLimitConfig := MkConfig { c_capacity : N; c_refill_rate : f64 }.

(** The burst and the sustained number of actions an hour. *)
Definition limits (a : ActionType) : N * Z :=
  match a with
  | Post => (10, 10%Z) | Reply => (5, 20%Z) | Reaction => (20, 100%Z) | DirectMessageFriend => (10, 60%Z)
  | DirectMessageMutual => (5, 30%Z) | MessageRequest => (1, 5%Z) | Follow => (10, 50%Z) | ConnectionRequest => (5, 20%Z)
  | GroupCreate => (3, 5%Z) | GroupInvite => (10, 20%Z) | GroupChatMessage => (15, 60%Z)
  end%N.
Definition for_action (a : ActionType) : RateLimitConfig :=
  MkConfig (limits a).1 (f64_div (f64_of_Z (limits a).2) (f64_of_Z 3600)).

Record TokenBucket := MkBucket { capacity : N; tokens : f64; refill_rate : f64; last_refill : N }.

Definition new_bucket (config : RateLimitConfig) (now : N) : TokenBucket :=
  MkBucket (c_capacity config) (f64_of_N (c_capacity config)) (c_refill_rate config) now.

(** [elapsed] and [now] are two readings of the clock. *)
Definition refill (t_elapsed t_now : N) (b : TokenBucket) : TokenBucket :=
  let elapsed := as_secs_f64 (t_elapsed - last_refill b) in
  MkBucket (capacity b) (f64_min (f64_add (tokens b) (f64_mul elapsed (refill_rate b))) (f64_of_N (capacity b)))
    (refill_rate b) t_now.
Definition set_tokens (t : f64) (b : TokenBucket) : TokenBucket := MkBucket (capacity b) t (refill_rate b) (last_refill b).

Definition try_consume (t_elapsed t_now : N) (b : TokenBucket) : TokenBucket * bool :=
  let b := refill t_elapsed t_now b in
  if f64_geb (tokens b) f64_one then (set_tokens (f64_sub (tokens b) f64_one) b, true) else (b, false).

Definition retry_after (t_elapsed t_now : N) (b : TokenBucket) : TokenBucket * N :=
  let b := refill t_elapsed t_now b in
  if f64_geb (tokens b) f64_one then (b, 0%N)
  else
    let deficit := f64_sub f64_one (tokens b) in
    (b, f64_ceil_u64 (f64_div deficit (refill_rate b))).

Abbreviation Key := (bytes * ActionType)%type.
Abbreviation RateLimiter := (gmap (bytes * ActionType) TokenBucket).
Definition new : RateLimiter := ∅.

(** The clock readings of one call, in order: a new bucket, [try_consume],
    [retry_after]. *)
Record Readings := MkReadings { r_new : N; r_elapsed : N; r_now : N; r_elapsed' : N; r_now' : N }.

Definition entry (now : N) (k : Key) (l : RateLimiter) : TokenBucket :=
  default (new_bucket (for_action k.2) now) (l !! k).

Definition check (r : Readings) (identity : bytes) (action : ActionType) : SE RateLimiter ProofOfWork.AbuseError unit := λ l,
  let bucket := entry (r_new r) (identity, action) l in
  let '(bucket, allowed) := try_consume (r_elapsed r) (r_now r) bucket in
  if allowed then (<[(identity, action) := bucket]> l, Ok tt)
  else
    let '(bucket, retry) := retry_after (r_elapsed' r) (r_now' r) bucket in
    (<[(identity, action) := bucket]> l, Err (ProofOfWork.RateLimited (action_name action) retry)).

Definition would_allow (r : Readings) (identity : bytes) (action : ActionType) (l : RateLimiter) : RateLimiter * bool :=
  let bucket := refill (r_elapsed r) (r_now r) (entry (r_new r) (identity, action) l) in
  (<[(identity, action) := bucket]> l, f64_geb (tokens bucket) f64_one).

Definition clear_identity (identity : bytes) (l : RateLimiter) : RateLimiter := filter (λ kv, kv.1.1 ≠ identity) l.
Definition clear_all (l : RateLimiter) : RateLimiter := ∅.

(* ------------------------------------------------------------------ *)
(** ** A run of calls *)

Record Call := MkCall { who : bytes; what : ActionType; at_ : Readings }.
Definition run_call (st : RateLimiter * list (Key * bool)) (c : Call) : RateLimiter * list (Key * bool) :=
  let '(l, r) := check (at_ c) (who c) (what c) st.1 in (l, st.2 ++ [((who c, what c), is_ok r)]).
Definition run (l : RateLimiter) (cs : list Call) : RateLimiter * list (Key * bool) := foldl run_call (l, []) cs.
Definition accepted (k : Key) (log : list (Key * bool)) : nat :=
  length (filter (λ x, x = (k, true)) log).

(** The clock does not run backwards from [t], and stays within a
    [Duration]. *)
Fixpoint clock_ok (t : N) (cs : list Call) : bool :=
  match cs with
  | [] => (t <? 2 ^ 64 * 1000000000)%N
  | c :: cs =>
      let r := at_ c in
      (t <=? r_new r)%N && (r_new r <=? r_elapsed r)%N && (r_elapsed r <=? r_now r)%N && (r_now r <=? r_elapsed' r)%N &&
      (r_elapsed' r <=? r_now' r)%N && clock_ok (r_now' r) cs
  end.
Definition end_time (t : N) (cs : list Call) : N := foldl (λ _ c, r_now' (at_ c)) t cs.

(* ------------------------------------------------------------------ *)
(** ** What one refill adds *)

Definition rate (a : ActionType) : f64 := c_refill_rate (for_action a).
Definition cap (a : ActionType) : N := c_capacity (for_action a).
Definition per_second (a : ActionType) : Q := (inject_Z (limits a).2 * (1 # 3600))%Q.
Definition seconds (ns : N) : Q := (inject_Z (Z.of_N ns) * (1 # 1000000000))%Q.

Definition bucket_ok (a : ActionType) (b : TokenBucket) : Prop :=
  capacity b = cap a ∧ refill_rate b = rate a ∧ nonneg (tokens b) ∧ finite (tokens b) ∧
  (val (tokens b) <= inject_Z (Z.of_N (cap a)))%Q.

Lemma rate_facts a :
  nonneg (rate a) ∧ finite (rate a) ∧ (0 < val (rate a))%Q ∧ (val (rate a) <= 1)%Q ∧
  (val (rate a) <= per_second a * (1 + (1 # 1125899906842624)))%Q ∧
  nonneg (f64_of_N (cap a)) ∧ finite (f64_of_N (cap a)) ∧ (val (f64_of_N (cap a)) == inject_Z (Z.of_N (cap a)))%Q ∧
  (1 <= inject_Z (Z.of_N (cap a)))%Q ∧ (inject_Z (Z.of_N (cap a)) <= 20)%Q ∧ (0 < per_second a)%Q ∧ (per_second a <= 1)%Q.
Proof. destruct a; split_and!; vm_compute; try done; try discriminate. Qed.

Lemma refill_ok a b e n : bucket_ok a b → (last_refill b ≤ e)%N → (e < 2 ^ 64 * 1000000000)%N →
  bucket_ok a (refill e n b) ∧ last_refill (refill e n b) = n ∧
  (val (tokens (refill e n b)) <=
   val (tokens b) + per_second a * seconds (e - last_refill b) * (1 + (1 # 17592186044416)) + (1 # 17592186044416))%Q.
Proof.
  intros (Hc & Hr & Ht & Hf & Hle) Hlast He. destruct (rate_facts a) as (Rn & Rf & R0 & R1 & RP & Cn & Cf & Cv & C1 & C20 & P0 & P1).
  unfold refill. rewrite Hc, Hr. cbn [tokens last_refill capacity refill_rate]. set (d := (e - last_refill b)%N).
  destruct (as_secs_spec d) as (En & Ef & Ev); [lia|]. set (el := as_secs_f64 d) in *.
  assert (Hsec : (inject_Z (Z.of_N d) / 1000000000 == seconds d)%Q) by (unfold seconds; field). rewrite Hsec in Ev.
  assert (HS : (0 <= seconds d)%Q) by (unfold seconds; assert (0 <= inject_Z (Z.of_N d))%Q by (apply (inject_le 0); lia); lra).
  assert (HS' : (seconds d <= 18446744073709551616)%Q).
  { unfold seconds. assert (inject_Z (Z.of_N d) <= inject_Z (18446744073709551616 * 1000000000))%Q by (apply inject_le; lia).
    rewrite inject_Z_mult in *. change (inject_Z 1000000000) with 1000000000%Q in *. change (inject_Z 18446744073709551616) with 18446744073709551616%Q in *. lra. }
  assert (T50 : (2 ^ (-50) == 1 # 1125899906842624)%Q) by done. rewrite T50 in Ev. clear T50.
  assert (Big : (36893488147419103232 <= 2 ^ 1000)%Q) by (vm_compute; discriminate).
  pose proof (val_nonneg _ En) as E0. pose proof (val_nonneg _ Ht) as T0.
  assert (Hprod : (val el * val (rate a) <= per_second a * seconds d * (1 + (1 # 281474976710656)) + (1 # 1125899906842624))%Q).
  { apply (Qle_trans _ ((seconds d * (1 + (1 # 1125899906842624)) + (1 # 1125899906842624)) * val (rate a))).
    { apply Qmult_le_compat_r; [done|lra]. }
    assert (HSR : (seconds d * val (rate a) <= seconds d * (per_second a * (1 + (1 # 1125899906842624))))%Q)
      by (apply (Qmult_le_compat_nonneg (seconds d)); split; lra).
    assert (0 <= per_second a * seconds d)%Q by (apply Qmult_le_0_compat; lra). lra. }
  assert (Hprod0 : (0 <= val el * val (rate a))%Q) by (apply Qmult_le_0_compat; lra).
  assert (Hpbig : (val el * val (rate a) <= 36893488147419103230)%Q).
  { assert (val el * val (rate a) <= val el * 1)%Q by (apply (Qmult_le_compat_nonneg (val el)); split; lra). lra. }
  destruct (mul_spec el (rate a) En Rn Ef Rf R0) as (Mn & Mf & Mw). specialize (Mf ltac:(lra)).
  assert (Tiny : (2 ^ (-1074) <= 1 # 1125899906842624)%Q) by (vm_compute; discriminate).
  assert (P52 : (2 ^ 52 == 4503599627370496)%Q) by done.
  set (X := (per_second a * seconds d)%Q) in *.
  assert (X0 : (0 <= X)%Q) by (apply Qmult_le_0_compat; lra).
  set (p := f64_mul el (rate a)) in *.
  assert (Hp : (val p <= val el * val (rate a) * (1 + (1 # 4503599627370496)) + (1 # 1125899906842624))%Q).
  { destruct (Mw (val el * val (rate a) * (1 # 4503599627370496) + (1 # 1125899906842624))%Q) as [Hw _];
      [lra|rewrite P52; lra|done|lra]. }
  pose proof (val_nonneg _ Mn) as Hp0.
  destruct (add_spec (tokens b) p Ht Mn Hf Mf) as (An & Af & Aw). specialize (Af ltac:(lra)).
  set (q := f64_add (tokens b) p) in *.
  assert (Hq : (val q <= (val (tokens b) + val p) * (1 + (1 # 4503599627370496)) + (1 # 1125899906842624))%Q).
  { destruct (Aw ((val (tokens b) + val p) * (1 # 4503599627370496) + (1 # 1125899906842624))%Q) as [Hw _];
      [lra|rewrite P52; lra|done|lra]. }
  destruct (min_spec q (f64_of_N (cap a)) An Cn Af Cf) as (Nn & Nf & N1 & N2).
  split_and!; [|done|lra]. split_and!; [done..|]. cbn [tokens]. lra.
Qed.

(* ------------------------------------------------------------------ *)
(** ** What one call does *)

Definition gain (a : ActionType) (d : N) : Q := (per_second a * seconds d * (1 + (1 # 17592186044416)))%Q.

Lemma seconds_mono d d' : (d ≤ d')%N → (seconds d <= seconds d')%Q.
Proof. intros H. unfold seconds. assert (inject_Z (Z.of_N d) <= inject_Z (Z.of_N d'))%Q by (apply inject_le; lia). lra. Qed.
Lemma seconds_nonneg d : (0 <= seconds d)%Q.
Proof. apply (Qle_trans _ (seconds 0)); [done|]. apply seconds_mono. lia. Qed.
Lemma seconds_add d d' : (seconds (d + d') == seconds d + seconds d')%Q.
Proof. unfold seconds. rewrite N2Z.inj_add, inject_Z_plus. ring. Qed.
Lemma gain_mono a d d' : (d ≤ d')%N → (gain a d <= gain a d')%Q.
Proof.
  intros H%seconds_mono. pose proof (rate_facts a) as (_ & _ & _ & _ & _ & _ & _ & _ & _ & _ & P0 & _). unfold gain.
  assert (per_second a * seconds d <= per_second a * seconds d')%Q by
    (pose proof (seconds_nonneg d); apply Qmult_le_compat_nonneg; split; lra). lra.
Qed.
Lemma gain_add a d d' : (gain a (d + d') == gain a d + gain a d')%Q.
Proof. unfold gain. rewrite seconds_add. ring. Qed.
Lemma gain_nonneg a d : (0 <= gain a d)%Q.
Proof. assert (gain a 0 == 0)%Q as E by (unfold gain, seconds; cbn [Z.of_N]; change (inject_Z 0) with 0%Q; ring).
  rewrite <- E. apply gain_mono. lia. Qed.

Definition spent (ok : bool) : Q := (if ok then 1 else 0)%Q.

Lemma one_facts : nonneg f64_one ∧ finite f64_one ∧ (val f64_one == 1)%Q.
Proof. split_and!; vm_compute; done. Qed.

Lemma refill_gain a b e n : bucket_ok a b → (last_refill b ≤ e)%N → (e ≤ n)%N → (e < 2 ^ 64 * 1000000000)%N →
  bucket_ok a (refill e n b) ∧ last_refill (refill e n b) = n ∧
  (val (tokens (refill e n b)) <= val (tokens b) + gain a (n - last_refill b) + (1 # 17592186044416))%Q.
Proof.
  intros Hb Hl Hn He. destruct (refill_ok a b e n Hb Hl He) as (Hb' & Hl' & Hv). split_and!; [done..|].
  fold (gain a (e - last_refill b)) in Hv. pose proof (gain_mono a (e - last_refill b) (n - last_refill b) ltac:(lia)). lra.
Qed.

Lemma consume_ok a b e n b' ok : bucket_ok a b → (last_refill b ≤ e)%N → (e ≤ n)%N → (e < 2 ^ 64 * 1000000000)%N →
  try_consume e n b = (b', ok) →
  bucket_ok a b' ∧ last_refill b' = n ∧
  (val (tokens b') + spent ok <= val (tokens b) + gain a (n - last_refill b) + (1 # 8796093022208))%Q.
Proof.
  intros Hb Hl Hn He. destruct (refill_gain a b e n Hb Hl Hn He) as (Hb' & Hl' & Hv). unfold try_consume.
  generalize dependent (refill e n b). intros c Hb' Hl' Hv. destruct Hb' as (Hc & Hr & Ht & Hf & Hle). destruct one_facts as (On & Of & Ov).
  pose proof (rate_facts a) as (_ & _ & _ & _ & _ & _ & _ & _ & _ & C20 & _ & _).
  destruct (f64_geb (tokens c) f64_one) eqn:Hge; intros [= <- <-]; unfold spent.
  - unfold f64_geb in Hge. apply (leb_spec f64_one (tokens c) On Ht Of Hf) in Hge.
    destruct (sub_spec (tokens c) f64_one Ht On Hf Of Hge) as (Sn & Sf & Sw).
    assert (Big : (20 <= 2 ^ 1000)%Q) by (vm_compute; discriminate). specialize (Sf ltac:(lra)).
    assert (P52 : (2 ^ 52 == 4503599627370496)%Q) by done.
    assert (Tiny : (2 ^ (-1074) <= 1 # 1125899906842624)%Q) by (vm_compute; discriminate).
    destruct (Sw (20 * (1 # 1125899906842624))%Q) as [Hw _]; [lra|rewrite P52; lra|done|].
    assert (Hcap : (val (f64_sub (tokens c) f64_one) <= inject_Z (Z.of_N (cap a)))%Q).
    { destruct (Sw 1%Q) as [Hw' _]; [lra|rewrite P52; lra|done|]. lra. }
    split_and!; [|done|cbn [tokens set_tokens]; lra]. by split_and!.
  - split_and!; [by split_and!|done|lra].
Qed.

Lemma retry_ok a b e n : bucket_ok a b → (last_refill b ≤ e)%N → (e ≤ n)%N → (e < 2 ^ 64 * 1000000000)%N →
  bucket_ok a (retry_after e n b).1 ∧ last_refill (retry_after e n b).1 = n ∧
  (val (tokens (retry_after e n b).1) <= val (tokens b) + gain a (n - last_refill b) + (1 # 17592186044416))%Q.
Proof.
  intros Hb Hl Hn He. assert ((retry_after e n b).1 = refill e n b) as -> by (unfold retry_after; by case_match).
  by apply refill_gain.
Qed.

Lemma new_bucket_ok a t : bucket_ok a (new_bucket (for_action a) t).
Proof.
  destruct (rate_facts a) as (_ & _ & _ & _ & _ & Cn & Cf & Cv & _). split_and!; [done..|]. unfold new_bucket. cbn [tokens].
  fold (cap a). rewrite Cv. apply Qle_refl.
Qed.

(** One call moves the allowance of its key by what the time since its last
    refill gives, less what it takes. *)
Lemma check_ok r id a l l' res b (k := (id, a)) :
  entry (r_new r) k l = b → bucket_ok a b → (last_refill b ≤ r_elapsed r)%N → (r_elapsed r ≤ r_now r)%N →
  (r_now r ≤ r_elapsed' r)%N → (r_elapsed' r ≤ r_now' r)%N → (r_now' r < 2 ^ 64 * 1000000000)%N →
  check r id a l = (l', res) →
  ∃ b', l' = <[k := b']> l ∧ bucket_ok a b' ∧ (last_refill b ≤ last_refill b' ∧ last_refill b' ≤ r_now' r)%N ∧
    (val (tokens b') + spent (is_ok res) <= val (tokens b) + gain a (last_refill b' - last_refill b) + (1 # 4398046511104))%Q.
Proof.
  intros Hb Hok H1 H2 H3 H4 H5. unfold check. fold k. rewrite Hb.
  destruct (try_consume (r_elapsed r) (r_now r) b) as [b1 ok] eqn:E1.
  destruct (consume_ok a b _ _ b1 ok Hok H1 H2 ltac:(lia) E1) as (Hok1 & Hl1 & Hv1). destruct ok.
  - intros [= <- <-]. exists b1. rewrite Hl1 in *. split_and!; [done..|lia|lia|]. unfold spent in *. cbn [is_ok]. lra.
  - destruct (retry_after (r_elapsed' r) (r_now' r) b1) as [b2 w] eqn:E2.
    destruct (retry_ok a b1 (r_elapsed' r) (r_now' r) Hok1 ltac:(lia) H4 ltac:(lia)) as (Hok2 & Hl2 & Hv2).
    rewrite E2 in *. cbn [fst] in *. intros [= <- <-]. exists b2. rewrite Hl2. split_and!; [done..|lia|lia|].
    unfold spent in *. cbn [is_ok]. rewrite Hl1 in *.
    replace (r_now' r - last_refill b)%N with ((r_now r - last_refill b) + (r_now' r - r_now r))%N by lia. rewrite gain_add. lra.
Qed.

(* ------------------------------------------------------------------ *)
(** ** Bounds over a run *)

Definition slack (n : nat) : Q := (inject_Z (Z.of_nat n) * (1 # 4398046511104))%Q.
Definition count_q (k : Key) (log : list (Key * bool)) : Q := inject_Z (Z.of_nat (accepted k log)).

Definition within_allowance (k : Key) (start : N) (n : nat) (t : N) (st : RateLimiter * list (Key * bool)) : Prop :=
  (∀ k' b, st.1 !! k' = Some b → bucket_ok k'.2 b ∧ (start ≤ last_refill b)%N ∧ (last_refill b ≤ t)%N) ∧
  match st.1 !! k with
  | Some b => (count_q k st.2 + val (tokens b) <=
      inject_Z (Z.of_N (cap k.2)) + gain k.2 (last_refill b - start) + slack n)%Q
  | None => accepted k st.2 = 0%nat
  end.

Lemma accepted_app k log k' ok : count_q k (log ++ [(k', ok)]) =
  inject_Z (Z.of_nat (accepted k log) + (if decide ((k', ok) = (k, true)) then 1 else 0)).
Proof.
  unfold count_q, accepted. rewrite filter_app, length_app, Nat2Z.inj_add. f_equal. f_equal.
  rewrite filter_cons. by destruct (decide ((k', ok) = (k, true))).
Qed.

Lemma slack_S n : (slack (S n) == slack n + (1 # 4398046511104))%Q.
Proof. unfold slack. rewrite Nat2Z.inj_succ, <- Z.add_1_r, inject_Z_plus. ring. Qed.
Lemma slack_nonneg n : (0 <= slack n)%Q.
Proof. unfold slack. assert (0 <= inject_Z (Z.of_nat n))%Q by (apply (inject_le 0); lia). lra. Qed.

Lemma run_call_ok k start n t st c (r := at_ c) :
  within_allowance k start n t st → (start ≤ t)%N → (t ≤ r_new r)%N → (r_new r ≤ r_elapsed r)%N → (r_elapsed r ≤ r_now r)%N →
  (r_now r ≤ r_elapsed' r)%N → (r_elapsed' r ≤ r_now' r)%N → (r_now' r < 2 ^ 64 * 1000000000)%N →
  within_allowance k start (S n) (r_now' r) (run_call st c).
Proof.
  intros [Hall Hk] H0 H1 H2 H3 H4 H5 H6. destruct st as [l log]. cbn [fst snd] in *. unfold run_call. cbn [fst snd]. fold r.
  destruct (check r (who c) (what c) l) as [l' res] eqn:E. set (k0 := (who c, what c)).
  set (b := entry (r_new r) k0 l).
  assert (Hb : bucket_ok (what c) b ∧ (start ≤ last_refill b)%N ∧ (last_refill b ≤ r_new r)%N).
  { unfold b, entry. destruct (l !! k0) as [b0|] eqn:El; cbn [default id].
    - destruct (Hall k0 b0 El) as (? & ? & ?). split; [done|lia].
    - split; [apply new_bucket_ok|cbn; lia]. }
  destruct Hb as (Hbok & Hb1 & Hb2).
  destruct (check_ok r (who c) (what c) l l' res b eq_refl Hbok ltac:(lia) H3 H4 H5 H6 E) as (b' & -> & Hok' & [Hl1 Hl2] & Hv).
  fold k0. split.
  - intros k' b1 Hl. cbn [fst] in Hl. destruct (decide (k0 = k')) as [<-|Hne].
    + rewrite lookup_insert_eq in Hl. injection Hl as <-. split; [done|lia].
    + rewrite lookup_insert_ne in Hl by done. destruct (Hall k' b1 Hl) as (? & ? & ?). split_and!; [done|lia|lia].
  - cbn [fst snd]. rewrite accepted_app. pose proof (slack_S n) as HS. destruct (decide (k0 = k)) as [<-|Hne].
    + rewrite lookup_insert_eq. cbn [snd] in *.
      assert (Hpre : (count_q k0 log + val (tokens b) <= inject_Z (Z.of_N (cap (what c))) + gain (what c) (last_refill b - start) + slack n)%Q).
      { unfold b, entry. destruct (l !! k0) as [b0|] eqn:El; cbn [default id]; [exact Hk|]. unfold count_q. rewrite Hk.
        change (inject_Z (Z.of_nat 0)) with 0%Q. destruct (new_bucket_ok (what c) (r_new r)) as (_ & _ & _ & _ & Hcap).
        pose proof (gain_nonneg (what c) (last_refill (new_bucket (for_action k0.2) (r_new r)) - start)). pose proof (slack_nonneg n).
        cbn [snd k0]. unfold k0 in *. cbn [snd] in *. lra. }
      replace (last_refill b' - start)%N with ((last_refill b - start) + (last_refill b' - last_refill b))%N by lia.
      rewrite gain_add, inject_Z_plus. fold (count_q k0 log).
      assert (Hsp : (inject_Z (if decide ((k0, is_ok res) = (k0, true)) then 1 else 0) == spent (is_ok res))%Q).
      { destruct (is_ok res); cbn [spent]; [rewrite decide_True by done|rewrite decide_False by done]; done. }
      rewrite Hsp. change k0.2 with (what c). lra.
    + rewrite lookup_insert_ne by done. rewrite decide_False by congruence. rewrite Z.add_0_r. fold (count_q k log).
      destruct (l !! k) as [b1|] eqn:El.
      * lra.
      * unfold accepted in *. rewrite filter_app, length_app, Hk. rewrite filter_cons, decide_False by congruence. done.
Qed.

Lemma clock_ok_bound t cs : clock_ok t cs = true → (t < 2 ^ 64 * 1000000000)%N.
Proof.
  revert t. induction cs as [|c cs IH]; intros t Hc; [by apply N.ltb_lt|]. cbn [clock_ok] in Hc. bprop.
  match goal with H : clock_ok _ cs = true |- _ => apply IH in H end. lia.
Qed.

Lemma run_allowance k start cs n t st : within_allowance k start n t st → (start ≤ t)%N → clock_ok t cs = true →
  within_allowance k start (n + length cs) (end_time t cs) (foldl run_call st cs) ∧ (t ≤ end_time t cs)%N.
Proof.
  revert n t st. induction cs as [|c cs IH]; intros n t st Hw Hst Hc.
  - cbn. rewrite Nat.add_0_r. split; [done|lia].
  - cbn [clock_ok] in Hc. bprop.
    match goal with H : clock_ok (r_now' (at_ c)) cs = true |- _ => rename H into Hc' end.
    pose proof (clock_ok_bound _ _ Hc') as Hend.
    cbn [foldl length end_time]. replace (n + S (length cs))%nat with (S n + length cs)%nat by lia.
    destruct (IH (S n) (r_now' (at_ c)) (run_call st c)) as [H1' H2']; [by apply (run_call_ok k start n t st c)|lia|done|].
    split; [done|]. unfold end_time in *. lia.
Qed.

(** *** One instant *)

Definition whole (a : ActionType) (k : nat) (t : N) : TokenBucket := MkBucket (cap a) (f64_of_N (N.of_nat k)) (rate a) t.
Definition instant (t : N) : Readings := MkReadings t t t t t.
Definition call_at (id : bytes) (a : ActionType) (t : N) : Call := MkCall id a (instant t).

Lemma whole_facts a : Forall (λ k,
    f64_min (f64_add (f64_of_N (N.of_nat k)) (f64_mul (as_secs_f64 0) (rate a))) (f64_of_N (cap a)) = f64_of_N (N.of_nat k) ∧
    f64_geb (f64_of_N (N.of_nat k)) f64_one = (0 <? k)%nat ∧
    f64_sub (f64_of_N (N.of_nat (S k))) f64_one = f64_of_N (N.of_nat k))
  (seq 0 (S (N.to_nat (cap a)))).
Proof. destruct a; repeat constructor. Qed.

Lemma whole_fact a k : (k ≤ N.to_nat (cap a))%nat →
  (∀ t, refill t t (whole a k t) = whole a k t) ∧ f64_geb (f64_of_N (N.of_nat k)) f64_one = (0 <? k)%nat ∧
  f64_sub (f64_of_N (N.of_nat (S k))) f64_one = f64_of_N (N.of_nat k).
Proof.
  intros Hk. pose proof (whole_facts a) as Hf. rewrite Forall_forall in Hf.
  destruct (Hf k) as (H1 & H2 & H3); [apply elem_of_seq; lia|]. split; [|done].
  intros t. unfold refill, whole. cbn [tokens capacity refill_rate last_refill]. by rewrite N.sub_diag, H1.
Qed.

Lemma run_burst id a t k l log : entry t (id, a) l = whole a k t → (k ≤ N.to_nat (cap a))%nat →
  (foldl run_call (l, log) (replicate (S k) (call_at id a t))).2 = log ++ replicate k ((id, a), true) ++ [((id, a), false)].
Proof.
  revert l log. induction k as [|k IH]; intros l log He Hk; destruct (whole_fact a _ Hk) as (Hr & Hg & _).
  - cbn [replicate foldl]. unfold run_call, call_at, check, instant. cbn [at_ who what fst snd r_new r_elapsed r_now r_elapsed' r_now'].
    rewrite He. unfold try_consume. rewrite Hr. unfold whole at 1. cbn [tokens]. rewrite Hg. cbn [Nat.ltb Nat.leb].
    destruct (retry_after t t (whole a 0 t)) as [b w]. done.
  - rewrite (replicate_S (S k) (call_at id a t)), (replicate_S k (id, a, true)). cbn [foldl].
    assert (Hrun : run_call (l, log) (call_at id a t) = (<[(id, a) := whole a k t]> l, log ++ [((id, a), true)])).
    { unfold run_call, call_at, check, instant. cbn [at_ who what fst snd r_new r_elapsed r_now r_elapsed' r_now'].
      rewrite He. unfold try_consume. rewrite Hr. unfold whole at 1. cbn [tokens]. rewrite Hg. cbn [Nat.ltb Nat.leb].
      destruct (whole_fact a k ltac:(lia)) as (_ & _ & Hs). unfold whole at 1. cbn [tokens]. rewrite Hs. done. }
    rewrite Hrun, (IH _ (log ++ [((id, a), true)])); [by rewrite <- app_assoc| |lia].
    unfold entry. by rewrite lookup_insert_eq.
Qed.

(** C16. However calls of anyone are mixed, an identity gets at most the burst of
    an action plus its hourly rate over the time that passed, up to one part
    in 2^44 and 2^-42 a call for rounding.  At one instant a new identity
    gets exactly the burst. *)
Theorem rate_bound (k : Key) (start : N) (cs : list Call) (Hclock : clock_ok start cs = true) :
  let log := (run new cs).2 in
  (inject_Z (Z.of_nat (accepted k log)) <=
   inject_Z (Z.of_N (limits k.2).1) +
   inject_Z (limits k.2).2 * (1 # 3600) * seconds (end_time start cs - start) * (1 + (1 # 17592186044416)) +
   inject_Z (Z.of_nat (length cs)) * (1 # 4398046511104))%Q ∧
  (∀ id a t, let n := N.to_nat (limits a).1 in
     (run new (replicate (S n) (call_at id a t))).2 = replicate n ((id, a), true) ++ [((id, a), false)]).
Proof.
  intros log. split; [|intros id a t; apply (run_burst id a t (N.to_nat (cap a)) new []); [|done]].
  2:{ unfold entry, whole, new. rewrite lookup_empty. cbn [default]. unfold new_bucket, for_action. cbn [c_capacity c_refill_rate snd].
    by rewrite N2Nat.id. }
  destruct (run_allowance k start cs 0 start (new, [])) as [[Hall Hk] Hle]; [|lia|done|].
  { split; [intros k' b Hl; cbn [fst] in Hl; unfold new in Hl; by apply lookup_empty_Some in Hl|]. cbn. done. }
  change (foldl run_call (new, []) cs) with (run new cs) in *. fold log in Hk.
  change (inject_Z (limits k.2).2 * (1 # 3600) * seconds (end_time start cs - start) * (1 + (1 # 17592186044416)))%Q
    with (gain k.2 (end_time start cs - start)). fold (slack (length cs)). fold (cap k.2). cbn [Nat.add] in Hk.
  pose proof (gain_nonneg k.2 (end_time start cs - start)) as Hg. pose proof (slack_nonneg (length cs)) as Hs.
  change (inject_Z (Z.of_nat (accepted k log))) with (count_q k log).
  change (limits k.2).1 with (cap k.2).
  destruct ((run new cs).1 !! k) as [b|] eqn:El.
  - destruct (Hall k b El) as ((_ & _ & Hn & _ & _) & Hl1 & Hl2). apply val_nonneg in Hn.
    pose proof (gain_mono k.2 (last_refill b - start) (end_time start cs - start) ltac:(lia)). lra.
  - unfold count_q. rewrite Hk. change (inject_Z (Z.of_nat 0)) with 0%Q.
    assert (0 <= inject_Z (Z.of_N (cap k.2)))%Q by (apply (inject_le 0); lia). lra.
Qed.
End RateLimit.

(* ------------------------------------------------------------------ *)
(** ** Reputation *)

Module Reputation.
Inductive ReputationEvent :=
| PostCreated | ReactionReceived | ConnectionFormed | ContentReported | RateLimitViolation | CommunityTombstone.

Definition f64_half : f64 := Eval vm_compute in f64_div (f64_of_Z 1) (f64_of_Z 2).
Definition points (e : ReputationEvent) : f64 :=
  match e with
  | PostCreated => f64_of_Z 1 | ReactionReceived => f64_half | ConnectionFormed => f64_of_Z 5
  | ContentReported => f64_of_Z (-10) | RateLimitViolation => f64_of_Z (-2) | CommunityTombstone => f64_of_Z (-50)
  end.

Inductive Capability :=
| CreateTextPost | AttachPhotos | DirectMessageMutual | DirectMessageStranger | CreateTopicRoom | ModerationVote | FullPostRate.
#[global] Instance Capability_eq_dec : EqDecision Capability.
Proof. solve_decision. Defined.

Definition required_reputation (c : Capability) : f64 :=
  match c with
  | CreateTextPost | DirectMessageMutual => f64_zero
  | AttachPhotos => f64_of_Z 5
  | DirectMessageStranger | FullPostRate => f64_of_Z 10
  | CreateTopicRoom => f64_of_Z 20
  | ModerationVote => f64_of_Z 50
  end.
Definition required_age_days (c : Capability) : N := match c with ModerationVote => 30 | _ => 0 end%N.

Record ReputationScore := MkScore {
  positive_points : f64;
  negative_points : f64;
  connection_count : N;
  age_days : N;
  warming_active : bool
}.

Definition new : ReputationScore := MkScore f64_zero f64_zero 0 0 true.

Definition value (s : ReputationScore) : f64 :=
  let age_bonus := f64_mul (f64_sqrt (f64_of_N (age_days s))) (f64_of_Z 10) in
  let conn_bonus := f64_mul (f64_sqrt (f64_of_N (connection_count s))) (f64_of_Z 5) in
  let score := f64_sub (f64_add (f64_add (positive_points s) age_bonus) conn_bonus) (f64_mul (negative_points s) (f64_of_Z 3)) in
  f64_max score f64_zero.

Definition record_event (e : ReputationEvent) (s : ReputationScore) : ReputationScore :=
  let points := points e in
  if f64_geb points f64_zero
  then MkScore (f64_add (positive_points s) points) (negative_points s) (connection_count s) (age_days s) (warming_active s)
  else MkScore (positive_points s) (f64_add (negative_points s) (SpecFloat.SFabs points)) (connection_count s) (age_days s)
         (warming_active s).

Definition set_age_days (days : N) (s : ReputationScore) : ReputationScore :=
  MkScore (positive_points s) (negative_points s) (connection_count s) days
    (if (7 <=? days)%N then false else warming_active s).
Definition set_connection_count (count : N) (s : ReputationScore) : ReputationScore :=
  MkScore (positive_points s) (negative_points s) count (age_days s) (warming_active s).

Definition apply_decay (powf : f64 → f64 → f64) (elapsed_days : f64) (s : ReputationScore) : ReputationScore :=
  let factor := powf f64_half (f64_div elapsed_days (f64_of_Z 30)) in
  MkScore (f64_mul (positive_points s) factor) (f64_mul (negative_points s) factor) (connection_count s) (age_days s)
    (warming_active s).

Definition has_capability (c : Capability) (s : ReputationScore) : bool :=
  if warming_active s then bool_decide (c = CreateTextPost ∨ c = DirectMessageMutual)
  else f64_geb (value s) (required_reputation c) && (required_age_days c <=? age_days s)%N.
Definition is_warming (s : ReputationScore) : bool := warming_active s.

Definition posts_per_hour (s : ReputationScore) : N :=
  if warming_active s then 1 else if has_capability FullPostRate s then 10 else 5.

(** A score is never below zero, nor a NaN, whatever the points are. *)
Lemma value_nonneg s : f64_leb f64_zero (value s) = true.
Proof.
  unfold value. cbv zeta. generalize (f64_sub (f64_add (f64_add (positive_points s)
    (f64_mul (f64_sqrt (f64_of_N (age_days s))) (f64_of_Z 10)))
    (f64_mul (f64_sqrt (f64_of_N (connection_count s))) (f64_of_Z 5))) (f64_mul (negative_points s) (f64_of_Z 3))).
  intros x. unfold f64_max, f64_zero. destruct x as [[]|[]| |[] m e]; reflexivity.
Qed.

(** Everyone may post text and write to mutual contacts, at any time. *)
Lemma always_allowed c s : c = CreateTextPost ∨ c = DirectMessageMutual → has_capability c s = true.
Proof.
  intros Hc. unfold has_capability. destruct (warming_active s); [by apply bool_decide_eq_true|].
  unfold f64_geb. pose proof (value_nonneg s) as Hv. unfold f64_leb in Hv.
  destruct Hc as [-> | ->]; cbn [required_reputation required_age_days]; rewrite Hv; apply N.leb_le; lia.
Qed.

Lemma warming_caps c s : warming_active s = true → has_capability c s = true → c = CreateTextPost ∨ c = DirectMessageMutual.
Proof. intros Hw. unfold has_capability. rewrite Hw. by intros Hb%bool_decide_eq_true. Qed.

(** Only the age ends the warming period. *)
Lemma warming_kept s : warming_active s = true →
  (∀ e, warming_active (record_event e s) = true) ∧ (∀ powf d, warming_active (apply_decay powf d s) = true) ∧
  (∀ n, warming_active (set_connection_count n s) = true) ∧
  (∀ d, (d < 7)%N → warming_active (set_age_days d s) = true).
Proof.
  intros Hw. split_and!; [|done|done|].
  - intros e. unfold record_event. by case_match.
  - intros d Hd. cbn. by rewrite (proj2 (N.leb_gt _ _) Hd).
Qed.
End Reputation.

(* ------------------------------------------------------------------ *)
(** ** Near-duplicate texts *)

Module Fingerprint.
#[local] Open Scope nat_scope.
Section fingerprint.
Context `{Primitives}.

Definition MAX_RECENT_FINGERPRINTS : nat := 10000.
Definition NEAR_DUPLICATE_THRESHOLD : N := 3.

Definition wrap_i32 (z : Z) : Z := ((z + 2 ^ 31) mod 2 ^ 32 - 2 ^ 31)%Z.

(** The first eight bytes of the hash, little-endian. *)
Definition hash_token (token : str) : N :=
  foldr (λ b acc, b + 256 * acc)%N 0%N (take 8 (blake3_hash (as_bytes token))).

Definition add_token (v : list Z) (token : str) : list Z :=
  let hash := hash_token token in
  imap (λ i slot, wrap_i32 (if N.testbit hash (N.of_nat i) then slot + 1 else slot - 1)) v.
Definition counts (text : str) : list Z := foldl add_token (replicate 64 0%Z) (split_whitespace text).
Definition bits (v : list Z) : N := foldr (λ count acc, (if (0 <? count)%Z then 1 else 0) + 2 * acc)%N 0%N v.
Definition compute (text : str) : N := bits (counts text).

Fixpoint popcount (p : positive) : N :=
  match p with xH => 1 | xO p => popcount p | xI p => 1 + popcount p end%N.
Definition count_ones (n : N) : N := match n with N0 => 0 | Npos p => popcount p end%N.
Definition hamming_distance (self other : N) : N := count_ones (N.lxor self other).
Definition is_near_duplicate (self other : N) : bool := (hamming_distance self other <=? NEAR_DUPLICATE_THRESHOLD)%N.

Record FingerprintStore := MkFps { recent : list N; max_size : nat }.
Definition new : FingerprintStore := MkFps [] MAX_RECENT_FINGERPRINTS.
Definition with_capacity (n : nat) : FingerprintStore := MkFps [] n.

Definition check_duplicate (text : str) (s : FingerprintStore) : option N :=
  let fp := compute text in
  match list_find (λ existing, is_near_duplicate fp existing = true) (recent s) with Some (_, x) => Some x | None => None end.

Definition record (text : str) (s : FingerprintStore) : FingerprintStore * N :=
  let fp := compute text in
  let kept := if (max_size s <=? length (recent s))%nat then tail (recent s) else recent s in
  (MkFps (kept ++ [fp]) (max_size s), fp).

Definition check_and_record (text : str) (s : FingerprintStore) : FingerprintStore * bool :=
  let is_dup := bool_decide (is_Some (check_duplicate text s)) in
  ((record text s).1, is_dup).

Definition len (s : FingerprintStore) : nat := length (recent s).
Definition clear (s : FingerprintStore) : FingerprintStore := MkFps [] (max_size s).

(** *** The order of the words does not matter *)

Lemma wrap_step z d d' : wrap_i32 (wrap_i32 (z + d) + d') = wrap_i32 (z + d + d').
Proof.
  unfold wrap_i32. f_equal. replace ((z + d + 2 ^ 31) mod 2 ^ 32 - 2 ^ 31 + d' + 2 ^ 31)%Z
    with ((z + d + 2 ^ 31) mod 2 ^ 32 + d')%Z by ring.
  rewrite Zplus_mod_idemp_l. f_equal. ring.
Qed.

Lemma add_token_comm v t u : add_token (add_token v t) u = add_token (add_token v u) t.
Proof.
  apply list_eq. intros i. unfold add_token. rewrite !list_lookup_imap. destruct (v !! i) as [z|]; [|done]. cbn. f_equal.
  destruct (N.testbit (hash_token t) (N.of_nat i)), (N.testbit (hash_token u) (N.of_nat i)); unfold Z.sub;
    rewrite !wrap_step; f_equal; ring.
Qed.

Lemma compute_perm a b : split_whitespace a ≡ₚ split_whitespace b → compute a = compute b.
Proof.
  intros Hp. unfold compute, counts. f_equal. generalize (replicate 64 0%Z).
  induction Hp as [|x l l' _ IH|x y l|l1 l2 l3 _ IH1 _ IH2]; intros v; cbn [foldl]; [done|apply IH|by rewrite add_token_comm|].
  by rewrite IH1, IH2.
Qed.

Lemma near_refl x : is_near_duplicate x x = true.
Proof. unfold is_near_duplicate, hamming_distance. by rewrite N.lxor_nilpotent. Qed.

(** *** The window *)

Lemma record_window text s all : 0 < max_size s → recent s = drop (length all - max_size s) all →
  recent (record text s).1 = drop (length (all ++ [compute text]) - max_size s) (all ++ [compute text]).
Proof.
  intros Hn Hr. unfold record. cbn [fst recent]. rewrite length_app. cbn [length].
  destruct (Nat.leb_spec (max_size s) (length (recent s))) as [Hle|Hlt]; rewrite Hr in *; rewrite length_drop in *.
  - replace (tail (drop (length all - max_size s) all)) with (drop (length all + 1 - max_size s) all).
    + rewrite drop_app_le by lia. done.
    + replace (length all + 1 - max_size s) with (S (length all - max_size s)) by lia.
      generalize (length all - max_size s). clear. intros n. revert all. induction n as [|n IH]; intros [|x all]; try done. apply IH.
  - replace (length all - max_size s) with 0 by lia. replace (length all + 1 - max_size s) with 0 by lia. done.
Qed.

Lemma recorded_window n texts : 0 < n →
  let s := foldl (λ s u, (check_and_record u s).1) (with_capacity n) texts in
  max_size s = n ∧ recent s = compute <$> drop (length texts - n) texts.
Proof.
  intros Hn. cbv zeta. enough (Hgen : ∀ s all, max_size s = n → recent s = drop (length all - n) all →
    max_size (foldl (λ s u, (check_and_record u s).1) s texts) = n ∧
    recent (foldl (λ s u, (check_and_record u s).1) s texts) =
      drop (length (all ++ (compute <$> texts)) - n) (all ++ (compute <$> texts))).
  { destruct (Hgen (with_capacity n) []) as [H1 H2]; [done..|]. split; [done|]. rewrite H2. cbn [app].
    by rewrite length_fmap, fmap_drop. }
  induction texts as [|t texts IH]; intros s all Hm Hr; cbn [foldl fmap list_fmap].
  - rewrite app_nil_r. done.
  - destruct (IH (check_and_record t s).1 (all ++ [compute t])) as [H1 H2].
    + done.
    + unfold check_and_record. cbn [fst]. rewrite <- Hm. apply record_window; rewrite Hm; done.
    + rewrite H1, H2, <- app_assoc. done.
Qed.

(** A text is taken for a near-duplicate exactly when one of the last [n]
    texts has a fingerprint within three bits of its own; among them any text
    of the same words, in whatever order and spacing. *)
Theorem duplicates_found (n : nat) (earlier : list str) (text : str) (Hn : 0 < n) :
  let s := foldl (λ s u, (check_and_record u s).1) (with_capacity n) earlier in
  let window := drop (length earlier - n) earlier in
  ((check_and_record text s).2 = true ↔
   ∃ u, u ∈ window ∧ (hamming_distance (compute text) (compute u) ≤ NEAR_DUPLICATE_THRESHOLD)%N) ∧
  (∀ u, u ∈ window → split_whitespace text ≡ₚ split_whitespace u → (check_and_record text s).2 = true) ∧
  length (recent s) ≤ n.
Proof.
  intros s window. destruct (recorded_window n earlier Hn) as [Hm Hr]. fold s in Hm, Hr. fold window in Hr.
  assert (Hiff : (check_and_record text s).2 = true ↔
    ∃ u, u ∈ window ∧ (hamming_distance (compute text) (compute u) ≤ NEAR_DUPLICATE_THRESHOLD)%N).
  { unfold check_and_record, check_duplicate. cbn [snd]. rewrite Hr, bool_decide_eq_true. split.
    - intros Hs. case_match eqn:E; [|by apply is_Some_None in Hs]. destruct p as [i x].
      apply list_find_Some in E as (Hl & Hd & _). apply list_lookup_fmap_Some in Hl as (u & -> & Hu). exists u.
      split; [by eapply list_elem_of_lookup_2|]. by apply N.leb_le.
    - intros (u & Hu & Hd). case_match eqn:E; [destruct p; eauto|]. exfalso.
      apply list_find_None in E. rewrite Forall_forall in E. apply (E (compute u)); [by apply list_elem_of_fmap_2|].
      by apply N.leb_le. }
  split_and!; [done| |].
  - intros u Hu Hp. apply Hiff. exists u. split; [done|]. rewrite (compute_perm _ _ Hp). apply N.leb_le, near_refl.
  - rewrite Hr, length_fmap. unfold window. rewrite length_drop. lia.
Qed.

(** A text without words has the fingerprint zero. *)
Lemma blank_compute : compute [] = 0%N.
Proof. reflexivity. Qed.
End fingerprint.
End Fingerprint.

(* ------------------------------------------------------------------ *)
(** ** Witnesses *)

Section witnesses.
Import RateLimit.

Definition aw_call (t : N) : Call := call_at [7%N] MessageRequest t.

(** Two message requests in two seconds: the second is refused. *)
Lemma rate_bound_witness :
  clock_ok 0 [aw_call 1000000000; aw_call 2000000000] = true ∧
  (inject_Z (Z.of_nat (accepted ([7%N], MessageRequest) (run new [aw_call 1000000000; aw_call 2000000000]).2)) <=
   1 + 5 * (1 # 3600) * seconds 2000000000 * (1 + (1 # 17592186044416)) + inject_Z 2 * (1 # 4398046511104))%Q.
Proof.
  split; [reflexivity|].
  exact (proj1 (rate_bound ([7%N], MessageRequest) 0 [aw_call 1000000000; aw_call 2000000000] eq_refl)).
Defined.

Import Fingerprint Toy.
Lemma duplicates_found_witness :
  (check_and_record (lit "now   buy") (foldl (λ s u, (check_and_record u s).1) (with_capacity 3) [lit "buy now"])).2 = true.
Proof.
  apply (proj2 (duplicates_found 3 [lit "buy now"] (lit "now   buy") ltac:(lia))) with (u := lit "buy now").
  - constructor.
  - apply Permutation_swap.
Defined.
End witnesses.
