(* ===== verification/Moderation.v ===== *)
(** * Moderation: [crates/ephemera-mod/src]

    The blocklist and its file format ([blocklist.rs]), the content filter
    ([filter.rs]) and the report book ([report.rs]).  The Unicode properties
    Alphabetic and Uppercase of the standard library are the parameter
    [CharClass]; the error texts of the hex crate are left out. *)
From S2P Require Import Prelude Types Crypto Unicode Float64.

Inductive ModerationError :=
| DescriptionTooLong (got max : nat)
| DuplicateReport (content_id : bytes)
| BlocklistIo (reason : string).

(* ------------------------------------------------------------------ *)
(** ** Blocklist *)

Module Blocklist.
Section blocklist.
Context `{Primitives, Hex}.

Abbreviation LocalBlocklist := (gset bytes).
Definition new : LocalBlocklist := ∅.
Definition add (hash : bytes) (self : LocalBlocklist) : LocalBlocklist * bool := ({[hash]} ∪ self, bool_decide (hash ∉ self)).
Definition remove (hash : bytes) (self : LocalBlocklist) : LocalBlocklist * bool := (self ∖ {[hash]}, bool_decide (hash ∈ self)).
Definition is_blocked (hash : bytes) (self : LocalBlocklist) : bool := bool_decide (hash ∈ self).
Definition check_content (content : bytes) (self : LocalBlocklist) : bool := is_blocked (blake3_hash content) self.

Definition save_to_string (self : LocalBlocklist) : str :=
  join 10 (stable_sort bytes_leb (hex_encode <$> elements self)).

(** One line of the file. *)
Definition load_line (hashes : LocalBlocklist) (line : str) : result ModerationError LocalBlocklist :=
  match trim line with
  | [] => Ok hashes
  | trimmed =>
      match hex_decode trimmed with
      | None => Err (BlocklistIo "invalid hex on line")
      | Some b => if Nat.eqb (length b) 32 then Ok ({[b]} ∪ hashes) else Err (BlocklistIo "expected 32 bytes")
      end
  end.
Fixpoint load_lines (hashes : LocalBlocklist) (ls : list str) : result ModerationError LocalBlocklist :=
  match ls with
  | [] => Ok hashes
  | l :: ls => let? hashes := load_line hashes l in load_lines hashes ls
  end.
Definition load_from_string (data : str) : result ModerationError LocalBlocklist := load_lines new (lines data).

(** What a line says. *)
Definition blank (line : str) : Prop := trim line = [].
Definition says (line : str) (hash : bytes) : Prop := ¬ blank line ∧ hex_decode (trim line) = Some hash ∧ length hash = 32.

Lemma load_line_ok hashes line r :
  load_line hashes line = Ok r ↔ (blank line ∧ r = hashes) ∨ ∃ b, says line b ∧ r = {[b]} ∪ hashes.
Proof.
  unfold load_line, says, blank. destruct (trim line) as [|c s] eqn:E.
  - split; [intros [= <-]; by left|]. intros [[_ ->]|(b & (Hn & _) & _)]; [done|by destruct Hn].
  - destruct (hex_decode (c :: s)) as [b|] eqn:Eh.
    + destruct (Nat.eqb_spec (length b) 32) as [Hl|Hl]; split.
      * intros [= <-]. right. by exists b.
      * intros [[Hn _]|(b' & (_ & Hb & _) & ->)]; [done|]. by simplify_eq.
      * done.
      * intros [[Hn _]|(b' & (_ & Hb & Hl') & ->)]; [done|]. by simplify_eq.
    + split; [done|]. intros [[Hn _]|(b' & (_ & Hb & _) & _)]; done.
Qed.

(** Loading succeeds when every line is blank or 32 bytes in hexadecimal, and
    then gives what the lines say. *)
Lemma load_lines_ok hashes ls r :
  load_lines hashes ls = Ok r ↔
  Forall (λ l, blank l ∨ ∃ b, says l b) ls ∧ ∀ h, h ∈ r ↔ h ∈ hashes ∨ ∃ l, l ∈ ls ∧ says l h.
Proof.
  revert hashes. induction ls as [|l ls IH]; intros hashes; cbn [load_lines].
  - split; [intros [= <-]; split; [constructor|]|intros [_ Hr]; f_equal; apply set_eq]; set_solver.
  - destruct (load_line hashes l) as [hs|e] eqn:E; cbn [result_bind].
    + rewrite IH. apply load_line_ok in E as [[Hb ->]|(b & Hb & ->)].
      * split; intros [Hall Hr].
        { split; [constructor; auto|]. intros h. rewrite Hr. split; [set_solver|].
          intros [|(l' & [->|]%elem_of_cons & Hs)]; [by left| |eauto]. by destruct Hs. }
        { apply Forall_cons in Hall as [_ Hall]. split; [done|]. intros h. rewrite Hr. split; [|set_solver].
          intros [|(l' & [->|]%elem_of_cons & Hs)]; [by left| |eauto]. by destruct Hs. }
      * assert (Hu : ∀ h, says l h → h = b).
        { intros h (_ & Hh & _). destruct Hb as (_ & Hb & _). by simplify_eq. }
        split; intros [Hall Hr].
        { split; [constructor; eauto|]. intros h. rewrite Hr. split.
          - intros [[->%elem_of_singleton|]%elem_of_union|(l' & ? & ?)]; [|auto|set_solver]. right. exists l. split; [set_solver|done].
          - intros [|(l' & [->|]%elem_of_cons & Hs)]; [set_solver|apply Hu in Hs as ->; set_solver|eauto]. }
        { apply Forall_cons in Hall as [_ Hall]. split; [done|]. intros h. rewrite Hr. split.
          - intros [|(l' & [->|]%elem_of_cons & Hs)]; [set_solver|apply Hu in Hs as ->; set_solver|eauto].
          - intros [[->%elem_of_singleton|]%elem_of_union|(l' & ? & ?)]; [|auto|set_solver]. right. exists l. split; [set_solver|done]. }
    + split; [done|]. intros [Hall _]. apply Forall_cons in Hall as [Hl _]. exfalso.
      assert (∃ r, load_line hashes l = Ok r) as [r' Hr'].
      { destruct Hl as [Hb|[b Hb]]; eexists; apply load_line_ok; eauto. }
      congruence.
Qed.

Context `{!HexLaws, !HexOutput}.

Lemma hex_line h : array 32 h → plain_line (hex_encode h) ∧ says (hex_encode h) h.
Proof.
  intros [Hl Hb]. pose proof (hex_encode_digits h Hb) as Hd. pose proof (length_hex_encode h) as Hlen.
  assert (Hne : hex_encode h ≠ []) by (intros E; rewrite E, Hl in Hlen; done).
  assert (Ht : trim (hex_encode h) = hex_encode h).
  { apply trim_plain. eapply Forall_impl; [exact Hd|]. intros c Hc. by apply hex_digit_plain in Hc as [? _]. }
  split.
  - split_and!; [done|..]; (eapply Forall_impl; [exact Hd|]; intros c Hc; apply hex_digit_plain in Hc; tauto).
  - unfold says, blank. rewrite Ht. split_and!; [done|by apply hex_decode_encode|done].
Qed.

(** A blocklist that is saved and loaded is the same; a file loads when
    every line is blank or the hexadecimal of 32 bytes, white space around it
    aside, and then blocks exactly the hashes its lines name. *)
Theorem blocklist_roundtrip (bl : LocalBlocklist) (Hbl : ∀ h, h ∈ bl → array 32 h) :
  load_from_string (save_to_string bl) = Ok bl ∧
  (∀ data r, load_from_string data = Ok r ↔
    Forall (λ l, blank l ∨ ∃ b, says l b) (lines data) ∧ ∀ h, is_blocked h r = true ↔ ∃ l, l ∈ lines data ∧ says l h).
Proof.
  split.
  - unfold load_from_string, save_to_string. set (ls := stable_sort bytes_leb (hex_encode <$> elements bl)).
    assert (Hin : ∀ l, l ∈ ls ↔ ∃ h, h ∈ bl ∧ l = hex_encode h).
    { intros l. unfold ls. rewrite stable_sort_perm, list_elem_of_fmap. setoid_rewrite elem_of_elements. naive_solver. }
    rewrite lines_join.
    2:{ apply Forall_forall. intros l (h & Hh & ->)%Hin. by apply hex_line, Hbl. }
    apply load_lines_ok. split.
    + apply Forall_forall. intros l (h & Hh & ->)%Hin. right. exists h. by apply hex_line, Hbl.
    + intros h. split.
      * intros Hh. right. exists (hex_encode h). split; [apply Hin; eauto|by apply hex_line, Hbl].
      * intros [|(l & (h' & Hh & ->)%Hin & Hs)]; [set_solver|]. pose proof (hex_line h' (Hbl h' Hh)) as (_ & _ & Hd & _).
        destruct Hs as (_ & Hs & _). by simplify_eq.
  - intros data r. unfold load_from_string. rewrite load_lines_ok. apply and_iff_compat_l. unfold is_blocked, new.
    split; intros Hr h; specialize (Hr h); rewrite bool_decide_eq_true in *; set_solver.
Qed.
End blocklist.
End Blocklist.

(* ------------------------------------------------------------------ *)
(** ** The content filter *)

Class CharClass := { is_alphabetic : N → bool; is_uppercase : N → bool }.

Module Filter.
Section filter.
Context `{Primitives, CharClass}.

Inductive FilterResult := Allow | Block (reason : string) | RequireReview (reason : string).

Record ContentFilter := MkFilter {
  blocklist : gset bytes;
  max_caps_ratio : f64;
  min_length_for_caps_check : nat
}.

(** The literal 0.8. *)
Definition f64_0_8 : f64 := Eval vm_compute in f64_div (f64_of_Z 4) (f64_of_Z 5).
Definition new (bl : gset bytes) : ContentFilter := MkFilter bl f64_0_8 20.
Definition empty : ContentFilter := new Blocklist.new.
Definition set_blocklist (bl : gset bytes) (self : ContentFilter) : ContentFilter :=
  MkFilter bl (max_caps_ratio self) (min_length_for_caps_check self).

Definition check_excessive_caps (self : ContentFilter) (text : str) : option FilterResult :=
  if str_len text <? min_length_for_caps_check self then None
  else
    let alpha_chars := base.filter (λ c, is_alphabetic c = true) text in
    match alpha_chars with
    | [] => None
    | _ =>
        let upper_count := length (base.filter (λ c, is_uppercase c = true) alpha_chars) in
        let ratio := f64_div (f64_of_Z (Z.of_nat upper_count)) (f64_of_Z (Z.of_nat (length alpha_chars))) in
        if f64_ltb (max_caps_ratio self) ratio then Some (RequireReview "excessive uppercase detected") else None
    end.

(** [windows(2)]; a state is [max_run] and [current_run]. *)
Definition windows (chars : str) : list (N * N) := zip chars (tail chars).
Definition run_step (st : N * N) (w : N * N) : N * N :=
  if (w.1 =? w.2)%N
  then let current_run := add32 st.2 1 in (if (st.1 <? current_run)%N then current_run else st.1, current_run)
  else (st.1, 1%N).
Definition longest_run (chars : str) : N := (foldl run_step (1, 1)%N (windows chars)).1.

Definition check_repeated_chars (text : str) : option FilterResult :=
  if length text <? 20 then None
  else if length text / 2 <? N.to_nat (longest_run text) then Some (Block "repeated character spam detected") else None.

Definition check (self : ContentFilter) (content_hash : bytes) (text : str) : FilterResult :=
  if Blocklist.is_blocked content_hash (blocklist self) then Block "content hash is blocklisted"
  else match check_excessive_caps self text with
       | Some r => r
       | None => default Allow (check_repeated_chars text)
       end.
Definition check_text (self : ContentFilter) (text : str) : FilterResult := check self (blake3_hash (as_bytes text)) text.

(* ------------------------------------------------------------------ *)
(** *** The longest run *)

Definition has_run (s : str) (n : nat) : Prop := ∃ c l1 l2, s = l1 ++ replicate n c ++ l2.

(** The prefix read so far ends in a run of [k] times [x]; [m] is its longest
    run. *)
Definition run_inv (p : str) (x : N) (m k : nat) : Prop :=
  1 ≤ k ∧ k ≤ m ∧ m ≤ length p ∧ (∃ q, p = q ++ replicate k x ∧ last q ≠ Some x) ∧ has_run p m ∧ ∀ n, has_run p n → n ≤ m.

Lemma run_suffix (q : str) k x (l1 : str) j y : last q ≠ Some x → q ++ replicate k x = l1 ++ replicate j y → 1 ≤ k → 1 ≤ j → y = x ∧ j ≤ k.
Proof.
  intros Hq E Hk Hj. assert (Hy : y = x).
  { apply (f_equal last) in E. rewrite !last_app in E. destruct k as [|k]; [lia|]. destruct j as [|j]; [lia|].
    rewrite !replicate_S_end, !last_snoc in E. congruence. }
  split; [done|]. subst y. destruct (decide (j ≤ k)) as [|Hgt]; [done|]. exfalso.
  replace j with ((j - k) + k) in E by lia. rewrite replicate_add, app_assoc in E. apply app_inv_tail in E. subst q.
  apply Hq. rewrite last_app. destruct (j - k) as [|i] eqn:Ei; [lia|]. by rewrite replicate_S_end, last_snoc.
Qed.

Lemma has_run_snoc (p : str) y n : has_run (p ++ [y]) n → n = 0 ∨ has_run p n ∨ ∃ l1, p ++ [y] = l1 ++ replicate n y ∧ 1 ≤ n.
Proof.
  intros (c & l1 & l2 & E). destruct n as [|n]; [by left|]. right.
  destruct l2 as [|z l2 _] using rev_ind.
  - right. exists l1. rewrite app_nil_r in E. rewrite E. split; [|lia]. f_equal. f_equal.
    apply (f_equal last) in E. rewrite last_snoc, last_app, replicate_S_end, last_snoc in E. congruence.
  - left. exists c, l1, l2. rewrite !app_assoc in E. apply app_inj_tail in E as [-> _]. by rewrite app_assoc.
Qed.

Lemma run_inv_step p x m k y : run_inv p x m k →
  run_inv (p ++ [y]) y (if decide (x = y) then Nat.max m (k + 1) else m) (if decide (x = y) then k + 1 else 1).
Proof.
  intros (Hk & Hkm & Hm & (q & -> & Hq) & (c & l1 & l2 & Hrun) & Hmax).
  rewrite length_app, length_replicate in Hm. destruct (decide (x = y)) as [->|Hne].
  - assert (Hlong : has_run ((q ++ replicate k y) ++ [y]) (k + 1)).
    { exists y, q, []. rewrite app_nil_r, <- app_assoc. f_equal. by rewrite Nat.add_1_r, replicate_S_end. }
    split_and!; [lia|lia|rewrite !length_app, length_replicate; cbn; lia| | |].
    + exists q. split; [|done]. rewrite <- app_assoc, Nat.add_1_r, replicate_S_end. done.
    + destruct (Nat.max_spec m (k + 1)) as [[_ ->]|[_ ->]]; [done|].
      exists c, l1, (l2 ++ [y]). rewrite Hrun, !app_assoc. done.
    + intros n Hn. apply has_run_snoc in Hn as [->|[Hn|(l & E & Hn)]]; [lia|apply Hmax in Hn; lia|].
      assert (E' : q ++ replicate (S k) y = l ++ replicate n y) by (rewrite <- E, replicate_S_end; by rewrite app_assoc).
      destruct (run_suffix _ _ _ _ _ _ Hq E' ltac:(lia) Hn) as [_ ?]. lia.
  - split_and!; [lia|lia|rewrite !length_app, length_replicate; cbn; lia| | |].
    + exists (q ++ replicate k x). split; [done|]. rewrite last_app. destruct k as [|k]; [lia|].
      rewrite replicate_S_end, last_snoc. congruence.
    + exists c, l1, (l2 ++ [y]). rewrite Hrun, !app_assoc. done.
    + intros n Hn. apply has_run_snoc in Hn as [->|[Hn|(l & E & Hn)]]; [lia|by apply Hmax|].
      assert (Hlast : last (q ++ replicate k x) ≠ Some y).
      { rewrite last_app. destruct k as [|k]; [lia|]. rewrite replicate_S_end, last_snoc. congruence. }
      change [y] with (replicate 1 y) in E. destruct (run_suffix _ _ _ _ _ _ Hlast E ltac:(lia) Hn) as [_ ?]. lia.
Qed.

Lemma fold_runs rest p x m k : run_inv p x m k → (N.of_nat (length p + length rest) < 2 ^ 32)%N →
  ∃ y m' k', foldl run_step (N.of_nat m, N.of_nat k) (zip (x :: rest) rest) = (N.of_nat m', N.of_nat k') ∧
    run_inv (p ++ rest) y m' k'.
Proof.
  revert p x m k. induction rest as [|y rest IH]; intros p x m k Hinv Hlen.
  - exists x, m, k. rewrite app_nil_r. done.
  - cbn [zip zip_with foldl]. pose proof (run_inv_step p x m k y Hinv) as Hstep. destruct Hinv as (Hk & Hkm & Hm & _).
    cbn [length] in Hlen.
    assert (run_step (N.of_nat m, N.of_nat k) (x, y) =
      (N.of_nat (if decide (x = y) then Nat.max m (k + 1) else m), N.of_nat (if decide (x = y) then k + 1 else 1))) as ->.
    { unfold run_step. cbn [fst snd]. destruct (N.eqb_spec x y) as [Hxy|Hxy]; [rewrite !decide_True by done|by rewrite !decide_False by done].
      assert (add32 (N.of_nat k) 1 = N.of_nat (k + 1)) as ->.
      { unfold add32. rewrite N.mod_small by lia. lia. }
      f_equal. destruct (N.ltb_spec (N.of_nat m) (N.of_nat (k + 1))); f_equal; lia. }
    destruct (IH (p ++ [y]) y _ _ Hstep) as (z & m' & k' & He & Hinv'); [rewrite length_app; cbn [length]; lia|].
    exists z, m', k'. split; [exact He|]. by rewrite <- app_assoc in Hinv'.
Qed.

Lemma longest_run_spec s : s ≠ [] → (N.of_nat (length s) < 2 ^ 32)%N →
  has_run s (N.to_nat (longest_run s)) ∧ ∀ n, has_run s n → n ≤ N.to_nat (longest_run s).
Proof.
  intros Hne Hlen. destruct s as [|x rest]; [done|]. unfold longest_run, windows. cbn [tail length] in *.
  destruct (fold_runs rest [x] x 1 1) as (y & m & k & He & (_ & _ & _ & _ & Hrun & Hmax)).
  - split_and!; [lia|lia|cbn; lia| | |].
    + by exists [].
    + by exists x, [], [].
    + intros n (c & l1 & l2 & E). apply (f_equal length) in E. rewrite !length_app, length_replicate in E. cbn in E. lia.
  - cbn [length]. lia.
  - change (1, 1)%N with (N.of_nat 1, N.of_nat 1). rewrite He. cbn [fst]. rewrite Nat2N.id. done.
Qed.

(** The verdict of the filter: a listed hash is blocked; else a shouting
    text is only flagged for review; else a text of twenty characters or more
    is blocked exactly when more than half of it is one run of one character;
    all else is allowed.  So a run of capitals is let through where the same
    run of small letters is blocked. *)
Theorem filter_verdict (self : ContentFilter) (hash : bytes) (text : str) (Hlen : (N.of_nat (length text) < 2 ^ 32)%N) :
  (hash ∈ blocklist self → check self hash text = Block "content hash is blocklisted") ∧
  (hash ∉ blocklist self →
    (∀ r, check_excessive_caps self text = Some r → check self hash text = RequireReview "excessive uppercase detected") ∧
    (check_excessive_caps self text = None →
      (check self hash text = Block "repeated character spam detected" ↔
         20 ≤ length text ∧ ∃ n, length text / 2 < n ∧ has_run text n) ∧
      (check self hash text = Allow ↔ ¬ (20 ≤ length text ∧ ∃ n, length text / 2 < n ∧ has_run text n)))) ∧
  (∀ n c, is_alphabetic c = true → is_uppercase c = true → min_length_for_caps_check self ≤ n → 1 ≤ n →
     f64_ltb (max_caps_ratio self) (f64_div (f64_of_Z (Z.of_nat n)) (f64_of_Z (Z.of_nat n))) = true →
     hash ∉ blocklist self → check self hash (replicate n c) = RequireReview "excessive uppercase detected").
Proof.
  unfold check, Blocklist.is_blocked. split_and!.
  - intros Hin. by rewrite bool_decide_true.
  - intros Hin. rewrite bool_decide_false by done. split.
    + intros r Hr. rewrite Hr. unfold check_excessive_caps in Hr. by repeat case_match; simplify_eq.
    + intros ->. unfold check_repeated_chars. destruct (Nat.ltb_spec (length text) 20) as [Hs|Hs].
      { cbn. split; split; try done; [lia|]. intros _. lia. }
      destruct (longest_run_spec text) as [Hr Hm]; [intros ->; cbn in Hs; lia|done|].
      assert (Hiff : length text / 2 < N.to_nat (longest_run text) ↔ 20 ≤ length text ∧ ∃ n, length text / 2 < n ∧ has_run text n).
      { split; [intros; split; [done|]; eauto|]. intros (_ & n & Hn & Hrn). specialize (Hm n Hrn). lia. }
      rewrite <- Hiff. destruct (Nat.ltb_spec (length text / 2) (N.to_nat (longest_run text))); cbn [default id]; split; split; intros; try done; try lia; exfalso; lia.
  - intros n c Ha Hu Hmin Hn Hratio Hin. rewrite bool_decide_false by done. unfold check_excessive_caps.
    assert (Hl : min_length_for_caps_check self ≤ str_len (replicate n c)).
    { etrans; [exact Hmin|]. unfold str_len, as_bytes. clear. induction n as [|n IH]; [done|]. cbn [replicate flat_map].
      rewrite length_app. assert (1 ≤ length (utf8_char c)) by (unfold utf8_char; repeat case_match; cbn; lia). lia. }
    destruct (Nat.ltb_spec (str_len (replicate n c)) (min_length_for_caps_check self)); [lia|].
    assert (Hf : ∀ p : N → bool, p c = true → base.filter (λ x, p x = true) (replicate n c) = replicate n c).
    { intros p Hp. clear -Hp. induction n as [|n IH]; [done|]. cbn [replicate]. rewrite filter_cons, decide_True by done. by rewrite IH. }
    rewrite (Hf is_alphabetic Ha), (Hf is_uppercase Hu), length_replicate. destruct n as [|n]; [lia|]. cbn [replicate].
    rewrite Hratio. done.
Qed.
End filter.
End Filter.

(* ------------------------------------------------------------------ *)
(** ** Reports *)

Module Reports.

Definition MAX_DESCRIPTION_LENGTH : nat := 280.

Inductive ReportReason := Harassment | HateSpeech | Violence | Spam | Csam | Impersonation | Other (s : str).

Record Report := MkReport {
  reporter : bytes;
  content_id : ContentId;
  reason : ReportReason;
  description : option str;
  timestamp : N
}.

Abbreviation ReportService := (list Report).
Definition new : ReportService := [].

Definition reported_by (who : bytes) (what : ContentId) (r : Report) : bool :=
  bool_decide (reporter r = who) && bool_decide (content_id r = what).
Definition about (what : ContentId) (r : Report) : bool := bool_decide (content_id r = what).

Definition create_report (now : N) (who : bytes) (what : ContentId) (why : ReportReason) (desc : option str) :
    SE ReportService ModerationError Report := λ self,
  if match desc with Some d => MAX_DESCRIPTION_LENGTH <? length d | None => false end
  then (self, Err (DescriptionTooLong (length (default [] desc)) MAX_DESCRIPTION_LENGTH))
  else if existsb (reported_by who what) self then (self, Err (DuplicateReport (to_wire_bytes what)))
  else let report := MkReport who what why desc now in (self ++ [report], Ok report).

Definition reports_for_content (what : ContentId) (self : ReportService) : list Report :=
  base.filter (λ r, about what r = true) self.
Definition reporters (what : ContentId) (self : ReportService) : gset bytes :=
  list_to_set (reporter <$> reports_for_content what self).
Definition reporter_count (what : ContentId) (self : ReportService) : nat := size (reporters what self).

(** Nobody reports a thing twice, and descriptions are short. *)
Definition book_ok (self : ReportService) : Prop :=
  NoDup ((λ r, (reporter r, content_id r)) <$> self) ∧
  Forall (λ r, length (default [] (description r)) ≤ MAX_DESCRIPTION_LENGTH) self.

Lemma existsb_reported who what self :
  existsb (reported_by who what) self = true ↔ (who, what) ∈ (λ r, (reporter r, content_id r)) <$> self.
Proof.
  rewrite existsb_exists, list_elem_of_fmap. unfold reported_by. split.
  - intros (r & Hin & Hr). bprop. exists r. split; [congruence|by apply list_elem_of_In].
  - intros (r & [= -> ->] & Hin). exists r. split; [by apply list_elem_of_In|]. by rewrite !bool_decide_true.
Qed.

Lemma create_report_spec now who what why desc self self' r : create_report now who what why desc self = (self', r) →
  match r with
  | Ok rep => rep = MkReport who what why desc now ∧ self' = self ++ [rep] ∧
      (who, what) ∉ (λ r, (reporter r, content_id r)) <$> self ∧ length (default [] desc) ≤ MAX_DESCRIPTION_LENGTH
  | Err (DescriptionTooLong got max) => self' = self ∧ ∃ d, desc = Some d ∧ got = length d ∧ max < got ∧ max = MAX_DESCRIPTION_LENGTH
  | Err (DuplicateReport c) => self' = self ∧ c = to_wire_bytes what ∧ (who, what) ∈ (λ r, (reporter r, content_id r)) <$> self
  | Err (BlocklistIo _) => False
  end.
Proof.
  unfold create_report. destruct desc as [d|]; [destruct (Nat.ltb_spec MAX_DESCRIPTION_LENGTH (length d))|].
  - intros [= <- <-]. split; [done|]. exists d. done.
  - destruct (existsb _ self) eqn:E; intros [= <- <-].
    + apply existsb_reported in E. done.
    + split_and!; [done|done| |done]. intros Hin%existsb_reported. congruence.
  - destruct (existsb _ self) eqn:E; intros [= <- <-].
    + apply existsb_reported in E. done.
    + split_and!; [done|done| |cbn; lia]. intros Hin%existsb_reported. congruence.
Qed.

Lemma create_report_ok now who what why desc self : book_ok self → book_ok (create_report now who what why desc self).1.
Proof.
  intros [Hn Hd]. destruct (create_report now who what why desc self) as [self' r] eqn:E. apply create_report_spec in E. cbn [fst].
  destruct r as [rep|[]]; [|by destruct E as [-> _]..|done]. destruct E as (-> & -> & Hfresh & Hlen). split.
  - rewrite fmap_app. apply NoDup_app. split_and!; [done| |apply NoDup_singleton].
    intros x Hx ->%list_elem_of_singleton. done.
  - apply Forall_app. split; [done|]. by constructor.
Qed.

(** In a book without duplicates every report counts. *)
Lemma reporter_count_reports what self : book_ok self → reporter_count what self = length (reports_for_content what self).
Proof.
  intros [Hn _]. unfold reporter_count, reporters. rewrite size_list_to_set; [by rewrite length_fmap|].
  unfold reports_for_content. revert Hn. induction self as [|r self IH]; intros Hn; [constructor|].
  cbn [fmap list_fmap] in Hn. apply NoDup_cons in Hn as [Hr Hn]. rewrite filter_cons. case_decide as Ha; [|by apply IH].
  cbn [fmap list_fmap]. apply NoDup_cons. split; [|by apply IH].
  intros (r' & E & Hin)%list_elem_of_fmap. apply list_elem_of_filter in Hin as [Ha' Hin]. apply Hr.
  unfold about in *. bprop. apply list_elem_of_fmap. exists r'. split; [congruence|done].
Qed.

End Reports.

(* ------------------------------------------------------------------ *)
(** ** Witnesses *)

(** The two properties on the letters of ASCII. *)
Module AsciiClass.
#[export] Instance chars : CharClass := {|
  is_alphabetic c := is_ascii_lowercase c || is_ascii_uppercase c;
  is_uppercase := is_ascii_uppercase
|}.
End AsciiClass.

Section witnesses.
Import Toy HexToy AsciiClass.

Definition mw_list : gset bytes := {[ replicate 32 7%N ]}.

Lemma blocklist_roundtrip_witness : Blocklist.load_from_string (Blocklist.save_to_string mw_list) = Ok mw_list.
Proof.
  refine (proj1 (Blocklist.blocklist_roundtrip mw_list _)). intros h ->%elem_of_singleton. split; [reflexivity|].
  apply Forall_replicate. reflexivity.
Defined.

(** Thirty capital letters pass, thirty small ones do not. *)
Lemma filter_verdict_witness :
  Filter.check Filter.empty [] (replicate 30 65%N) = Filter.RequireReview "excessive uppercase detected" ∧
  Filter.check Filter.empty [] (replicate 30 97%N) = Filter.Block "repeated character spam detected".
Proof.
  split.
  - apply (Filter.filter_verdict Filter.empty [] (replicate 30 65%N) eq_refl); [reflexivity|reflexivity|cbn; lia|lia|reflexivity|].
    by apply not_elem_of_empty.
  - apply (Filter.filter_verdict Filter.empty [] (replicate 30 97%N) eq_refl).
    + by apply not_elem_of_empty.
    + reflexivity.
    + split; [cbn; lia|]. exists 30. split; [cbn; lia|]. exists 97%N, [], []. reflexivity.
Defined.
End witnesses.
