(* ===== verification/Migrations.v ===== *)
(** * The schema and its migrations

    [crates/ephemera-store/src/migrations.rs] and the schema scripts of
    [metadata.rs] as data: the tables and indexes they make, with types and
    constraints.  What SQLite does with a statement is [exec_statement]; names
    of tables and indexes share one name space.  Rows are kept by every
    statement used and are not modelled, but those of [schema_version]. *)
From S2P Require Import Prelude.

Module Migrations.

(* ------------------------------------------------------------------ *)
(** ** Statements *)

Inductive ColType := INTEGER | TEXT | BLOB.
Inductive Literal := Int (n : Z) | Text (s : string) | Expr (s : string).
Inductive Constraint := NotNull | PrimaryKey | Unique | Default (v : Literal) | References (table column : string) (cascade : bool).
Record Column := MkColumn { col_name : string; col_type : ColType; constraints : list Constraint }.
(** Columns, and the key named at the end. *)
Record Table := MkTable { columns : list Column; primary_key : list string }.
(** Keys with whether they descend, and the condition of a partial index. *)
Record Index := MkIndex { on_table : string; keys : list (string * bool); where_ : option string }.

(** [CREATE .. IF NOT EXISTS] and [ALTER TABLE .. ADD COLUMN]. *)
Inductive Statement :=
| CreateTable (name : string) (t : Table)
| CreateIndex (name : string) (i : Index)
| AddColumn (table : string) (c : Column).

Record Schema := MkSchema { tables : gmap string Table; indexes : gmap string Index }.

Inductive SqlError :=
| NameTaken (name : string)
| NoSuchTable (name : string)
| NoSuchColumn (table column : string)
| DuplicateColumn (table column : string)
| CannotAdd (column : string).

Definition has_column (t : Table) (c : string) : bool := existsb (λ x, bool_decide (col_name x = c)) (columns t).
Definition is_default (c : Constraint) : bool := match c with Default _ => true | _ => false end.
Definition is_not_null (c : Constraint) : bool := match c with NotNull => true | _ => false end.
Definition is_key (c : Constraint) : bool := match c with PrimaryKey | Unique => true | _ => false end.
(** A column that is added is no key, and has a default when it may not be
    null. *)
Definition may_add (c : Column) : bool :=
  negb (existsb is_key (constraints c)) && (negb (existsb is_not_null (constraints c)) || existsb is_default (constraints c)).

Definition exec_statement (st : Statement) (s : Schema) : result SqlError Schema :=
  match st with
  | CreateTable name t =>
      if bool_decide (is_Some (indexes s !! name)) then Err (NameTaken name)
      else match tables s !! name with
           | Some _ => Ok s
           | None => Ok (MkSchema (<[name := t]> (tables s)) (indexes s))
           end
  | CreateIndex name i =>
      if bool_decide (is_Some (indexes s !! name)) then Ok s
      else if bool_decide (is_Some (tables s !! name)) then Err (NameTaken name)
      else match tables s !! on_table i with
           | None => Err (NoSuchTable (on_table i))
           | Some t =>
               match List.find (λ k, negb (has_column t k)) (keys i).*1 with
               | Some k => Err (NoSuchColumn (on_table i) k)
               | None => Ok (MkSchema (tables s) (<[name := i]> (indexes s)))
               end
           end
  | AddColumn table c =>
      match tables s !! table with
      | None => Err (NoSuchTable table)
      | Some t =>
          if has_column t (col_name c) then Err (DuplicateColumn table (col_name c))
          else if negb (may_add c) then Err (CannotAdd (col_name c))
          else Ok (MkSchema (<[table := MkTable (columns t ++ [c]) (primary_key t)]> (tables s)) (indexes s))
      end
  end.

Fixpoint execute_batch (sts : list Statement) (s : Schema) : result SqlError Schema :=
  match sts with
  | [] => Ok s
  | st :: sts => let? s := exec_statement st s in execute_batch sts s
  end.

(* ------------------------------------------------------------------ *)
(** ** The scripts ([metadata.rs]) *)

Section schemas.
Local Open Scope string_scope.
Local Open Scope list_scope.

Definition schema_v1 : list Statement :=
  [ CreateTable "schema_version" (MkTable [
      MkColumn "version" INTEGER [NotNull];
      MkColumn "applied_at" TEXT [NotNull; Default (Expr "strftime('%Y-%m-%dT%H:%M:%SZ', 'now')")];
      MkColumn "description" TEXT []]
      []);
    CreateTable "posts" (MkTable [
      MkColumn "content_hash" BLOB [NotNull; PrimaryKey];
      MkColumn "author_pubkey" BLOB [NotNull];
      MkColumn "sequence_number" INTEGER [NotNull];
      MkColumn "created_at" INTEGER [NotNull];
      MkColumn "expires_at" INTEGER [NotNull];
      MkColumn "ttl_seconds" INTEGER [NotNull];
      MkColumn "parent_hash" BLOB [];
      MkColumn "root_hash" BLOB [];
      MkColumn "depth" INTEGER [NotNull; Default (Int 0)];
      MkColumn "body_preview" TEXT [];
      MkColumn "media_count" INTEGER [NotNull; Default (Int 0)];
      MkColumn "has_media" INTEGER [NotNull; Default (Int 0)];
      MkColumn "language_hint" TEXT [];
      MkColumn "pow_difficulty" INTEGER [NotNull; Default (Int 0)];
      MkColumn "identity_age" INTEGER [NotNull; Default (Int 0)];
      MkColumn "is_tombstone" INTEGER [NotNull; Default (Int 0)];
      MkColumn "tombstone_at" INTEGER [];
      MkColumn "received_at" INTEGER [NotNull];
      MkColumn "epoch_number" INTEGER [NotNull];
      MkColumn "signature" BLOB [NotNull];
      MkColumn "blob_hash" TEXT []]
      []);
    CreateIndex "idx_posts_author" (MkIndex "posts" [("author_pubkey", false); ("created_at", true)] None);
    CreateIndex "idx_posts_expires" (MkIndex "posts" [("expires_at", false)] (Some "is_tombstone = 0"));
    CreateIndex "idx_posts_parent" (MkIndex "posts" [("parent_hash", false)] (Some "parent_hash IS NOT NULL"));
    CreateIndex "idx_posts_root" (MkIndex "posts" [("root_hash", false)] (Some "root_hash IS NOT NULL"));
    CreateIndex "idx_posts_created" (MkIndex "posts" [("created_at", true)] None);
    CreateIndex "idx_posts_epoch" (MkIndex "posts" [("epoch_number", false)] None);
    CreateIndex "idx_posts_tombstone" (MkIndex "posts" [("is_tombstone", false); ("tombstone_at", false)] (Some "is_tombstone = 1"));
    CreateTable "post_tags" (MkTable [
      MkColumn "content_hash" BLOB [NotNull; References "posts" "content_hash" true];
      MkColumn "tag" TEXT [NotNull]]
      ["content_hash"; "tag"]);
    CreateIndex "idx_tags_lookup" (MkIndex "post_tags" [("tag", false); ("content_hash", false)] None);
    CreateTable "post_mentions" (MkTable [
      MkColumn "content_hash" BLOB [NotNull; References "posts" "content_hash" true];
      MkColumn "mentioned_key" BLOB [NotNull];
      MkColumn "display_hint" TEXT [];
      MkColumn "byte_start" INTEGER [NotNull];
      MkColumn "byte_end" INTEGER [NotNull]]
      ["content_hash"; "mentioned_key"]);
    CreateIndex "idx_mentions_key" (MkIndex "post_mentions" [("mentioned_key", false); ("content_hash", false)] None);
    CreateTable "connections" (MkTable [
      MkColumn "local_pubkey" BLOB [NotNull];
      MkColumn "remote_pubkey" BLOB [NotNull];
      MkColumn "status" TEXT [NotNull];
      MkColumn "created_at" INTEGER [NotNull];
      MkColumn "updated_at" INTEGER [NotNull];
      MkColumn "display_name" TEXT []]
      ["local_pubkey"; "remote_pubkey"]);
    CreateIndex "idx_connections_status" (MkIndex "connections" [("local_pubkey", false); ("status", false)] None);
    CreateTable "follows" (MkTable [
      MkColumn "follower_pubkey" BLOB [NotNull];
      MkColumn "followed_pubkey" BLOB [NotNull];
      MkColumn "created_at" INTEGER [NotNull]]
      ["follower_pubkey"; "followed_pubkey"]);
    CreateIndex "idx_follows_followed" (MkIndex "follows" [("followed_pubkey", false); ("created_at", true)] None);
    CreateTable "blocks" (MkTable [
      MkColumn "blocker_pubkey" BLOB [NotNull];
      MkColumn "blocked_pubkey" BLOB [NotNull];
      MkColumn "created_at" INTEGER [NotNull];
      MkColumn "reason" TEXT []]
      ["blocker_pubkey"; "blocked_pubkey"]);
    CreateTable "mutes" (MkTable [
      MkColumn "muter_pubkey" BLOB [NotNull];
      MkColumn "muted_pubkey" BLOB [NotNull];
      MkColumn "created_at" INTEGER [NotNull];
      MkColumn "expires_at" INTEGER []]
      ["muter_pubkey"; "muted_pubkey"]);
    CreateTable "profiles" (MkTable [
      MkColumn "pubkey" BLOB [NotNull; PrimaryKey];
      MkColumn "display_name" TEXT [];
      MkColumn "bio" TEXT [];
      MkColumn "avatar_cid" BLOB [];
      MkColumn "updated_at" INTEGER [NotNull];
      MkColumn "signature" BLOB [NotNull];
      MkColumn "received_at" INTEGER [NotNull]]
      []);
    CreateTable "conversations" (MkTable [
      MkColumn "conversation_id" BLOB [NotNull; PrimaryKey];
      MkColumn "our_pubkey" BLOB [NotNull];
      MkColumn "their_pubkey" BLOB [NotNull];
      MkColumn "last_message_at" INTEGER [];
      MkColumn "unread_count" INTEGER [NotNull; Default (Int 0)];
      MkColumn "is_request" INTEGER [NotNull; Default (Int 0)];
      MkColumn "created_at" INTEGER [NotNull]]
      []);
    CreateIndex "idx_conversations_last" (MkIndex "conversations" [("last_message_at", true)] None);
    CreateTable "messages" (MkTable [
      MkColumn "message_id" BLOB [NotNull; PrimaryKey];
      MkColumn "conversation_id" BLOB [NotNull; References "conversations" "conversation_id" false];
      MkColumn "sender_pubkey" BLOB [NotNull];
      MkColumn "received_at" INTEGER [NotNull];
      MkColumn "expires_at" INTEGER [NotNull];
      MkColumn "is_read" INTEGER [NotNull; Default (Int 0)];
      MkColumn "body_preview" TEXT [];
      MkColumn "has_media" INTEGER [NotNull; Default (Int 0)]]
      []);
    CreateIndex "idx_messages_conversation" (MkIndex "messages" [("conversation_id", false); ("received_at", true)] None);
    CreateIndex "idx_messages_expires" (MkIndex "messages" [("expires_at", false)] None);
    CreateTable "epoch_keys" (MkTable [
      MkColumn "epoch_number" INTEGER [NotNull; PrimaryKey];
      MkColumn "created_at" INTEGER [NotNull];
      MkColumn "expires_at" INTEGER [NotNull];
      MkColumn "is_deleted" INTEGER [NotNull; Default (Int 0)];
      MkColumn "deleted_at" INTEGER [];
      MkColumn "content_count" INTEGER [NotNull; Default (Int 0)]]
      []);
    CreateIndex "idx_epoch_expires" (MkIndex "epoch_keys" [("expires_at", false)] (Some "is_deleted = 0"));
    CreateTable "local_state" (MkTable [
      MkColumn "key" TEXT [NotNull; PrimaryKey];
      MkColumn "value" TEXT [NotNull]]
      []) ].

Definition schema_v2 : list Statement :=
  [ AddColumn "connections" (MkColumn "message" TEXT []);
    AddColumn "connections" (MkColumn "initiator_pubkey" BLOB []) ].

Definition schema_v3 : list Statement :=
  [ CreateTable "message_requests" (MkTable [
      MkColumn "sender_pubkey" BLOB [NotNull];
      MkColumn "recipient_pubkey" BLOB [NotNull];
      MkColumn "status" TEXT [NotNull; Default (Text "pending")];
      MkColumn "created_at" INTEGER [NotNull]]
      ["sender_pubkey"; "recipient_pubkey"]);
    CreateIndex "idx_message_requests_recipient" (MkIndex "message_requests" [("recipient_pubkey", false); ("status", false)] None) ].

Definition schema_v4 : list Statement :=
  [ CreateTable "ratchet_sessions" (MkTable [
      MkColumn "conversation_id" TEXT [NotNull; PrimaryKey];
      MkColumn "peer_pubkey" BLOB [NotNull];
      MkColumn "root_key" BLOB [NotNull];
      MkColumn "send_chain_key" BLOB [NotNull];
      MkColumn "recv_chain_key" BLOB [NotNull];
      MkColumn "send_ratchet_secret" BLOB [NotNull];
      MkColumn "send_ratchet_pubkey" BLOB [NotNull];
      MkColumn "recv_ratchet_pubkey" BLOB [];
      MkColumn "send_count" INTEGER [NotNull; Default (Int 0)];
      MkColumn "recv_count" INTEGER [NotNull; Default (Int 0)];
      MkColumn "prev_send_count" INTEGER [NotNull; Default (Int 0)];
      MkColumn "created_at" INTEGER [NotNull];
      MkColumn "updated_at" INTEGER [NotNull]]
      []) ].

Definition schema_v5 : list Statement :=
  [ CreateTable "reactions" (MkTable [
      MkColumn "post_hash" TEXT [NotNull];
      MkColumn "reactor_pubkey" TEXT [NotNull];
      MkColumn "emoji" TEXT [NotNull];
      MkColumn "created_at" INTEGER [NotNull]]
      ["post_hash"; "reactor_pubkey"]);
    CreateIndex "idx_reactions_post" (MkIndex "reactions" [("post_hash", false)] None);
    CreateTable "topic_rooms" (MkTable [
      MkColumn "topic_id" TEXT [NotNull; PrimaryKey];
      MkColumn "name" TEXT [NotNull];
      MkColumn "description" TEXT [];
      MkColumn "created_by" TEXT [NotNull];
      MkColumn "created_at" INTEGER [NotNull]]
      []);
    CreateTable "topic_subscriptions" (MkTable [
      MkColumn "topic_id" TEXT [NotNull];
      MkColumn "user_pubkey" TEXT [NotNull];
      MkColumn "subscribed_at" INTEGER [NotNull]]
      ["topic_id"; "user_pubkey"]);
    CreateIndex "idx_topic_subs_user" (MkIndex "topic_subscriptions" [("user_pubkey", false)] None);
    CreateTable "topic_posts" (MkTable [
      MkColumn "topic_id" TEXT [NotNull];
      MkColumn "content_hash" BLOB [NotNull];
      MkColumn "created_at" INTEGER [NotNull]]
      ["topic_id"; "content_hash"]);
    CreateIndex "idx_topic_posts_created" (MkIndex "topic_posts" [("topic_id", false); ("created_at", true)] None) ].

Definition schema_v6 : list Statement :=
  [ CreateTable "media_attachments" (MkTable [
      MkColumn "id" TEXT [NotNull; PrimaryKey];
      MkColumn "post_hash" BLOB [NotNull];
      MkColumn "content_hash" TEXT [NotNull];
      MkColumn "media_type" TEXT [NotNull];
      MkColumn "mime_type" TEXT [NotNull];
      MkColumn "file_size" INTEGER [NotNull];
      MkColumn "width" INTEGER [];
      MkColumn "height" INTEGER [];
      MkColumn "duration_ms" INTEGER [];
      MkColumn "thumbnail_hash" TEXT [];
      MkColumn "chunk_count" INTEGER [NotNull];
      MkColumn "created_at" INTEGER [NotNull]]
      []);
    CreateIndex "idx_media_attachments_post" (MkIndex "media_attachments" [("post_hash", false)] None);
    CreateTable "media_chunks" (MkTable [
      MkColumn "chunk_hash" TEXT [NotNull; PrimaryKey];
      MkColumn "media_id" TEXT [NotNull; References "media_attachments" "id" true];
      MkColumn "chunk_index" INTEGER [NotNull];
      MkColumn "data" BLOB [NotNull]]
      []);
    CreateIndex "idx_media_chunks_media" (MkIndex "media_chunks" [("media_id", false); ("chunk_index", false)] None) ].

Definition schema_v7 : list Statement :=
  [ CreateTable "dead_drops" (MkTable [
      MkColumn "message_id" TEXT [NotNull; PrimaryKey];
      MkColumn "mailbox_key" TEXT [NotNull];
      MkColumn "sealed_data" BLOB [NotNull];
      MkColumn "deposited_at" INTEGER [NotNull];
      MkColumn "expires_at" INTEGER [NotNull]]
      []);
    CreateIndex "idx_dead_drops_mailbox" (MkIndex "dead_drops" [("mailbox_key", false)] None);
    CreateIndex "idx_dead_drops_expires" (MkIndex "dead_drops" [("expires_at", false)] None) ].

Definition schema_v8 : list Statement :=
  [ AddColumn "messages" (MkColumn "encrypted_body" BLOB []);
    AddColumn "messages" (MkColumn "is_encrypted" INTEGER [NotNull; Default (Int 0)]);
    AddColumn "posts" (MkColumn "encrypted_blob" BLOB []);
    AddColumn "posts" (MkColumn "post_epoch_id" INTEGER []) ].

Definition schema_v9 : list Statement :=
  [ CreateTable "groups" (MkTable [
      MkColumn "group_id" TEXT [NotNull; PrimaryKey];
      MkColumn "name" TEXT [NotNull; Unique];
      MkColumn "handle" TEXT [];
      MkColumn "description" TEXT [];
      MkColumn "avatar_cid" TEXT [];
      MkColumn "visibility" TEXT [NotNull; Default (Text "public")];
      MkColumn "created_by" TEXT [NotNull];
      MkColumn "created_at" INTEGER [NotNull]]
      []);
    CreateIndex "idx_groups_handle" (MkIndex "groups" [("handle", false)] (Some "handle IS NOT NULL"));
    CreateIndex "idx_groups_visibility" (MkIndex "groups" [("visibility", false)] None);
    CreateTable "group_members" (MkTable [
      MkColumn "group_id" TEXT [NotNull];
      MkColumn "member_pubkey" TEXT [NotNull];
      MkColumn "role" TEXT [NotNull; Default (Text "member")];
      MkColumn "joined_at" INTEGER [NotNull];
      MkColumn "invited_by" TEXT []]
      ["group_id"; "member_pubkey"]);
    CreateIndex "idx_group_members_pubkey" (MkIndex "group_members" [("member_pubkey", false)] None);
    CreateTable "group_bans" (MkTable [
      MkColumn "group_id" TEXT [NotNull];
      MkColumn "banned_pubkey" TEXT [NotNull];
      MkColumn "banned_by" TEXT [NotNull];
      MkColumn "reason" TEXT [];
      MkColumn "banned_at" INTEGER [NotNull]]
      ["group_id"; "banned_pubkey"]);
    CreateTable "group_posts" (MkTable [
      MkColumn "group_id" TEXT [NotNull];
      MkColumn "content_hash" BLOB [NotNull];
      MkColumn "author_pubkey" TEXT [NotNull];
      MkColumn "created_at" INTEGER [NotNull]]
      ["group_id"; "content_hash"]);
    CreateIndex "idx_group_posts_created" (MkIndex "group_posts" [("group_id", false); ("created_at", true)] None);
    CreateTable "group_chats" (MkTable [
      MkColumn "chat_id" TEXT [NotNull; PrimaryKey];
      MkColumn "name" TEXT [];
      MkColumn "is_group_linked" INTEGER [NotNull; Default (Int 0)];
      MkColumn "group_id" TEXT [];
      MkColumn "created_at" INTEGER [NotNull]]
      []);
    CreateIndex "idx_group_chats_group" (MkIndex "group_chats" [("group_id", false)] (Some "group_id IS NOT NULL"));
    CreateTable "group_chat_members" (MkTable [
      MkColumn "chat_id" TEXT [NotNull];
      MkColumn "member_pubkey" TEXT [NotNull];
      MkColumn "joined_at" INTEGER [NotNull]]
      ["chat_id"; "member_pubkey"]);
    CreateIndex "idx_group_chat_members_pubkey" (MkIndex "group_chat_members" [("member_pubkey", false)] None);
    CreateTable "group_chat_messages" (MkTable [
      MkColumn "message_id" TEXT [NotNull; PrimaryKey];
      MkColumn "chat_id" TEXT [NotNull];
      MkColumn "sender_pubkey" TEXT [NotNull];
      MkColumn "body" TEXT [];
      MkColumn "created_at" INTEGER [NotNull];
      MkColumn "expires_at" INTEGER [NotNull]]
      []);
    CreateIndex "idx_group_chat_messages_chat" (MkIndex "group_chat_messages" [("chat_id", false); ("created_at", true)] None);
    CreateIndex "idx_group_chat_messages_expires" (MkIndex "group_chat_messages" [("expires_at", false)] None) ].

Definition schema_v10 : list Statement :=
  [ CreateTable "notifications" (MkTable [
      MkColumn "notification_id" TEXT [NotNull; PrimaryKey];
      MkColumn "notification_type" TEXT [NotNull];
      MkColumn "from_pubkey" BLOB [];
      MkColumn "display_name" TEXT [];
      MkColumn "preview" TEXT [];
      MkColumn "post_hash" BLOB [];
      MkColumn "is_read" INTEGER [NotNull; Default (Int 0)];
      MkColumn "created_at" INTEGER [NotNull]]
      []);
    CreateIndex "idx_notifications_unread" (MkIndex "notifications" [("is_read", false); ("created_at", true)] None);
    CreateIndex "idx_notifications_created" (MkIndex "notifications" [("created_at", true)] None) ].
End schemas.

(* ------------------------------------------------------------------ *)
(** ** Migrations *)

Record Migration := MkMigration { version : Z; migration_description : string; up : list Statement }.

Definition all_migrations : list Migration :=
  [MkMigration 1 "Initial schema" schema_v1;
   MkMigration 2 "Add message and initiator columns to connections" schema_v2;
   MkMigration 3 "Add message_requests table for stranger DM handling" schema_v3;
   MkMigration 4 "Add ratchet_sessions table for Double Ratchet state" schema_v4;
   MkMigration 5 "Add reactions, topic_rooms, topic_subscriptions, topic_posts" schema_v5;
   MkMigration 6 "Add media_attachments and media_chunks tables" schema_v6;
   MkMigration 7 "Add dead_drops table for offline message delivery" schema_v7;
   MkMigration 8 "Add encrypted message body and epoch-encrypted post columns" schema_v8;
   MkMigration 9 "Add groups, group_members, group_bans, group_posts, group_chats, group_chat_members, group_chat_messages" schema_v9;
   MkMigration 10 "Add notifications table for notification center" schema_v10].

(** The schema of the file, and the rows of [schema_version]. *)
Record Db := MkDb { schema : Schema; versions : list (Z * string) }.

(** [COALESCE(MAX(version), 0)]. *)
Definition current_version (d : Db) : Z :=
  match (versions d).*1 with [] => 0%Z | v :: vs => foldl Z.max v vs end.

(** One transaction a migration: its script and its row, or nothing. *)
Definition apply_one (m : Migration) : SE Db SqlError unit := λ d,
  match execute_batch (up m) (schema d) with
  | Err e => (d, Err e)
  | Ok s => (MkDb s (versions d ++ [(version m, migration_description m)]), Ok tt)
  end.
(** The version is read once, before the loop. *)
Fixpoint apply_pending (current : Z) (ms : list Migration) : SE Db SqlError unit :=
  match ms with
  | [] => se_ret tt
  | m :: ms => if (version m <=? current)%Z then apply_pending current ms
               else let! _ := apply_one m in apply_pending current ms
  end.

(** The first statement of [schema_v1], again. *)
Definition version_table : list Statement := take 1 schema_v1.
Definition ensure_version_table : SE Db SqlError unit := λ d,
  match execute_batch version_table (schema d) with
  | Err e => (d, Err e)
  | Ok s => (MkDb s (versions d), Ok tt)
  end.
Definition run_migrations : SE Db SqlError unit :=
  let! _ := ensure_version_table in
  let! d := se_get in
  apply_pending (current_version d) all_migrations.

Definition new_file : Db := MkDb (MkSchema ∅ ∅) [].

(* ------------------------------------------------------------------ *)
(** ** Opening a file *)

(** A run that gets through the first [k] migrations before the process ends;
    it may also end before the version table is there. *)
Inductive opened (d : Db) : Db → Prop :=
| op_nothing : opened d d
| op_some k : opened d ((let! _ := ensure_version_table in
    let! d0 := se_get in apply_pending (current_version d0) (take k all_migrations)) d).1.

(** The file after [k] migrations. *)
Definition base : Db := (ensure_version_table new_file).1.
Definition at_version (k : nat) : Db := (apply_pending 0 (take k all_migrations) base).1.
Definition latest : Db := at_version 10.

(** What a statement is there for. *)
Definition made (s : Schema) (st : Statement) : bool :=
  match st with
  | CreateTable name t => match tables s !! name with Some t' => forallb (λ c, has_column t' (col_name c)) (columns t) | None => false end
  | CreateIndex name _ => bool_decide (is_Some (indexes s !! name))
  | AddColumn table c => match tables s !! table with Some t => has_column t (col_name c) | None => false end
  end.

(** *** Lemmas *)

Lemma apply_pending_app current ms1 ms2 d :
  apply_pending current (ms1 ++ ms2) d = (let! _ := apply_pending current ms1 in apply_pending current ms2) d.
Proof.
  revert d. induction ms1 as [|m ms1 IH]; intros d; [done|]. cbn [app apply_pending].
  destruct (version m <=? current)%Z; [apply IH|].
  unfold se_bind. destruct (apply_one m d) as [d' [u|e]]; [|done]. rewrite IH. done.
Qed.

Lemma apply_pending_done current ms d : Forall (λ m, version m ≤ current)%Z ms → apply_pending current ms d = (d, Ok tt).
Proof. induction 1 as [|m ms Hm Hms IH]; [done|]. cbn. by rewrite (proj2 (Z.leb_le _ _)). Qed.

(** What is above both versions is pending for both. *)
Lemma apply_pending_above c1 c2 ms d : Forall (λ m, c1 < version m ∧ c2 < version m)%Z ms →
  apply_pending c1 ms d = apply_pending c2 ms d.
Proof.
  intros Hms. revert d. induction Hms as [|m ms [H1 H2] Hms IH]; intros d; [done|]. cbn.
  rewrite !(proj2 (Z.leb_gt _ _)) by done. unfold se_bind. destruct (apply_one m d) as [d' [u|e]]; [apply IH|done].
Qed.

Lemma versions_in_order k m : all_migrations !! k = Some m → version m = Z.of_nat (S k).
Proof. do 10 (destruct k as [|k]; [by intros [= <-]|]). done. Qed.

Lemma versions_below k : Forall (λ m, version m ≤ Z.of_nat k)%Z (take k all_migrations).
Proof.
  apply Forall_lookup. intros i m Hi. pose proof (lookup_lt_Some _ _ _ Hi) as Hl. rewrite length_take in Hl.
  rewrite lookup_take_lt in Hi by lia. apply versions_in_order in Hi. lia.
Qed.
Lemma versions_above k ms : Forall (λ m, Z.of_nat k < version m ∧ 0 < version m)%Z (take ms (drop k all_migrations)).
Proof.
  apply Forall_lookup. intros i m Hi. pose proof (lookup_lt_Some _ _ _ Hi) as Hl. rewrite length_take in Hl.
  rewrite lookup_take_lt, lookup_drop in Hi by lia. apply versions_in_order in Hi. lia.
Qed.

(** The first ten versions, as they are. *)
Lemma at_version_ok k : k ≤ 10 →
  apply_pending 0 (take k all_migrations) base = (at_version k, Ok tt) ∧
  current_version (at_version k) = Z.of_nat k ∧ ensure_version_table (at_version k) = (at_version k, Ok tt).
Proof. intros Hk. do 11 (destruct k as [|k]; [repeat split; vm_compute; reflexivity|]). lia. Qed.

Lemma run_at_version k j : k ≤ 10 → j ≤ 10 →
  (let! _ := ensure_version_table in let! d0 := se_get in
   apply_pending (current_version d0) (take j all_migrations)) (at_version k) = (at_version (k `max` j), Ok tt).
Proof.
  intros Hk Hj. destruct (at_version_ok k Hk) as (Ha & Hc & He). unfold se_bind at 1. rewrite He. unfold se_bind at 1, se_get. rewrite Hc.
  destruct (decide (j ≤ k)) as [Hjk|Hjk].
  - rewrite Nat.max_l by done. apply apply_pending_done. eapply Forall_impl; [apply versions_below|]. cbn. lia.
  - rewrite Nat.max_r by lia. destruct (at_version_ok j Hj) as (Hb & _ & _).
    assert (Hs : take j all_migrations = take k all_migrations ++ take (j - k) (drop k all_migrations)).
    { rewrite take_take_drop. f_equal. lia. }
    rewrite Hs in Hb |- *. rewrite apply_pending_app in Hb |- *. unfold se_bind in *. rewrite Ha in Hb.
    rewrite (apply_pending_done _ _ _ (versions_below k)), <- Hb. apply apply_pending_above, versions_above.
Qed.

Lemma ensure_new_file : ensure_version_table new_file = (base, Ok tt).
Proof. reflexivity. Qed.

(** Whatever happened before, the file is new or at some version. *)
Lemma opened_at d : rtc opened new_file d → d = new_file ∨ ∃ k, k ≤ 10 ∧ d = at_version k.
Proof.
  apply (rtc_ind_r (λ d, d = new_file ∨ ∃ k, k ≤ 10 ∧ d = at_version k)); [by left|].
  intros d1 d2 _ Hstep Hd1. destruct Hstep as [|j]; [done|]. right.
  assert (Hj : take j all_migrations = take (j `min` 10) all_migrations) by (by rewrite <- take_take, (take_ge all_migrations 10)).
  rewrite Hj. destruct Hd1 as [->|(k & Hk & ->)].
  - exists (j `min` 10). split; [lia|]. unfold se_bind at 1. rewrite ensure_new_file. unfold se_bind, se_get.
    change (current_version base) with 0%Z.
    destruct (at_version_ok (j `min` 10)) as [E _]; [lia|]. by rewrite E.
  - exists (k `max` (j `min` 10)). split; [lia|]. by rewrite run_at_version by lia.
Qed.

(** C33. However often a file was opened, and wherever those runs were cut short,
    the next run succeeds and leaves the same file: every table, index
    and column of the ten scripts, and one row for each of them, in order.  Running once
    more changes nothing. *)
Theorem migrations_converge (d : Db) (Hrun : rtc opened new_file d) :
  run_migrations d = (latest, Ok tt) ∧ run_migrations latest = (latest, Ok tt) ∧
  (versions latest).*1 = seqZ 1 10 ∧
  Forall (λ m, forallb (made (schema latest)) (up m) = true) all_migrations ∧
  size (tables (schema latest)) = 30 ∧ size (indexes (schema latest)) = 33.
Proof.
  assert (Hten : ∀ k, k ≤ 10 → run_migrations (at_version k) = (latest, Ok tt)).
  { intros k Hk. unfold run_migrations, latest. change all_migrations with (take 10 all_migrations).
    rewrite run_at_version by lia. by rewrite Nat.max_r by lia. }
  split_and!; [|by apply (Hten 10)|by vm_compute|repeat constructor|by vm_compute..].
  apply opened_at in Hrun as [->|(k & Hk & ->)]; [|by apply Hten].
  unfold run_migrations, se_bind at 1. rewrite ensure_new_file. unfold se_bind, se_get.
  change (current_version base) with 0%Z. by destruct (at_version_ok 10) as [E _].
Qed.

(** The version is not read in the transaction that uses it.  Who read that
    the file is at [stale] while another process took it to the latest
    version repeats the scripts after [stale]: below eight it fails on a
    column that is there already, as no script with [ALTER TABLE] can be run
    twice; from eight on it only leaves second rows in [schema_version]. *)
Lemma stale_open stale : stale ≤ 10 →
  (apply_pending (Z.of_nat stale) all_migrations latest).2 =
    (if stale <? 2 then Err (DuplicateColumn "connections" "message")
     else if stale <? 8 then Err (DuplicateColumn "messages" "encrypted_body") else Ok tt) ∧
  schema (apply_pending (Z.of_nat stale) all_migrations latest).1 = schema latest ∧
  run_migrations (apply_pending (Z.of_nat stale) all_migrations latest).1 =
    ((apply_pending (Z.of_nat stale) all_migrations latest).1, Ok tt).
Proof. intros Hk. do 11 (destruct stale as [|stale]; [repeat split; vm_compute; reflexivity|]). lia. Qed.

Lemma migrations_converge_witness :
  run_migrations ((let! _ := ensure_version_table in let! d0 := se_get in
    apply_pending (current_version d0) (take 4 all_migrations)) new_file).1 = (latest, Ok tt).
Proof. apply migrations_converge. eapply rtc_once. apply op_some. Defined.
End Migrations.
