(* ===== verification/Store.v ===== *)
(** * Storage: [crates/ephemera-store/src], [crates/ephemera-media/src/chunker.rs]

    Blobs on the file system ([content_store.rs], module [Content]), chunking
    ([chunker.rs], module [Chunker]), media attachments ([media_store.rs] and
    the node's [services/media.rs], module [Media]) and the garbage collector
    ([gc.rs], module [Gc]).  The file system is a map from paths below the
    base directory to contents; its input and output errors are left out. *)
From S2P Require Import Prelude Types Crypto Unicode Post Tables Metadata.
From stdpp Require Import sorting.

Inductive StoreError := Io (reason : string) | Sqlite (reason : string) | NotFound (what : str) | Integrity (reason : string).
(** The services report a message that may end in a store error. *)
Inductive Failure := Failed (message : string) (cause : option StoreError).
Definition because (message : string) (e : StoreError) : Failure := Failed message (Some e).

(* ------------------------------------------------------------------ *)
(** ** Blobs *)

Module Content.
Section content.
Context `{Primitives, Hex}.

(** [days] are the day directories that exist. *)
Record ContentStore := MkContent {
  files : gmap (list str) bytes;
  days : gset str;
  encryption_key : option bytes
}.

Definition open : ContentStore := MkContent ∅ ∅ None.
Definition open_encrypted (key : bytes) : ContentStore := MkContent ∅ ∅ (Some key).

Definition with_files (f : gmap (list str) bytes) (c : ContentStore) : ContentStore := MkContent f (days c) (encryption_key c).

Definition to_hex (data : bytes) : str := hex_encode (blake3_hash data).
Definition hash_to_path (hex_hash : str) : list str := [take 2 hex_hash; drop 2 hex_hash ++ lit ".blob"].
Definition date_partition_path (date hex_hash : str) : list str := [lit "content"; date; hex_hash ++ lit ".blob"].

Definition seal_if_encrypted (nonce data : bytes) (c : ContentStore) : result StoreError bytes :=
  match encryption_key c with
  | Some key => map_err (λ _, Integrity "encryption failed") (Crypto.seal nonce key data)
  | None => Ok data
  end.
Definition open_if_encrypted (data : bytes) (c : ContentStore) : result StoreError bytes :=
  match encryption_key c with
  | Some key => map_err (λ _, Integrity "decryption failed") (Crypto.open key data)
  | None => Ok data
  end.

Definition put (nonce data : bytes) : SE ContentStore StoreError str := λ c,
  let hex := to_hex data in
  let path := hash_to_path hex in
  match files c !! path with
  | Some _ => (c, Ok hex)
  | None =>
      match seal_if_encrypted nonce data c with
      | Err e => (c, Err e)
      | Ok bytes_to_write => (with_files (<[path := bytes_to_write]> (files c)) c, Ok hex)
      end
  end.

Definition get (hex_hash : str) (c : ContentStore) : result StoreError bytes :=
  match files c !! hash_to_path hex_hash with
  | None => Err (NotFound hex_hash)
  | Some raw =>
      let? data := open_if_encrypted raw c in
      if bool_decide (to_hex data = hex_hash) then Ok data else Err (Integrity "hash mismatch")
  end.

Definition exists_ (hex_hash : str) (c : ContentStore) : bool := bool_decide (is_Some (files c !! hash_to_path hex_hash)).

Definition delete (hex_hash : str) (c : ContentStore) : ContentStore * bool :=
  match files c !! hash_to_path hex_hash with
  | None => (c, false)
  | Some _ => (with_files (base.delete (hash_to_path hex_hash) (files c)) c, true)
  end.

Definition put_partitioned (nonce data : bytes) (date : str) : SE ContentStore StoreError str := λ c,
  let hex := to_hex data in
  let path := date_partition_path date hex in
  match files c !! path with
  | Some _ => (c, Ok hex)
  | None =>
      let c := MkContent (files c) ({[date]} ∪ days c) (encryption_key c) in
      match seal_if_encrypted nonce data c with
      | Err e => (c, Err e)
      | Ok bytes_to_write => (with_files (<[path := bytes_to_write]> (files c)) c, Ok hex)
      end
  end.
Definition get_partitioned (date hex_hash : str) (c : ContentStore) : result StoreError bytes :=
  match files c !! date_partition_path date hex_hash with
  | None => Err (NotFound hex_hash)
  | Some raw => open_if_encrypted raw c
  end.
Definition exists_partitioned (date hex_hash : str) (c : ContentStore) : bool :=
  bool_decide (is_Some (files c !! date_partition_path date hex_hash)).
Definition delete_partitioned (date hex_hash : str) (c : ContentStore) : ContentStore * bool :=
  match files c !! date_partition_path date hex_hash with
  | None => (c, false)
  | Some _ => (with_files (base.delete (date_partition_path date hex_hash) (files c)) c, true)
  end.

Definition in_day (date : str) (path : list str) : bool := bool_decide (take 2 path = [lit "content"; date]).
Definition delete_day_partition (date : str) (c : ContentStore) : ContentStore * bool :=
  if bool_decide (date ∈ days c)
  then (MkContent (filter (λ kv, in_day date kv.1 = false) (files c)) (days c ∖ {[date]}) (encryption_key c), true)
  else (c, false).
Definition is_date_name (name : str) : bool :=
  Nat.eqb (length name) 10 && bool_decide (name !! 4 = Some 45%N) && bool_decide (name !! 7 = Some 45%N).
Definition list_day_partitions (c : ContentStore) : list str :=
  stable_sort bytes_leb (filter (λ d, is_date_name d = true) (elements (days c))).
Definition is_day_partition_empty (date : str) (c : ContentStore) : bool :=
  bool_decide (filter (λ kv, in_day date kv.1 = true) (files c) = ∅).

(* ------------------------------------------------------------------ *)
(** *** Properties *)

Lemma hash_to_path_inj a b : hash_to_path a = hash_to_path b → a = b.
Proof.
  intros [= Ht Hd]. apply app_inv_tail in Hd. rewrite <- (take_drop 2 a), <- (take_drop 2 b). by rewrite Ht, Hd.
Qed.
Lemma hash_not_day a date b : hash_to_path a ≠ date_partition_path date b.
Proof. done. Qed.

(** Every file opens to the bytes its name is the hash of. *)
Definition blobs_ok (c : ContentStore) : Prop :=
  ∀ hex raw, files c !! hash_to_path hex = Some raw → ∃ data, open_if_encrypted raw c = Ok data ∧ to_hex data = hex.

Lemma get_sound hex c data : get hex c = Ok data → to_hex data = hex.
Proof.
  unfold get. destruct (files c !! hash_to_path hex) as [raw|]; [|done]. destruct (open_if_encrypted raw c); [|done].
  cbn [result_bind]. case_bool_decide; [|done]. by intros [= <-].
Qed.

Lemma blob_get_ok hex c raw : blobs_ok c → files c !! hash_to_path hex = Some raw →
  ∃ data, get hex c = Ok data ∧ to_hex data = hex.
Proof.
  intros Hok Hl. destruct (Hok _ _ Hl) as (data & Ho & Hh). exists data. unfold get. rewrite Hl, Ho. cbn [result_bind].
  by rewrite bool_decide_true.
Qed.

Context `{!PrimitiveLaws}.

Lemma seal_opens nonce data c : length nonce = NONCE_LEN →
  ∃ raw, seal_if_encrypted nonce data c = Ok raw ∧ open_if_encrypted raw c = Ok data.
Proof.
  intros Hn. unfold seal_if_encrypted, open_if_encrypted. destruct (encryption_key c) as [key|]; [|by exists data].
  destruct (seal_total nonce key data) as (raw & E & _). exists raw. rewrite E. split; [done|].
  by rewrite (open_seal nonce key data raw Hn E).
Qed.

(** Storing a blob, in full. *)
Lemma put_spec nonce data c : length nonce = NONCE_LEN → blobs_ok c →
  let hex := to_hex data in
  ∃ c' raw d, put nonce data c = (c', Ok hex) ∧ blobs_ok c' ∧ files c' !! hash_to_path hex = Some raw ∧
    get hex c' = Ok d ∧ to_hex d = hex ∧ (exists_ hex c = false → d = data) ∧ (∀ hex', hex' ≠ hex → get hex' c' = get hex' c).
Proof.
  intros Hn Hok hex. unfold put. fold hex. destruct (seal_opens nonce data c Hn) as (raw & Hs & Ho).
  assert (∃ c', (match files c !! hash_to_path hex with
      | Some _ => (c, Ok hex)
      | None => match seal_if_encrypted nonce data c with
                | Ok b => (with_files (<[hash_to_path hex := b]> (files c)) c, Ok hex) | Err e => (c, Err e) end
      end) = (c', @Ok StoreError _ hex) ∧ encryption_key c' = encryption_key c ∧
    (∀ path, path ≠ hash_to_path hex → files c' !! path = files c !! path) ∧
    (∃ raw' d, files c' !! hash_to_path hex = Some raw' ∧ open_if_encrypted raw' c = Ok d ∧ to_hex d = hex ∧
       (exists_ hex c = false → d = data))) as (c' & E & Hkey & Hother & raw' & d & Hl & Hd & Hh & Hnew).
  { destruct (files c !! hash_to_path hex) as [raw0|] eqn:E0.
    - exists c. split_and!; [done..|]. destruct (Hok _ _ E0) as (d & Hd & Hh). exists raw0, d. split_and!; [done..|].
      unfold exists_. rewrite E0. by rewrite bool_decide_true.
    - rewrite Hs. eexists. split_and!; [done|done| |].
      + intros path Hp. cbn. by apply lookup_insert_ne.
      + exists raw, data. split_and!; [apply lookup_insert_eq|done..]. }
  exists c', raw', d. assert (Hsame : ∀ r, open_if_encrypted r c' = open_if_encrypted r c) by (intros r; unfold open_if_encrypted; by rewrite Hkey).
  split_and!; [exact E| |done| |done|done|].
  - intros hex' r Hr. rewrite Hsame. destruct (decide (hex' = hex)) as [->|Hne].
    + exists d. rewrite Hl in Hr. by injection Hr as <-.
    + apply Hok. rewrite <- Hr. symmetry. apply Hother. intros Ep. by apply hash_to_path_inj in Ep.
  - unfold get. rewrite Hl, Hsame, Hd. cbn [result_bind]. by rewrite bool_decide_true.
  - intros hex' Hne. unfold get. rewrite Hother by (intros Ep; by apply hash_to_path_inj in Ep).
    destruct (files c !! hash_to_path hex') as [r|]; [|done]. by rewrite Hsame.
Qed.

(** Storing a blob succeeds and makes it readable under its hash, sealed
    or not; nothing else changes; storing it again does nothing; what is read
    always has the hash it was asked for; deleting it removes just it. *)
Theorem content_roundtrip (nonce data : bytes) (c : ContentStore) (Hn : length nonce = NONCE_LEN) (Hok : blobs_ok c) :
  let hex := to_hex data in
  ∃ c', put nonce data c = (c', Ok hex) ∧ blobs_ok c' ∧
    (∃ d, get hex c' = Ok d ∧ to_hex d = hex ∧ (exists_ hex c = false → d = data)) ∧
    (∀ hex', hex' ≠ hex → get hex' c' = get hex' c) ∧
    (∀ nonce', put nonce' data c' = (c', Ok hex)) ∧
    (∀ hex' d, get hex' c' = Ok d → to_hex d = hex') ∧
    (let '(c'', found) := delete hex c' in
     found = true ∧ get hex c'' = Err (NotFound hex) ∧ ∀ hex', hex' ≠ hex → get hex' c'' = get hex' c).
Proof.
  intros hex. destruct (put_spec nonce data c Hn Hok) as (c' & raw & d & E & Hok' & Hl & Hg & Hh & Hnew & Hget). fold hex in E, Hl, Hg, Hh, Hget, Hnew.
  exists c'. split_and!; [exact E|done|by exists d|done| |by intros ?? ?%get_sound|].
  - intros nonce'. unfold put. fold hex. by rewrite Hl.
  - unfold delete. rewrite Hl. split_and!; [done| |].
    + unfold get. cbn [files with_files]. by rewrite lookup_delete_eq.
    + intros hex' Hne. rewrite <- (Hget hex' Hne). unfold get. cbn [files with_files].
      rewrite lookup_delete_ne by (intros Ep; by apply hash_to_path_inj in Ep).
      by destruct (files c' !! hash_to_path hex').
Qed.
End content.
End Content.

(* ------------------------------------------------------------------ *)
(** ** Chunks *)

Module Chunker.
Section chunker.
Context `{Primitives}.

Definition DEFAULT_CHUNK_SIZE : nat := 256 * 1024.

Record Chunk := MkChunk { index : N; hash : ContentId; data : bytes; size : nat }.
Record ChunkInfo := MkInfo { i_index : N; i_hash : ContentId; i_size : N }.
Record ChunkManifest := MkManifest {
  content_hash : ContentId;
  total_size : N;
  chunk_count : N;
  chunk_size : nat;
  chunks : list ChunkInfo
}.
Inductive MediaError := Validation (reason : string).

(** [slice::chunks]; a size of zero panics, and is never used. *)
Fixpoint slices (fuel n : nat) (l : bytes) : list bytes :=
  match fuel, l with
  | 0, _ | _, [] => []
  | S fuel, _ => take n l :: slices fuel n (drop n l)
  end.

Definition to_u32 (n : nat) : N := (N.of_nat n mod 2 ^ 32)%N.
Definition content_id (b : bytes) : ContentId := from_digest (blake3_hash b).
Definition chunk_of (i : nat) (slice : bytes) : Chunk := MkChunk (to_u32 i) (content_id slice) slice (length slice).

Definition chunk_with_size (d : bytes) (n : nat) : list Chunk := imap chunk_of (slices (length d) n d).
Definition chunk (d : bytes) : list Chunk := chunk_with_size d DEFAULT_CHUNK_SIZE.

Definition manifest_with_size (d : bytes) (n : nat) : ChunkManifest :=
  let infos := (λ c, MkInfo (index c) (hash c) (to_u32 (size c))) <$> chunk_with_size d n in
  MkManifest (content_id d) (N.of_nat (length d)) (to_u32 (length infos)) n infos.
Definition manifest (d : bytes) : ChunkManifest := manifest_with_size d DEFAULT_CHUNK_SIZE.

Definition indices_ok (cs : list Chunk) : bool :=
  forallb (λ p, bool_decide (index p.2 = to_u32 p.1)) (imap pair cs).
Fixpoint assemble (cs : list Chunk) : result MediaError bytes :=
  match cs with
  | [] => Ok []
  | c :: cs =>
      if negb (bool_decide (content_id (data c) = hash c)) then Err (Validation "chunk hash mismatch: data has been tampered with")
      else result_map (λ rest, data c ++ rest) (assemble cs)
  end.
Definition reassemble (cs : list Chunk) : result MediaError bytes :=
  match cs with
  | [] => Ok []
  | _ => if negb (indices_ok cs) then Err (Validation "chunk index mismatch") else assemble cs
  end.
Definition reassemble_with_manifest (cs : list Chunk) (m : ChunkManifest) : result MediaError bytes :=
  if negb (bool_decide (to_u32 (length cs) = chunk_count m)) then Err (Validation "wrong number of chunks")
  else
    let? d := reassemble cs in
    if bool_decide (content_id d = content_hash m) then Ok d
    else Err (Validation "reassembled content hash does not match manifest").

(** *** Properties *)

Lemma slices_concat fuel n l : 0 < n → length l ≤ fuel → concat (slices fuel n l) = l.
Proof.
  intros Hn. revert l. induction fuel as [|fuel IH]; intros [|x l] Hl; cbn [slices concat]; try done; [cbn in Hl; lia|].
  rewrite IH; [apply take_drop|]. rewrite length_drop. cbn [length] in *. lia.
Qed.

Lemma slices_bounds fuel n l : 0 < n → Forall (λ s, s ≠ [] ∧ length s ≤ n) (slices fuel n l).
Proof.
  intros Hn. revert l. induction fuel as [|fuel IH]; intros [|x l]; cbn [slices]; constructor; [|apply IH].
  split; [|rewrite length_take; lia]. destruct n; [lia|done].
Qed.

Lemma slices_length fuel n l : 0 < n → length l ≤ fuel → length (slices fuel n l) ≤ length l.
Proof.
  intros Hn. revert l. induction fuel as [|fuel IH]; intros [|x l] Hl; cbn [slices length]; try lia.
  cbn [length] in Hl. specialize (IH (drop n (x :: l))). rewrite length_drop in IH. cbn [length] in IH. lia.
Qed.

Lemma assemble_ok cs d : assemble cs = Ok d ↔ d = concat (data <$> cs) ∧ Forall (λ c, hash c = content_id (data c)) cs.
Proof.
  revert d. induction cs as [|c cs IH]; intros d; cbn [assemble fmap list_fmap concat].
  - split; [intros [= <-]; auto|]. by intros [-> _].
  - destruct (bool_decide (content_id (data c) = hash c)) eqn:E; cbn [negb].
    + apply bool_decide_eq_true in E. destruct (assemble cs) as [r|e] eqn:Ea; cbn [result_map].
      * destruct (proj1 (IH r) eq_refl) as [-> Hall]. split; [intros [= <-]; auto|]. by intros [-> _].
      * split; [done|]. intros [-> Hall]. apply Forall_cons in Hall as [_ Hall].
        by specialize (proj2 (IH _) (conj eq_refl Hall)).
    + apply bool_decide_eq_false in E. split; [done|]. intros [_ Hall]. apply Forall_cons in Hall as [Hc _]. congruence.
Qed.

Lemma indices_spec cs : indices_ok cs = true ↔ ∀ i c, cs !! i = Some c → index c = to_u32 i.
Proof.
  unfold indices_ok. rewrite forallb_forall. split.
  - intros Hall i c Hl. specialize (Hall (i, c)). cbn in Hall. eapply bool_decide_eq_true_1, Hall.
    apply list_elem_of_In, list_elem_of_lookup. exists i. by rewrite list_lookup_imap, Hl.
  - intros Hall [i c] Hin%list_elem_of_In. apply list_elem_of_lookup in Hin as [j Hj].
    rewrite list_lookup_imap in Hj. destruct (cs !! j) as [c'|] eqn:E; [|done]. injection Hj as <- <-.
    apply bool_decide_eq_true_2. by apply Hall.
Qed.

(** Content of at most one chunk's size is one chunk. *)
Lemma chunk_short d : d ≠ [] → length d ≤ DEFAULT_CHUNK_SIZE → chunk d = [chunk_of 0 d].
Proof.
  intros Hne Hle. unfold chunk, chunk_with_size. generalize dependent DEFAULT_CHUNK_SIZE. intros n Hle.
  destruct d as [|x d]; [done|]. cbn [length slices]. rewrite take_ge, drop_ge by done. by destruct (length d).
Qed.

(** Content of any length is cut into non-empty pieces of at most the
    chunk size that put together again, with or without the manifest, are the
    content; and whatever does reassemble consists of chunks in order, each
    of its hash, and with a manifest has the hash the manifest names. *)
Theorem chunk_roundtrip (d : bytes) (n : nat) (Hn : 0 < n) :
  let cs := chunk_with_size d n in
  reassemble cs = Ok d ∧ reassemble_with_manifest cs (manifest_with_size d n) = Ok d ∧
  Forall (λ c, 0 < size c ≤ n ∧ size c = length (data c)) cs ∧
  (∀ cs' d', reassemble cs' = Ok d' →
     d' = concat (data <$> cs') ∧ Forall (λ c, hash c = content_id (data c)) cs' ∧ ∀ i c, cs' !! i = Some c → index c = to_u32 i) ∧
  (∀ cs' m d', reassemble_with_manifest cs' m = Ok d' → content_id d' = content_hash m ∧ to_u32 (length cs') = chunk_count m).
Proof.
  intros cs. assert (Hdata : data <$> cs = slices (length d) n d).
  { apply list_eq. intros i. unfold cs, chunk_with_size. rewrite list_lookup_fmap, list_lookup_imap. by destruct (slices _ _ _ !! i). }
  assert (Hok : reassemble cs = Ok d).
  { unfold reassemble. assert (Ha : assemble cs = Ok d).
    { apply assemble_ok. split; [by rewrite Hdata, slices_concat|]. apply Forall_lookup. intros i c Hl.
      unfold cs, chunk_with_size in Hl. rewrite list_lookup_imap in Hl. destruct (slices _ _ _ !! i); [|done]. by injection Hl as <-. }
    assert (Hi : indices_ok cs = true).
    { apply indices_spec. intros i c Hl. unfold cs, chunk_with_size in Hl. rewrite list_lookup_imap in Hl.
      destruct (slices _ _ _ !! i); [|done]. by injection Hl as <-. }
    rewrite Hi. cbn [negb]. destruct cs; [done|done]. }
  split_and!.
  - done.
  - unfold reassemble_with_manifest, manifest_with_size. fold cs. rewrite length_fmap. cbn [chunk_count content_hash].
    rewrite bool_decide_true by done. cbn [negb]. rewrite Hok. cbn [result_bind]. by rewrite bool_decide_true.
  - apply Forall_lookup. intros i c Hl. unfold cs, chunk_with_size in Hl. rewrite list_lookup_imap in Hl.
    destruct (slices _ _ _ !! i) as [s|] eqn:E; [|done]. injection Hl as <-. cbn [size data chunk_of].
    destruct (Forall_lookup_1 _ _ _ _ (slices_bounds (length d) n d Hn) E) as [Hne Hle]. destruct s; [done|]. cbn [length] in *. lia.
  - intros cs' d' Hr. unfold reassemble in Hr. destruct cs' as [|c cs'].
    { injection Hr as <-. split_and!; [done|constructor|done]. }
    destruct (indices_ok (c :: cs')) eqn:Ei; [|done]. cbn [negb] in Hr. apply assemble_ok in Hr as [-> Hall].
    split_and!; [done..|]. by apply indices_spec.
  - intros cs' m d'. unfold reassemble_with_manifest. case_bool_decide; [|done]. cbn [negb].
    destruct (reassemble cs') as [r|]; [|done]. cbn [result_bind]. case_bool_decide; [|done]. by intros [= <-].
Qed.
End chunker.
End Chunker.

(* ------------------------------------------------------------------ *)
(** ** The tables of posts and media *)

(** A row of [posts]: what [store_received_post] writes, and the columns
    that are filled in later or only for our own posts. *)
Record Stored := MkStored {
  row : PostRow;
  is_tombstone : bool;
  tombstone_at : option Z;
  encrypted_blob : option bytes;
  post_epoch_id : option Z
}.
Definition fresh_row (r : PostRow) : Stored := MkStored r false None None None.
Definition entomb (now : Z) (s : Stored) : Stored := MkStored (row s) true (Some now) (encrypted_blob s) (post_epoch_id s).

(** [ContentId::hash_bytes]. *)
Definition hash_bytes (c : ContentId) : bytes := Types.hash c.

(** [media_attachments], keyed by [id]. *)
Record MediaAttachment := MkAttachment {
  a_post_hash : bytes;
  a_content_hash : str;
  a_media_type : string;
  a_mime_type : string;
  a_file_size : Z;
  a_width : option Z;
  a_height : option Z;
  a_duration_ms : option Z;
  a_thumbnail_hash : option str;
  a_chunk_count : Z;
  a_created_at : Z
}.

(** [media_chunks], keyed by [chunk_hash]. *)
Record ChunkRow := MkChunkRow { ck_media_id : str; ck_index : Z; ck_data : bytes }.

(** [epoch_keys], keyed by [epoch_number]. *)
Record EpochRow := MkEpochRow { ek_expires_at : Z; ek_is_deleted : bool; ek_deleted_at : option Z }.

Record StoreDb := MkStoreDb {
  posts : gmap bytes Stored;
  attachments : gmap str MediaAttachment;
  media_chunks : gmap str ChunkRow;
  messages : gmap bytes MsgRow;
  epoch_keys : gmap Z EpochRow
}.
Definition with_posts x d := MkStoreDb x (attachments d) (media_chunks d) (messages d) (epoch_keys d).
Definition with_attachments x d := MkStoreDb (posts d) x (media_chunks d) (messages d) (epoch_keys d).
Definition with_chunks x d := MkStoreDb (posts d) (attachments d) x (messages d) (epoch_keys d).
Definition with_messages x d := MkStoreDb (posts d) (attachments d) (media_chunks d) x (epoch_keys d).
Definition with_epoch_keys x d := MkStoreDb (posts d) (attachments d) (media_chunks d) (messages d) x.

(** The database and the blobs beside it. *)
Record Disk := MkDisk { db : StoreDb; content : Content.ContentStore }.
Definition with_db (x : StoreDb) (s : Disk) : Disk := MkDisk x (content s).
Definition with_content (x : Content.ContentStore) (s : Disk) : Disk := MkDisk (db s) x.

(* ------------------------------------------------------------------ *)
(** ** Media attachments *)

Module Media.
Section media.
Context `{Primitives, Hex}.

Definition insert_media_attachment (id : str) (a : MediaAttachment) : SE Disk StoreError unit := λ s,
  match insert_new id a (attachments (db s)) with
  | Some t => (with_db (with_attachments t (db s)) s, Ok tt)
  | None => (s, Err (Sqlite "UNIQUE constraint failed: media_attachments.id"))
  end.

(** [media_id] references an attachment. *)
Definition insert_media_chunk (hash : str) (c : ChunkRow) : SE Disk StoreError unit := λ s,
  match attachments (db s) !! ck_media_id c, insert_new hash c (media_chunks (db s)) with
  | _, None => (s, Err (Sqlite "UNIQUE constraint failed: media_chunks.chunk_hash"))
  | None, _ => (s, Err (Sqlite "FOREIGN KEY constraint failed"))
  | Some _, Some t => (with_db (with_chunks t (db s)) s, Ok tt)
  end.

Definition get_media_attachment (id : str) (s : Disk) : result StoreError MediaAttachment :=
  ok_or (attachments (db s) !! id) (NotFound id).
Definition get_media_chunk (hash : str) (s : Disk) : result StoreError ChunkRow :=
  ok_or (media_chunks (db s) !! hash) (NotFound hash).
Definition list_media_for_post (post_hash : bytes) (s : Disk) : list (str * MediaAttachment) :=
  stable_sort (λ a b, (a_created_at a.2 <=? a_created_at b.2)%Z)
    (select_where (λ _ a, bool_decide (a_post_hash a = post_hash)) (attachments (db s))).
Definition list_chunks_for_media (media_id : str) (s : Disk) : list (str * ChunkRow) :=
  stable_sort (λ a b, (ck_index a.2 <=? ck_index b.2)%Z)
    (select_where (λ _ c, bool_decide (ck_media_id c = media_id)) (media_chunks (db s))).
Definition get_thumbnail_hash (id : str) (s : Disk) : result StoreError (option str) :=
  result_map a_thumbnail_hash (get_media_attachment id s).

(** *** The node's media service *)

Inductive ProcessedContent :=
| Image (hash : ContentId) (standard thumbnail : bytes) (width height : Z)
| Video (hash : ContentId) (video_data thumbnail : bytes) (file_size width height duration_ms : Z).

Definition ends_with (suffix s : str) : bool := starts_with (rev suffix) (rev s).
(** The suffixes are ASCII, and only ASCII letters lower to their letters. *)
Definition mime_from_filename (filename : str) : string :=
  let lower := to_ascii_lowercase filename in
  if ends_with (lit ".png") lower then "image/png"
  else if ends_with (lit ".jpg") lower || ends_with (lit ".jpeg") lower then "image/jpeg"
  else if ends_with (lit ".webp") lower then "image/webp"
  else if ends_with (lit ".mp4") lower then "video/mp4"
  else "application/octet-stream".

Record StoredMediaResult := MkResult { media_id : str; content_hash : str; media_type : string }.

Definition media_id_of (hash : ContentId) (index : nat) : str := hex_encode (hash_bytes hash) ++ lit "-" ++ lit (pretty index).
Definition chunk_row (id : str) (c : Chunker.Chunk) : ChunkRow := MkChunkRow id (Z.of_N (Chunker.index c)) (Chunker.data c).
Definition chunk_key (c : Chunker.Chunk) : str := hex_encode (hash_bytes (Chunker.hash c)).

Fixpoint store_chunks (id : str) (cs : list Chunker.Chunk) : SE Disk Failure unit :=
  match cs with
  | [] => se_ret tt
  | c :: cs =>
      let! _ := se_map_err (because "store chunk: ") (insert_media_chunk (chunk_key c) (chunk_row id c)) in
      store_chunks id cs
  end.

Definition put (nonce b : bytes) : SE Disk StoreError str := se_zoom content with_content (Content.put nonce b).

Definition store_image (nonce : bytes) (now : Z) (hash : ContentId) (standard thumbnail : bytes) (width height : Z)
    (filename : str) (post_hash : bytes) (index : nat) : SE Disk Failure StoredMediaResult :=
  let content_hash_hex := hex_encode (hash_bytes hash) in
  let media_id := media_id_of hash index in
  let! thumb_hash := se_map_err (because "store thumbnail: ") (put nonce thumbnail) in
  let chunks := Chunker.chunk standard in
  let! _ := se_map_err (because "store attachment: ") (insert_media_attachment media_id
    (MkAttachment post_hash content_hash_hex "image" (mime_from_filename filename) (Z.of_nat (length standard)) (Some width)
       (Some height) None (Some thumb_hash) (Z.of_nat (length chunks)) now)) in
  let! _ := store_chunks media_id chunks in
  se_ret (MkResult media_id content_hash_hex "image").

Definition store_video (nonce : bytes) (now : Z) (hash : ContentId) (video_data thumbnail : bytes)
    (file_size width height duration_ms : Z) (post_hash : bytes) (index : nat) : SE Disk Failure StoredMediaResult :=
  let content_hash_hex := hex_encode (hash_bytes hash) in
  let media_id := media_id_of hash index in
  let! thumb_hash := se_map_err (because "store video thumbnail: ") (put nonce thumbnail) in
  let chunks := Chunker.chunk video_data in
  let! _ := se_map_err (because "store attachment: ") (insert_media_attachment media_id
    (MkAttachment post_hash content_hash_hex "video" "video/mp4" file_size (Some width) (Some height) (Some duration_ms)
       (Some thumb_hash) (Z.of_nat (length chunks)) now)) in
  let! _ := store_chunks media_id chunks in
  se_ret (MkResult media_id content_hash_hex "video").

(** [processed] is the answer of the media pipeline. *)
Definition process_and_store (nonce : bytes) (now : Z) (processed : result string ProcessedContent) (filename : str)
    (post_hash : bytes) (index : nat) : SE Disk Failure StoredMediaResult :=
  match processed with
  | Err e => se_lift (Err (Failed ("media processing failed: " +:+ e) None))
  | Ok (Image hash standard thumbnail w h) => store_image nonce now hash standard thumbnail w h filename post_hash index
  | Ok (Video hash data thumbnail size w h ms) => store_video nonce now hash data thumbnail size w h ms post_hash index
  end.

Definition get_thumbnail (id : str) (s : Disk) : result Failure bytes :=
  let? t := map_err (because "media not found: ") (get_thumbnail_hash id s) in
  match t with
  | Some hash => map_err (because "thumbnail blob not found: ") (Content.get hash (content s))
  | None => Err (Failed "no thumbnail for media" None)
  end.
Definition get_chunk (hash : str) (s : Disk) : result Failure (ChunkRow * str) :=
  result_map (λ c, (c, hex_encode (ck_data c))) (map_err (because "chunk not found: ") (get_media_chunk hash s)).
Definition list_for_post (post_hash_hex : str) (s : Disk) : result Failure (list (str * MediaAttachment)) :=
  match hex_decode post_hash_hex with
  | None => Err (Failed "bad hash" None)
  | Some b =>
      if Nat.eqb (length b) 32 then Ok (list_media_for_post (to_wire_bytes (from_digest b)) s)
      else Err (Failed "content hash must be 32 bytes hex" None)
  end.

(** *** Properties *)

(** Every chunk belongs to an attachment. *)
Definition media_ok (s : Disk) : Prop :=
  ∀ k c, media_chunks (db s) !! k = Some c → is_Some (attachments (db s) !! ck_media_id c).

Definition add_chunks (id : str) (t : gmap str ChunkRow) (cs : list Chunker.Chunk) : gmap str ChunkRow :=
  foldl (λ t c, <[chunk_key c := chunk_row id c]> t) t cs.
Definition chunks_fresh (t : gmap str ChunkRow) (cs : list Chunker.Chunk) : Prop :=
  NoDup (chunk_key <$> cs) ∧ ∀ c, c ∈ cs → t !! chunk_key c = None.

Lemma chunks_fresh_cons id t c cs : chunks_fresh t (c :: cs) ↔ t !! chunk_key c = None ∧ chunks_fresh (<[chunk_key c := chunk_row id c]> t) cs.
Proof.
  unfold chunks_fresh. cbn [fmap list_fmap]. rewrite NoDup_cons. split.
  - intros [[Hn Hd] Hf]. split_and!; [apply Hf; set_solver|done|]. intros c' Hc'. rewrite lookup_insert_ne; [apply Hf; set_solver|].
    intros E. apply Hn. rewrite E. by apply list_elem_of_fmap_2.
  - intros (Hc & Hd & Hf). split_and!; [|done|].
    + intros (c' & E & Hc')%list_elem_of_fmap. specialize (Hf c' Hc'). by rewrite E, lookup_insert_eq in Hf.
    + intros c' [->|Hc']%elem_of_cons; [done|]. specialize (Hf c' Hc'). by apply lookup_insert_None in Hf as [? _].
Qed.

Lemma lookup_add_chunks id t cs k r : chunks_fresh t cs →
  add_chunks id t cs !! k = Some r ↔ t !! k = Some r ∨ ∃ c, c ∈ cs ∧ k = chunk_key c ∧ r = chunk_row id c.
Proof.
  revert t. induction cs as [|c cs IH]; intros t Hf; cbn [add_chunks foldl]; [set_solver|].
  apply (chunks_fresh_cons id) in Hf as [Hc Hf]. fold (add_chunks id (<[chunk_key c:=chunk_row id c]> t) cs). rewrite (IH _ Hf).
  rewrite lookup_insert_Some. split.
  - intros [[[<- <-]|[_ Hl]]|(c' & ? & ? & ?)]; [right; exists c; set_solver|by left|right; exists c'; set_solver].
  - intros [Hl|(c' & [->|Hin]%elem_of_cons & -> & ->)]; [left; right; split; [congruence|done]|auto|right; eauto].
Qed.

Lemma store_chunks_spec id cs s : is_Some (attachments (db s) !! id) →
  let '(s', r) := store_chunks id cs s in
  content s' = content s ∧ posts (db s') = posts (db s) ∧ attachments (db s') = attachments (db s) ∧
  (r = Ok tt ↔ chunks_fresh (media_chunks (db s)) cs) ∧ (r = Ok tt → media_chunks (db s') = add_chunks id (media_chunks (db s)) cs).
Proof.
  intros Ha. revert s Ha. induction cs as [|c cs IH]; intros s Ha; cbn [store_chunks].
  - unfold se_ret. split_and!; try done. split; [|done]. intros _. split; [constructor|]. intros c Hc. by apply not_elem_of_nil in Hc.
  - unfold se_bind, se_map_err, insert_media_chunk, insert_new. change (ck_media_id (chunk_row id c)) with id. destruct Ha as [a Ha]. rewrite Ha.
    destruct (media_chunks (db s) !! chunk_key c) as [r|] eqn:El.
    + split_and!; try done. split; [done|]. intros [_ Hf]. specialize (Hf c ltac:(set_solver)). congruence.
    + specialize (IH (with_db (with_chunks (<[chunk_key c:=chunk_row id c]> (media_chunks (db s))) (db s)) s)).
      cbn [attachments db with_db with_chunks] in IH. specialize (IH (mk_is_Some _ _ Ha)).
      destruct (store_chunks id cs _) as [s' r]. destruct IH as (H1 & H2 & H3 & H4 & H5). split_and!; try done.
      rewrite H4. cbn [media_chunks with_chunks db with_db]. rewrite (chunks_fresh_cons id). tauto.
Qed.

Lemma stored_chunks_sorted id s cs t : media_chunks (db s) = add_chunks id t cs → chunks_fresh t cs →
  (∀ k c, t !! k = Some c → ck_media_id c ≠ id) →
  (∀ i c, cs !! i = Some c → Chunker.index c = N.of_nat i) →
  list_chunks_for_media id s = (λ c, (chunk_key c, chunk_row id c)) <$> cs.
Proof.
  intros Ht Hf Hother Hidx. set (le := λ a b : str * ChunkRow, (ck_index a.2 <=? ck_index b.2)%Z).
  assert (Hperm : select_where (λ _ c, bool_decide (ck_media_id c = id)) (media_chunks (db s)) ≡ₚ
    (λ c, (chunk_key c, chunk_row id c)) <$> cs).
  { apply NoDup_Permutation.
    - unfold select_where. apply NoDup_map_to_list.
    - apply (NoDup_fmap_1 fst). rewrite <- list_fmap_compose. apply Hf.
    - intros [k r]. rewrite elem_of_select_where, Ht, lookup_add_chunks by done. rewrite list_elem_of_fmap, bool_decide_eq_true. split.
      + intros [[Hl|(c & Hin & -> & ->)] Hid]; [by apply Hother in Hl|eauto].
      + intros (c & [= -> ->] & Hin). split; [eauto|done]. }
  unfold list_chunks_for_media. fold le.
  apply (StronglySorted_unique_strong (λ a b, le a b = true)).
  - intros [k1 r1] [k2 r2]. rewrite stable_sort_perm, Hperm. intros (c1 & [= -> ->] & H1)%list_elem_of_fmap (c2 & [= -> ->] & H2)%list_elem_of_fmap.
    unfold le. cbn [snd chunk_row ck_index]. rewrite !Z.leb_le. intros Hle1 Hle2.
    apply list_elem_of_lookup in H1 as [i Hi]. apply list_elem_of_lookup in H2 as [j Hj].
    rewrite (Hidx _ _ Hi), (Hidx _ _ Hj) in *. assert (i = j) as -> by lia. congruence.
  - apply stable_sort_sorted; unfold le; intros *; rewrite !Z.leb_le; lia.
  - clear Hperm Hf Ht. assert (Hgen : ∀ off, (∀ i c, cs !! i = Some c → Chunker.index c = N.of_nat (off + i)) →
      StronglySorted (λ a b, le a b = true) ((λ c, (chunk_key c, chunk_row id c)) <$> cs)).
    { clear Hidx. induction cs as [|c cs IH]; intros off Hoff; cbn [fmap list_fmap]; constructor.
      - apply (IH (S off)). intros i c' Hl. rewrite (Hoff (S i) c' Hl). f_equal. lia.
      - apply Forall_forall. intros [k r] (c' & [= -> ->] & Hin)%list_elem_of_fmap. apply list_elem_of_lookup in Hin as [i Hi].
        unfold le. cbn [snd chunk_row ck_index]. rewrite (Hoff 0 c eq_refl), (Hoff (S i) c' Hi). apply Z.leb_le. lia. }
    apply (Hgen 0). done.
  - rewrite stable_sort_perm. exact Hperm.
Qed.

Context `{!PrimitiveLaws}.

(** What both kinds of media do: the thumbnail, the attachment, the chunks. *)
Lemma store_media_spec nonce thumbnail id (a : str → MediaAttachment) d (res : StoredMediaResult) prefix s :
  length nonce = NONCE_LEN → Content.blobs_ok (content s) → (∀ t, a_thumbnail_hash (a t) = Some t) → media_ok s →
  (N.of_nat (length d) < 2 ^ 32)%N → 0 < length d →
  let cs := Chunker.chunk d in
  let '(s', r) := (let! thumb_hash := se_map_err (because prefix) (put nonce thumbnail) in
    let! _ := se_map_err (because "store attachment: ") (insert_media_attachment id (a thumb_hash)) in let! _ := store_chunks id cs in se_ret res) s in
  posts (db s') = posts (db s) ∧
  (is_ok r = true ↔ attachments (db s) !! id = None ∧ chunks_fresh (media_chunks (db s)) cs) ∧
  (is_ok r = true → r = Ok res ∧
     attachments (db s') = <[id := a (Content.to_hex thumbnail)]> (attachments (db s)) ∧
     list_chunks_for_media id s' = (λ c, (chunk_key c, chunk_row id c)) <$> cs ∧
     concat (ck_data ∘ snd <$> list_chunks_for_media id s') = d ∧
     (∃ t, get_thumbnail id s' = Ok t ∧ Content.to_hex t = Content.to_hex thumbnail) ∧
     media_ok s' ∧ Content.blobs_ok (content s') ∧ (∃ c, c ∈ cs ∧ is_Some (media_chunks (db s') !! chunk_key c))).
Proof.
  intros Hn Hok Ha Hm Hlen Hpos cs. unfold se_bind, se_map_err, put, se_zoom.
  destruct (Content.put_spec nonce thumbnail (content s) Hn Hok) as (c' & raw & t & Hput & Hok' & _ & Hget & Ht & _).
  rewrite Hput. unfold insert_media_attachment, insert_new. cbn [db with_content attachments map_err].
  destruct (attachments (db s) !! id) as [a0|] eqn:Ea; cbn [map_err].
  { split_and!; [done| |done]. split; [done|]. by intros [? _]. }
  set (s1 := with_db _ _). pose proof (store_chunks_spec id cs s1) as Hs. cbn in Hs.
  specialize (Hs ltac:(rewrite lookup_insert_eq; eauto)). destruct (store_chunks id cs s1) as [s' r]. destruct Hs as (Hc & Hp & Hat & Hr & Hch).
  assert (Hiff : is_ok r = true ↔ chunks_fresh (media_chunks (db s)) cs) by (rewrite <- Hr; destruct r as [[]|]; naive_solver).
  assert (Hcs : Chunker.data <$> cs = Chunker.slices (length d) Chunker.DEFAULT_CHUNK_SIZE d ∧ ∀ i c, cs !! i = Some c → Chunker.index c = N.of_nat i).
  { assert (Hsl : length (Chunker.slices (length d) Chunker.DEFAULT_CHUNK_SIZE d) ≤ length d) by (apply Chunker.slices_length; [unfold Chunker.DEFAULT_CHUNK_SIZE|]; lia).
    unfold cs, Chunker.chunk, Chunker.chunk_with_size. split.
    - apply list_eq. intros i. rewrite list_lookup_fmap, list_lookup_imap. by destruct (_ !! i).
    - intros i c Hl. rewrite list_lookup_imap in Hl. destruct (_ !! i) eqn:E; [|done]. injection Hl as <-.
      apply lookup_lt_Some in E. cbn. unfold Chunker.to_u32. apply N.mod_small. lia. }
  destruct Hcs as [Hdata Hidx].
  destruct r as [[]|e]; cbn [is_ok] in *.
  - assert (Hfresh : chunks_fresh (media_chunks (db s)) cs) by by apply Hiff. unfold se_ret. specialize (Hch eq_refl).
    assert (Hown : ∀ k c, media_chunks (db s) !! k = Some c → ck_media_id c ≠ id).
    { intros k c Hl E. apply Hm in Hl as [x Hx]. congruence. }
    assert (Hlist : list_chunks_for_media id s' = (λ c, (chunk_key c, chunk_row id c)) <$> cs) by (by apply (stored_chunks_sorted id s' cs (media_chunks (db s)))).
    split_and!; [done|by split|]. intros _. split_and!; [done|done|done| | | |by rewrite Hc|].
    + rewrite Hlist, <- list_fmap_compose. change (concat (Chunker.data <$> cs) = d). rewrite Hdata.
      apply Chunker.slices_concat; [unfold Chunker.DEFAULT_CHUNK_SIZE|]; lia.
    + exists t. unfold get_thumbnail, get_thumbnail_hash, get_media_attachment. rewrite Hat, lookup_insert_eq. cbn [ok_or result_map result_bind].
      cbn [map_err result_bind]. rewrite Ha, Hc, Hget. done.
    + intros k c Hl. rewrite Hch in Hl. apply lookup_add_chunks in Hl as [Hl|(c0 & _ & _ & ->)]; [| |done].
      * rewrite Hat. apply Hm in Hl. by apply lookup_insert_is_Some'; right.
      * rewrite Hat. cbn [ck_media_id chunk_row]. rewrite lookup_insert_eq. eauto.
    + assert (Hne : cs ≠ []).
      { intros E. assert (Hd : concat (Chunker.data <$> cs) = d).
        { rewrite Hdata. apply Chunker.slices_concat; [unfold Chunker.DEFAULT_CHUNK_SIZE|]; lia. }
        rewrite E in Hd. cbn in Hd. rewrite <- Hd in Hpos. cbn in Hpos. lia. }
      clearbody cs. destruct cs as [|c cs']; [done|].
      exists c. split; [set_solver|]. rewrite Hch. exists (chunk_row id c). apply lookup_add_chunks; [done|]. right. exists c. set_solver.
  - split_and!; [done| |done]. split; [done|]. intros [_ Hf]. by apply Hiff in Hf.
Qed.

(** What the pipeline hands over: the bytes that are cut into chunks, and the
    hash that names the attachment. *)
Definition main_bytes (p : ProcessedContent) : bytes := match p with Image _ d _ _ _ | Video _ d _ _ _ _ _ => d end.
Definition processed_hash (p : ProcessedContent) : ContentId := match p with Image h _ _ _ _ | Video h _ _ _ _ _ _ => h end.
Definition thumbnail_of (p : ProcessedContent) : bytes := match p with Image _ _ t _ _ | Video _ _ t _ _ _ _ => t end.

Lemma process_and_store_spec nonce now p filename post_hash index s :
  length nonce = NONCE_LEN → Content.blobs_ok (content s) → media_ok s →
  (N.of_nat (length (main_bytes p)) < 2 ^ 32)%N → 0 < length (main_bytes p) →
  let id := media_id_of (processed_hash p) index in
  let cs := Chunker.chunk (main_bytes p) in
  let '(s', r) := process_and_store nonce now (Ok p) filename post_hash index s in
  posts (db s') = posts (db s) ∧
  (is_ok r = true ↔ attachments (db s) !! id = None ∧ chunks_fresh (media_chunks (db s)) cs) ∧
  (is_ok r = true →
     concat (ck_data ∘ snd <$> list_chunks_for_media id s') = main_bytes p ∧
     (∃ a, get_media_attachment id s' = Ok a ∧ a_post_hash a = post_hash ∧ a_chunk_count a = Z.of_nat (length cs)) ∧
     (∃ t, get_thumbnail id s' = Ok t ∧ Content.to_hex t = Content.to_hex (thumbnail_of p)) ∧
     media_ok s' ∧ Content.blobs_ok (content s') ∧ (∃ c, c ∈ cs ∧ is_Some (media_chunks (db s') !! chunk_key c))).
Proof.
  intros Hn Hok Hm Hlen Hpos id cs.
  assert (Hgo : ∀ (a : str → MediaAttachment) res prefix, (∀ t, a_thumbnail_hash (a t) = Some t) →
    (∀ t, a_post_hash (a t) = post_hash ∧ a_chunk_count (a t) = Z.of_nat (length cs)) →
    process_and_store nonce now (Ok p) filename post_hash index s =
      (let! thumb_hash := se_map_err (because prefix) (put nonce (thumbnail_of p)) in
       let! _ := se_map_err (because "store attachment: ") (insert_media_attachment id (a thumb_hash)) in let! _ := store_chunks id cs in se_ret res) s →
    let '(s', r) := process_and_store nonce now (Ok p) filename post_hash index s in
    posts (db s') = posts (db s) ∧
    (is_ok r = true ↔ attachments (db s) !! id = None ∧ chunks_fresh (media_chunks (db s)) cs) ∧
    (is_ok r = true →
     concat (ck_data ∘ snd <$> list_chunks_for_media id s') = main_bytes p ∧
     (∃ a, get_media_attachment id s' = Ok a ∧ a_post_hash a = post_hash ∧ a_chunk_count a = Z.of_nat (length cs)) ∧
     (∃ t, get_thumbnail id s' = Ok t ∧ Content.to_hex t = Content.to_hex (thumbnail_of p)) ∧
     media_ok s' ∧ Content.blobs_ok (content s') ∧ (∃ c, c ∈ cs ∧ is_Some (media_chunks (db s') !! chunk_key c)))).
  { intros a res prefix Ha Hb E. pose proof (store_media_spec nonce (thumbnail_of p) id a (main_bytes p) res prefix s Hn Hok Ha Hm Hlen Hpos) as Hs.
    cbv zeta in Hs. fold cs in Hs. rewrite <- E in Hs. destruct (process_and_store _ _ _ _ _ _ _) as [s' r].
    destruct Hs as (Hp & Hiff & Hs). split_and!; [done..|]. intros Hr. destruct (Hs Hr) as (-> & Hat & _ & Hd & Ht & Hx1 & Hx2 & Hx3).
    split_and!; [done| |done..]. exists (a (Content.to_hex (thumbnail_of p))). unfold get_media_attachment.
    rewrite Hat, lookup_insert_eq. split; [done|apply Hb]. }
  destruct p.
  - eapply Hgo; [| |reflexivity]; intros t; [done|by split].
  - eapply Hgo; [| |reflexivity]; intros t; [done|by split].
Qed.

(** Storing the chunks of an image or a video succeeds exactly when no
    attachment has its name and its chunks are pairwise different and not
    stored yet; then the listed chunks, in order, are the bytes, and the
    thumbnail can be read.  The same media is refused from then on, for every
    other post and at every other position. *)
Theorem media_roundtrip (nonce : bytes) (now : Z) (p : ProcessedContent) (filename : str) (post_hash : bytes) (index : nat) (s : Disk)
    (Hn : length nonce = NONCE_LEN) (Hok : Content.blobs_ok (content s)) (Hm : media_ok s)
    (Hlen : (0 < N.of_nat (length (main_bytes p)) < 2 ^ 32)%N) :
  let id := media_id_of (processed_hash p) index in
  let cs := Chunker.chunk (main_bytes p) in
  let '(s', r) := process_and_store nonce now (Ok p) filename post_hash index s in
  posts (db s') = posts (db s) ∧
  (is_ok r = true ↔ attachments (db s) !! id = None ∧ chunks_fresh (media_chunks (db s)) cs) ∧
  (is_ok r = true →
     concat (ck_data ∘ snd <$> list_chunks_for_media id s') = main_bytes p ∧
     (∃ a, get_media_attachment id s' = Ok a ∧ a_post_hash a = post_hash ∧ a_chunk_count a = Z.of_nat (length cs)) ∧
     (∃ t, get_thumbnail id s' = Ok t ∧ Content.to_hex t = Content.to_hex (thumbnail_of p)) ∧
     ∀ now' filename' post_hash' index', is_ok (process_and_store nonce now' (Ok p) filename' post_hash' index' s').2 = false).
Proof.
  intros id cs. pose proof (process_and_store_spec nonce now p filename post_hash index s Hn Hok Hm ltac:(lia) ltac:(lia)) as Hs.
  fold id cs in Hs. cbv zeta in Hs. destruct (process_and_store _ _ _ _ _ _ _) as [s' r].
  destruct Hs as (Hp & Hiff & Hs). split_and!; [done..|]. intros Hr. destruct (Hs Hr) as (Hx1 & Hx2 & Hx3 & Hm' & Hok' & c & Hin & Hc).
  split_and!; [done..|]. intros now' filename' post_hash' index'. apply not_true_is_false. intros Hr'.
  pose proof (process_and_store_spec nonce now' p filename' post_hash' index' s' Hn Hok' Hm' ltac:(lia) ltac:(lia)) as Hs'.
  cbv zeta in Hs'. destruct (process_and_store _ _ _ _ _ _ s') as [s'' r']. destruct Hs' as (_ & Hiff' & _).
  apply Hiff' in Hr' as [_ [_ Hf]]. rewrite (Hf c Hin) in Hc. by destruct Hc.
Qed.
End media.
End Media.

(* ------------------------------------------------------------------ *)
(** ** Garbage collection *)

Module Gc.
Section gc.
Context `{Hex}.

(** [GcConfig], its clock an argument of [sweep]. *)
Record GcConfig := MkGc { interval : N; batch_size : nat }.
Definition default_config : GcConfig := MkGc 60 1000.

Record GcReport := MkReport {
  posts_deleted : nat;
  messages_deleted : nat;
  tombstones_purged : nat;
  epoch_keys_destroyed : nat;
  orphaned_blobs_deleted : nat;
  day_partitions_removed : nat
}.
Definition total_items (r : GcReport) : nat :=
  posts_deleted r + messages_deleted r + tombstones_purged r + epoch_keys_destroyed r + orphaned_blobs_deleted r +
  day_partitions_removed r.

Definition is_expired (now : Z) (_ : bytes) (s : Stored) : bool := (r_expires_at (row s) <? now)%Z && negb (is_tombstone s).
Definition blob_key (s : Stored) : str := r_blob_hash (row s).

(** Deleting one blob, counting those that were there. *)
Definition delete_blob (st : Disk * nat) (key : str) : Disk * nat :=
  let '(c, found) := Content.delete key (content st.1) in (with_content c st.1, if (found : bool) then S st.2 else st.2).

Definition media_of (post_hash : bytes) (_ : str) (a : MediaAttachment) : bool := bool_decide (a_post_hash a = post_hash).

(** The chunks, thumbnails and attachments of one post. *)
Definition drop_media (s : Disk) (post_hash : bytes) : Disk :=
  let mine := rows_where (media_of post_hash) (attachments (db s)) in
  let d := with_chunks (delete_where (λ _ c, bool_decide (is_Some (mine !! ck_media_id c))) (media_chunks (db s))) (db s) in
  let thumbs := omap (λ kv, a_thumbnail_hash kv.2) (map_to_list mine) in
  let c := foldl (λ c t, (Content.delete t c).1) (content s) thumbs in
  MkDisk (with_attachments (delete_where (media_of post_hash) (attachments d)) d) c.

Definition phase1 (config : GcConfig) (now : Z) (s : Disk) : Disk * (nat * nat) :=
  let expired := take (batch_size config) (select_where (is_expired now) (posts (db s))) in
  let '(s, posts_deleted) := foldl delete_blob (s, 0) ((λ kv, blob_key kv.2) <$> expired) in
  let s := foldl drop_media s (fst <$> expired) in
  let d := with_posts (update_where (λ k _, bool_decide (k ∈ fst <$> expired)) (entomb now) (posts (db s))) (db s) in
  let gone := λ (_ : bytes) m, (m_expires_at m <? now)%Z in
  (with_db (with_messages (delete_where gone (messages d)) d) s, (posts_deleted, count_where gone (messages d))).

(** [tombstone_at + (ttl_seconds * 3) < now]. *)
Definition is_spent (now : Z) (_ : bytes) (s : Stored) : bool :=
  is_tombstone s && match tombstone_at s with Some t => (t + r_ttl_seconds (row s) * 3 <? now)%Z | None => false end.
Definition phase2 (now : Z) (s : Disk) : Disk * nat :=
  (with_db (with_posts (delete_where (is_spent now) (posts (db s))) (db s)) s, count_where (is_spent now) (posts (db s))).

Definition phase3 (now : Z) (s : Disk) : Disk * nat :=
  let due := λ (_ : Z) e, negb (ek_is_deleted e) && (ek_expires_at e <? now)%Z in
  (with_db (with_epoch_keys (update_where due (λ e, MkEpochRow (ek_expires_at e) true (Some now)) (epoch_keys (db s))) (db s)) s,
   count_where due (epoch_keys (db s))).

Definition in_dead_epoch (d : StoreDb) (_ : bytes) (s : Stored) : bool :=
  match epoch_keys d !! r_epoch_number (row s) with Some e => ek_is_deleted e | None => false end.
Definition phase4 (config : GcConfig) (s : Disk) : Disk * (nat * nat) :=
  let orphaned := take (batch_size config) (select_where (in_dead_epoch (db s)) (posts (db s))) in
  let '(s, deleted) := foldl delete_blob (s, 0) ((λ kv, blob_key kv.2) <$> orphaned) in
  let s := with_db (with_posts (delete_where (in_dead_epoch (db s)) (posts (db s))) (db s)) s in
  let sweep_day := λ st date,
    if Content.is_day_partition_empty date (content st.1)
    then let '(c, found) := Content.delete_day_partition date (content st.1) in
         (with_content c st.1, if (found : bool) then S st.2 else st.2)
    else st in
  let '(s, removed) := foldl sweep_day (s, 0) (Content.list_day_partitions (content s)) in
  (s, (deleted, removed)).

Definition sweep (config : GcConfig) (now : Z) (s : Disk) : Disk * GcReport :=
  let '(s, (posts_deleted, messages_deleted)) := phase1 config now s in
  let '(s, purged) := phase2 now s in
  let '(s, destroyed) := phase3 now s in
  let '(s, (orphaned, days)) := phase4 config s in
  (s, MkReport posts_deleted messages_deleted purged destroyed orphaned days).

(** *** Properties *)

Definition sweeps (config : GcConfig) (ts : list Z) (s : Disk) : Disk := foldl (λ s t, (sweep config t s).1) s ts.

Lemma lookup_files_delete key c path :
  Content.files (Content.delete key c).1 !! path = if decide (path = Content.hash_to_path key) then None else Content.files c !! path.
Proof.
  unfold Content.delete. destruct (Content.files c !! Content.hash_to_path key) eqn:E; cbn [fst].
  - cbn [Content.files Content.with_files]. destruct (decide _) as [->|Hne]; [apply lookup_delete_eq|by rewrite lookup_delete_ne].
  - by destruct (decide _) as [->|].
Qed.

Definition file (k : str) (s : Disk) : option bytes := Content.files (content s) !! Content.hash_to_path k.

Lemma delete_blobs_spec keys st :
  let st' := foldl delete_blob st keys in
  db st'.1 = db st.1 ∧ ∀ k, file k st'.1 = if decide (k ∈ keys) then None else file k st.1.
Proof.
  revert st. induction keys as [|key keys IH]; intros [s n]; cbn [foldl].
  - split; [done|]. intros k. by rewrite decide_False by set_solver.
  - assert (Hd : db (delete_blob (s, n) key).1 = db s ∧
      ∀ k, file k (delete_blob (s, n) key).1 = if decide (k = key) then None else file k s).
    { unfold delete_blob. cbn [fst snd]. pose proof (lookup_files_delete key (content s)) as Hf.
      destruct (Content.delete key (content s)) as [c found]. cbn [fst] in *. split; [done|]. intros k. unfold file. cbn [content with_content].
      rewrite Hf. destruct (decide (k = key)) as [->|Hne]; [by rewrite decide_True|].
      rewrite decide_False; [done|]. intros E. by apply Content.hash_to_path_inj in E. }
    destruct Hd as [Hd Hf]. destruct (IH (delete_blob (s, n) key)) as [H1 H2]. rewrite H1, Hd. split; [done|]. intros k. rewrite H2, Hf.
    destruct (decide (k ∈ keys)), (decide (k = key)), (decide (k ∈ key :: keys)); set_solver.
Qed.

(** Whose media a file or a chunk is. *)
Definition has_thumb (s : Disk) (hs : list bytes) (k : str) : Prop :=
  ∃ id a, attachments (db s) !! id = Some a ∧ a_post_hash a ∈ hs ∧ a_thumbnail_hash a = Some k.
Definition chunk_kept (s : Disk) (hs : list bytes) (c : ChunkRow) : Prop :=
  ∀ a, attachments (db s) !! ck_media_id c = Some a → a_post_hash a ∉ hs.

Definition media_dropped (s s' : Disk) (hs : list bytes) : Prop :=
  posts (db s') = posts (db s) ∧ messages (db s') = messages (db s) ∧ epoch_keys (db s') = epoch_keys (db s) ∧
  (∀ id a, attachments (db s') !! id = Some a ↔ attachments (db s) !! id = Some a ∧ a_post_hash a ∉ hs) ∧
  (∀ k c, media_chunks (db s') !! k = Some c ↔ media_chunks (db s) !! k = Some c ∧ chunk_kept s hs c) ∧
  (∀ k, has_thumb s hs k → file k s' = None) ∧ (∀ k, ¬ has_thumb s hs k → file k s' = file k s).

Lemma delete_all_spec keys c path :
  Content.files (foldl (λ c t, (Content.delete t c).1) c keys) !! path =
  if decide (path ∈ Content.hash_to_path <$> keys) then None else Content.files c !! path.
Proof.
  revert c. induction keys as [|key keys IH]; intros c; cbn [foldl].
  - by rewrite decide_False by (apply not_elem_of_nil).
  - rewrite IH, lookup_files_delete. cbn [fmap list_fmap].
    destruct (decide (path ∈ Content.hash_to_path <$> keys)), (decide (path = Content.hash_to_path key)),
      (decide (path ∈ Content.hash_to_path key :: (Content.hash_to_path <$> keys))); rewrite ?elem_of_cons in *; naive_solver.
Qed.

Lemma drop_media_spec s h : media_dropped s (drop_media s h) [h].
Proof.
  unfold drop_media. set (mine := rows_where (media_of h) (attachments (db s))).
  assert (Hmine : ∀ id a, mine !! id = Some a ↔ attachments (db s) !! id = Some a ∧ a_post_hash a = h).
  { intros id a. unfold mine, media_of. by rewrite lookup_rows_where, bool_decide_eq_true. }
  assert (Hth : ∀ k, k ∈ omap (λ kv, a_thumbnail_hash kv.2) (map_to_list mine) ↔ has_thumb s [h] k).
  { intros k. rewrite list_elem_of_omap. split.
    - intros ([id a] & Hin & Hk). apply elem_of_map_to_list, Hmine in Hin as [Hl <-]. exists id, a. set_solver.
    - intros (id & a & Hl & Hp & Hk). exists (id, a). split; [|done]. apply elem_of_map_to_list, Hmine. set_solver. }
  split_and!; try done; cbn [db attachments media_chunks with_attachments with_chunks].
  - intros id a. rewrite lookup_delete_where. unfold media_of. rewrite bool_decide_eq_false. set_solver.
  - intros k c. rewrite lookup_delete_where, bool_decide_eq_false, <- eq_None_not_Some. unfold chunk_kept. apply and_iff_compat_l.
    destruct (mine !! ck_media_id c) as [a|] eqn:E.
    + apply Hmine in E as [E <-]. split; [done|]. intros Hk. by specialize (Hk a E ltac:(set_solver)).
    + split; [|done]. intros _ a Ha Hp. apply list_elem_of_singleton in Hp. by rewrite (proj2 (Hmine _ _) (conj Ha Hp)) in E.
  - intros k Hk. unfold file. cbn [content]. rewrite delete_all_spec, decide_True; [done|]. apply list_elem_of_fmap_2. by rewrite Hth.
  - intros k Hk. unfold file. cbn [content]. rewrite delete_all_spec, decide_False; [done|].
    intros (k' & E & Hin)%list_elem_of_fmap. apply Content.hash_to_path_inj in E as ->. by apply Hk, Hth.
Qed.

Lemma media_dropped_trans s1 s2 s3 hs hs' :
  media_dropped s1 s2 hs → media_dropped s2 s3 hs' → media_dropped s1 s3 (hs ++ hs').
Proof.
  intros (A1 & A2 & A3 & A4 & A5 & A6 & A7) (B1 & B2 & B3 & B4 & B5 & B6 & B7).
  assert (Hth : ∀ k, has_thumb s1 (hs ++ hs') k ↔ has_thumb s1 hs k ∨ has_thumb s2 hs' k).
  { intros k. unfold has_thumb. setoid_rewrite A4. setoid_rewrite elem_of_app. split; [|naive_solver].
    intros (id & a & Hl & Hp & Hk). destruct (decide (a_post_hash a ∈ hs)); naive_solver. }
  split_and!; [congruence..| | | |].
  - intros id a. rewrite B4, A4, not_elem_of_app. tauto.
  - intros k c. rewrite B5, A5. unfold chunk_kept. setoid_rewrite A4. setoid_rewrite not_elem_of_app. naive_solver.
  - intros k Hk. destruct (decide (file k s3 = None)) as [|Hne]; [done|]. apply Hth in Hk as [Hk|Hk]; [|by apply B6].
    assert (Hn : ¬ has_thumb s2 hs' k) by (intros Hk'; by apply Hne, B6). rewrite B7 by done. by apply A6.
  - intros k Hk. rewrite Hth in Hk. rewrite B7, A7 by tauto. done.
Qed.

Lemma drop_all_spec hs s : media_dropped s (foldl drop_media s hs) hs.
Proof.
  revert s. induction hs as [|h hs IH]; intros s; cbn [foldl].
  - split_and!; try done; unfold chunk_kept, has_thumb; set_solver.
  - apply (media_dropped_trans _ (drop_media s h) _ [h]); [apply drop_media_spec|apply IH].
Qed.

(** What the statements of phase 4b leave alone. *)
Lemma empty_days_spec dates st k :
  let st' := foldl (λ st date,
    if Content.is_day_partition_empty date (content st.1)
    then let '(c, found) := Content.delete_day_partition date (content st.1) in
         (with_content c st.1, if (found : bool) then S st.2 else st.2)
    else st) (st : Disk * nat) dates in
  db st'.1 = db st.1 ∧ file k st'.1 = file k st.1.
Proof.
  revert st. induction dates as [|date dates IH]; intros [s n]; cbn [foldl]; [done|].
  match goal with |- context [foldl _ ?x dates] => destruct (IH x) as [H1 H2]; rewrite H1, H2; clear H1 H2 IH end.
  cbn [fst snd]. destruct (Content.is_day_partition_empty date (content s)); [|done].
  unfold Content.delete_day_partition. case_bool_decide; [|done]. split; [done|]. unfold file. cbn [fst content with_content Content.files].
  destruct (Content.files (content s) !! Content.hash_to_path k) as [b|] eqn:E.
  - apply map_lookup_filter_Some. split; [done|]. cbn [fst]. unfold Content.in_day. apply bool_decide_eq_false.
    unfold Content.hash_to_path. cbn [take]. intros Ep. injection Ep as Ep _. apply (f_equal length) in Ep.
    rewrite length_take in Ep. change (length (lit "content")) with 7 in Ep. lia.
  - apply map_lookup_filter_None. by left.
Qed.

Definition batch (config : GcConfig) (now : Z) (s : Disk) : list (bytes * Stored) :=
  take (batch_size config) (select_where (is_expired now) (posts (db s))).

(** What one sweep leaves, when no epoch key is recorded. *)
Record swept (now : Z) (s : Disk) (B : list (bytes * Stored)) (s' : Disk) : Prop := MkSwept {
  sw_epochs : epoch_keys (db s') = ∅;
  sw_posts : posts (db s') =
    delete_where (is_spent now) (update_where (λ k _, bool_decide (k ∈ B.*1)) (entomb now) (posts (db s)));
  sw_messages : messages (db s') = delete_where (λ _ m, (m_expires_at m <? now)%Z) (messages (db s));
  sw_attachments id a : attachments (db s') !! id = Some a ↔ attachments (db s) !! id = Some a ∧ a_post_hash a ∉ B.*1;
  sw_chunks k c : media_chunks (db s') !! k = Some c ↔ media_chunks (db s) !! k = Some c ∧ chunk_kept s B.*1 c;
  sw_gone k : k ∈ blob_key <$> B.*2 ∨ has_thumb s B.*1 k → file k s' = None;
  sw_stays k : k ∉ blob_key <$> B.*2 → ¬ has_thumb s B.*1 k → file k s' = file k s
}.

Lemma phase4_spec config s : epoch_keys (db s) = ∅ →
  db (phase4 config s).1 = db s ∧ ∀ k, file k (phase4 config s).1 = file k s.
Proof.
  intros He. unfold phase4. assert (Hd : ∀ h p, in_dead_epoch (db s) h p = false) by (intros h p; unfold in_dead_epoch; by rewrite He).
  assert (Hsel : select_where (in_dead_epoch (db s)) (posts (db s)) = []).
  { apply nil_length_inv. rewrite length_select_where. apply Nat.le_0_r, Nat.nlt_ge. rewrite count_where_pos.
    intros (h & p & _ & E). by rewrite Hd in E. }
  rewrite Hsel, take_nil. cbn [fmap list_fmap foldl].
  assert (Hdel : delete_where (in_dead_epoch (db s)) (posts (db s)) = posts (db s)).
  { apply map_filter_id. intros h p _. cbn [fst snd]. apply Hd. }
  rewrite Hdel. set (s1 := with_db _ s). set (st := foldl _ (s1, 0) _).
  pose proof (λ k, empty_days_spec (Content.list_day_partitions (content s1)) (s1, 0) k) as Hf. fold st in Hf. cbv zeta in Hf.
  destruct st as [s2 n]. cbn [fst] in *. split.
  - rewrite (proj1 (Hf [])). unfold s1. by destruct s as [[] ?].
  - intros k. by rewrite (proj2 (Hf k)).
Qed.

Lemma sweep_spec config now s : epoch_keys (db s) = ∅ → swept now s (batch config now s) (sweep config now s).1.
Proof.
  intros He. unfold sweep, phase1. fold (batch config now s). set (B := batch config now s).
  destruct (delete_blobs_spec ((λ kv, blob_key kv.2) <$> B) (s, 0)) as [Hd1 Hf1].
  destruct (foldl delete_blob (s, 0) _) as [s1 n1]. cbn [fst] in Hd1, Hf1.
  destruct (drop_all_spec B.*1 s1) as (C1 & C2 & C3 & C4 & C5 & C6 & C7). set (s2 := foldl drop_media s1 B.*1) in *. clearbody s2.
  assert (Hth : ∀ k, has_thumb s1 B.*1 k ↔ has_thumb s B.*1 k) by (intros k; unfold has_thumb; by rewrite Hd1).
  assert (Hk : (λ kv : bytes * Stored, blob_key kv.2) <$> B = blob_key <$> B.*2) by (by rewrite <- list_fmap_compose).
  rewrite Hk in Hf1. unfold phase2. cbn [db with_db posts with_posts with_messages messages]. unfold phase3.
  cbn [db with_db posts with_posts epoch_keys with_epoch_keys with_messages].
  rewrite C3, Hd1, He. match goal with |- context [phase4 config ?x] => set (s3 := x) end.
  assert (He3 : epoch_keys (db s3) = ∅) by (unfold s3; cbn; apply map_eq; intros i; by rewrite lookup_update_where, lookup_empty).
  destruct (phase4_spec config s3 He3) as [Hd4 Hf4]. destruct (phase4 config s3) as [s4 [n4 m4]]. cbn [fst] in *.
  constructor; intros *; rewrite ?Hd4, ?Hf4; unfold s3; cbn [db with_db posts with_posts epoch_keys with_epoch_keys with_messages messages attachments media_chunks].
  - exact He3.
  - by rewrite C1, Hd1.
  - by rewrite C2, Hd1.
  - by rewrite C4, Hd1.
  - rewrite C5, Hd1. unfold chunk_kept. by rewrite Hd1.
  - change (file k (with_db _ (with_db _ (with_db _ s2)))) with (file k s2). intros [Hin|Ht]; [|by apply C6, Hth].
    destruct (decide (file k s2 = None)) as [|Hne]; [done|]. rewrite C7 by (intros Ht; by apply Hne, C6). by rewrite Hf1, decide_True.
  - change (file k (with_db _ (with_db _ (with_db _ s2)))) with (file k s2). intros Hin Ht.
    rewrite C7 by (by rewrite Hth). by rewrite Hf1, decide_False.
Qed.

Lemma elem_of_batch config now s h p : (h, p) ∈ batch config now s → posts (db s) !! h = Some p ∧ is_expired now h p = true.
Proof. unfold batch. intros Hin. by apply elem_of_take in Hin as (i & Hi%list_elem_of_lookup_2%elem_of_select_where & _). Qed.

Lemma batch_keys config now s h : h ∈ (batch config now s).*1 → ∃ p, posts (db s) !! h = Some p ∧ is_expired now h p = true.
Proof. intros ([h' p] & -> & Hin)%list_elem_of_fmap. exists p. by apply (elem_of_batch config). Qed.

(** Nothing is spent and nothing returns in between. *)
Lemma swept_post now s B s' h p : swept now s B s' →
  posts (db s') !! h = Some p ↔
  is_spent now h p = false ∧ ∃ p0, posts (db s) !! h = Some p0 ∧ p = if bool_decide (h ∈ B.*1) then entomb now p0 else p0.
Proof.
  intros Hs. rewrite (sw_posts _ _ _ _ Hs), lookup_delete_where, lookup_update_where, fmap_Some. tauto.
Qed.

Lemma swept_absent now s B s' k : swept now s B s' → file k s = None → file k s' = None.
Proof.
  intros Hs Hk. destruct (decide (file k s' = None)) as [|Hne]; [done|]. rewrite (sw_stays _ _ _ _ Hs); [done| |].
  - intros Hin. apply Hne, (sw_gone _ _ _ _ Hs). by left.
  - intros Ht. apply Hne, (sw_gone _ _ _ _ Hs). by right.
Qed.

(** The content of the post [p] stored under [h] in [s0] is gone. *)
Record disposed (now : Z) (s0 : Disk) (h : bytes) (p : Stored) (s : Disk) : Prop := MkDisposed {
  dp_row : (0 ≤ r_ttl_seconds (row p))%Z → posts (db s) !! h = Some (entomb now p);
  dp_blob : file (blob_key p) s = None;
  dp_attachments id a : attachments (db s) !! id = Some a → a_post_hash a ≠ h;
  dp_chunks k c : media_chunks (db s) !! k = Some c → chunk_kept s0 [h] c;
  dp_thumbs k : has_thumb s0 [h] k → file k s = None
}.
Record waiting (s0 : Disk) (h : bytes) (p : Stored) (s : Disk) : Prop := MkWaiting {
  wt_row : posts (db s) !! h = Some p;
  wt_attachments id a : a_post_hash a = h → attachments (db s) !! id = Some a ↔ attachments (db s0) !! id = Some a
}.

Lemma entombed_stays now h p : (0 ≤ r_ttl_seconds (row p))%Z → is_spent now h (entomb now p) = false.
Proof. intros Ht. unfold is_spent. cbn. apply Z.ltb_ge. lia. Qed.

Lemma disposed_sweep config now s0 h p s : epoch_keys (db s) = ∅ → disposed now s0 h p s → disposed now s0 h p (sweep config now s).1.
Proof.
  intros He Hd. pose proof (sweep_spec config now s He) as Hs. constructor.
  - intros Ht. pose proof (dp_row _ _ _ _ _ Hd Ht) as Hr. apply (swept_post _ _ _ _ _ _ Hs). split; [by apply entombed_stays|].
    exists (entomb now p). split; [done|]. rewrite bool_decide_false; [done|].
    intros (p' & Hl & Hx)%batch_keys. rewrite Hr in Hl. injection Hl as <-. unfold is_expired in Hx. cbn in Hx. by rewrite andb_false_r in Hx.
  - by apply (swept_absent _ _ _ _ _ Hs), Hd.
  - intros id a [Hl _]%(sw_attachments _ _ _ _ Hs). by apply (dp_attachments _ _ _ _ _ Hd id).
  - intros k c [Hl _]%(sw_chunks _ _ _ _ Hs). by apply (dp_chunks _ _ _ _ _ Hd k).
  - intros k Hk. apply (swept_absent _ _ _ _ _ Hs). by apply (dp_thumbs _ _ _ _ _ Hd).
Qed.

Lemma waiting_sweep config now s0 h p s : epoch_keys (db s) = ∅ → is_expired now h p = true → waiting s0 h p s →
  disposed now s0 h p (sweep config now s).1 ∨ waiting s0 h p (sweep config now s).1.
Proof.
  intros He Hx Hw. pose proof (sweep_spec config now s He) as Hs. destruct Hw as [Hr Ha].
  destruct (decide (h ∈ (batch config now s).*1)) as [Hin|Hout].
  - left. assert (HB : (h, p) ∈ batch config now s).
    { apply list_elem_of_fmap in Hin as ([h' p'] & E & Hin). cbn in E. subst h'.
      pose proof (proj1 (elem_of_batch config now s h p' Hin)). by simplify_eq. }
    constructor.
    + intros Ht. apply (swept_post _ _ _ _ _ _ Hs). split; [by apply entombed_stays|]. exists p. by rewrite bool_decide_true.
    + apply (sw_gone _ _ _ _ Hs). left. rewrite <- list_fmap_compose. by apply (list_elem_of_fmap_2 (blob_key ∘ snd) _ (h, p)).
    + intros id a [Hl Hn]%(sw_attachments _ _ _ _ Hs) E. by rewrite E in Hn.
    + intros k c [_ Hk]%(sw_chunks _ _ _ _ Hs) a Ha0 Hp%list_elem_of_singleton. apply (Hk a); [by apply Ha|by rewrite Hp].
    + intros k (id & a & Hl & Hp%list_elem_of_singleton & Hk). apply (sw_gone _ _ _ _ Hs). right. exists id, a.
      split_and!; [by apply Ha|by rewrite Hp|done].
  - right. constructor.
    + apply (swept_post _ _ _ _ _ _ Hs). split; [|exists p; by rewrite bool_decide_false].
      unfold is_expired in Hx. unfold is_spent. by destruct (is_tombstone p); [rewrite andb_false_r in Hx|].
    + intros id a E. rewrite (sw_attachments _ _ _ _ Hs), E. rewrite <- (Ha id a E). tauto.
Qed.

(** A sweep takes a batch off the posts that are due. *)
Lemma due_decreases config now s : epoch_keys (db s) = ∅ →
  count_where (is_expired now) (posts (db (sweep config now s).1)) ≤ count_where (is_expired now) (posts (db s)) - batch_size config.
Proof.
  intros He. pose proof (sweep_spec config now s He) as Hs. unfold count_where. set (t' := rows_where _ (posts (db (sweep _ _ _).1))).
  set (t := rows_where (is_expired now) (posts (db s))).
  assert (Hnd : NoDup (batch config now s).*1).
  { unfold batch, select_where. rewrite fmap_take. apply (sublist_NoDup _ ((map_to_list t).*1)); [apply NoDup_fst_map_to_list|apply sublist_take]. }
  assert (Hlen : length (batch config now s).*1 = Nat.min (batch_size config) (size t)).
  { unfold batch. rewrite length_fmap, length_take, length_select_where. done. }
  assert (Hsub : dom t' ⊆ dom t ∖ list_to_set (batch config now s).*1).
  { intros h [p Hp]%elem_of_dom. apply lookup_rows_where in Hp as [Hp Hx]. apply (swept_post _ _ _ _ _ _ Hs) in Hp as (_ & p0 & Hl & ->).
    case_bool_decide as Hin; [unfold is_expired in Hx; cbn in Hx; by rewrite andb_false_r in Hx|].
    apply elem_of_difference. rewrite elem_of_list_to_set. split; [|done]. apply elem_of_dom. exists p0. by apply lookup_rows_where. }
  assert (Hin : list_to_set (C := gset bytes) (batch config now s).*1 ⊆ dom t).
  { intros h Hh%elem_of_list_to_set%batch_keys. apply elem_of_dom. destruct Hh as (p & ? & ?). exists p. by apply lookup_rows_where. }
  apply subseteq_size in Hsub. rewrite size_difference, size_list_to_set, !size_dom, Hlen in Hsub by done. lia.
Qed.

(** C15. Repeated sweeps finish: when no epoch key is recorded, as many sweeps
    as batches are due leave no live post that has expired; of each of them the
    blob, the attachments with their chunks and thumbnails are gone, and a
    tombstone of that moment stays. *)
Theorem gc_converges (config : GcConfig) (now : Z) (s : Disk) (n : nat)
    (He : epoch_keys (db s) = ∅) (Hn : count_where (is_expired now) (posts (db s)) ≤ n * batch_size config) :
  let s' := sweeps config (replicate n now) s in
  (∀ h p, posts (db s') !! h = Some p → is_expired now h p = false) ∧
  ∀ h p, posts (db s) !! h = Some p → is_expired now h p = true → disposed now s h p s'.
Proof.
  intros s'. assert (Hgo : ∀ s1, epoch_keys (db s1) = ∅ → count_where (is_expired now) (posts (db s1)) ≤ n * batch_size config →
    (∀ h p, posts (db s) !! h = Some p → is_expired now h p = true → disposed now s h p s1 ∨ waiting s h p s1) →
    let s' := sweeps config (replicate n now) s1 in count_where (is_expired now) (posts (db s')) = 0 ∧
    ∀ h p, posts (db s) !! h = Some p → is_expired now h p = true → disposed now s h p s' ∨ waiting s h p s').
  { clear s' Hn. induction n as [|n IH]; intros s1 He1 Hle Hinv; cbn [replicate sweeps foldl].
    - split; [lia|done].
    - apply IH; [apply (sw_epochs _ _ _ _ (sweep_spec config now s1 He1))| |].
      + pose proof (due_decreases config now s1 He1). lia.
      + intros h p Hp Hx. destruct (Hinv h p Hp Hx) as [Hd|Hw]; [left; by apply disposed_sweep|by apply waiting_sweep]. }
  destruct (Hgo s He Hn) as [Hz Hinv].
  { intros h p Hp _. right. by constructor. }
  fold s' in Hz, Hinv. assert (Hnone : ∀ h p, posts (db s') !! h = Some p → is_expired now h p = false).
  { intros h p Hp. apply not_true_is_false. intros Hx. assert (0 < count_where (is_expired now) (posts (db s'))) by (apply count_where_pos; eauto). lia. }
  split; [done|]. intros h p Hp Hx. destruct (Hinv h p Hp Hx) as [|[Hr _]]; [done|]. apply Hnone in Hr. congruence.
Qed.

(** Only the post [h] uses the file [k]. *)
Definition sole_owner (s : Disk) (h : bytes) (k : str) : Prop :=
  (∀ h' p', posts (db s) !! h' = Some p' → h' ≠ h → blob_key p' ≠ k) ∧
  (∀ id a, attachments (db s) !! id = Some a → a_thumbnail_hash a = Some k → a_post_hash a = h).
Definition spared (ts : list Z) (s : Disk) (h : bytes) : Prop :=
  ∀ p t, posts (db s) !! h = Some p → t ∈ ts → is_expired t h p = false.

Lemma sole_owner_sweep config now s h k : epoch_keys (db s) = ∅ → sole_owner s h k → sole_owner (sweep config now s).1 h k.
Proof.
  intros He [H1 H2]. pose proof (sweep_spec config now s He) as Hs. split.
  - intros h' p' Hp Hne. apply (swept_post _ _ _ _ _ _ Hs) in Hp as (_ & p0 & Hl & ->). specialize (H1 h' p0 Hl Hne). by case_bool_decide.
  - intros id a [Hl _]%(sw_attachments _ _ _ _ Hs). by apply (H2 id).
Qed.

Lemma spared_sweep config now ts s h : epoch_keys (db s) = ∅ → spared ts s h → spared ts (sweep config now s).1 h.
Proof.
  intros He Hsp p t Hp Ht. apply (swept_post _ _ _ _ _ _ (sweep_spec config now s He)) in Hp as (_ & p0 & Hl & ->). specialize (Hsp p0 t Hl Ht).
  case_bool_decide; [|done]. unfold is_expired. cbn. by rewrite andb_false_r.
Qed.

End gc.
End Gc.

(* ------------------------------------------------------------------ *)
(** ** Witnesses *)

Section witnesses.
Import Toy HexToy.

Definition sw_nonce : bytes := replicate 24 5%N.
Definition sw_data : bytes := [1; 2; 3]%N.
Definition sw_empty : StoreDb := MkStoreDb ∅ ∅ ∅ ∅ ∅.
Definition sw_disk : Disk := MkDisk sw_empty (Content.open_encrypted (replicate 32 4%N)).

Lemma sw_blobs : Content.blobs_ok (content sw_disk).
Proof. intros hex raw Hl. by destruct (lookup_empty_Some _ _ Hl). Qed.

Lemma content_roundtrip_witness :
  ∃ c' d, Content.put sw_nonce sw_data (content sw_disk) = (c', Ok (Content.to_hex sw_data)) ∧
          Content.get (Content.to_hex sw_data) c' = Ok d ∧ d = sw_data.
Proof.
  destruct (Content.content_roundtrip sw_nonce sw_data (content sw_disk) eq_refl sw_blobs) as (c' & H1 & _ & (d & H2 & _ & H3) & _).
  exists c', d. split; [exact H1|split; [exact H2|apply H3; reflexivity]].
Defined.

Lemma chunk_roundtrip_witness :
  Chunker.reassemble (Chunker.chunk_with_size [1; 2; 3; 4; 5]%N 2) = Ok [1; 2; 3; 4; 5]%N.
Proof. refine (proj1 (Chunker.chunk_roundtrip [1; 2; 3; 4; 5]%N 2 _)). lia. Defined.

Definition sw_image : Media.ProcessedContent := Media.Image (Chunker.content_id sw_data) sw_data [9]%N 1 1.

Lemma sw_fresh : Media.chunks_fresh ∅ (Chunker.chunk (Media.main_bytes sw_image)).
Proof.
  change (Media.main_bytes sw_image) with sw_data. rewrite Chunker.chunk_short; [|done|].
  - split; [apply NoDup_singleton|]. intros c _. apply lookup_empty.
  - unfold Chunker.DEFAULT_CHUNK_SIZE. change (length sw_data) with 3. lia.
Qed.

(** An image is stored with the first post and refused with the next one. *)
Lemma media_roundtrip_witness :
  let '(s', r) := Media.process_and_store sw_nonce 100 (Ok sw_image) (lit "a.png") [1]%N 0 sw_disk in
  is_ok r = true ∧ is_ok (Media.process_and_store sw_nonce 200 (Ok sw_image) (lit "a.png") [2]%N 1 s').2 = false.
Proof.
  pose proof (Media.media_roundtrip sw_nonce 100 sw_image (lit "a.png") [1]%N 0 sw_disk eq_refl sw_blobs) as Hm.
  destruct (Media.process_and_store sw_nonce 100 (Ok sw_image) (lit "a.png") [1]%N 0 sw_disk) as [s' r].
  destruct Hm as (_ & Hiff & Hs).
  - intros k c Hl. by destruct (lookup_empty_Some _ _ Hl).
  - split; reflexivity.
  - assert (Hr : is_ok r = true) by (apply Hiff; split; [apply lookup_empty|exact sw_fresh]).
    split; [exact Hr|]. apply (Hs Hr).
Defined.

Definition sw_row (expires : Z) (blob : str) : Stored :=
  fresh_row (MkRow [1]%N 0 10 expires 3600 None None 0 None 0 0 0 10 1 [] blob).
Definition sw_gc : Gc.GcConfig := Gc.MkGc 60 1.
Definition sw_blob : str := lit "abcd".
Definition sw_posts (p : Stored) : Disk :=
  MkDisk (with_posts {[ [7]%N := p ]} sw_empty)
    (Content.MkContent {[ Content.hash_to_path sw_blob := sw_data ]} ∅ None).

Lemma gc_converges_witness :
  let p := sw_row 100 sw_blob in
  let s' := Gc.sweeps sw_gc [200%Z] (sw_posts p) in
  posts (db s') !! [7]%N = Some (entomb 200 p) ∧ Gc.file sw_blob s' = None.
Proof.
  intros p s'. destruct (Gc.gc_converges sw_gc 200 (sw_posts p) 1 eq_refl) as [_ Hd].
  - cbn. rewrite <- insert_empty, count_where_insert by apply lookup_empty. cbn. reflexivity.
  - destruct (Hd [7]%N p (lookup_singleton_eq _ _) eq_refl) as [Hr Hb _ _ _]. split; [apply Hr; cbn; lia|exact Hb].
Defined.

End witnesses.
