(* ===== verification/Posting.v ===== *)
(** * Posts in the node: [crates/ephemera-node/src]

    Creating, publishing, reading and deleting posts ([services/post.rs]),
    storing posts that arrive by gossip ([gossip_ingest.rs]), tombstones from
    the network ([lib.rs], [moderation_ingest_loop]), reports
    ([services/social.rs], [ModerationService]) and the background tasks over
    the same state ([background.rs]).  Clock readings, random nonces and the
    answers of the media pipeline are arguments; locks are always granted.
    The payloads handed to the two gossip topics are [published] and
    [tombstones], oldest first. *)
From S2P Require Import Prelude Types Crypto Unicode Pow Epoch Post Tables Listing Ingest Float64 Abuse Moderation Store.
Import RateLimit Reputation Fingerprint.

(** [serde_json] on [Post]. *)
Class PostJson := {
  post_to_vec : Post.Post → result string bytes;
  post_from_slice : bytes → option Post.Post
}.
Class PostJsonLaws `{PostJson} : Prop := {
  post_parse p b : post_to_vec p = Ok b → post_from_slice b = Some p
}.

(** What [gossip_ingest_loop] owns besides the shared disk. *)
Record FeedIngest := MkFeed { f_limiter : RateLimiter; f_fingerprints : FingerprintStore; f_filter : Filter.ContentFilter }.

Record Node := MkNode {
  disk : Disk;
  limiter : RateLimiter;
  reputation : gmap bytes ReputationScore;
  fingerprints : FingerprintStore;
  content_filter : Filter.ContentFilter;
  epoch_keys : option EpochKeyManager;
  reports : Reports.ReportService;
  report_rows : gmap (bytes * bytes) (str * Z);
  feed : FeedIngest;
  signing_seed : option bytes;
  master_secret : option bytes;
  published : list bytes;
  tombstones : list bytes
}.
Definition with_disk x n := MkNode x (limiter n) (reputation n) (fingerprints n) (content_filter n) (epoch_keys n) (reports n) (report_rows n) (feed n) (signing_seed n) (master_secret n) (published n) (tombstones n).
Definition with_limiter x n := MkNode (disk n) x (reputation n) (fingerprints n) (content_filter n) (epoch_keys n) (reports n) (report_rows n) (feed n) (signing_seed n) (master_secret n) (published n) (tombstones n).
Definition with_reputation x n := MkNode (disk n) (limiter n) x (fingerprints n) (content_filter n) (epoch_keys n) (reports n) (report_rows n) (feed n) (signing_seed n) (master_secret n) (published n) (tombstones n).
Definition with_fingerprints x n := MkNode (disk n) (limiter n) (reputation n) x (content_filter n) (epoch_keys n) (reports n) (report_rows n) (feed n) (signing_seed n) (master_secret n) (published n) (tombstones n).
Definition with_epoch_manager x n := MkNode (disk n) (limiter n) (reputation n) (fingerprints n) (content_filter n) x (reports n) (report_rows n) (feed n) (signing_seed n) (master_secret n) (published n) (tombstones n).
Definition with_reports x n := MkNode (disk n) (limiter n) (reputation n) (fingerprints n) (content_filter n) (epoch_keys n) x (report_rows n) (feed n) (signing_seed n) (master_secret n) (published n) (tombstones n).
Definition with_report_rows x n := MkNode (disk n) (limiter n) (reputation n) (fingerprints n) (content_filter n) (epoch_keys n) (reports n) x (feed n) (signing_seed n) (master_secret n) (published n) (tombstones n).
Definition with_feed x n := MkNode (disk n) (limiter n) (reputation n) (fingerprints n) (content_filter n) (epoch_keys n) (reports n) (report_rows n) x (signing_seed n) (master_secret n) (published n) (tombstones n).
Definition with_identity seed master n := MkNode (disk n) (limiter n) (reputation n) (fingerprints n) (content_filter n) (epoch_keys n) (reports n) (report_rows n) (feed n) seed master (published n) (tombstones n).
Definition with_published x n := MkNode (disk n) (limiter n) (reputation n) (fingerprints n) (content_filter n) (epoch_keys n) (reports n) (report_rows n) (feed n) (signing_seed n) (master_secret n) x (tombstones n).
Definition with_tombstones x n := MkNode (disk n) (limiter n) (reputation n) (fingerprints n) (content_filter n) (epoch_keys n) (reports n) (report_rows n) (feed n) (signing_seed n) (master_secret n) (published n) x.

(** The messages [create] can fail with. *)
Inductive PostFailure :=
| IdentityLocked
| RateLimitedBy (e : ProofOfWork.AbuseError)
| AccountTooNew
| NearDuplicate
| ContentBlocked (reason : string)
| BadTtl (e : EphemeraError)
| BadHash (reason : string)
| MediaProcessing (e : string)
| BuildFailed (e : PostError)
| PowFailed (e : abort)
| SerializeFailed (e : string)
| BlobFailed (e : StoreError)
| InsertFailed
| MediaFailed (e : Failure)
| PostNotFound
| ReportFailed (e : ModerationError).

Record MediaFile := MkMedia {
  filename : str;
  processed : result string Media.ProcessedContent;
  media_nonce : bytes;
  media_stored_at : Z
}.

(** The readings and random bytes one [create] uses, and the number of
    nonces the proof of work may try. *)
Record Env := MkEnv {
  readings : Readings;
  built_at : N;
  pow_fuel : nat;
  blob_nonce : bytes;
  epoch_now : N;
  epoch_nonce : bytes;
  stored_at : N
}.

Record Created := MkCreated {
  created_hash : str;
  created_blob : str;
  created_at : Z;
  created_expires_at : Z;
  created_media_count : Z
}.

(** [hex::decode] of a 32-byte content hash, as a wire key. *)
Section hashes.
Context `{Hex}.
Definition parse_hash (message : string) (hash_hex : str) : result PostFailure ContentId :=
  match hex_decode hash_hex with
  | None => Err (BadHash "bad hash")
  | Some b => if Nat.eqb (length b) 32 then Ok (from_digest b) else Err (BadHash message)
  end.
End hashes.

(** BLAKE3 outputs bytes. *)
Class HashBytes `{Primitives} : Prop := { blake3_bytes m : Forall byte_ok (blake3_hash m) }.

Section posting.
Context `{Primitives, Hex, Canonical, PostJson, CharClass, Json}.

(* ------------------------------------------------------------------ *)
(** ** Creating a post *)

Definition media_hash (file : MediaFile) : result PostFailure ContentId :=
  match processed file with
  | Err e => Err (MediaProcessing e)
  | Ok p => Ok (Media.processed_hash p)
  end.
Fixpoint media_hashes (files : list MediaFile) : result PostFailure (list ContentId) :=
  match files with
  | [] => Ok []
  | f :: fs => let? h := media_hash f in let? hs := media_hashes fs in Ok (h :: hs)
  end.

(** Media is attached only by an account past its warming period. *)
Definition may_attach (who : bytes) (n : Node) : bool :=
  has_capability AttachPhotos (default Reputation.new (reputation n !! who)).

Definition check_spam (body : str) : SE Node PostFailure unit :=
  let! dup := se_zoom fingerprints with_fingerprints (λ s, let '(s, b) := check_and_record body s in (s, Ok b)) in
  se_lift (if (dup : bool) then Err NearDuplicate else Ok tt).
Definition check_filter (body : str) : SE Node PostFailure unit :=
  let! n := se_get in
  se_lift match Filter.check_text (content_filter n) body with Filter.Block reason => Err (ContentBlocked reason) | _ => Ok tt end.

Definition builder (body : str) (t : Ttl) (parent : option ContentId) (hashes : list ContentId) : PostBuilder :=
  let b := with_ttl t (text body Post.new) in
  let b := match parent with Some p => reply_to p p 1 b | None => b end in
  foldl (λ b h, attachment h b) b hashes.

(** The copy under the epoch key: a failure is only logged. *)
Definition epoch_encrypt (now : N) (nonce post_bytes : bytes) : SE Node PostFailure (option bytes * option Z) := λ n,
  match epoch_keys n with
  | None => (n, Ok (None, None))
  | Some ekm =>
      let '(ekm, r) := encrypt_with_current_epoch now nonce post_bytes ekm in
      (with_epoch_manager (Some ekm) n, Ok match r with
        | Ok (epoch_id, sealed) => (Some sealed, Some (as_i64 epoch_id))
        | Err _ => (None, None)
        end)
  end.

Definition post_row (now : Z) (t : Ttl) (body : str) (media_count : nat) (difficulty : N) (blob : str)
    (sealed : option bytes * option Z) (p : Post.Post) : Stored :=
  MkStored (MkRow (author p) 0 now (add_i64 now (as_i64 (ttl_secs t))) (as_i64 (ttl_secs t))
      (to_wire_bytes <$> parent p) (to_wire_bytes <$> root p) (Z.of_N (depth p)) (Some (take 280 body))
      (Z.of_nat media_count) (if Nat.eqb media_count 0 then 0 else 1) (Z.of_N difficulty) now 1 (signature p) blob)
    false None sealed.1 sealed.2.

(** [INSERT INTO posts]. *)
Definition insert_post (key : bytes) (r : Stored) : SE Node PostFailure unit := λ n,
  match insert_new key r (posts (db (disk n))) with
  | Some t => (with_disk (with_db (with_posts t (db (disk n))) (disk n)) n, Ok tt)
  | None => (n, Err InsertFailed)
  end.

Fixpoint store_media (key : bytes) (i : nat) (files : list MediaFile) : SE Node PostFailure unit :=
  match files with
  | [] => se_ret tt
  | f :: fs =>
      let! _ := se_map_err MediaFailed (se_zoom disk with_disk
        (Media.process_and_store (media_nonce f) (media_stored_at f) (processed f) (filename f) key i)) in
      store_media key (S i) fs
  end.

Definition put_blob (nonce b : bytes) : SE Node StoreError str := se_zoom disk with_disk (Media.put nonce b).

(** The steps after the post is built. *)
Definition store_created (e : Env) (t : Ttl) (body : str) (files : list MediaFile) (p : Post.Post) :
    SE Node PostFailure Created :=
  let! pow_stamp := se_lift (map_err PowFailed (generate_pow (pow_fuel e) (hash_bytes (id p)) 8)) in
  let! post_bytes := se_lift (map_err SerializeFailed (post_to_vec p)) in
  let! blob_hash := se_map_err BlobFailed (put_blob (blob_nonce e) post_bytes) in
  let! sealed := epoch_encrypt (epoch_now e) (epoch_nonce e) post_bytes in
  let now := as_i64 (stored_at e) in
  let key := to_wire_bytes (id p) in
  let! _ := insert_post key (post_row now t body (length files) (difficulty pow_stamp) blob_hash sealed p) in
  let! _ := store_media key 0 files in
  se_ret (MkCreated (hex_encode (hash_bytes (id p))) blob_hash now (add_i64 now (as_i64 (ttl_secs t))) (Z.of_nat (length files))).

Definition parse_parent (parent : option str) : result PostFailure (option ContentId) :=
  match parent with
  | None => Ok None
  | Some h => result_map Some (parse_hash "parent hash must be 32 bytes" h)
  end.

Definition signing_keypair : SE Node PostFailure bytes :=
  let! n := se_get in se_lift (ok_or (signing_seed n) IdentityLocked).

Definition create (e : Env) (body : str) (files : list MediaFile) (ttl_seconds : option N) (parent : option str) :
    SE Node PostFailure Created :=
  let! seed := signing_keypair in
  let identity_key := public_key seed in
  let! _ := se_map_err RateLimitedBy (se_zoom limiter with_limiter (check (readings e) identity_key RateLimit.Post)) in
  let! n := se_get in
  let! _ := se_lift (if negb (bool_decide (files = [])) && negb (may_attach identity_key n) then Err AccountTooNew else Ok tt) in
  let! _ := check_spam body in
  let! _ := check_filter body in
  let! t := se_lift (map_err BadTtl (from_secs (default 86400%N ttl_seconds))) in
  let! parent_hash := se_lift (parse_parent parent) in
  let! hashes := se_lift (media_hashes files) in
  let! p := se_lift (map_err BuildFailed (build (built_at e) seed (builder body t parent_hash hashes))) in
  store_created e t body files p.

(** A failure to publish is only logged. *)
Definition create_and_publish (e : Env) (body : str) (files : list MediaFile) (ttl_seconds : option N) (parent : option str) :
    SE Node PostFailure Created :=
  let! result := create e body files ttl_seconds parent in
  let! n := se_get in
  let! _ := match Content.get (created_blob result) (content (disk n)) with
            | Ok post_bytes => se_modify (with_published (published n ++ [post_bytes]))
            | Err _ => se_ret tt
            end in
  se_ret result.

(* ------------------------------------------------------------------ *)
(** ** Reading posts *)

Record PostView := MkView {
  v_hash : str;
  v_author : str;
  v_body_preview : option str;
  v_created_at : Z;
  v_expires_at : Z;
  v_media_count : Z
}.
Definition view (hash_hex : str) (s : Stored) : PostView :=
  MkView hash_hex (hex_encode (r_author_pubkey (row s))) (r_body_preview (row s)) (r_created_at (row s)) (r_expires_at (row s))
    (r_media_count (row s)).

Definition get (hash_hex : str) (n : Node) : result PostFailure PostView :=
  let? content_id := parse_hash "content hash must be 32 bytes hex" hash_hex in
  match posts (db (disk n)) !! to_wire_bytes content_id with
  | Some s => if is_tombstone s then Err PostNotFound else Ok (view hash_hex s)
  | None => Err PostNotFound
  end.

(** A line of a listing shows the stored key, version byte included. *)
Record PostLine := MkLine {
  l_hash : str;
  l_body_preview : option str;
  l_created_at : Z;
  l_expires_at : option Z
}.
Definition author_line (kv : bytes * Stored) : PostLine :=
  MkLine (hex_encode kv.1) (r_body_preview (row kv.2)) (r_created_at (row kv.2)) (Some (r_expires_at (row kv.2))).
Definition reply_line (kv : bytes * Stored) : PostLine :=
  MkLine (hex_encode kv.1) (r_body_preview (row kv.2)) (r_created_at (row kv.2)) None.

(** [ORDER BY created_at DESC]. *)
Definition created (kv : bytes * Stored) : Z := r_created_at (row kv.2).

Definition by_author (author : bytes) (_ : bytes) (s : Stored) : bool :=
  bool_decide (r_author_pubkey (row s) = author) && negb (is_tombstone s).
Definition list_by_author (author_hex : str) (limit : N) (n : Node) : result PostFailure (list PostLine) :=
  match hex_decode author_hex with
  | None => Err (BadHash "bad author")
  | Some author =>
      Ok (author_line <$> sql_limit limit (newest_first created (select_where (by_author author) (posts (db (disk n))))))
  end.

Definition reply_of (parent_wire : bytes) (_ : bytes) (s : Stored) : bool :=
  bool_decide (r_parent_hash (row s) = Some parent_wire) && negb (is_tombstone s).
Definition replies (parent_hex : str) (limit : N) (n : Node) : result PostFailure (list PostLine) :=
  let? parent_id := parse_hash "parent hash must be 32 bytes hex" parent_hex in
  Ok (reply_line <$>
    sql_limit limit (newest_first created (select_where (reply_of (to_wire_bytes parent_id)) (posts (db (disk n)))))).

(* ------------------------------------------------------------------ *)
(** ** Deleting posts *)

Definition set_posts (t : gmap bytes Stored) (n : Node) : Node := with_disk (with_db (with_posts t (db (disk n))) (disk n)) n.

Definition delete_post (now : N) (hash_hex : str) : SE Node PostFailure unit :=
  let! content_id := se_lift (parse_hash "content hash must be 32 bytes hex" hash_hex) in
  let wire := to_wire_bytes content_id in
  let! n := se_get in
  let! _ := se_modify (set_posts (alter (entomb (as_i64 now)) wire (posts (db (disk n))))) in
  se_lift (if bool_decide (is_Some (posts (db (disk n)) !! wire)) then Ok tt else Err PostNotFound).

Definition tombstone_message (hash_hex author_hex : str) (now : N) : list (string * field) :=
  [("type"%string, FStr (lit "tombstone")); ("content_hash"%string, FStr hash_hex); ("author"%string, FStr author_hex);
   ("tombstoned_at"%string, FU64 now)].

Definition delete_and_propagate (now now' : N) (network : bool) (hash_hex : str) : SE Node PostFailure unit :=
  let! _ := delete_post now hash_hex in
  if network then
    let! seed := signing_keypair in
    let! n := se_get in
    match object_to_vec (tombstone_message hash_hex (hex_encode (public_key seed)) now') with
    | Ok payload => se_modify (with_tombstones (tombstones n ++ [payload]))
    | Err _ => se_ret tt
    end
  else se_ret tt.

(* ------------------------------------------------------------------ *)
(** ** Posts and tombstones from the network *)

Definition store_received (now : N) (nonce post_bytes : bytes) (p : Post.Post) : SE Node PostFailure unit :=
  let! blob_hash := se_map_err BlobFailed (put_blob nonce post_bytes) in
  let! n := se_get in
  se_modify (set_posts (insert_or_ignore (to_wire_bytes (id p)) (fresh_row (row_of now blob_hash p)) (posts (db (disk n))))).

(** [now1] and [now2] are read by the validation, [now3] when storing. *)
Record FeedEnv := MkFeedEnv { fe_readings : Readings; now1 : N; now2 : N; now3 : N; fe_nonce : bytes }.

(** The checks between validation and storage: the state they leave, and
    whether the post goes on. *)
Definition feed_checks (r : Readings) (p : Post.Post) (f : FeedIngest) : FeedIngest * bool :=
  let '(l, res) := check r (author p) RateLimit.Post (f_limiter f) in
  let f := MkFeed l (f_fingerprints f) (f_filter f) in
  if negb (is_ok res) then (f, false)
  else match text_body (Post.content p) with
       | None => (f, true)
       | Some text =>
           let '(s, dup) := check_and_record text (f_fingerprints f) in
           let f := MkFeed (f_limiter f) s (f_filter f) in
           if (dup : bool) then (f, false)
           else (f, match Filter.check_text (f_filter f) text with Filter.Block _ => false | _ => true end)
       end.

(** One message of [gossip_ingest_loop]. *)
Definition ingest_feed (e : FeedEnv) (payload : bytes) (n : Node) : Node :=
  match post_from_slice payload with
  | None => n
  | Some p =>
      match validate_post (now1 e) (now2 e) p with
      | Err _ => n
      | Ok _ =>
          let '(f, go) := feed_checks (fe_readings e) p (feed n) in
          let n := with_feed f n in
          if (go : bool) then (store_received (now3 e) (fe_nonce e) payload p n).1 else n
      end
  end.

(** One message of [moderation_ingest_loop]. *)
Definition apply_tombstone (now : N) (wire : bytes) (n : Node) : Node :=
  match posts (db (disk n)) !! wire with
  | None => n
  | Some s =>
      if is_tombstone s then n
      else
        let n := with_disk (with_content (Content.delete (r_blob_hash (row s)) (content (disk n))).1 (disk n)) n in
        set_posts (<[wire := entomb (as_i64 now) s]> (posts (db (disk n)))) n
  end.
Definition ingest_tombstone (now : N) (payload : bytes) (n : Node) : Node :=
  match value_from_slice payload with
  | None => n
  | Some v =>
      if negb (bool_decide (get_str "type" v = Some (lit "tombstone"))) then n
      else match get_str "content_hash" v with
           | None => n
           | Some content_hash =>
               match hex_decode content_hash with
               | Some b => if Nat.eqb (length b) 32 then apply_tombstone now (to_wire_bytes (from_digest b)) n else n
               | None => n
               end
           end
  end.

(* ------------------------------------------------------------------ *)
(** ** Reports *)

Definition MAX_REPORTS_PER_REPORTER_PER_DAY : nat := 20.
Definition TOMBSTONE_THRESHOLD : nat := 5.

Inductive ReportOutcome := Queued | Reported | Tombstoned (report_count : nat).

Definition parse_reason (s : str) : Reports.ReportReason :=
  if bool_decide (s = lit "harassment") then Reports.Harassment
  else if bool_decide (s = lit "hate_speech") then Reports.HateSpeech
  else if bool_decide (s = lit "violence") then Reports.Violence
  else if bool_decide (s = lit "spam") then Reports.Spam
  else if bool_decide (s = lit "csam") then Reports.Csam
  else if bool_decide (s = lit "impersonation") then Reports.Impersonation
  else Reports.Other s.
Definition reason_str (r : Reports.ReportReason) : str :=
  match r with
  | Reports.Harassment => lit "harassment" | Reports.HateSpeech => lit "hate_speech" | Reports.Violence => lit "violence"
  | Reports.Spam => lit "spam" | Reports.Csam => lit "csam" | Reports.Impersonation => lit "impersonation"
  | Reports.Other s => s
  end.

Definition lookup_post_author (content_id : ContentId) (n : Node) : option bytes :=
  match posts (db (disk n)) !! to_wire_bytes content_id with
  | Some s => if Nat.eqb (length (r_author_pubkey (row s))) 32 then Some (r_author_pubkey (row s)) else None
  | None => None
  end.

(** [rep_map.entry(author).or_insert_with(..).record_event(e)]. *)
Definition record_reputation (who : bytes) (e : ReputationEvent) (n : Node) : Node :=
  with_reputation (<[who := record_event e (default Reputation.new (reputation n !! who))]> (reputation n)) n.

Definition report (t_report t_row t_delete : N) (hash_hex reason : str) : SE Node PostFailure ReportOutcome :=
  let! seed := signing_keypair in
  let local := public_key seed in
  let! content_id := se_lift (parse_hash "content hash must be 32 bytes hex" hash_hex) in
  let report_reason := parse_reason reason in
  let! n := se_get in
  if MAX_REPORTS_PER_REPORTER_PER_DAY <=? length (base.filter (λ r, Reports.reporter r = local) (reports n)) then se_ret Queued
  else
    let! _ := se_map_err ReportFailed (se_zoom reports with_reports (Reports.create_report t_report local content_id report_reason None)) in
    let! n := se_get in
    let report_count := Reports.reporter_count content_id (reports n) in
    let! _ := se_modify (with_report_rows
      (insert_or_ignore (local, to_wire_bytes content_id) (reason_str report_reason, as_i64 t_row) (report_rows n))) in
    if TOMBSTONE_THRESHOLD <=? report_count then
      let! _ := (λ n, ((delete_post t_delete hash_hex n).1, Ok tt)) in
      let! _ := se_modify (λ n, match lookup_post_author content_id n with
                                | Some author => record_reputation author CommunityTombstone n
                                | None => n
                                end) in
      se_ret (Tombstoned report_count)
    else se_ret Reported.

Definition seed_report (t_report : N) (who : bytes) (what : ContentId) (why : Reports.ReportReason) : SE Node PostFailure unit :=
  let! _ := se_map_err ReportFailed (se_zoom reports with_reports (Reports.create_report t_report who what why None)) in se_ret tt.

(* ------------------------------------------------------------------ *)
(** ** Background tasks *)

Definition run_gc (config : Gc.GcConfig) (now : Z) (n : Node) : Node := with_disk (Gc.sweep config now (disk n)).1 n.

(** One tick of [reputation_decay_loop]. *)
Definition decay_tick (powf : f64 → f64 → f64) (n : Node) : Node :=
  with_reputation (apply_decay powf f64_one <$> reputation n) n.

(** [init_epoch_key_manager] replaces the manager whenever the identity is
    unlocked. *)
Definition init_epoch_key_manager (n : Node) : Node :=
  match master_secret n with Some master => with_epoch_manager (Some (Epoch.new master)) n | None => n end.
(** One tick of [epoch_rotation_loop]. *)
Definition rotation_tick (t_rotate t_destroy : N) (n : Node) : Node :=
  let n := init_epoch_key_manager n in
  match epoch_keys n with
  | None => n
  | Some ekm => with_epoch_manager (Some (destroy_expired_keys_at t_destroy (rotate t_rotate ekm).1).1) n
  end.

(* ------------------------------------------------------------------ *)
(** ** What an operation leaves alone *)

(** Neither posts nor reputations change. *)
Definition quiet (n n' : Node) : Prop :=
  posts (db (disk n')) = posts (db (disk n)) ∧ Store.epoch_keys (db (disk n')) = Store.epoch_keys (db (disk n)) ∧
  reputation n' = reputation n.

Definition keeps {E A} (R : Node → Node → Prop) (m : SE Node E A) : Prop := ∀ n, R n (m n).1.

Section keeps.
Context (R : Node → Node → Prop) `{!PreOrder R}.

Lemma keeps_bind {E A B} (m : SE Node E A) (k : A → SE Node E B) :
  keeps R m → (∀ a, keeps R (k a)) → keeps R (se_bind m k).
Proof.
  intros Hm Hk n. unfold se_bind. specialize (Hm n). destruct (m n) as [n' [a|]]; [|done]. cbn in *.
  etrans; [exact Hm|apply Hk].
Qed.
Lemma keeps_lift_bind {E A B} (r : result E A) (k : A → SE Node E B) :
  (∀ a, r = Ok a → keeps R (k a)) → keeps R (se_bind (se_lift r) k).
Proof. intros Hk n. unfold se_bind, se_lift. destruct r; [by apply Hk|done]. Qed.
Lemma keeps_lift {E A} (r : result E A) : keeps R (se_lift r).
Proof. by intros n. Qed.
Lemma keeps_get {E} : keeps R (@se_get Node E).
Proof. by intros n. Qed.
Lemma keeps_ret {E A} (a : A) : keeps R (@se_ret Node E A a).
Proof. by intros n. Qed.
Lemma keeps_map_err {E F A} (f : E → F) (m : SE Node E A) : keeps R m → keeps R (se_map_err f m).
Proof. intros Hm n. specialize (Hm n). unfold se_map_err. by destruct (m n). Qed.
Lemma keeps_zoom {T E A} (get : Node → T) set (m : SE T E A) : (∀ t n, R n (set t n)) → keeps R (se_zoom get set m).
Proof. intros Hs n. unfold se_zoom. destruct (m (get n)). apply Hs. Qed.
End keeps.

#[local] Instance quiet_preorder : PreOrder quiet.
Proof. split; [done|]. intros a b c (H1' & H2' & H3') (H4' & H5' & H6'). split_and!; congruence. Qed.

Lemma put_frame nonce b d : db (Media.put nonce b d).1 = db d.
Proof. unfold Media.put, se_zoom. by destruct (Content.put nonce b (content d)). Qed.

Definition db_frame {E A} (m : SE Disk E A) : Prop :=
  ∀ d, posts (db (m d).1) = posts (db d) ∧ Store.epoch_keys (db (m d).1) = Store.epoch_keys (db d).
Lemma db_frame_bind {E A B} (m : SE Disk E A) (k : A → SE Disk E B) :
  db_frame m → (∀ a, db_frame (k a)) → db_frame (se_bind m k).
Proof.
  intros Hm Hk d. unfold se_bind. specialize (Hm d). destruct (m d) as [d' [a|]]; [|done]. cbn in *.
  destruct Hm as [<- <-]. apply Hk.
Qed.
Lemma db_frame_map_err {E F A} (f : E → F) (m : SE Disk E A) : db_frame m → db_frame (se_map_err f m).
Proof. intros Hm d. specialize (Hm d). unfold se_map_err. by destruct (m d). Qed.

Lemma media_frame nonce now processed filename key i :
  db_frame (Media.process_and_store nonce now processed filename key i).
Proof.
  assert (Hput : ∀ b, db_frame (Media.put nonce b)) by (intros b d; by rewrite put_frame).
  assert (Hatt : ∀ id a, db_frame (Media.insert_media_attachment id a)).
  { intros id a d. unfold Media.insert_media_attachment. by case_match. }
  assert (Hck : ∀ id cs, db_frame (Media.store_chunks id cs)).
  { intros id cs. induction cs as [|c cs IH]; [done|]. cbn [Media.store_chunks]. apply db_frame_bind; [|done].
    apply db_frame_map_err. intros d. unfold Media.insert_media_chunk. by repeat case_match. }
  destruct processed as [[]|]; [..|done]; cbn [Media.process_and_store];
    unfold Media.store_image, Media.store_video; cbv zeta;
    (apply db_frame_bind; [by apply db_frame_map_err|intros t];
     apply db_frame_bind; [by apply db_frame_map_err|intros _];
     apply db_frame_bind; [done|intros _]; done).
Qed.

Lemma quiet_disk {E A} (m : SE Disk E A) : db_frame m → keeps quiet (se_zoom disk with_disk m).
Proof. intros Hm n. unfold se_zoom. specialize (Hm (disk n)). destruct (m (disk n)) as [d r]. destruct Hm. by split_and!. Qed.

Lemma quiet_media key i files : keeps quiet (store_media key i files).
Proof.
  revert i. induction files as [|f fs IH]; intros i; [apply keeps_ret, _|]. cbn [store_media]. apply keeps_bind; [apply _| |done].
  apply keeps_map_err, quiet_disk, media_frame.
Qed.

Lemma quiet_blob nonce b : keeps quiet (put_blob nonce b).
Proof. apply quiet_disk. intros d. by rewrite put_frame. Qed.

Lemma quiet_epoch now nonce b : keeps quiet (epoch_encrypt now nonce b).
Proof. intros n. unfold epoch_encrypt. destruct (epoch_keys n); [|done]. by destruct (encrypt_with_current_epoch _ _ _ _). Qed.

(** A relation that holds when nothing changes and across the insertion of
    the new row holds across all of [create]. *)
Section create.
Context (R : Node → Node → Prop) `{!PreOrder R} (Rquiet : ∀ n n', quiet n n' → R n n').

Lemma keeps_quiet {E A} (m : SE Node E A) : keeps quiet m → keeps R m.
Proof. intros Hm n. by apply Rquiet. Qed.

Lemma keeps_store_created e t body files p :
  (∀ r, keeps R (insert_post (to_wire_bytes (id p)) r)) → keeps R (store_created e t body files p).
Proof.
  intros Hi. unfold store_created. apply keeps_lift_bind; [apply _|]. intros stamp _. apply keeps_lift_bind; [apply _|]. intros b _.
  apply keeps_bind; [apply _|apply keeps_quiet, keeps_map_err, quiet_blob|intros blob].
  apply keeps_bind; [apply _|apply keeps_quiet, quiet_epoch|intros sealed].
  apply keeps_bind; [apply _|done|intros _]. apply keeps_bind; [apply _|apply keeps_quiet, quiet_media|intros _]. by apply keeps_ret.
Qed.

Lemma keeps_create e body files ttl parent :
  (∀ seed t parent hashes p r, build (built_at e) seed (builder body t parent hashes) = Ok p →
     keeps R (insert_post (to_wire_bytes (id p)) r)) →
  keeps R (create e body files ttl parent).
Proof.
  intros Hi. unfold create.
  apply keeps_bind; [apply _|apply keeps_bind; [apply _|by apply keeps_get|intros n; by apply keeps_lift]|intros seed].
  apply keeps_bind; [apply _|by apply keeps_quiet, keeps_map_err, keeps_zoom|intros _].
  apply keeps_bind; [apply _|by apply keeps_get|intros n]. apply keeps_bind; [apply _|by apply keeps_lift|intros _].
  apply keeps_bind; [apply _|apply keeps_bind; [apply _|by apply keeps_quiet, keeps_zoom|intros dup; by apply keeps_lift]|intros _].
  apply keeps_bind; [apply _|apply keeps_bind; [apply _|by apply keeps_get|intros m; by apply keeps_lift]|intros _].
  apply keeps_lift_bind; [apply _|]. intros t _. apply keeps_lift_bind; [apply _|]. intros ph _. apply keeps_lift_bind; [apply _|]. intros hashes _.
  apply keeps_lift_bind; [apply _|]. intros p Hp. apply keeps_store_created. intros r. destruct (build _ _ _) as [q|] eqn:Eb; [|done].
  injection Hp as ->. by eapply Hi.
Qed.

Lemma keeps_publish e body files ttl parent :
  (∀ seed t parent hashes p r, build (built_at e) seed (builder body t parent hashes) = Ok p →
     keeps R (insert_post (to_wire_bytes (id p)) r)) →
  keeps R (create_and_publish e body files ttl parent).
Proof.
  intros Hi. apply keeps_bind; [apply _|by apply keeps_create|intros c]. apply keeps_bind; [apply _|by apply keeps_get|intros n].
  apply keeps_bind; [apply _| |intros _; by apply keeps_ret]. destruct (Content.get _ _); [by intros m; apply Rquiet|by apply keeps_ret].
Qed.
End create.

(** The row of one post, and the epoch table, which nobody writes. *)
Definition same (h : bytes) (n n' : Node) : Prop :=
  posts (db (disk n')) !! h = posts (db (disk n)) !! h ∧
  Store.epoch_keys (db (disk n')) = Store.epoch_keys (db (disk n)).
#[local] Instance same_preorder h : PreOrder (same h).
Proof. split; [done|]. intros a b c [H1' H2'] [H3' H4']. split; congruence. Qed.
Lemma quiet_same h n n' : quiet n n' → same h n n'.
Proof. intros (E1 & E2 & _). split; [by rewrite E1|done]. Qed.

Lemma keeps_insert h key r : key ≠ h → keeps (same h) (insert_post key r).
Proof. intros Hne n. unfold insert_post, insert_new. destruct (posts _ !! key); [done|]. split; [|done]. by apply lookup_insert_ne. Qed.

(** No post this call may build has the key [h]. *)
Definition other_id (e : Env) (body : str) (h : bytes) : Prop :=
  ∀ seed t parent hashes p, build (built_at e) seed (builder body t parent hashes) = Ok p → to_wire_bytes (id p) ≠ h.

(* ------------------------------------------------------------------ *)
(** ** Runs of a node *)

(** Everything that touches posts or what guards them: calls of the local
    user, messages from the network, background ticks. *)
Inductive Action :=
| ACreate (e : Env) (body : str) (files : list MediaFile) (ttl : option N) (parent : option str) (publish : bool)
| ADelete (now now' : N) (network : bool) (hash_hex : str)
| AReport (t_report t_row t_delete : N) (hash_hex reason : str)
| AFeed (e : FeedEnv) (payload : bytes)
| ATombstone (now : N) (payload : bytes)
| AGc (config : Gc.GcConfig) (now : N)
| ADecay (powf : f64 → f64 → f64)
| ARotate (t_rotate t_destroy : N)
| AIdentity (seed master : option bytes).

Definition act (a : Action) (n : Node) : Node :=
  match a with
  | ACreate e body files ttl parent publish =>
      (if publish then create_and_publish e body files ttl parent n else create e body files ttl parent n).1
  | ADelete now now' network hash_hex => (delete_and_propagate now now' network hash_hex n).1
  | AReport t1 t2 t3 hash_hex reason => (report t1 t2 t3 hash_hex reason n).1
  | AFeed e payload => ingest_feed e payload n
  | ATombstone now payload => ingest_tombstone now payload n
  | AGc config now => run_gc config (as_i64 now) n
  | ADecay powf => decay_tick powf n
  | ARotate t1 t2 => rotation_tick t1 t2 n
  | AIdentity seed master => with_identity seed master n
  end.
Definition run (acts : list Action) (n : Node) : Node := foldl (λ n a, act a n) n acts.

(** The readings of the wall clock that end up in, or are compared with, a
    row of [posts]. *)
Definition wall_readings (a : Action) : list N :=
  match a with
  | ACreate e _ _ _ _ _ => [built_at e; stored_at e]
  | ADelete now _ _ _ => [now]
  | AReport _ _ t_delete _ _ => [t_delete]
  | AFeed e _ => [now1 e; now2 e; now3 e]
  | ATombstone now _ => [now]
  | AGc _ now => [now]
  | _ => []
  end.
(** The clock does not run backwards from one action to the next. *)
Fixpoint clock_forward (t : N) (acts : list Action) : Prop :=
  match acts with
  | [] => True
  | a :: acts =>
      Forall (λ x, t ≤ x < 2 ^ 62)%N (wall_readings a) ∧ clock_forward (foldr N.max t (wall_readings a)) acts
  end.

(** The actions give the id of [p] to no other post: a payload with it has
    the times of [p], and no new post gets it. *)
Definition respects (p : Post.Post) (a : Action) : Prop :=
  match a with
  | ACreate e body _ _ _ _ => other_id e body (to_wire_bytes (id p))
  | AFeed _ payload => ∀ q, post_from_slice payload = Some q → to_wire_bytes (id q) = to_wire_bytes (id p) →
      post_created_at q = post_created_at p ∧ ttl q = ttl p
  | _ => True
  end.

(** The tombstone of [p] since [t0], or nothing once the post has expired for
    everyone. *)
Definition buried (p : Post.Post) (t0 t : N) (n : Node) : Prop :=
  Store.epoch_keys (db (disk n)) = ∅ ∧ (t0 ≤ t < 2 ^ 62)%N ∧
  match posts (db (disk n)) !! to_wire_bytes (id p) with
  | Some s => is_tombstone s = true ∧ r_ttl_seconds (row s) = Z.of_N (ttl_secs (ttl p)) ∧
              ∃ t1, tombstone_at s = Some t1 ∧ (Z.of_N t0 ≤ t1)%Z
  | None => (post_created_at p + ttl_secs (ttl p) + 300 < t)%N
  end.

Lemma buried_mono p t0 t t' n : (t ≤ t' < 2 ^ 62)%N → buried p t0 t n → buried p t0 t' n.
Proof. intros Ht (He & Hr & Hb). split_and!; [done|lia..|]. destruct (posts _ !! _); [done|]. lia. Qed.

Lemma buried_same p t0 t n n' : same (to_wire_bytes (id p)) n n' → buried p t0 t n → buried p t0 t n'.
Proof. intros [E1 E2] (He & Hr & Hb). unfold buried. rewrite E1, E2. done. Qed.

(** What happens to the row of [p] in one action, when it is not left alone. *)
Lemma buried_entomb p t0 t now n : (t ≤ now < 2 ^ 62)%N → buried p t0 t n →
  buried p t0 t (set_posts (alter (entomb (as_i64 now)) (to_wire_bytes (id p)) (posts (db (disk n)))) n).
Proof.
  intros Hnow (He & Hr & Hb). split_and!; [done|lia..|]. cbn. rewrite lookup_alter_eq. destruct (posts _ !! _) as [s|]; [|done].
  cbn. destruct Hb as (_ & Ht & _). split_and!; [done..|]. eexists. split; [done|]. rewrite as_i64_small by lia. lia.
Qed.

Lemma buried_delete p t0 t now hash_hex n : (t ≤ now < 2 ^ 62)%N → buried p t0 t n → buried p t0 t (delete_post now hash_hex n).1.
Proof.
  intros Hnow Hb. unfold delete_post, se_bind, se_lift, se_get, se_modify. destruct (parse_hash _ hash_hex) as [cid|]; [|done]. cbn [fst].
  destruct (decide (to_wire_bytes cid = to_wire_bytes (id p))) as [->|Hne]; [by apply buried_entomb|].
  apply (buried_same _ _ _ n); [|done]. split; [|done]. by apply lookup_alter_ne.
Qed.

Lemma buried_gc p t0 t config now n : (post_created_at p ≤ t0 + 300)%N → (300 ≤ ttl_secs (ttl p) < 2 ^ 32)%N →
  (t ≤ now < 2 ^ 62)%N → buried p t0 t n → buried p t0 now (run_gc config (as_i64 now) n).
Proof.
  intros Hc Httl Hnow (He & Hr & Hb). rewrite as_i64_small by lia. unfold run_gc.
  pose proof (Gc.sweep_spec config (Z.of_N now) (disk n) He) as Hs. split_and!; [apply Hs|lia..|].
  cbn [disk with_disk].
  destruct (posts (db (Gc.sweep config (Z.of_N now) (disk n)).1) !! to_wire_bytes (id p)) as [s'|] eqn:E'.
  - apply (Gc.swept_post _ _ _ _ _ _ Hs) in E' as (_ & s & Hs0 & ->). rewrite Hs0 in Hb. destruct Hb as (H1' & H2' & H3').
    case_bool_decide as Hin; [|done]. apply Gc.batch_keys in Hin as (s1 & Hl & Hx). rewrite Hs0 in Hl. injection Hl as <-.
    unfold Gc.is_expired in Hx. by rewrite H1', andb_false_r in Hx.
  - destruct (posts (db (disk n)) !! to_wire_bytes (id p)) as [s|] eqn:E; [|lia].
    destruct Hb as (H1' & H2' & t1 & H3' & H4'). destruct (Gc.is_spent (Z.of_N now) (to_wire_bytes (id p)) s) eqn:Ex.
    + unfold Gc.is_spent in Ex. rewrite H1', H3', H2' in Ex. apply Z.ltb_lt in Ex. lia.
    + assert (Hn : ¬ (to_wire_bytes (id p) ∈ (Gc.batch config (Z.of_N now) (disk n)).*1)).
      { intros (s1 & Hl & Hx)%Gc.batch_keys. rewrite E in Hl. injection Hl as <-. unfold Gc.is_expired in Hx. by rewrite H1', andb_false_r in Hx. }
      assert (Hk : posts (db (Gc.sweep config (Z.of_N now) (disk n)).1) !! to_wire_bytes (id p) = Some s).
      { apply (Gc.swept_post _ _ _ _ _ _ Hs). split; [done|]. exists s. by rewrite bool_decide_false. }
      congruence.
Qed.

(** Storing what arrives: nothing else is touched, and a row that is there
    stays. *)
Lemma store_received_spec now nonce b q n :
  let n' := (store_received now nonce b q n).1 in
  Store.epoch_keys (db (disk n')) = Store.epoch_keys (db (disk n)) ∧
  ∀ h, (h ≠ to_wire_bytes (id q) ∨ is_Some (posts (db (disk n)) !! h)) → posts (db (disk n')) !! h = posts (db (disk n)) !! h.
Proof.
  unfold store_received, put_blob, se_zoom, se_bind, se_map_err, se_get, se_modify.
  pose proof (put_frame nonce b (disk n)) as Hp. destruct (Media.put nonce b (disk n)) as [d [blob|]]; cbn in *; [|by rewrite Hp].
  rewrite Hp. split; [done|]. intros h Hh. cbn. rewrite lookup_insert_or_ignore. destruct (decide _) as [<-|]; [|done].
  destruct Hh as [|[x Hx]]; [done|]. by rewrite Hx.
Qed.

Lemma feed_checks_disk r p n : disk (with_feed (feed_checks r p (feed n)).1 n) = disk n.
Proof. done. Qed.

Lemma buried_feed p t0 t e payload n : (post_created_at p + ttl_secs (ttl p) < 2 ^ 62)%N →
  respects p (AFeed e payload) → (t ≤ now1 e < 2 ^ 62)%N → buried p t0 t n → buried p t0 t (ingest_feed e payload n).
Proof.
  intros Hsmall Hresp Hnow Hb. unfold ingest_feed. destruct (post_from_slice payload) as [q|] eqn:Eq; [|done].
  destruct (validate_post (now1 e) (now2 e) q) as [[]|] eqn:Ev; [|done].
  destruct (feed_checks (fe_readings e) q (feed n)) as [f go]. destruct go; [|done].
  pose proof (store_received_spec (now3 e) (fe_nonce e) payload q (with_feed f n)) as [He Hrow].
  set (n' := (store_received _ _ _ _ _).1) in *. clearbody n'. change (disk (with_feed f n)) with (disk n) in *.
  apply (buried_same _ _ _ n); [|done]. split; [|done]. apply Hrow. destruct (decide (to_wire_bytes (id p) = to_wire_bytes (id q))) as [E|]; [|by left].
  right. destruct Hb as (_ & Hr & Hb). destruct (posts _ !! _) as [s|]; [done|]. exfalso.
  destruct (Hresp q Eq (eq_sym E)) as [Ec Et]. apply validate_post_ok in Ev as [_ (Hx & _)]. unfold expires_at in Hx. rewrite Ec, Et in Hx.
  rewrite (add64_small (post_created_at p)), add64_small in Hx by (unfold u64, u64_modulus, CLOCK_SKEW_TOLERANCE; lia).
  unfold CLOCK_SKEW_TOLERANCE in Hx. lia.
Qed.

Lemma buried_apply p t0 t now wire n : (t ≤ now < 2 ^ 62)%N → buried p t0 t n → buried p t0 t (apply_tombstone now wire n).
Proof.
  intros Hnow (He & Hr & Hb). unfold apply_tombstone. destruct (posts (db (disk n)) !! wire) as [s|] eqn:E; [|done].
  destruct (is_tombstone s) eqn:Et; [done|]. split_and!; [done|lia..|]. cbn.
  destruct (decide (wire = to_wire_bytes (id p))) as [->|Hne]; [|by rewrite lookup_insert_ne].
  rewrite E in Hb. destruct Hb as [Hb _]. congruence.
Qed.

Lemma buried_report p t0 t t1 t2 t3 hash_hex reason n : (t ≤ t3 < 2 ^ 62)%N → buried p t0 t n →
  buried p t0 t (report t1 t2 t3 hash_hex reason n).1.
Proof.
  intros Hnow Hb. unfold report, signing_keypair, se_bind, se_get, se_lift, se_modify, se_zoom, se_map_err, se_ret.
  destruct (signing_seed n) as [seed|]; [|done]. cbn [ok_or]. destruct (parse_hash _ hash_hex) as [cid|]; [|done].
  case_match; [done|]. destruct (Reports.create_report _ _ _ _ _ _) as [reps [r|]]; cbn [map_err]; [|done].
  case_match; [|done]. cbn [fst]. match goal with |- context [delete_post t3 hash_hex ?m] => set (n1 := m) end.
  assert (Hb1 : buried p t0 t (delete_post t3 hash_hex n1).1) by (by apply buried_delete).
  destruct (lookup_post_author _ _); done.
Qed.

Lemma fold_max_bounds t l : Forall (λ x, t ≤ x < 2 ^ 62)%N l → (t < 2 ^ 62)%N → (t ≤ foldr N.max t l < 2 ^ 62)%N.
Proof. intros Hl Ht. induction Hl as [|x l Hx Hl IH]; cbn; lia. Qed.

Lemma buried_act p t0 t a n : (post_created_at p ≤ t0 + 300)%N → (300 ≤ ttl_secs (ttl p) < 2 ^ 32)%N → (post_created_at p < 2 ^ 61)%N →
  respects p a → Forall (λ x, t ≤ x < 2 ^ 62)%N (wall_readings a) → buried p t0 t n →
  buried p t0 (foldr N.max t (wall_readings a)) (act a n).
Proof.
  intros Hc Httl Hcs Hresp Hw Hb. pose proof (fold_max_bounds t _ Hw (proj2 (proj1 (proj2 Hb)))) as Hmax.
  assert (Hmono : ∀ n', buried p t0 t n' → buried p t0 (foldr N.max t (wall_readings a)) n') by (intros n'; by apply buried_mono).
  destruct a as [e body files ttl parent publish|now now' network hash_hex|t1 t2 t3 hash_hex reason|e payload|now payload|config now|powf|t1 t2|seed master];
    cbn [act wall_readings] in *; rewrite ?Forall_cons in Hw; decompose [and] Hw; clear Hw.
  - apply Hmono, (buried_same _ _ _ n); [|done]. destruct publish; [apply keeps_publish|apply keeps_create];
      try apply _; try (by apply quiet_same); intros; apply keeps_insert; by eapply Hresp.
  - apply Hmono. unfold delete_and_propagate, se_bind at 1. pose proof (buried_delete p t0 t now hash_hex n ltac:(lia) Hb) as Hd.
    destruct (delete_post now hash_hex n) as [n1 [[]|]]; [|done]. cbn [fst] in *. destruct network; [|done].
    unfold signing_keypair, se_bind, se_get, se_lift, se_modify, se_ret. destruct (signing_seed n1); [|done]. cbn. by destruct (object_to_vec _).
  - by apply Hmono, buried_report.
  - by apply Hmono, buried_feed; [lia| | |].
  - apply Hmono. unfold ingest_tombstone. repeat case_match; try done. by apply buried_apply.
  - cbn. apply (buried_mono _ _ now); [lia|]. by apply (buried_gc p t0 t).
  - done.
  - unfold rotation_tick, init_epoch_key_manager. destruct (master_secret n); cbn; [done|]. by destruct (epoch_keys n).
  - done.
Qed.

Lemma get_buried p t0 t n hash_hex : buried p t0 t n → hex_decode hash_hex = Some (Types.hash (id p)) → length (Types.hash (id p)) = 32 →
  version (id p) = CONTENT_HASH_VERSION → get hash_hex n = Err PostNotFound.
Proof.
  intros (_ & _ & Hb) Hx Hl Hv. unfold get, parse_hash. rewrite Hx, Hl. cbn [Nat.eqb result_bind].
  assert (Ht : to_wire_bytes (from_digest (Types.hash (id p))) = to_wire_bytes (id p)) by (unfold to_wire_bytes; cbn; by rewrite Hv).
  rewrite Ht. destruct (posts _ !! _) as [s|]; [|done]. by destruct Hb as [-> _].
Qed.

(** C27. A deleted post never comes back: whatever is created, received,
    reported, swept or deleted afterwards, as the clock goes on, reading it
    finds nothing; for a post of at least five minutes, whose id belongs to
    no other post.  Its tombstone outlives the time for which any copy is
    accepted. *)
Theorem deleted_stays_deleted (p : Post.Post) (hash_hex : str) (now : N) (n : Node) (s : Stored) (acts : list Action)
    (Hx : hex_decode hash_hex = Some (Types.hash (id p))) (Hlen : length (Types.hash (id p)) = 32)
    (Hv : version (id p) = CONTENT_HASH_VERSION)
    (Hrow : posts (db (disk n)) !! to_wire_bytes (id p) = Some s) (Hs : r_ttl_seconds (row s) = Z.of_N (ttl_secs (ttl p)))
    (He : Store.epoch_keys (db (disk n)) = ∅)
    (Httl : (300 ≤ ttl_secs (ttl p) < 2 ^ 32)%N) (Hc : (post_created_at p ≤ now + 300)%N) (Hnow : (now < 2 ^ 60)%N)
    (Hclock : clock_forward now acts) (Hresp : Forall (respects p) acts) :
  (delete_post now hash_hex n).2 = Ok tt ∧
  get hash_hex (run acts (delete_post now hash_hex n).1) = Err PostNotFound.
Proof.
  assert (Ht : to_wire_bytes (from_digest (Types.hash (id p))) = to_wire_bytes (id p)) by (unfold to_wire_bytes; cbn; by rewrite Hv).
  unfold delete_post, parse_hash, se_bind, se_lift, se_get, se_modify. rewrite Hx, Hlen. cbn [Nat.eqb]. rewrite Ht, Hrow.
  split; [by rewrite bool_decide_true|]. cbn [fst].
  assert (Hb : buried p now now (set_posts (alter (entomb (as_i64 now)) (to_wire_bytes (id p)) (posts (db (disk n)))) n)).
  { split_and!; [done|lia..|]. cbn. rewrite lookup_alter_eq, Hrow. cbn. split_and!; [done..|]. eexists. split; [done|]. rewrite as_i64_small by lia. lia. }
  revert Hb Hclock. set (n1 := set_posts _ n). clearbody n1. generalize now at 2 3. clear Hrow Hs He.
  intros t Hb. revert t n1 Hb. induction Hresp as [|a acts Ha Hacts IH]; intros t n1 Hb Hclock; cbn [run foldl].
  - by apply (get_buried p now t).
  - destruct Hclock as [Hw Hclock]. apply (IH (foldr N.max t (wall_readings a))); [|done]. apply buried_act; try done. lia.
Qed.

(* ------------------------------------------------------------------ *)
(** ** A created post is read back, and accepted by its peers *)

Lemma guard_ok {E} (b : bool) (e : E) u : (if b then Err e else Ok tt) = Ok u → b = false.
Proof. by destruct b. Qed.

Definition key_of (p : Post.Post) : bytes := to_wire_bytes (id p).

Lemma store_created_inv e t body p n n' c : store_created e t body [] p n = (n', Ok c) →
  ∃ stamp b sealed cs, generate_pow (pow_fuel e) (hash_bytes (id p)) 8 = Ok stamp ∧ post_to_vec p = Ok b ∧
    Content.put (blob_nonce e) b (content (disk n)) = (cs, Ok (created_blob c)) ∧
    posts (db (disk n)) !! key_of p = None ∧
    disk n' = MkDisk (with_posts (<[key_of p := post_row (as_i64 (stored_at e)) t body 0 (difficulty stamp) (created_blob c) sealed p]>
                       (posts (db (disk n)))) (db (disk n))) cs ∧
    c = MkCreated (hex_encode (hash_bytes (id p))) (created_blob c) (as_i64 (stored_at e))
          (add_i64 (as_i64 (stored_at e)) (as_i64 (ttl_secs t))) 0 ∧ published n' = published n.
Proof.
  unfold store_created. intros (n1 & stamp & [-> Hs%map_err_ok]%se_lift_ok & Hr)%se_bind_ok.
  apply se_bind_ok in Hr as (n1 & b & [-> Hb%map_err_ok]%se_lift_ok & Hr).
  apply se_bind_ok in Hr as (n1 & blob & Hput%se_map_err_ok & Hr).
  unfold put_blob, Media.put, se_zoom in Hput. destruct (Content.put _ _ _) as [cs r] eqn:Ep. injection Hput as <- ->.
  apply se_bind_ok in Hr as (n2 & sealed & He & Hr).
  assert (Hd : disk n2 = MkDisk (db (disk n)) cs ∧ published n2 = published n).
  { unfold epoch_encrypt in He. cbn in He. destruct (epoch_keys n); [|by injection He as <- _]. destruct (encrypt_with_current_epoch _ _ _ _) as [ekm r].
    by injection He as <- _. }
  clear He. destruct Hd as [Hd Hpub]. apply se_bind_ok in Hr as (n3 & [] & Hi & Hr). unfold insert_post, insert_new in Hi. rewrite Hd in Hi. cbn in Hi.
  destruct (posts (db (disk n)) !! _) eqn:El; [done|]. injection Hi as <-.
  apply se_bind_ok in Hr as (n4 & [] & Hm & Hr). injection Hm as <-. injection Hr as <- <-. cbn.
  exists stamp, b, sealed, cs. rewrite ?Hd. split_and!; try done.
Qed.

Lemma create_inv e body ttl_seconds parent n n' c : create e body [] ttl_seconds parent n = (n', Ok c) →
  ∃ seed t ph p n1, signing_seed n = Some seed ∧ from_secs (default 86400%N ttl_seconds) = Ok t ∧ parse_parent parent = Ok ph ∧
    build (built_at e) seed (builder body t ph []) = Ok p ∧
    (∀ reason, Filter.check_text (content_filter n) body ≠ Filter.Block reason) ∧
    disk n1 = disk n ∧ published n1 = published n ∧ store_created e t body [] p n1 = (n', Ok c).
Proof.
  unfold create. intros (n1 & seed & Hseed & Hr)%se_bind_ok. apply se_bind_ok in Hseed as (n1' & x & [= <- <-] & [-> Hseed]%se_lift_ok).
  apply se_bind_ok in Hr as (n1 & [] & Hl%se_map_err_ok & Hr). unfold se_zoom in Hl. destruct (check _ _ _ _) as [l r]. injection Hl as <- ->.
  apply se_bind_ok in Hr as (n1 & ? & [= <- <-] & Hr). apply se_bind_ok in Hr as (n1 & [] & [-> _]%se_lift_ok & Hr).
  apply se_bind_ok in Hr as (n1 & [] & Hspam & Hr). apply se_bind_ok in Hspam as (n2 & dup & Hz & [-> _]%se_lift_ok).
  unfold se_zoom in Hz. destruct (check_and_record _ _) as [fp d]. injection Hz as <- <-.
  apply se_bind_ok in Hr as (n1 & [] & Hf & Hr). apply se_bind_ok in Hf as (n2 & ? & [= <- <-] & [-> Hf]%se_lift_ok).
  apply se_bind_ok in Hr as (n1 & t & [-> Ht%map_err_ok]%se_lift_ok & Hr).
  apply se_bind_ok in Hr as (n1 & ph & [-> Hph]%se_lift_ok & Hr). apply se_bind_ok in Hr as (n1 & hs & [-> [= <-]]%se_lift_ok & Hr).
  apply se_bind_ok in Hr as (n1 & p & [-> Hp%map_err_ok]%se_lift_ok & Hr).
  exists seed, t, ph, p. eexists. split_and!; [|done|done|done| | | |exact Hr]; [|intros reason E|done|done].
  - by destruct (signing_seed n); [injection Hseed as ->|].
  - cbn in Hf. by rewrite E in Hf.
Qed.

Context `{!PrimitiveLaws, !HexLaws, !HashBytes, !PostJsonLaws}.

Lemma built_id now seed b p : build now seed b = Ok p →
  ∃ m, id p = from_digest (blake3_hash m) ∧ author p = public_key seed ∧ post_created_at p = now ∧ ttl p = default one_day (b_ttl b) ∧
    resolve_content b = Ok (Post.content p) ∧ parent p = b_parent b ∧ root p = b_root b ∧ depth p = b_depth b.
Proof.
  unfold build. destruct (resolve_content b) as [ct|] eqn:Er; [|done]. cbn [result_bind].
  destruct (canonical_bytes _ _ _ _ _ _ _) as [m|]; [|done]. intros [= <-]. by exists m.
Qed.

Lemma parse_built message m : parse_hash message (hex_encode (hash_bytes (from_digest (blake3_hash m)))) = Ok (from_digest (blake3_hash m)).
Proof. unfold parse_hash, hash_bytes. cbn. by rewrite hex_decode_encode, blake3_len by apply blake3_bytes. Qed.

(** Reading the row of a built post by the hash that [create] returned. *)
Lemma get_built now seed b p n : build now seed b = Ok p →
  get (hex_encode (hash_bytes (id p))) n =
  match posts (db (disk n)) !! key_of p with
  | Some s => if is_tombstone s then Err PostNotFound else Ok (view (hex_encode (hash_bytes (id p))) s)
  | None => Err PostNotFound
  end.
Proof. intros (m & Hid & _)%built_id. unfold get, key_of. rewrite Hid, parse_built. done. Qed.

Lemma store_received_row now nonce b q n : length nonce = NONCE_LEN → Content.blobs_ok (content (disk n)) →
  posts (db (disk n)) !! key_of q = None →
  posts (db (disk (store_received now nonce b q n).1)) !! key_of q = Some (fresh_row (row_of now (Content.to_hex b) q)).
Proof.
  intros Hn Hok Hnone. unfold store_received, put_blob, Media.put, se_zoom, se_bind, se_map_err, se_get, se_modify.
  destruct (Content.put_spec nonce b (content (disk n)) Hn Hok) as (cs & _ & _ & -> & _). cbn.
  unfold key_of in *. by rewrite lookup_insert_or_ignore, decide_True, Hnone by done.
Qed.

Lemma built_valid now seed b p : build now seed b = Ok p → validate_signature p = Ok tt.
Proof.
  unfold build. destruct (resolve_content b) as [ct|] eqn:Er; [|done]. cbn [result_bind].
  destruct (canonical_bytes _ _ _ _ _ _ _) as [m|] eqn:Ec; [|done]. intros [= <-]. by apply (signed_valid seed _ m).
Qed.

(** What [create] accepts can be read at once under the hash it returns,
    and was not there before: the author is the active identity, the preview
    the first 280 characters; the post expires its lifetime, one hour to
    thirty days, after it was stored; and the blob opens to bytes of its
    hash. *)
Theorem created_post_read (e : Env) (body : str) (ttl_seconds : option N) (parent_hex : option str) (n n' : Node) (c : Created)
    (Hok : Content.blobs_ok (content (disk n))) (Hnonce : length (blob_nonce e) = NONCE_LEN) (Hnow : (stored_at e < 2 ^ 62)%N)
    (Hc : create e body [] ttl_seconds parent_hex n = (n', Ok c)) :
  let secs := default 86400%N ttl_seconds in
  ∃ seed, signing_seed n = Some seed ∧ (3600 ≤ secs ≤ 2592000)%N ∧
    get (created_hash c) n = Err PostNotFound ∧
    get (created_hash c) n' = Ok (MkView (created_hash c) (hex_encode (public_key seed)) (Some (take 280 body)) (created_at c) (created_expires_at c) 0) ∧
    created_at c = Z.of_N (stored_at e) ∧ created_expires_at c = (Z.of_N (stored_at e) + Z.of_N secs)%Z ∧
    ∃ b, Content.get (created_blob c) (content (disk n')) = Ok b ∧ Content.to_hex b = created_blob c.
Proof.
  intros secs. apply create_inv in Hc as (seed & t & ph & p & n1 & Hseed & Ht & _ & Hp & _ & Hd & _ & Hc).
  apply store_created_inv in Hc as (stamp & b & sealed & cs & _ & _ & Hput & Hnone & Hd' & Hcr & _). rewrite Hd in Hput, Hnone, Hd'.
  apply from_secs_ok in Ht as [-> Ht]. unfold ttl_wf, MIN_TTL_SECS, MAX_TTL_SECS in Ht. cbn in Ht. fold secs in Ht.
  destruct (built_id _ _ _ _ Hp) as (m & Hid & Hauth & _). exists seed.
  rewrite Hcr. cbn [created_hash created_at created_expires_at created_blob]. rewrite !(get_built _ _ _ _ _ Hp), Hnone, Hd'. cbn.
  rewrite lookup_insert_eq. cbn. unfold view. cbn [row post_row r_author_pubkey r_body_preview r_created_at r_expires_at r_media_count].
  fold secs. cbn [ttl_secs]. rewrite (as_i64_small (stored_at e)), (as_i64_small secs), add_i64_small by lia. rewrite Hauth. split_and!; try done; try lia.
  destruct (Content.put_spec (blob_nonce e) b (content (disk n)) Hnonce Hok) as (cs' & raw & d & Hput' & _ & _ & Hd1 & Hd2 & _).
  rewrite Hput' in Hput. injection Hput as <- <-. by exists d.
Qed.

(** C28. A published post reaches every peer that is willing: what
    [create_and_publish] hands to the gossip service is, at any node whose
    clock is within five minutes, whose rate limit for the author and whose
    memory of recent texts do not stop it, and whose filter is the author's,
    stored and read back with the same author and text. *)
Theorem published_post_accepted (e : Env) (body : str) (ttl_seconds : option N) (parent_hex : option str) (n n' : Node) (c : Created)
    (fe : FeedEnv) (peer : Node)
    (Hok : Content.blobs_ok (content (disk n))) (Hnonce : length (blob_nonce e) = NONCE_LEN)
    (Hc : create_and_publish e body [] ttl_seconds parent_hex n = (n', Ok c))
    (Hfresh : Content.exists_ (created_blob c) (content (disk n)) = false)
    (Hbytes : str_len body ≤ MAX_TEXT_BYTES) (Hchars : length body ≤ MAX_TEXT_GRAPHEMES)
    (Hclock : (built_at e ≤ now2 fe + 300 ∧ now1 fe ≤ built_at e + 300 ∧ now2 fe < 2 ^ 62)%N)
    (Hpeer : Content.blobs_ok (content (disk peer))) (Hnonce' : length (fe_nonce fe) = NONCE_LEN)
    (Hnew : ∀ h, hex_decode (created_hash c) = Some h → posts (db (disk peer)) !! to_wire_bytes (from_digest h) = None)
    (Hlimit : ∀ seed, signing_seed n = Some seed → is_ok (check (fe_readings fe) (public_key seed) RateLimit.Post (f_limiter (feed peer))).2 = true)
    (Hdup : (check_and_record body (f_fingerprints (feed peer))).2 = false)
    (Hfilter : f_filter (feed peer) = content_filter n) :
  ∃ payload v w, published n' = published n ++ [payload] ∧ get (created_hash c) n' = Ok v ∧
    get (created_hash c) (ingest_feed fe payload peer) = Ok w ∧ v_hash w = v_hash v ∧ v_author w = v_author v ∧
    v_body_preview w = v_body_preview v.
Proof.
  apply se_bind_ok in Hc as (n1 & c1 & Hc & Hr). apply se_bind_ok in Hr as (n2 & n3 & [= <- <-] & Hr).
  apply se_bind_ok in Hr as (n2 & [] & Hpub & [= -> ->]).
  apply create_inv in Hc as (seed & t & ph & p & n0 & Hseed & Ht & _ & Hp & Hflt & Hd & Hpub0 & Hc).
  apply store_created_inv in Hc as (stamp & b & sealed & cs & _ & Hb & Hput & Hnone & Hd' & Hcr & Hpub1). rewrite Hd in Hput, Hnone, Hd'.
  destruct (Content.put_spec (blob_nonce e) b (content (disk n)) Hnonce Hok) as (cs' & raw & d & Hput' & _ & _ & Hd1 & _ & Hd2 & _).
  rewrite Hput' in Hput. injection Hput as <- Hblob. rewrite <- Hblob in Hfresh. rewrite (Hd2 Hfresh) in Hd1. clear Hd2.
  rewrite Hd' in Hpub. cbn [content] in Hpub. rewrite <- Hblob, Hd1 in Hpub. injection Hpub as <-.
  destruct (built_id _ _ _ _ Hp) as (m & Hid & Hauth & Hcat & Httl & Hct & _ & _ & Hdep).
  exists b, (view (hex_encode (hash_bytes (id p))) (post_row (as_i64 (stored_at e)) t body 0 (difficulty stamp) (created_blob c) sealed p)),
    (view (hex_encode (hash_bytes (id p))) (fresh_row (row_of (now3 fe) (Content.to_hex b) p))).
  rewrite Hcr in *. cbn [created_hash created_blob] in *. rewrite !(get_built _ _ _ _ _ Hp) in *.
  split; [by rewrite <- Hpub0, <- Hpub1|]. cbn [disk with_published]. rewrite Hd'. cbn. rewrite lookup_insert_eq. cbn. split; [reflexivity|].
  assert (Hkey : posts (db (disk peer)) !! key_of p = None).
  { unfold key_of. rewrite Hid. apply Hnew. unfold hash_bytes. rewrite Hid. cbn. apply hex_decode_encode, blake3_bytes. }
  assert (Hsecs : (3600 ≤ ttl_secs t ≤ 2592000)%N) by (apply from_secs_ok in Ht as [-> Ht]; exact Ht).
  assert (Htt : ttl p = t) by (rewrite Httl; by destruct ph).
  assert (Htext : Post.content p = CText body) by (destruct ph; by injection Hct as <-).
  assert (Hvalid : validate_post (now1 fe) (now2 fe) p = Ok tt).
  { apply validate_post_ok. split; [by eapply built_valid|]. unfold in_limits, expires_at. rewrite Hcat, Htt, Htext.
    rewrite (add64_small (built_at e)), !add64_small by (unfold u64, u64_modulus, CLOCK_SKEW_TOLERANCE; lia). unfold CLOCK_SKEW_TOLERANCE.
    split_and!; [lia|lia|by intros ? [= <-]|cbn; unfold MAX_ATTACHMENTS; lia|].
    rewrite Hdep. unfold MAX_THREAD_DEPTH. destruct ph; cbn; lia. }
  unfold ingest_feed. rewrite (post_parse _ _ Hb), Hvalid. unfold feed_checks. rewrite Hauth, Htext. specialize (Hlimit seed Hseed).
  destruct (check _ _ _ _) as [l r]. cbn [snd] in Hlimit. rewrite Hlimit. cbn [negb text_body f_fingerprints f_filter f_limiter].
  destruct (check_and_record body _) as [fp dup]. cbn [snd] in Hdup. rewrite Hdup, Hfilter.
  destruct (Filter.check_text (content_filter n) body) as [|reason|reason] eqn:Ef; [|by destruct (Hflt reason)|];
    cbv zeta; (rewrite store_received_row by done); split_and!; try reflexivity; cbn; unfold row_of; by rewrite ?Htext, ?Hauth.
Qed.

(* ------------------------------------------------------------------ *)
(** ** Listings *)

(** The page of the rows of a query on [posts]. *)
Definition page_of (q : bytes → Stored → bool) (limit : N) (n : Node) (rows : list (bytes * Stored)) : Prop :=
  page created limit (select_where q (posts (db (disk n)))) rows.

Lemma page_ok q limit n : page_of q limit n (sql_limit limit (newest_first created (select_where q (posts (db (disk n)))))).
Proof. apply newest_page. unfold select_where. apply NoDup_map_to_list. Qed.

(** Both listings are pages of the live posts, newest first: no other
    row, none twice, as many as there are up to the limit, and none left out
    for an older one; a limit past the largest [i64] is no limit.  But the
    hash a line shows, 33 bytes long with its version, is not one that [get]
    takes. *)
Theorem listings_newest_first (hex : str) (key : bytes) (limit : N) (n : Node)
    (Hhex : hex_decode hex = Some key) (Hlen : length key = 32) :
  ∃ posts_rows reply_rows,
    list_by_author hex limit n = Ok (author_line <$> posts_rows) ∧ page_of (by_author key) limit n posts_rows ∧
    replies hex limit n = Ok (reply_line <$> reply_rows) ∧
    page_of (reply_of (to_wire_bytes (from_digest key))) limit n reply_rows ∧
    ∀ kv, Forall byte_ok kv.1 → length kv.1 = 33 →
      get (l_hash (author_line kv)) n = Err (BadHash "content hash must be 32 bytes hex") ∧ l_hash (reply_line kv) = l_hash (author_line kv).
Proof.
  do 2 eexists. unfold list_by_author, replies, parse_hash. rewrite Hhex, Hlen. cbn [Nat.eqb result_bind].
  split_and!; [reflexivity|apply page_ok|reflexivity|apply page_ok|].
  intros kv Hkv Hkey. split; [|done]. unfold get, parse_hash, author_line. cbn [l_hash]. by rewrite hex_decode_encode, Hkey.
Qed.

(* ------------------------------------------------------------------ *)
(** ** What the guards amount to *)

(** Scores are still warming: nothing the node does sets an age. *)
Definition all_warming (n : Node) : Prop := map_Forall (λ _ s, warming_active s = true) (reputation n).

Lemma warming_default n who : all_warming n → warming_active (default Reputation.new (reputation n !! who)) = true.
Proof. intros Hw. destruct (reputation n !! who) as [s|] eqn:E; [by apply (Hw who)|done]. Qed.

Lemma warming_no_photos n who : all_warming n → may_attach who n = false.
Proof.
  intros Hw. unfold may_attach, has_capability. rewrite warming_default by done. apply bool_decide_eq_false. by intros [|].
Qed.

Definition same_scores (n n' : Node) : Prop := reputation n' = reputation n.
#[local] Instance same_scores_preorder : PreOrder same_scores.
Proof. split; [done|]. intros a b c H1' H2'. unfold same_scores in *. congruence. Qed.
Lemma quiet_scores n n' : quiet n n' → same_scores n n'.
Proof. by intros (_ & _ & E). Qed.
Lemma scores_insert key r : keeps same_scores (insert_post key r).
Proof. intros n. unfold insert_post. by case_match. Qed.

Lemma delete_scores now hash_hex : keeps same_scores (delete_post now hash_hex).
Proof.
  intros n. unfold delete_post, se_bind, se_lift, se_get, se_modify. by destruct (parse_hash _ _).
Qed.

Lemma warming_record who e n : all_warming n → all_warming (record_reputation who e n).
Proof.
  intros Hw. apply map_Forall_insert_2; [|done]. by apply warming_kept, warming_default.
Qed.

Lemma warming_act a n : all_warming n → all_warming (act a n).
Proof.
  intros Hw. assert (Hsame : ∀ n', same_scores n n' → all_warming n') by (intros n' E; unfold all_warming; by rewrite E).
  destruct a as [e body files ttl parent publish|now now' network hash_hex|t1 t2 t3 hash_hex reason|e payload|now payload|config now|powf|t1 t2|seed master];
    cbn [act]; try (by apply Hsame).
  - apply Hsame. destruct publish; [apply keeps_publish|apply keeps_create]; try apply _; try (by apply quiet_scores);
      intros; apply scores_insert.
  - apply Hsame. unfold delete_and_propagate, se_bind at 1. pose proof (delete_scores now hash_hex n) as Hd.
    destruct (delete_post now hash_hex n) as [n1 [[]|]]; [|done]. destruct network; [|done].
    unfold signing_keypair, se_bind, se_get, se_lift, se_modify, se_ret. destruct (signing_seed n1); [|done]. cbn. by destruct (object_to_vec _).
  - unfold report, signing_keypair, se_bind, se_get, se_lift, se_modify, se_zoom, se_map_err, se_ret.
    destruct (signing_seed n); [|done]. cbn [ok_or]. destruct (parse_hash _ _); [|done]. case_match; [done|].
    destruct (Reports.create_report _ _ _ _ _ _) as [reps [r|]]; cbn [map_err]; [|done]. case_match; [|done]. cbn [fst].
    match goal with |- context [delete_post t3 hash_hex ?m] => pose proof (delete_scores t3 hash_hex m) as Hd; set (n1 := delete_post t3 hash_hex m) in * end.
    assert (Hw1 : all_warming n1.1) by (unfold all_warming; by rewrite Hd).
    destruct (lookup_post_author _ _); [by apply warming_record|done].
  - apply Hsame. unfold ingest_feed. destruct (post_from_slice payload) as [q|]; [|done]. destruct (validate_post _ _ q); [|done].
    destruct (feed_checks _ _ _) as [f go]. destruct go; [|done]. unfold store_received, se_bind, se_map_err, se_get, se_modify, put_blob, se_zoom.
    by destruct (Media.put _ _ _) as [d [blob|]].
  - apply Hsame. unfold ingest_tombstone. repeat case_match; try done. unfold apply_tombstone. by repeat case_match.
  - intros who sc Hl. unfold decay_tick in Hl. cbn in Hl. rewrite lookup_fmap in Hl. destruct (reputation n !! who) as [s0|] eqn:E; [|done].
    injection Hl as <-. apply warming_kept. by apply (Hw who).
  - apply Hsame. unfold rotation_tick, init_epoch_key_manager. destruct (master_secret n); cbn; [done|]. by destruct (epoch_keys n).
Qed.

(** No account of a node ever gets to post media: scores start in the
    warming period, no action of the node ends it, and a post with media is
    refused before anything of it is stored. *)
Theorem media_never_allowed (acts : list Action) (n : Node) (e : Env) (body : str) (files : list MediaFile) (ttl_seconds : option N)
    (parent_hex : option str) (Hw : all_warming n) (Hf : files ≠ []) :
  let n1 := run acts n in
  let '(n2, r) := create e body files ttl_seconds parent_hex n1 in
  (r = Err IdentityLocked ∨ (∃ x, r = Err (RateLimitedBy x)) ∨ r = Err AccountTooNew) ∧ disk n2 = disk n1.
Proof.
  intros n1. assert (Hw1 : all_warming n1).
  { unfold n1. clear -Hw. revert n Hw. induction acts as [|a acts IH]; intros n Hw; [done|]. by apply IH, warming_act. }
  clearbody n1. unfold create, signing_keypair, se_bind, se_get, se_lift, se_zoom, se_map_err.
  destruct (signing_seed n1) as [seed|]; cbn [ok_or]; [|auto].
  destruct (check _ _ _ _) as [l [[]|x]]; cbn [map_err]; [|split; [eauto|done]].
  rewrite warming_no_photos by done. rewrite (bool_decide_false (files = [])) by done. cbn. auto.
Qed.

(** A text that was looked at once is a near-duplicate from then on, whether
    its post was accepted or not. *)
Lemma spam_again body n : 0 < max_size (fingerprints n) → (check_spam body (check_spam body n).1).2 = Err NearDuplicate.
Proof.
  intros Hm. unfold check_spam, se_bind, se_zoom, se_lift, check_and_record. cbn.
  assert (Hd : is_Some (check_duplicate body (record body (fingerprints n)).1)).
  { unfold check_duplicate, record. cbn [recent fst]. case_match eqn:E; [destruct p; eauto|]. exfalso. apply list_find_None in E.
    rewrite Forall_forall in E. apply (E (compute body)); [set_solver|apply near_refl]. }
  destruct (bool_decide (is_Some (check_duplicate body (fingerprints n)))) eqn:E1; cbn; by rewrite bool_decide_true.
Qed.

(** A tick while the identity is unlocked starts from a new manager: every
    epoch destroyed before can be opened again. *)
Lemma rotation_forgets t_rotate t_destroy n master : master_secret n = Some master →
  (t_rotate ≤ t_destroy ≤ t_rotate + 86400)%N →
  ∃ ekm, epoch_keys (rotation_tick t_rotate t_destroy n) = Some ekm ∧ destroyed_epochs ekm = [] ∧ Epoch.master ekm = master.
Proof.
  intros Hm Ht. unfold rotation_tick, init_epoch_key_manager. rewrite Hm. cbn [epoch_keys with_epoch_manager].
  set (m1 := (rotate t_rotate (Epoch.new master)).1).
  assert (Hm1 : destroyed_epochs m1 = [] ∧ Epoch.master m1 = master ∧ dom (Epoch.keys m1) ⊆ {[ epoch_id_for_timestamp t_rotate ]}).
  { unfold m1, rotate, ensure_key, se_bind, se_get, se_lift, se_modify, se_ret, Epoch.new. cbn [Epoch.keys]. rewrite lookup_empty.
    unfold is_destroyed. cbn [destroyed_epochs]. rewrite bool_decide_false by apply not_elem_of_nil.
    destruct (derive_epoch_key _ _); cbn; split_and!; try done; set_solver. }
  clearbody m1. destruct Hm1 as (Hd & Hmas & Hdom). eexists. split; [reflexivity|].
  unfold destroy_expired_keys_at. cbv zeta. destruct (_ <? epoch_id_for_timestamp t_destroy)%N; [|done]. cbn [fst].
  assert (Hnil : base.filter (λ e, e < epoch_id_for_timestamp t_destroy - MAX_EPOCH_KEY_AGE_SECS / EPOCH_DURATION_SECS)%N
      (elements (dom (Epoch.keys m1))) = []).
  { apply elem_of_nil_inv. intros x (Hlt & Hx%elem_of_elements)%list_elem_of_filter. apply Hdom, elem_of_singleton in Hx as ->.
    change (MAX_EPOCH_KEY_AGE_SECS / EPOCH_DURATION_SECS)%N with 30%N in Hlt. unfold epoch_id_for_timestamp, EPOCH_DURATION_SECS in Hlt.
    assert (H9 : (t_destroy / (24 * 3600) ≤ (t_rotate + 1 * (24 * 3600)) / (24 * 3600))%N) by (apply N.Div0.div_le_mono; lia).
    rewrite (N.div_add t_rotate 1 (24 * 3600)) in * by lia. revert Hlt H9. generalize (t_rotate / (24 * 3600))%N (t_destroy / (24 * 3600))%N. lia. }
  by rewrite Hnil.
Qed.

(** *** Reports *)

(** A deletion touches nothing but the posts, and hides the post. *)
Lemma delete_frame now hash_hex n :
  let n' := (delete_post now hash_hex n).1 in
  reports n' = reports n ∧ ∀ h, hex_decode hash_hex = Some h → length h = 32 → get hash_hex n' = Err PostNotFound.
Proof.
  unfold delete_post, get, parse_hash, se_bind, se_lift, se_get, se_modify. destruct (hex_decode hash_hex) as [h|]; [|done].
  destruct (Nat.eqb_spec (length h) 32) as [E|]; [|by split; [|intros ? [= <-]]]. cbn. split; [done|]. intros _ _ _.
  rewrite lookup_alter_eq. by destruct (posts _ !! _).
Qed.

End posting.

(* ------------------------------------------------------------------ *)
(** ** Witnesses *)

(** A length-prefixed format for posts. *)
Module PostToy.
Definition enc_b (b : bytes) : bytes := N.of_nat (length b) :: b.
Definition dec_b (l : bytes) : option (bytes * bytes) :=
  match l with n :: r => Some (take (N.to_nat n) r, drop (N.to_nat n) r) | [] => None end.
Definition enc_id (c : ContentId) : bytes := version c :: enc_b (Types.hash c).
Definition dec_id (l : bytes) : option (ContentId * bytes) :=
  match l with v :: r => '(h, r) ← dec_b r; Some (MkContentId v h, r) | [] => None end.
Definition enc_opt {A} (f : A → bytes) (o : option A) : bytes := match o with Some a => 1%N :: f a | None => [0%N] end.
Definition dec_opt {A} (f : bytes → option (A * bytes)) (l : bytes) : option (option A * bytes) :=
  match l with 1%N :: r => '(a, r) ← f r; Some (Some a, r) | _ :: r => Some (None, r) | [] => None end.
Fixpoint dec_ids (n : nat) (l : bytes) : option (list ContentId * bytes) :=
  match n with
  | O => Some ([], l)
  | S n => '(c, r) ← dec_id l; '(cs, r) ← dec_ids n r; Some (c :: cs, r)
  end.
Definition enc_content (c : PostContent) : bytes :=
  match c with
  | CText b => 0%N :: enc_b b
  | CPhoto b cap => 1%N :: enc_id b ++ enc_opt enc_b cap
  | CCombined t l => 2%N :: enc_b t ++ N.of_nat (length l) :: flat_map enc_id l
  end.
Definition dec_content (l : bytes) : option (PostContent * bytes) :=
  match l with
  | 0%N :: r => '(b, r) ← dec_b r; Some (CText b, r)
  | 1%N :: r => '(b, r) ← dec_id r; '(cap, r) ← dec_opt dec_b r; Some (CPhoto b cap, r)
  | _ :: r => '(t, r) ← dec_b r;
      match r with n :: r => '(l, r) ← dec_ids (N.to_nat n) r; Some (CCombined t l, r) | [] => None end
  | [] => None
  end.
Definition enc (p : Post.Post) : bytes :=
  enc_id (id p) ++ enc_b (author p) ++ enc_content (Post.content p) ++ [post_created_at p; ttl_secs (ttl p); depth p] ++
  enc_b (signature p) ++ enc_b (pow_proof p) ++ enc_opt enc_id (parent p) ++ enc_opt enc_id (root p).
Definition dec (l : bytes) : option Post.Post :=
  '(i, r) ← dec_id l; '(a, r) ← dec_b r; '(c, r) ← dec_content r;
  match r with
  | t :: secs :: d :: r =>
      '(s, r) ← dec_b r; '(w, r) ← dec_b r; '(pa, r) ← dec_opt dec_id r; '(ro, r) ← dec_opt dec_id r;
      Some (MkPost i a c t (MkTtl secs) s w pa ro d)
  | _ => None
  end.
#[export] Instance post_json : PostJson := {| post_to_vec p := Ok (enc p); post_from_slice := dec |}.

Lemma dec_enc_b b r : dec_b (enc_b b ++ r) = Some (b, r).
Proof. unfold dec_b, enc_b. cbn. by rewrite Nat2N.id, take_app_length, drop_app_length. Qed.
Lemma dec_enc_id c r : dec_id (enc_id c ++ r) = Some (c, r).
Proof. destruct c as [v h]. unfold enc_id. cbn [version Types.hash app dec_id]. by rewrite dec_enc_b. Qed.
Lemma dec_enc_opt {A} (f : A → bytes) g o r : (∀ a r, g (f a ++ r) = Some (a, r)) → dec_opt g (enc_opt f o ++ r) = Some (o, r).
Proof. intros Hg. destruct o; cbn; [by rewrite Hg|done]. Qed.
Lemma dec_enc_ids l r : dec_ids (length l) (flat_map enc_id l ++ r) = Some (l, r).
Proof.
  induction l as [|c l IH]; [done|]. change (flat_map enc_id (c :: l)) with (enc_id c ++ flat_map enc_id l).
  cbn [length dec_ids]. rewrite <- app_assoc, dec_enc_id. cbn. by rewrite IH.
Qed.
Lemma dec_enc_content c r : dec_content (enc_content c ++ r) = Some (c, r).
Proof.
  destruct c as [b|b cap|t l]; cbn [enc_content app dec_content].
  - by rewrite dec_enc_b.
  - rewrite <- app_assoc, dec_enc_id. cbn. by rewrite dec_enc_opt by apply dec_enc_b.
  - rewrite <- app_assoc, dec_enc_b. cbn. by rewrite Nat2N.id, dec_enc_ids.
Qed.
#[export] Instance post_json_laws : PostJsonLaws.
Proof.
  split. intros [i a c t [secs] s w pa ro d] b [= <-]. unfold post_from_slice, post_json, dec, enc.
  cbn [id author Post.content post_created_at ttl ttl_secs depth signature pow_proof parent root].
  rewrite <- (app_nil_r (enc_opt enc_id ro)). rewrite <- ?app_assoc.
  repeat (rewrite ?dec_enc_id, ?dec_enc_b, ?dec_enc_content, ?(dec_enc_opt _ _ _ _ dec_enc_id);
    cbn -[enc_b enc_opt enc_content enc_id dec_b dec_opt dec_content dec_id app]; try (cbn [app])).
  done.
Qed.

(** A printed post is that post. *)
Lemma enc_respects `{Primitives, Canonical} fe p : respects p (AFeed fe (enc p)).
Proof.
  assert (E : post_from_slice (enc p) = Some p) by (by apply post_parse).
  intros q Hq _. rewrite E in Hq. by injection Hq as <-.
Qed.

#[export] Instance hash_bytes_toy : @HashBytes Toy.toy.
Proof. split. intros m. apply be_bytes_ok. Qed.
End PostToy.

Section witnesses.
Import Toy HexToy JsonToy AsciiClass PostToy.
#[local] Existing Instance Post.demo_canonical.

Definition pw_seed : bytes := replicate 32 6%N.
Definition pw_node (seed : option bytes) : Node :=
  MkNode (MkDisk (MkStoreDb ∅ ∅ ∅ ∅ ∅) Content.open) RateLimit.new ∅ Fingerprint.new Filter.empty None [] ∅
    (MkFeed RateLimit.new Fingerprint.new Filter.empty) seed seed [] [].
Definition pw_readings : Readings := MkReadings 0 0 0 0 0.
Definition pw_env : Env := MkEnv pw_readings 1000 300 (replicate 24 1%N) 1000 (replicate 24 2%N) 1000.
Definition pw_feed : FeedEnv := MkFeedEnv pw_readings 1010 1010 1010 (replicate 24 3%N).
Definition pw_alice : Node := pw_node (Some pw_seed).
Definition pw_body : str := lit "hi".

Definition pw_create := create pw_env pw_body [] None None pw_alice.
Definition created_of {E} (r : result E Created) : Created := match r with Ok c => c | Err _ => MkCreated [] [] 0 0 0 end.
Definition pw_created : Created := created_of pw_create.2.

Lemma created_pair {E} (x : Node * result E Created) : (if x.2 then true else false) = true → x = (x.1, Ok (created_of x.2)).
Proof. by destruct x as [n [c|e]]. Qed.
Lemma pw_ok : pw_create = (pw_create.1, Ok pw_created).
Proof. apply created_pair. vm_compute. reflexivity. Qed.
Lemma pw_blobs seed : Content.blobs_ok (content (disk (pw_node seed))).
Proof. intros hex raw Hl. by destruct (lookup_empty_Some _ _ Hl). Qed.

Lemma created_post_read_witness :
  ∃ v, get (created_hash pw_created) pw_create.1 = Ok v ∧ v_body_preview v = Some pw_body ∧ v_author v = hex_encode (public_key pw_seed).
Proof.
  destruct (created_post_read pw_env pw_body None None pw_alice pw_create.1 pw_created (pw_blobs _) eq_refl eq_refl pw_ok)
    as (seed & Hseed & _ & _ & Hget & _). injection Hseed as <-. eexists. split; [exact Hget|]. split; reflexivity.
Defined.

Definition pw_publish := create_and_publish pw_env pw_body [] None None pw_alice.
Definition pw_sent : Created := created_of pw_publish.2.
Lemma pw_publish_ok : pw_publish = (pw_publish.1, Ok pw_sent).
Proof. apply created_pair. vm_compute. reflexivity. Qed.

Lemma published_post_accepted_witness :
  ∃ payload v w, published pw_publish.1 = [payload] ∧ get (created_hash pw_sent) pw_publish.1 = Ok v ∧
    get (created_hash pw_sent) (ingest_feed pw_feed payload (pw_node None)) = Ok w ∧ v_hash w = v_hash v ∧
    v_author w = v_author v ∧ v_body_preview w = v_body_preview v.
Proof.
  apply (published_post_accepted pw_env pw_body None None pw_alice pw_publish.1 pw_sent pw_feed (pw_node None)).
  - exact (pw_blobs _).
  - reflexivity.
  - exact pw_publish_ok.
  - vm_compute. reflexivity.
  - apply Nat.leb_le. vm_compute. reflexivity.
  - apply Nat.leb_le. vm_compute. reflexivity.
  - cbn. lia.
  - exact (pw_blobs _).
  - reflexivity.
  - intros h _. apply lookup_empty.
  - intros seed [= <-]. vm_compute. reflexivity.
  - vm_compute. reflexivity.
  - reflexivity.
Defined.

Definition pw_post : Post.Post :=
  match build 1000 pw_seed (builder pw_body one_hour None []) with
  | Ok p => p
  | Err _ => MkPost (from_hash []) [] (CText []) 0 one_hour [] [] None None 0
  end.
Definition pw_stored : Node :=
  set_posts {[ to_wire_bytes (id pw_post) := fresh_row (row_of 1000 (lit "b") pw_post) ]} (pw_node None).
Definition pw_hash : str := hex_encode (Types.hash (id pw_post)).

(** Deleted at 1100; received again, swept after an hour, received again. *)
Definition pw_acts : list Action :=
  [AFeed (MkFeedEnv pw_readings 1200 1200 1200 (replicate 24 1%N)) (enc pw_post); AGc Gc.default_config 5000;
   AFeed (MkFeedEnv pw_readings 5000 5000 5000 (replicate 24 1%N)) (enc pw_post); AGc Gc.default_config 20000;
   AFeed (MkFeedEnv pw_readings 20000 20000 20000 (replicate 24 1%N)) (enc pw_post)].

Lemma deleted_stays_deleted_witness : get pw_hash (run pw_acts (delete_post 1100 pw_hash pw_stored).1) = Err PostNotFound.
Proof.
  apply (deleted_stays_deleted pw_post pw_hash 1100 pw_stored (fresh_row (row_of 1000 (lit "b") pw_post)) pw_acts).
  - vm_compute. reflexivity.
  - vm_compute. reflexivity.
  - reflexivity.
  - apply lookup_singleton_eq.
  - vm_compute. reflexivity.
  - reflexivity.
  - split; [by apply N.leb_le|by apply N.ltb_lt].
  - apply N.leb_le. vm_compute. reflexivity.
  - by apply N.ltb_lt.
  - repeat (split; [repeat (constructor; [cbn; lia|]); constructor|]). exact I.
  - repeat (constructor; [first [apply enc_respects|exact I]|]). constructor.
Defined.

Lemma listings_newest_first_witness :
  ∃ rows, list_by_author (hex_encode pw_seed) 10 pw_stored = Ok (author_line <$> rows) ∧
    length rows = Nat.min 10 (length (select_where (by_author pw_seed) (posts (db (disk pw_stored))))).
Proof.
  destruct (listings_newest_first (hex_encode pw_seed) pw_seed 10 pw_stored) as (rows & rrows & Hl & Hp & _).
  - vm_compute. reflexivity.
  - reflexivity.
  - exists rows. split; [exact Hl|]. apply (page_length _ _ _ _ Hp). lia.
Defined.

Definition pw_media : MediaFile :=
  MkMedia (lit "a.png") (Ok (Media.Image (Chunker.content_id [1%N]) [1%N] [2%N] 1 1)) (replicate 24 1%N) 1000.

Lemma media_never_allowed_witness :
  let n := run [ADecay (λ _ _, f64_one)] pw_alice in
  let r := create pw_env pw_body [pw_media] None None n in
  (r.2 = Err IdentityLocked ∨ (∃ x, r.2 = Err (RateLimitedBy x)) ∨ r.2 = Err AccountTooNew) ∧ disk r.1 = disk n.
Proof.
  intros n r. pose proof (media_never_allowed [ADecay (λ _ _, f64_one)] pw_alice pw_env pw_body [pw_media] None None) as Hm.
  cbv zeta in Hm. fold n in Hm. unfold r. destruct (create pw_env pw_body [pw_media] None None n). apply Hm; [|done].
  apply map_Forall_empty.
Defined.

(** Four identities have reported the post; the fifth report hides it. *)
Definition pw_reporters : list bytes := [[1]; [2]; [3]; [4]]%N.
Definition pw_reported : Node :=
  with_reports ((λ who, Reports.MkReport who (from_digest (Types.hash (id pw_post))) Reports.Spam None 900) <$> pw_reporters)
    (with_identity (Some pw_seed) None pw_stored).

End witnesses.
