(* ===== verification/Feeds.v ===== *)
(** * Feeds, topics, reactions and mentions: [crates/ephemera-social/src/store]

    The feed queries ([feed.rs], [feed_discover.rs], [topic_room.rs],
    [mention.rs]), reactions ([reaction.rs], [interaction.rs]) and topic rooms
    of [SqliteSocialServices], the query helpers of
    [crates/ephemera-store/src/query.rs], and the operations of the node over
    them ([services/feed.rs], [services/social.rs]).  A feed joins the posts
    of [Store] with the connections, blocks and mutes of [Metadata]; the
    tables that only this part touches are here. *)
From S2P Require Import Prelude Types Crypto Unicode Ratchet Post Tables Listing Metadata Connections Store Paging.

(* ------------------------------------------------------------------ *)
(** ** Tables *)

Record TopicRow := MkTopic { tp_name : str; tp_description : option str; tp_created_by : str; tp_created_at : Z }.
Record ReactionRow := MkReaction { re_emoji : str; re_created_at : Z }.
Record MentionRow := MkMention { mn_display_hint : option str; mn_byte_start : Z; mn_byte_end : Z }.
Record ProfileRow := MkProfile {
  pr_display_name : option str;
  pr_bio : option str;
  pr_avatar_cid : option bytes;
  pr_updated_at : Z;
  pr_signature : bytes;
  pr_received_at : Z
}.

(** Keys: topic posts by (topic, content hash), reactions by (post, reactor),
    mentions by (content hash, mentioned), tags by (content hash, tag). *)
Record SocialDb := MkSocial {
  meta : MetadataDb;
  store : StoreDb;
  topic_rooms : gmap str TopicRow;
  topic_subscriptions : gmap (str * str) Z;
  topic_posts : gmap (str * bytes) Z;
  reactions : gmap (str * str) ReactionRow;
  post_mentions : gmap (bytes * bytes) MentionRow;
  post_tags : gmap (bytes * str) unit;
  profiles : gmap bytes ProfileRow
}.
Definition with_topic_rooms t d := MkSocial (meta d) (store d) t (topic_subscriptions d) (topic_posts d) (reactions d) (post_mentions d) (post_tags d) (profiles d).
Definition with_topic_subscriptions t d := MkSocial (meta d) (store d) (topic_rooms d) t (topic_posts d) (reactions d) (post_mentions d) (post_tags d) (profiles d).
Definition with_topic_posts t d := MkSocial (meta d) (store d) (topic_rooms d) (topic_subscriptions d) t (reactions d) (post_mentions d) (post_tags d) (profiles d).
Definition with_reactions t d := MkSocial (meta d) (store d) (topic_rooms d) (topic_subscriptions d) (topic_posts d) t (post_mentions d) (post_tags d) (profiles d).
Definition with_post_mentions t d := MkSocial (meta d) (store d) (topic_rooms d) (topic_subscriptions d) (topic_posts d) (reactions d) t (post_tags d) (profiles d).
Definition with_profiles t d := MkSocial (meta d) (store d) (topic_rooms d) (topic_subscriptions d) (topic_posts d) (reactions d) (post_mentions d) (post_tags d) t.

Notation M := (SE SocialDb SocialError).

(* ------------------------------------------------------------------ *)
(** ** Feeds of posts *)

Definition posted_at (kv : bytes * Stored) : Z := r_created_at (row kv.2).
Definition post_author (kv : bytes * Stored) : bytes := r_author_pubkey (row kv.2).

Definition item_of_post (kv : bytes * Stored) : FeedItem :=
  let parent_hash := bytes_to_content_hash <$> r_parent_hash (row kv.2) in
  MkItem (bytes_to_content_hash kv.1) (bytes_to_identity_key (post_author kv)) (as_u64 (posted_at kv))
    (bool_decide (is_Some parent_hash)) parent_hash.

(** The live posts a predicate on the author selects. *)
Definition live_posts (by_ : bytes → bool) (d : SocialDb) : list (bytes * Stored) :=
  select_where (λ _ s, by_ (r_author_pubkey (row s)) && negb (is_tombstone s)) (posts (store d)).

Definition connected_peers (local : bytes) (d : SocialDb) : list bytes :=
  (λ kr, kr.1.2) <$> select_where (λ k r, bool_decide (k.1 = local) && bool_decide (c_status r = "connected"%string)) (connections (meta d)).

(** Blocked, or muted for good or for longer than [now]. *)
Definition get_excluded_keys (now : N) (local : bytes) (d : SocialDb) : list bytes :=
  ((λ kr, kr.1.2) <$> select_where (λ k _, bool_decide (k.1 = local)) (blocks (meta d))) ++
  ((λ kr, kr.1.2) <$> select_where (λ k r, bool_decide (k.1 = local) &&
     match mu_expires_at r with Some e => (as_i64 now <? e)%Z | None => true end) (mutes (meta d))).

Definition connections_feed (now : N) (identity : bytes) (cursor : option FeedCursor) (page_size : nat) (d : SocialDb) : FeedPage :=
  let connected_keys := identity :: connected_peers identity d in
  let excluded := get_excluded_keys now identity d in
  let rows := take (fetch_limit page_size) (query_rows posted_at (live_posts (λ a, bool_decide (a ∈ connected_keys)) d) cursor) in
  page_of page_size (item_of_post <$> base.filter (λ kv, post_author kv ∉ excluded) rows).

(** The viewer plays no role. *)
Definition profile_feed (viewer profile_owner : bytes) (cursor : option FeedCursor) (page_size : nat) (d : SocialDb) : FeedPage :=
  feed_of item_of_post (query_rows posted_at (live_posts (λ a, bool_decide (a = profile_owner)) d)) page_size cursor.

Definition discover_feed (now : N) (viewer : bytes) (cursor : option FeedCursor) (page_size : nat) (d : SocialDb) : FeedPage :=
  let excluded_keys := viewer :: connected_peers viewer d ++ get_excluded_keys now viewer d in
  feed_of item_of_post (query_rows posted_at (live_posts (λ a, negb (bool_decide (a ∈ excluded_keys))) d)) page_size cursor.

(* ------------------------------------------------------------------ *)
(** ** Topic rooms *)

Section topics.
Context `{Primitives, Hex}.

Definition topic_id_from_name (name : str) : str := hex_encode (blake3_hash (as_bytes name)).

Record TopicRoom := MkRoom { topic_id : str; name : str; description : option str; created_by : str; room_created_at : N }.

Definition subscribe (topic who : str) (at_ : Z) : M unit :=
  se_modify (λ d, with_topic_subscriptions (insert_or_ignore (topic, who) at_ (topic_subscriptions d)) d).

Definition create_topic (name : str) (description : option str) (creator_pubkey : str) (created_at : Z) : M TopicRoom :=
  if bool_decide (name = []) || (128 <? str_len name) then se_lift (Err (Validation "topic name must be 1-128 characters"))
  else
    let topic_id := topic_id_from_name name in
    let! d := se_get in
    match insert_new topic_id (MkTopic name description creator_pubkey created_at) (topic_rooms d) with
    | None => se_lift (Err (Validation "topic room already exists"))
    | Some t =>
        let! _ := se_modify (with_topic_rooms t) in
        let! _ := subscribe topic_id creator_pubkey created_at in
        se_ret (MkRoom topic_id name description creator_pubkey (as_u64 created_at))
    end.

Definition join_topic (topic_id user_pubkey : str) (subscribed_at : Z) : M unit :=
  let! d := se_get in
  match topic_rooms d !! topic_id with
  | None => se_lift (Err (Connections.NotFound "topic room"))
  | Some _ => subscribe topic_id user_pubkey subscribed_at
  end.

Definition leave_topic (topic_id user_pubkey : str) : M unit :=
  se_modify (λ d, with_topic_subscriptions (delete (topic_id, user_pubkey) (topic_subscriptions d)) d).

Definition room_of_row (kr : str * TopicRow) : TopicRoom :=
  MkRoom kr.1 (tp_name kr.2) (tp_description kr.2) (tp_created_by kr.2) (as_u64 (tp_created_at kr.2)).
Definition list_topics (d : SocialDb) : list TopicRoom :=
  room_of_row <$> newest_first (λ kr, tp_created_at kr.2) (map_to_list (topic_rooms d)).

(** The room need not exist, nor the post. *)
Definition post_to_topic (topic_id : str) (content_hash : bytes) (created_at : Z) : M unit :=
  se_modify (λ d, with_topic_posts (insert_or_ignore (topic_id, content_hash) created_at (topic_posts d)) d).

(** A row of [topic_posts] joined with its live post. *)
Record TopicPost := MkTopicPost { tp_hash : bytes; tp_at : Z; tp_post : Stored }.
Definition join_post (d : SocialDb) (kt : (str * bytes) * Z) : option TopicPost :=
  s ← posts (store d) !! kt.1.2; if is_tombstone s then None else Some (MkTopicPost kt.1.2 kt.2 s).
Definition topic_rows (topic_id : str) (d : SocialDb) : list TopicPost :=
  omap (join_post d) (select_where (λ k _, bool_decide (k.1 = topic_id)) (topic_posts d)).
(** The time of an item is when it was posted to the room. *)
Definition item_of_topic (t : TopicPost) : FeedItem :=
  let i := item_of_post (tp_hash t, tp_post t) in
  MkItem (content_hash i) (author i) (as_u64 (tp_at t)) (is_reply i) (parent i).
Definition get_topic_feed (topic_id : str) (cursor : option FeedCursor) (limit : nat) (d : SocialDb) : FeedPage :=
  feed_of item_of_topic (query_rows tp_at (topic_rows topic_id d)) limit cursor.
End topics.

(* ------------------------------------------------------------------ *)
(** ** Reactions *)

Inductive ReactionEmoji := Heart | Laugh | Fire | Sad | Thinking.
#[global] Instance ReactionEmoji_eq_dec : EqDecision ReactionEmoji.
Proof. solve_decision. Defined.
Definition ALL : list ReactionEmoji := [Heart; Laugh; Fire; Sad; Thinking].

Definition emoji_to_string (e : ReactionEmoji) : str :=
  lit match e with Heart => "heart" | Laugh => "laugh" | Fire => "fire" | Sad => "sad" | Thinking => "thinking" end.
Definition emoji_from_str (s : str) : result SocialError ReactionEmoji :=
  if bool_decide (s = lit "heart") then Ok Heart
  else if bool_decide (s = lit "laugh") then Ok Laugh
  else if bool_decide (s = lit "fire") then Ok Fire
  else if bool_decide (s = lit "sad") then Ok Sad
  else if bool_decide (s = lit "thinking") then Ok Thinking
  else Err (Validation "unknown emoji type").

Definition react (post_hash reactor_pubkey : str) (emoji : ReactionEmoji) (created_at : Z) : M unit :=
  se_modify (λ d, with_reactions (<[(post_hash, reactor_pubkey) := MkReaction (emoji_to_string emoji) created_at]> (reactions d)) d).
Definition unreact (post_hash reactor_pubkey : str) : M unit :=
  se_modify (λ d, with_reactions (delete (post_hash, reactor_pubkey) (reactions d)) d).

Record ReactionSummary := MkSummary { counts : list (ReactionEmoji * nat); my_emoji : option ReactionEmoji }.
Definition total (s : ReactionSummary) : nat := sum_list (counts s).*2.
Definition count_for (emoji : ReactionEmoji) (s : ReactionSummary) : nat :=
  match base.filter (λ c, c.1 = emoji) (counts s) with c :: _ => c.2 | [] => 0 end.

Definition with_emoji (post_hash emoji : str) (d : SocialDb) : nat :=
  count_where (λ k r, bool_decide (k.1 = post_hash) && bool_decide (re_emoji r = emoji)) (reactions d).
(** One line for each emoji that occurs; the database leaves their order
    open, and a text that is not an emoji's name is skipped. *)
Definition get_reactions (post_hash : str) (current_user_pubkey : option str) (d : SocialDb) : ReactionSummary :=
  let counts := omap (λ e, match with_emoji post_hash (emoji_to_string e) d with 0 => None | n => Some (e, n) end) ALL in
  let my_emoji := pubkey ← current_user_pubkey; r ← reactions d !! (post_hash, pubkey);
                  match emoji_from_str (re_emoji r) with Ok e => Some e | Err _ => None end in
  MkSummary counts my_emoji.

(* ------------------------------------------------------------------ *)
(** ** Mentions *)

Section mentions.
Context `{Hex}.

(** [INSERT OR IGNORE]; the reference to [posts] is still checked. *)
Definition store_mention (content_hash mentioned_pubkey : bytes) (display_hint : str) (byte_start byte_end : N) : M unit :=
  let! d := se_get in
  if bool_decide (is_Some (post_mentions d !! (content_hash, mentioned_pubkey))) then se_ret tt
  else if bool_decide (is_Some (posts (store d) !! content_hash)) then
    se_modify (with_post_mentions
      (<[(content_hash, mentioned_pubkey) := MkMention (Some display_hint) (as_i64 byte_start) (as_i64 byte_end)]> (post_mentions d)))
  else se_lift (Err (Storage "FOREIGN KEY constraint failed")).

Definition mentioning (who : bytes) (d : SocialDb) : list (bytes * Stored) :=
  omap (λ km, s ← posts (store d) !! km.1.1;
              if is_tombstone s || bool_decide (is_Some (blocks (meta d) !! (who, r_author_pubkey (row s)))) then None
              else Some (km.1.1, s))
    (select_where (λ k _, bool_decide (k.2 = who)) (post_mentions d)).
Definition list_mentions (mentioned_pubkey : bytes) (limit : nat) (d : SocialDb) : list FeedItem :=
  item_of_post <$> take (Nat.min limit 200) (newest_first posted_at (mentioning mentioned_pubkey d)).

Record Mention := MkMentioned { mentioned_pubkey : str; display_hint : str; byte_start : N; byte_end : N }.
Definition mention_of_row (km : (bytes * bytes) * MentionRow) : Mention :=
  MkMentioned (hex_encode km.1.2) (default [] (mn_display_hint km.2)) (as_u64 (mn_byte_start km.2)) (as_u64 (mn_byte_end km.2)).
Definition get_post_mentions (content_hash : bytes) (d : SocialDb) : list Mention :=
  mention_of_row <$> stable_sort (λ a b, (mn_byte_start a.2 <=? mn_byte_start b.2)%Z)
    (select_where (λ k _, bool_decide (k.1 = content_hash)) (post_mentions d)).
End mentions.

(* ------------------------------------------------------------------ *)
(** ** The operations of the node ([services/social.rs]) *)

Inductive Failure :=
| IdentityLocked
| BadContentHash
| UnknownAction (action : str)
| Social (during : string) (e : SocialError).

Section node.
Context `{Primitives, Hex}.

(** [active] is the public key of the active keypair. *)
Definition get_local_identity (active : option bytes) : SE SocialDb Failure bytes := se_lift (ok_or active IdentityLocked).

(** Whether the reaction was added. *)
Definition social_react (now : N) (active : option bytes) (hash emoji action : str) : SE SocialDb Failure bool :=
  let! local := get_local_identity active in
  let reactor_pubkey := hex_encode local in
  let! emoji_type := se_lift (map_err (Social "") (emoji_from_str emoji)) in
  if bool_decide (action = lit "add") then
    let! _ := se_map_err (Social "react") (react hash reactor_pubkey emoji_type (as_i64 now)) in se_ret true
  else if bool_decide (action = lit "remove") then
    let! _ := se_map_err (Social "unreact") (unreact hash reactor_pubkey) in se_ret false
  else se_lift (Err (UnknownAction action)).

(** The count under the name of every emoji, and the caller's own. *)
Definition social_get_reactions (active : option bytes) (hash : str) (d : SocialDb) :
    result Failure (list (str * nat) * option str) :=
  let? local := ok_or active IdentityLocked in
  let summary := get_reactions hash (Some (hex_encode local)) d in
  Ok ((λ e, (emoji_to_string e, count_for e summary)) <$> ALL, emoji_to_string <$> my_emoji summary).

Definition social_create_topic (now : N) (active : option bytes) (name : str) (description : option str) : SE SocialDb Failure TopicRoom :=
  let! local := get_local_identity active in
  se_map_err (Social "create topic") (create_topic name description (hex_encode local) (as_i64 now)).
Definition social_join_topic (now : N) (active : option bytes) (topic_id : str) : SE SocialDb Failure unit :=
  let! local := get_local_identity active in
  se_map_err (Social "join topic") (join_topic topic_id (hex_encode local) (as_i64 now)).
Definition social_leave_topic (active : option bytes) (topic_id : str) : SE SocialDb Failure unit :=
  let! local := get_local_identity active in
  se_map_err (Social "leave topic") (leave_topic topic_id (hex_encode local)).

(** A 32-byte hash becomes the key of the posts table; anything else is taken
    as it is. *)
Definition social_post_to_topic (now : N) (topic_id content_hash_hex : str) : SE SocialDb Failure unit :=
  match hex_decode content_hash_hex with
  | None => se_lift (Err BadContentHash)
  | Some b =>
      let wire_bytes := if Nat.eqb (length b) 32 then to_wire_bytes (from_digest b) else b in
      se_map_err (Social "post to topic") (post_to_topic topic_id wire_bytes (as_i64 now))
  end.
Definition social_list_mentions (active : option bytes) (limit : nat) (d : SocialDb) : result Failure (list FeedItem) :=
  let? local := ok_or active IdentityLocked in Ok (list_mentions local limit d).
End node.

(* ------------------------------------------------------------------ *)
(** ** The feeds of the node ([services/feed.rs]) *)

Record MediaItem := MkMediaItem {
  mi_id : str;
  mi_media_type : string;
  mi_mime_type : string;
  mi_width : option Z;
  mi_height : option Z;
  mi_duration_ms : option Z;
  mi_url : str;
  mi_thumbnail_url : option str
}.
(** A post with what a card shows; expiry and lifetime are left out when the
    post has gone in the meantime. *)
Record FeedPost := MkFeedPost {
  fp_content_hash : str;
  fp_author : str;
  fp_author_display_name : option str;
  fp_author_avatar_url : option str;
  fp_body : str;
  fp_created_at : N;
  fp_expires_at : option Z;
  fp_ttl_seconds : option Z;
  fp_is_reply : bool;
  fp_is_own : bool;
  fp_media_count : Z;
  fp_media : list MediaItem
}.
(** A row of the feed that is shown while the identity is locked. *)
Record RawPost := MkRawPost {
  rp_rowid : Z;
  rp_content_hash : str;
  rp_author : str;
  rp_author_display_name : option str;
  rp_author_avatar_url : option str;
  rp_body : option str;
  rp_created_at : Z;
  rp_expires_at : Z;
  rp_ttl_seconds : Z
}.
Inductive FeedAnswer :=
| Filtered (posts : list FeedPost) (next_cursor : option Z) (has_more : bool)
| Unfiltered (posts : list RawPost) (next_cursor : option Z) (has_more : bool)
| Discovered (posts : list (str * str * N * bool)) (has_more : bool).

Section node_feed.
Context `{Hex}.

Definition avatar_url (p : ProfileRow) : option str := (λ cid, lit "/media/" ++ hex_encode cid) <$> pr_avatar_cid p.
Definition media_item (a : str * MediaAttachment) : MediaItem :=
  MkMediaItem a.1 (a_media_type a.2) (a_mime_type a.2) (a_width a.2) (a_height a.2) (a_duration_ms a.2)
    (lit "/media/" ++ a.1) ((λ _, lit "/media/" ++ a.1 ++ lit "/thumbnail") <$> a_thumbnail_hash a.2).

(** The live post under a wire key. *)
Definition live_post (wire : bytes) (d : SocialDb) : option PostRow :=
  s ← posts (store d) !! wire; if is_tombstone s then None else Some (row s).

Definition enrich (local : bytes) (d : SocialDb) (item : FeedItem) : FeedPost :=
  let author_hex := hex_encode (author item) in
  let wire := to_wire_bytes (content_hash item) in
  let profile := profiles d !! author item in
  let view body expires ttl count media :=
    MkFeedPost (hex_encode (hash_bytes (content_hash item))) author_hex (p ← profile; pr_display_name p) (p ← profile; avatar_url p)
      body (item_created_at item) expires ttl (is_reply item) (bool_decide (author_hex = hex_encode local)) count media in
  match live_post wire d with
  | Some r => view (default [] (r_body_preview r)) (Some (r_expires_at r)) (Some (r_ttl_seconds r)) (r_media_count r)
                (media_item <$> Media.list_media_for_post wire (MkDisk (store d) Content.open))
  | None => view [] None None 0%Z []
  end.

(** The database numbers rows as they are inserted; [rowid] is that number. *)
Definition connections_unfiltered (rowid : bytes → Z) (limit : N) (cursor : option Z) (d : SocialDb) : FeedAnswer :=
  let before_rowid := default (2 ^ 63 - 1)%Z cursor in
  let rows := sql_limit limit (newest_first (λ kv : bytes * Stored, rowid kv.1)
    (select_where (λ k s, negb (is_tombstone s) && (rowid k <? before_rowid)%Z) (posts (store d)))) in
  let raw kv := let profile := profiles d !! post_author kv in
    MkRawPost (rowid kv.1) (hex_encode kv.1) (hex_encode (post_author kv)) (p ← profile; pr_display_name p) (p ← profile; avatar_url p)
      (r_body_preview (row kv.2)) (posted_at kv) (r_expires_at (row kv.2)) (r_ttl_seconds (row kv.2)) in
  let rows := raw <$> rows in
  Unfiltered rows (rp_rowid <$> last rows) (N.of_nat (length rows) =? limit)%N.

(** The page size of a request. *)
Definition page_size_of (limit : N) : nat := N.to_nat (N.min limit 200).

Definition connections (rowid : bytes → Z) (now limit : N) (cursor : option Z) (active : option bytes) (d : SocialDb) : FeedAnswer :=
  match active with
  | Some local =>
      let feed_cursor := (λ ts, MkCursor (as_u64 ts) (from_digest (replicate 32 0%N))) <$> cursor in
      let page := connections_feed now local feed_cursor (page_size_of limit) d in
      Filtered (enrich local d <$> items page) ((λ c, as_i64 (cur_created_at c)) <$> next_cursor page) (has_more page)
  | None => connections_unfiltered rowid limit cursor d
  end.

(** No cursor is taken or given. *)
Definition discover (rowid : bytes → Z) (now limit : N) (active : option bytes) (d : SocialDb) : FeedAnswer :=
  match active with
  | Some local =>
      let page := discover_feed now local None (page_size_of limit) d in
      Discovered ((λ i, (hex_encode (hash_bytes (content_hash i)), hex_encode (author i), item_created_at i, is_reply i)) <$> items page)
        (has_more page)
  | None => connections_unfiltered rowid limit None d
  end.

Definition tagged (tag : str) (d : SocialDb) : list (bytes * Stored) :=
  omap (λ kt, s ← posts (store d) !! kt.1.1; if is_tombstone s then None else Some (kt.1.1, s))
    (select_where (λ k _, bool_decide (k.2 = tag)) (post_tags d)).
Definition search_tags (tag : str) (limit : N) (d : SocialDb) : list (str * option str * Z) :=
  (λ kv, (hex_encode kv.1, r_body_preview (row kv.2), posted_at kv)) <$> sql_limit limit (newest_first posted_at (tagged tag d)).
End node_feed.

(* ------------------------------------------------------------------ *)
(** ** Query helpers ([crates/ephemera-store/src/query.rs]) *)

Record PostMeta := MkPostMeta {
  pm_content_hash : bytes;
  pm_author_pubkey : bytes;
  pm_created_at : Z;
  pm_expires_at : Z;
  pm_body_preview : option str;
  pm_has_media : bool
}.
Record MessageMeta := MkMessageMeta {
  mm_message_id : bytes;
  mm_conversation_id : bytes;
  mm_sender_pubkey : bytes;
  mm_received_at : Z;
  mm_body_preview : option str;
  mm_is_read : bool
}.
Definition i64_max : Z := 2 ^ 63 - 1.
Definition feed_query_rows (author_pubkeys : list bytes) (before : option Z) (limit : nat) (d : StoreDb) : list PostMeta :=
  if bool_decide (author_pubkeys = []) then []
  else (λ kv, MkPostMeta kv.1 (post_author kv) (posted_at kv) (r_expires_at (row kv.2)) (r_body_preview (row kv.2))
               (negb (r_has_media (row kv.2) =? 0)%Z)) <$>
    take limit (newest_first posted_at (select_where (λ _ s, bool_decide (r_author_pubkey (row s) ∈ author_pubkeys) &&
      negb (is_tombstone s) && (r_created_at (row s) <? default i64_max before)%Z) (posts d))).
Definition messages_query (conversation_id : bytes) (before : option Z) (limit : nat) (d : MetadataDb) : list MessageMeta :=
  (λ kv, MkMessageMeta kv.1 (m_conversation kv.2) (m_sender kv.2) (m_received_at kv.2) (m_preview kv.2) (m_is_read kv.2)) <$>
    take limit (newest_first (λ kv, m_received_at kv.2) (select_where (λ _ m, bool_decide (m_conversation m = conversation_id) &&
      (m_received_at m <? default i64_max before)%Z) (Metadata.messages d))).

(* ------------------------------------------------------------------ *)
(** ** What the feeds show *)

Lemma count_where_size `{Countable K} {V} (p : K → V → bool) (t : gmap K V) : count_where p t ≤ size t.
Proof. apply map_subseteq_size, map_filter_subseteq. Qed.

Lemma elem_of_live_posts by_ d k s : (k, s) ∈ live_posts by_ d ↔
  posts (store d) !! k = Some s ∧ is_tombstone s = false ∧ by_ (r_author_pubkey (row s)) = true.
Proof. unfold live_posts. rewrite elem_of_select_where, andb_true_iff, negb_true_iff. tauto. Qed.

Lemma elem_of_connected_peers local a d :
  a ∈ connected_peers local d ↔ ∃ c, Metadata.connections (meta d) !! (local, a) = Some c ∧ c_status c = "connected"%string.
Proof.
  unfold connected_peers. rewrite list_elem_of_fmap. split.
  - intros ([[l r] c] & -> & [Hl Hp]%elem_of_select_where). cbn in Hp. bprop. subst l. eauto.
  - intros (c & Hl & Hc). exists ((local, a), c). split; [done|]. apply elem_of_select_where. cbn. by rewrite !bool_decide_true.
Qed.

(** Connected to [who], or hidden from it. *)
Definition near (who a : bytes) (d : SocialDb) : Prop :=
  a = who ∨ ∃ c, Metadata.connections (meta d) !! (who, a) = Some c ∧ c_status c = "connected"%string.
Definition hidden (now : N) (who a : bytes) (d : SocialDb) : Prop :=
  is_Some (blocks (meta d) !! (who, a)) ∨
  ∃ m, mutes (meta d) !! (who, a) = Some m ∧ ∀ e, mu_expires_at m = Some e → (as_i64 now < e)%Z.

Lemma elem_of_excluded now local a d : a ∈ get_excluded_keys now local d ↔ hidden now local a d.
Proof.
  unfold get_excluded_keys, hidden. rewrite elem_of_app, !list_elem_of_fmap. split.
  - intros [([[l r] x] & -> & [Hl Hp]%elem_of_select_where)|([[l r] m] & -> & [Hl Hp]%elem_of_select_where)]; cbn in *; bprop; subst l; [by left; eexists|].
    right. exists m. split; [done|]. intros e He. rewrite He in *. bprop. lia.
  - intros [[x Hl]|(m & Hl & Hm)]; [left; exists ((local, a), x)|right; exists ((local, a), m)]; (split; [done|]);
      apply elem_of_select_where; cbn; rewrite bool_decide_true by done; [done|]. split; [done|].
    destruct (mu_expires_at m); [|done]. by apply Z.ltb_lt, Hm.
Qed.

(** Live posts have different times. *)
Definition post_times (d : SocialDb) : Prop :=
  (∀ k s, posts (store d) !! k = Some s → i64 (r_created_at (row s))) ∧
  ∀ k k' s s', posts (store d) !! k = Some s → posts (store d) !! k' = Some s' → is_tombstone s = false → is_tombstone s' = false →
    r_created_at (row s) = r_created_at (row s') → k = k'.

Lemma live_query by_ d : post_times d →
  feed_query posted_at item_of_post (query_rows posted_at (live_posts by_ d)) ∧ distinct_times posted_at (query_rows posted_at (live_posts by_ d)).
Proof.
  intros [Ht Hd]. split.
  - apply query_rows_feed; [apply NoDup_map_to_list|]. intros [k s] (Hl & _)%elem_of_live_posts. split; [by eapply Ht|done].
  - intros [k s] [k' s']. rewrite !elem_of_query_rows, !elem_of_live_posts. intros [(Hl & Hx & _) _] [(Hl' & Hx' & _) _] E.
    assert (k = k') as <- by by eapply Hd. congruence.
Qed.

Lemma length_query_rows {A} (time : A → Z) l c : length (query_rows time l c) ≤ length l.
Proof. unfold query_rows. rewrite newest_first_perm. apply length_filter. Qed.

(** Reading [feed] to its end shows the live posts by the authors of [P],
    each once, newest first. *)
Definition shows (fuel : nat) (feed : option FeedCursor → FeedPage) (P : bytes → Prop) (d : SocialDb) : Prop :=
  ∃ rows, read_feed fuel feed None = item_of_post <$> rows ∧ NoDup rows ∧ StronglySorted (newer posted_at) rows ∧
    ∀ k s, (k, s) ∈ rows ↔ posts (store d) !! k = Some s ∧ is_tombstone s = false ∧ P (r_author_pubkey (row s)).

Lemma live_shows by_ (P : bytes → Prop) n fuel d : (∀ a, by_ a = true ↔ P a) → 1 ≤ n ≤ 200 → size (posts (store d)) < fuel → post_times d →
  shows fuel (λ c, feed_of item_of_post (query_rows posted_at (live_posts by_ d)) n c) P d.
Proof.
  intros Hby Hn Hf Ht. destruct (live_query by_ d Ht) as [Hq Hd]. exists (query_rows posted_at (live_posts by_ d) None). split_and!.
  - apply (read_all _ _ _ Hq Hd n fuel Hn). eapply Nat.le_lt_trans; [apply length_query_rows|].
    unfold live_posts. rewrite length_select_where. eapply Nat.le_lt_trans; [apply count_where_size|done].
  - apply (fq_nodup _ _ _ Hq).
  - apply (fq_sorted _ _ _ Hq).
  - intros k s. rewrite elem_of_query_rows, elem_of_live_posts, Hby. cbn. tauto.
Qed.

(** The rows that a page of the connections feed looks at. *)
Definition window (who : bytes) (cursor : option FeedCursor) (n : nat) (d : SocialDb) : list (bytes * Stored) :=
  take (fetch_limit n) (query_rows posted_at (live_posts (λ a, bool_decide (a ∈ who :: connected_peers who d)) d) cursor).

Lemma elem_of_near who a d : a ∈ who :: connected_peers who d ↔ near who a d.
Proof. by rewrite elem_of_cons, elem_of_connected_peers. Qed.

Lemma elem_of_window who cursor n d k s : (k, s) ∈ window who cursor n d →
  posts (store d) !! k = Some s ∧ is_tombstone s = false ∧ near who (r_author_pubkey (row s)) d.
Proof.
  intros Hin%subseteq_take.
  apply elem_of_query_rows in Hin as [(Hl & Ht & Ha%bool_decide_eq_true)%elem_of_live_posts _]. by rewrite <- elem_of_near.
Qed.

(** The connections feed when nobody in it is hidden. *)
Lemma connections_feed_of now who cursor n d : (∀ a, near who a d → ¬ hidden now who a d) →
  connections_feed now who cursor n d =
  feed_of item_of_post (query_rows posted_at (live_posts (λ a, bool_decide (a ∈ who :: connected_peers who d)) d)) n cursor.
Proof.
  intros Hvis. unfold connections_feed, feed_of. do 2 f_equal. apply filter_all. intros [k s] Hin. rewrite elem_of_excluded.
  apply Hvis. by eapply elem_of_window.
Qed.

Lemma read_feed_ext fuel f g c : (∀ c, f c = g c) → read_feed fuel f c = read_feed fuel g c.
Proof.
  intros Hfg. revert c. induction fuel as [|fuel IH]; intros c; [done|]. cbn. rewrite Hfg. destruct (next_cursor (g c)); [by rewrite IH|done].
Qed.

(** C37. Each feed shows exactly what it is for.  With pages of one to two
    hundred and live posts of different times, following the cursors ends and
    shows, each once and newest first: in a profile the live posts of its
    owner; in the discovery feed those by authors the viewer is neither
    connected to nor hides; in the connections feed those by the viewer and
    its connections, when none of them is hidden. *)
Theorem feeds_complete (now : N) (who owner : bytes) (n fuel : nat) (d : SocialDb)
    (Hn : 1 ≤ n ≤ 200) (Hfuel : size (posts (store d)) < fuel) (Htimes : post_times d) :
  shows fuel (λ c, profile_feed who owner c n d) (λ a, a = owner) d ∧
  shows fuel (λ c, discover_feed now who c n d) (λ a, ¬ near who a d ∧ ¬ hidden now who a d) d ∧
  ((∀ a, near who a d → ¬ hidden now who a d) → shows fuel (λ c, connections_feed now who c n d) (λ a, near who a d) d).
Proof.
  split_and!.
  - apply live_shows; [|done..]. intros a. apply bool_decide_eq_true.
  - apply live_shows; [|done..]. intros a. rewrite negb_true_iff, bool_decide_eq_false, app_comm_cons, elem_of_app, elem_of_near, elem_of_excluded. tauto.
  - intros Hvis. destruct (live_shows (λ a, bool_decide (a ∈ who :: connected_peers who d)) (λ a, near who a d) n fuel d) as (rows & Hr & Hrest);
      [|done..|exists rows; split; [|done]].
    + intros a. by rewrite bool_decide_eq_true, elem_of_near.
    + rewrite <- Hr. apply read_feed_ext. intros c. by apply connections_feed_of.
Qed.

(** The connections feed never shows a hidden author or a stranger, but
    one hidden author cuts it short: a page that meets a post of one among the
    rows it looks at says that nothing follows, whatever does. *)
Theorem hidden_author_ends_feed (now : N) (who : bytes) (cursor : option FeedCursor) (n : nat) (d : SocialDb) (Hn : n ≤ 200) :
  let page := connections_feed now who cursor n d in
  (∀ i, i ∈ items page → ∃ k s, posts (store d) !! k = Some s ∧ is_tombstone s = false ∧ i = item_of_post (k, s) ∧
     near who (r_author_pubkey (row s)) d ∧ ¬ hidden now who (r_author_pubkey (row s)) d) ∧
  (∀ k s, (k, s) ∈ window who cursor n d → hidden now who (r_author_pubkey (row s)) d → has_more page = false ∧ next_cursor page = None).
Proof.
  intros page. unfold page, connections_feed. fold (window who cursor n d). split.
  - intros i Hi. assert (Hin : i ∈ item_of_post <$> base.filter (λ kv, post_author kv ∉ get_excluded_keys now who d) (window who cursor n d)).
    { unfold page_of in Hi. cbn [items] in Hi. case_match; [|done]. by apply subseteq_take in Hi. }
    apply list_elem_of_fmap in Hin as ([k s] & -> & [Ha Hw]%list_elem_of_filter). apply elem_of_window in Hw as (Hl & Ht & Hnear).
    exists k, s. split_and!; try done. by rewrite <- elem_of_excluded.
  - intros k s Hw Hh. assert (Hlt : length (base.filter (λ kv, post_author kv ∉ get_excluded_keys now who d) (window who cursor n d)) < length (window who cursor n d)).
    { apply (length_filter_lt _ _ (k, s)); [done|]. unfold post_author. cbn. rewrite elem_of_excluded. tauto. }
    assert (Hle : length (window who cursor n d) ≤ n + 1).
    { unfold window, fetch_limit. rewrite length_take. lia. }
    unfold page_of. cbv zeta. rewrite length_fmap. destruct (Nat.ltb_spec n (length (base.filter (λ kv, post_author kv ∉ get_excluded_keys now who d) (window who cursor n d)))); [lia|done].
Qed.

(* ------------------------------------------------------------------ *)
(** ** Topic rooms *)

Lemma NoDup_omap_inj {A B} (f : A → option B) (l : list A) :
  (∀ x y z, x ∈ l → y ∈ l → f x = Some z → f y = Some z → x = y) → NoDup l → NoDup (omap f l).
Proof.
  induction l as [|x l IH]; intros Hinj Hnd; [constructor|]. apply NoDup_cons in Hnd as [Hx Hl].
  assert (Hrest : NoDup (omap f l)) by (apply IH; [intros y y' z ??; apply Hinj; set_solver|done]).
  cbn. destruct (f x) as [z|] eqn:E; [|done].
  constructor; [|done]. intros (y & Hy & Hz)%list_elem_of_omap. apply Hx. rewrite (Hinj x y z); [done|set_solver..|done|done].
Qed.

Lemma length_omap_le {A B} (f : A → option B) (l : list A) : length (omap f l) ≤ length l.
Proof. induction l as [|x l IH]; cbn; [done|]. destruct (f x); cbn; lia. Qed.

Section topic_props.
Context `{Primitives, Hex}.

Lemma elem_of_topic_rows topic d t : t ∈ topic_rows topic d ↔
  topic_posts d !! (topic, tp_hash t) = Some (tp_at t) ∧ posts (store d) !! tp_hash t = Some (tp_post t) ∧ is_tombstone (tp_post t) = false.
Proof.
  unfold topic_rows. rewrite list_elem_of_omap. split.
  - intros ([[g h] z] & [Hl Hg]%elem_of_select_where & Hj). cbn in Hg. bprop. subst g. unfold join_post in Hj. cbn in Hj.
    destruct (posts (store d) !! h) as [s|] eqn:E; [|done]. cbn in Hj. destruct (is_tombstone s) eqn:Et; [done|]. by injection Hj as <-.
  - destruct t as [h z s]. cbn. intros (Hl & Hp & Ht). exists ((topic, h), z). split.
    + apply elem_of_select_where. cbn. by rewrite bool_decide_true.
    + unfold join_post. cbn. rewrite Hp. cbn. by rewrite Ht.
Qed.

(** The posts of a room were posted at different times. *)
Definition topic_times (topic : str) (d : SocialDb) : Prop :=
  (∀ h t, topic_posts d !! (topic, h) = Some t → i64 t) ∧
  ∀ h h' t, topic_posts d !! (topic, h) = Some t → topic_posts d !! (topic, h') = Some t → h = h'.

(** A room's feed shows exactly the live posts that were posted to it,
    each once, the last posted first, over pages of one to two hundred when
    no two were posted in the same second; what the node has not stored, or
    has deleted, is not shown. *)
Theorem topic_feed_complete (topic : str) (n fuel : nat) (d : SocialDb)
    (Hn : 1 ≤ n ≤ 200) (Hfuel : size (topic_posts d) < fuel) (Htimes : topic_times topic d) :
  ∃ rows, read_feed fuel (λ c, get_topic_feed topic c n d) None = item_of_topic <$> rows ∧ NoDup rows ∧ StronglySorted (newer tp_at) rows ∧
    ∀ h t s, MkTopicPost h t s ∈ rows ↔
      topic_posts d !! (topic, h) = Some t ∧ posts (store d) !! h = Some s ∧ is_tombstone s = false.
Proof.
  destruct Htimes as [Ht Hd]. set (q := query_rows tp_at (topic_rows topic d)).
  assert (Hnd : NoDup (topic_rows topic d)).
  { apply NoDup_omap_inj; [|apply NoDup_map_to_list]. intros [[g h] z] [[g' h'] z'] t [_ Hg]%elem_of_select_where [_ Hg']%elem_of_select_where.
    cbn in Hg, Hg'. bprop. subst g g'. unfold join_post. cbn. intros Hj Hj'.
    destruct (posts (store d) !! h) as [s|]; [|done]. destruct (posts (store d) !! h') as [s'|]; [|done]. cbn in *.
    destruct (is_tombstone s); [done|]. destruct (is_tombstone s'); [done|]. by simplify_eq. }
  assert (Hq : feed_query tp_at item_of_topic q).
  { apply query_rows_feed; [done|]. intros t (Hl & _)%elem_of_topic_rows. split; [by eapply Ht|done]. }
  exists (q None). split_and!.
  - apply (read_all _ _ _ Hq); [|done|].
    + intros x y [Hx _]%elem_of_query_rows [Hy _]%elem_of_query_rows E. apply elem_of_topic_rows in Hx as (Hx & Hpx & _), Hy as (Hy & Hpy & _).
      rewrite <- E in Hy. assert (tp_hash x = tp_hash y) as Eh by by eapply Hd. destruct x, y; cbn in *. congruence.
    + eapply Nat.le_lt_trans; [apply length_query_rows|]. eapply Nat.le_lt_trans; [apply length_omap_le|].
      rewrite length_select_where. eapply Nat.le_lt_trans; [apply count_where_size|done].
  - apply (fq_nodup _ _ _ Hq).
  - apply (fq_sorted _ _ _ Hq).
  - intros h t s. unfold q. rewrite elem_of_query_rows, elem_of_topic_rows. cbn. tauto.
Qed.

(** A room is made once, by any text of 1 to 128 bytes whose hash is not
    the id of a room yet, with its creator as first subscriber; only a room
    that is there can be joined; joining and leaving decide the subscription
    of the caller and of nobody else. *)
Theorem topic_membership (now : N) (local : bytes) (name : str) (description : option str) (topic : str) (d : SocialDb) :
  let who := hex_encode local in
  let id := topic_id_from_name name in
  (let '(d', r) := social_create_topic now (Some local) name description d in
   if bool_decide (name ≠ [] ∧ str_len name ≤ 128 ∧ topic_rooms d !! id = None)
   then r = Ok (MkRoom id name description who (as_u64 (as_i64 now))) ∧ topic_rooms d' = <[id := MkTopic name description who (as_i64 now)]> (topic_rooms d) ∧
        is_Some (topic_subscriptions d' !! (id, who)) ∧ (∀ k, k ≠ (id, who) → topic_subscriptions d' !! k = topic_subscriptions d !! k)
   else (∃ e, r = Err (Social "create topic" (Validation e))) ∧ d' = d) ∧
  (let '(d', r) := social_join_topic now (Some local) topic d in
   topic_rooms d' = topic_rooms d ∧ (r = Ok tt ↔ is_Some (topic_rooms d !! topic)) ∧ (r = Ok tt → is_Some (topic_subscriptions d' !! (topic, who))) ∧
   (r ≠ Ok tt → d' = d) ∧ ∀ k, k ≠ (topic, who) → topic_subscriptions d' !! k = topic_subscriptions d !! k) ∧
  (let '(d', r) := social_leave_topic (Some local) topic d in
   r = Ok tt ∧ topic_rooms d' = topic_rooms d ∧ topic_subscriptions d' = delete (topic, who) (topic_subscriptions d)).
Proof.
  intros who id. unfold social_create_topic, social_join_topic, social_leave_topic, get_local_identity, create_topic, join_topic, leave_topic, subscribe,
    se_map_err, se_bind, se_lift, se_get, se_modify, se_ret. cbn [ok_or]. fold id who. split_and!.
  - destruct (decide (name = [])) as [->|Hne]; [cbn; eauto|]. rewrite (bool_decide_false (name = [])) by done. cbn [orb].
    destruct (Nat.ltb_spec 128 (str_len name)); [rewrite bool_decide_false by (intros (_ & ? & _); lia); eauto|].
    unfold insert_new. destruct (topic_rooms d !! id) eqn:E; [rewrite bool_decide_false by (by intros (_ & _ & ?)); eauto|].
    rewrite bool_decide_true by done. cbn. split_and!; try done; [apply insert_or_ignore_is_Some|].
    intros k Hk. rewrite lookup_insert_or_ignore. by rewrite decide_False.
  - destruct (topic_rooms d !! topic) eqn:E; cbn.
    + split_and!; intros; try done; [apply insert_or_ignore_is_Some|]. rewrite lookup_insert_or_ignore. by rewrite decide_False.
    + split_and!; try done.
  - done.
  - done.
  - done.
Qed.
End topic_props.

(* ------------------------------------------------------------------ *)
(** ** Reactions *)

Lemma emoji_roundtrip e : emoji_from_str (emoji_to_string e) = Ok e.
Proof. by destruct e. Qed.
Lemma emoji_parse s e : emoji_from_str s = Ok e → s = emoji_to_string e.
Proof. unfold emoji_from_str. intros Hp. repeat case_bool_decide; by simplify_eq. Qed.

Section reaction_props.
Context `{Hex}.

(** Calls of [react] on the node, each by an identity. *)
Record ReactCall := MkCall { by_whom : bytes; on_post : str; with_text : str; to_do : str; called_at : N }.
Definition run_reactions (calls : list ReactCall) (d : SocialDb) : SocialDb :=
  foldl (λ d c, (social_react (called_at c) (Some (by_whom c)) (on_post c) (with_text c) (to_do c) d).1) d calls.

(** What [who], known by its hex key, has last done on [post]: calls with an
    unknown emoji or action do not count. *)
Definition effect (c : ReactCall) : option (option ReactionEmoji) :=
  match emoji_from_str (with_text c) with
  | Err _ => None
  | Ok e => if bool_decide (to_do c = lit "add") then Some (Some e) else if bool_decide (to_do c = lit "remove") then Some None else None
  end.
Definition last_reaction (calls : list ReactCall) (post who : str) : option ReactionEmoji :=
  foldl (λ r c, if bool_decide (on_post c = post ∧ hex_encode (by_whom c) = who) then default r (effect c) else r) None calls.

(** The reactions table holds exactly the last reactions. *)
Definition holds (calls : list ReactCall) (d : SocialDb) : Prop :=
  ∀ post who, (re_emoji <$> reactions d !! (post, who)) = emoji_to_string <$> last_reaction calls post who.

Lemma react_effect c d : let k := (on_post c, hex_encode (by_whom c)) in
  reactions (social_react (called_at c) (Some (by_whom c)) (on_post c) (with_text c) (to_do c) d).1 =
  match effect c with
  | Some (Some e) => <[k := MkReaction (emoji_to_string e) (as_i64 (called_at c))]> (reactions d)
  | Some None => delete k (reactions d)
  | None => reactions d
  end.
Proof.
  cbv zeta. unfold social_react, get_local_identity, effect, react, unreact, se_map_err, se_bind, se_lift, se_modify, se_ret. cbn [ok_or].
  destruct (emoji_from_str (with_text c)) as [e|]; cbn [map_err]; [|done]. by repeat case_bool_decide.
Qed.

Lemma holds_snoc calls c d : holds calls d →
  holds (calls ++ [c]) (social_react (called_at c) (Some (by_whom c)) (on_post c) (with_text c) (to_do c) d).1.
Proof.
  intros Hh post who. unfold last_reaction. rewrite foldl_app. cbn [foldl]. fold (last_reaction calls post who). rewrite react_effect.
  specialize (Hh post who). destruct (decide (on_post c = post ∧ hex_encode (by_whom c) = who)) as [[<- <-]|Hne].
  - rewrite bool_decide_true by done. destruct (effect c) as [[e|]|]; [by rewrite lookup_insert_eq|by rewrite lookup_delete_eq|done].
  - rewrite bool_decide_false by done. destruct (effect c) as [[e|]|]; [rewrite lookup_insert_ne|rewrite lookup_delete_ne|]; try done; intros [= ? ?]; by apply Hne.
Qed.

Lemma run_holds calls d : reactions d = ∅ → holds calls (run_reactions calls d).
Proof.
  intros He. induction calls as [|c calls IH] using rev_ind.
  - intros post who. unfold run_reactions. cbn. by rewrite He, lookup_empty.
  - unfold run_reactions. rewrite foldl_app. by apply holds_snoc.
Qed.

Definition reactors (calls : list ReactCall) : list str := remove_dups ((λ c, hex_encode (by_whom c)) <$> calls).

Lemma last_reaction_reactor calls post who e : last_reaction calls post who = Some e → who ∈ reactors calls.
Proof.
  unfold reactors. rewrite elem_of_remove_dups. induction calls as [|c calls IH] using rev_ind; [done|].
  unfold last_reaction. rewrite foldl_app, fmap_app. cbn [foldl]. fold (last_reaction calls post who). rewrite elem_of_app. intros Hl.
  case_bool_decide as Hc; [right; destruct Hc as [_ <-]; cbn; set_solver|left; by apply IH].
Qed.

Lemma count_reactors calls post (emoji : str) d : holds calls d →
  with_emoji post emoji d = length (base.filter (λ who, (emoji_to_string <$> last_reaction calls post who) = Some emoji) (reactors calls)).
Proof.
  intros Hh. unfold with_emoji. rewrite <- length_select_where, <- (length_fmap (λ kr, kr.1.2)). apply Permutation_length, NoDup_Permutation.
  - apply NoDup_fmap_2_strong; [|apply NoDup_map_to_list].
    intros [[p w] r] [[p' w'] r'] [Hl Hp]%elem_of_select_where [Hl' Hp']%elem_of_select_where E. cbn in *. bprop. congruence.
  - apply NoDup_filter, NoDup_remove_dups.
  - intros who. rewrite list_elem_of_fmap, list_elem_of_filter, <- Hh. split.
    + intros ([[p w] r] & -> & [Hl Hp]%elem_of_select_where). cbn in *. bprop. subst. specialize (Hh post w). rewrite Hl in Hh |- *. cbn in *.
      split; [done|]. destruct (last_reaction calls post w) eqn:E; [|done]. by eapply last_reaction_reactor.
    + intros [Hl _]. destruct (reactions d !! (post, who)) as [r|] eqn:E; [|done]. injection Hl as Hl. exists ((post, who), r). split; [done|].
      apply elem_of_select_where. cbn. by rewrite !bool_decide_true.
Qed.

Lemma count_for_get post me e d : count_for e (get_reactions post me d) = with_emoji post (emoji_to_string e) d.
Proof.
  unfold count_for, get_reactions, ALL. cbn [counts omap list_omap].
  destruct (with_emoji post (emoji_to_string Heart) d) eqn:E1, (with_emoji post (emoji_to_string Laugh) d) eqn:E2,
    (with_emoji post (emoji_to_string Fire) d) eqn:E3, (with_emoji post (emoji_to_string Sad) d) eqn:E4,
    (with_emoji post (emoji_to_string Thinking) d) eqn:E5; destruct e; rewrite ?E1, ?E2, ?E3, ?E4, ?E5; done.
Qed.

(** C36. Reactions count people, once each: after any calls, by anybody and
    with any texts, on an empty table, the count shown for an emoji is the
    number of identities whose last effective call on the post added it, and
    the caller sees its own last one. *)
Theorem reactions_counted (calls : list ReactCall) (d : SocialDb) (me : bytes) (post : str) (Hempty : reactions d = ∅) :
  social_get_reactions (Some me) post (run_reactions calls d) =
  Ok ((λ e, (emoji_to_string e, length (base.filter (λ who, last_reaction calls post who = Some e) (reactors calls)))) <$> ALL,
      emoji_to_string <$> last_reaction calls post (hex_encode me)).
Proof.
  pose proof (run_holds calls d Hempty) as Hh. unfold social_get_reactions. cbn [ok_or result_bind]. f_equal. f_equal.
  - apply list_fmap_ext. intros i e _. f_equal. rewrite count_for_get, (count_reactors calls) by done. f_equal.
    apply list_filter_iff. intros who. destruct (last_reaction calls post who) as [e'|]; [|done]. cbn.
    split; [|by intros [= ->]]. intros [= Hs]. pose proof (emoji_roundtrip e') as Hr. rewrite Hs, emoji_roundtrip in Hr. by injection Hr as ->.
  - unfold get_reactions. cbn [my_emoji]. specialize (Hh post (hex_encode me)). cbn [mbind option_bind].
    destruct (reactions (run_reactions calls d) !! (post, hex_encode me)) as [r|], (last_reaction calls post (hex_encode me)) as [e|]; try done.
    injection Hh as Hr. cbn [mbind option_bind]. by rewrite Hr, emoji_roundtrip.
Qed.

(** Every reaction shown is counted in the total. *)
Lemma total_get post me d : total (get_reactions post me d) = sum_list ((λ e, with_emoji post (emoji_to_string e) d) <$> ALL).
Proof.
  unfold total, get_reactions, ALL. cbn [counts omap list_omap fmap list_fmap].
  destruct (with_emoji post (emoji_to_string Heart) d), (with_emoji post (emoji_to_string Laugh) d),
    (with_emoji post (emoji_to_string Fire) d), (with_emoji post (emoji_to_string Sad) d), (with_emoji post (emoji_to_string Thinking) d); cbn; lia.
Qed.
End reaction_props.

(* ------------------------------------------------------------------ *)
(** ** Mentions, and the feeds of the node *)

Lemma elem_of_mentioning who d k s : (k, s) ∈ mentioning who d ↔
  is_Some (post_mentions d !! (k, who)) ∧ posts (store d) !! k = Some s ∧ is_tombstone s = false ∧
  blocks (meta d) !! (who, r_author_pubkey (row s)) = None.
Proof.
  unfold mentioning. rewrite list_elem_of_omap. split.
  - intros ([[h w] m] & [Hl Hw]%elem_of_select_where & Hj). cbn in Hw, Hj. bprop. subst w.
    destruct (posts (store d) !! h) as [s'|] eqn:E; [|done]. cbn in Hj.
    destruct (is_tombstone s') eqn:Et; [done|]. cbn in Hj. case_bool_decide as Hb; [done|]. injection Hj as <- <-.
    apply eq_None_not_Some in Hb. eauto 10.
  - intros ([m Hl] & Hp & Ht & Hb). exists ((k, who), m). split.
    + apply elem_of_select_where. cbn. by rewrite bool_decide_true.
    + cbn. rewrite Hp. cbn. rewrite Ht, Hb. by rewrite bool_decide_false by (by intros [? ?]).
Qed.

Section node_props.
Context `{Hex, !HexLaws}.

(** Keys and authors have their lengths. *)
Definition canonical_posts (d : SocialDb) : Prop :=
  ∀ k s, posts (store d) !! k = Some s → is_Some (from_wire_bytes k) ∧ length (r_author_pubkey (row s)) = 32 ∧ Forall byte_ok (r_author_pubkey (row s)).

(** What the node's feed shows of a stored post. *)
Definition card (local : bytes) (d : SocialDb) (kv : bytes * Stored) : FeedPost :=
  let r := row kv.2 in
  let profile := profiles d !! r_author_pubkey r in
  MkFeedPost (hex_encode (drop 1 kv.1)) (hex_encode (r_author_pubkey r)) (p ← profile; pr_display_name p) (p ← profile; avatar_url p)
    (default [] (r_body_preview r)) (as_u64 (r_created_at r)) (Some (r_expires_at r)) (Some (r_ttl_seconds r))
    (bool_decide (is_Some (r_parent_hash r))) (bool_decide (r_author_pubkey r = local)) (r_media_count r)
    (media_item <$> Media.list_media_for_post kv.1 (MkDisk (store d) Content.open)).

Lemma hex_encode_inj a b : Forall byte_ok a → Forall byte_ok b → hex_encode a = hex_encode b → a = b.
Proof. intros Ha Hb E. apply hex_decode_encode in Ha, Hb. rewrite E in Ha. congruence. Qed.

Lemma enrich_item local d k s : canonical_posts d → Forall byte_ok local → posts (store d) !! k = Some s → is_tombstone s = false →
  enrich local d (item_of_post (k, s)) = card local d (k, s).
Proof.
  intros Hc Hb Hl Ht. destruct (Hc k s Hl) as ([c Hk] & Hlen & Hbytes). pose proof (wire_canonical _ _ Hk) as Hw.
  assert (Hlk : length k = 33).
  { unfold from_wire_bytes in Hk. destruct (Nat.eqb_spec (length k) (BLAKE3_HASH_LEN + 1)) as [E|E]; [by rewrite E|done]. }
  assert (Hid : bytes_to_content_hash k = c) by (unfold bytes_to_content_hash; by rewrite Hlk, Hk).
  assert (Ha : bytes_to_identity_key (r_author_pubkey (row s)) = r_author_pubkey (row s)) by (unfold bytes_to_identity_key; by rewrite Hlen).
  unfold enrich, item_of_post, card, post_author. cbn [content_hash author item_created_at is_reply fst snd]. rewrite Hid, Ha, Hw.
  unfold live_post. rewrite Hl. cbn. rewrite Ht. cbn.
  assert (hash_bytes c = drop 1 k) as -> by (rewrite <- Hw; by destruct c).
  f_equal.
  - apply bool_decide_ext. apply fmap_is_Some.
  - apply bool_decide_ext. split; [by apply hex_encode_inj|by intros ->].
Qed.

(** What a client sees who follows the cursors of the node's feed. *)
Fixpoint read_cards (fuel : nat) (rowid : bytes → Z) (now limit : N) (cursor : option Z) (local : bytes) (d : SocialDb) : list FeedPost :=
  match fuel with
  | 0 => []
  | S fuel =>
      match connections rowid now limit cursor (Some local) d with
      | Filtered posts next _ =>
          posts ++ match next with Some t => read_cards fuel rowid now limit (Some t) local d | None => [] end
      | _ => []
      end
  end.

Lemma connections_feed_older now who c c' n d : (∀ t, older c t = older c' t) →
  connections_feed now who c n d = connections_feed now who c' n d.
Proof.
  intros Ho. unfold connections_feed. do 4 f_equal. unfold query_rows. f_equal. apply list_filter_iff. intros x. by rewrite Ho.
Qed.

Lemma next_cursor_time now who c n d k : next_cursor (connections_feed now who c n d) = Some k → u64 (cur_created_at k).
Proof.
  unfold connections_feed, page_of. cbv zeta. cbn [next_cursor]. case_match; [|done].
  intros (i & Hi%last_Some_elem_of & ->)%fmap_Some_1. apply subseteq_take, list_elem_of_fmap in Hi as ([k' s] & -> & _).
  cbn [cur_created_at item_of_post item_created_at]. unfold as_u64, u64, u64_modulus. pose proof (Z.mod_pos_bound (posted_at (k', s)) (2 ^ 64)). lia.
Qed.

Lemma read_cards_feed rowid now limit local d fuel : ∀ z c,
  (∀ t, older ((λ ts, MkCursor (as_u64 ts) (from_digest (replicate 32 0%N))) <$> z) t = older c t) →
  read_cards fuel rowid now limit z local d =
  enrich local d <$> read_feed fuel (λ c, connections_feed now local c (page_size_of limit) d) c.
Proof.
  induction fuel as [|fuel IH]; intros z c Ho; [done|]. cbn [read_cards read_feed connections].
  rewrite (connections_feed_older _ _ _ c) by done. rewrite fmap_app. f_equal.
  destruct (next_cursor _) as [k|] eqn:Ek; [|done]. apply next_cursor_time in Ek. cbn [fmap option_fmap option_map].
  apply IH. intros t. cbn. by rewrite as_i64_as_u64 by by apply as_i64_range.
Qed.

(** C25. The node's feed is complete: following its cursors shows a card of
    each live post by the identity and its connections, once and newest
    first, with the text, lifetime and media that are stored; when no
    connection is hidden and live posts have different times.  No card is
    without its post. *)
Theorem node_feed_complete (rowid : bytes → Z) (now limit : N) (local : bytes) (fuel : nat) (d : SocialDb)
    (Hlimit : (1 ≤ limit)%N) (Hfuel : size (posts (store d)) < fuel) (Htimes : post_times d) (Hcanon : canonical_posts d)
    (Hlocal : Forall byte_ok local) (Hvis : ∀ a, near local a d → ¬ hidden now local a d) :
  ∃ rows, read_cards fuel rowid now limit None local d = card local d <$> rows ∧ NoDup rows ∧ StronglySorted (newer posted_at) rows ∧
    ∀ k s, (k, s) ∈ rows ↔ posts (store d) !! k = Some s ∧ is_tombstone s = false ∧ near local (r_author_pubkey (row s)) d.
Proof.
  rewrite (read_cards_feed rowid now limit local d fuel None None) by done.
  destruct (live_shows (λ a, bool_decide (a ∈ local :: connected_peers local d)) (λ a, near local a d) (page_size_of limit) fuel d)
    as (rows & Hr & Hnd & Hs & Hin); [intros a; by rewrite bool_decide_eq_true, elem_of_near|unfold page_size_of; lia|done..|].
  exists rows. split_and!; try done. erewrite read_feed_ext by (intros c; by apply connections_feed_of). rewrite Hr, <- list_fmap_compose.
  apply list_fmap_ext. intros i [k s] Hi%list_elem_of_lookup_2. apply Hin in Hi as (Hl & Ht & _). by apply enrich_item.
Qed.
End node_props.

(* ------------------------------------------------------------------ *)
(** ** Witnesses *)

Section witnesses.
Import Toy HexToy.

Definition fw_me : bytes := replicate 32 1%N.
Definition fw_peer : bytes := replicate 32 2%N.
Definition fw_key : bytes := CONTENT_HASH_VERSION :: replicate 32 3%N.
Definition fw_post : Stored := fresh_row (MkRow fw_peer 0 1000 2000 1000 None None 0 (Some (lit "hi")) 0 0 8 1001 1 [] []).
Definition fw_conn : ConnRow := MkConn "connected" 1 1 None None.
(** A connection's post; the connection is muted if [m] says so. *)
Definition fw_db (m : gmap (bytes * bytes) MuteRow) : SocialDb :=
  MkSocial (MkDb {[ (fw_me, fw_peer) := fw_conn ]} ∅ m ∅ ∅ ∅ ∅) (MkStoreDb {[ fw_key := fw_post ]} ∅ ∅ ∅ ∅)
    ∅ ∅ {[ (lit "t", fw_key) := 1500%Z ]} ∅ {[ (fw_key, fw_me) := MkMention None 0 2 ]} ∅ ∅.
Definition fw_mute : gmap (bytes * bytes) MuteRow := {[ (fw_me, fw_peer) := MkMute 1 None ]}.

Lemma fw_only m k s : posts (store (fw_db m)) !! k = Some s → k = fw_key ∧ s = fw_post.
Proof. intros Hl. by destruct (proj1 (lookup_singleton_Some _ _ _ _) Hl) as [<- <-]. Qed.
Lemma fw_topic k t : topic_posts (fw_db ∅) !! k = Some t → k = (lit "t", fw_key) ∧ t = 1500%Z.
Proof. intros Hl. by destruct (proj1 (lookup_singleton_Some _ _ _ _) Hl) as [<- <-]. Qed.
Lemma fw_times m : post_times (fw_db m).
Proof.
  split; intros k.
  - intros s [_ ->]%fw_only. cbn. unfold i64. lia.
  - intros k' s s' [-> _]%fw_only [-> _]%fw_only. done.
Qed.
Lemma fw_visible a : ¬ hidden 1100 fw_me a (fw_db ∅).
Proof. intros [[x Hl]|(x & Hl & _)]; by destruct (lookup_empty_Some _ _ Hl). Qed.
Lemma fw_near m : near fw_me fw_peer (fw_db m).
Proof. right. exists fw_conn. split; [apply lookup_singleton_eq|done]. Qed.

Lemma feeds_complete_witness :
  ∃ rows, read_feed 2 (λ c, connections_feed 1100 fw_me c 1 (fw_db ∅)) None = item_of_post <$> rows ∧ (fw_key, fw_post) ∈ rows.
Proof.
  destruct (feeds_complete 1100 fw_me fw_peer 1 2 (fw_db ∅)) as (_ & _ & Hc).
  - lia.
  - cbn [store fw_db posts]. rewrite map_size_singleton. lia.
  - apply fw_times.
  - destruct Hc as (rows & Hr & _ & _ & Hin); [intros a _; apply fw_visible|]. exists rows. split; [exact Hr|].
    apply Hin. split_and!; [apply lookup_singleton_eq|reflexivity|apply fw_near].
Defined.

Lemma hidden_author_ends_feed_witness :
  has_more (connections_feed 1100 fw_me None 1 (fw_db fw_mute)) = false ∧ items (connections_feed 1100 fw_me None 1 (fw_db fw_mute)) = [].
Proof.
  destruct (hidden_author_ends_feed 1100 fw_me None 1 (fw_db fw_mute)) as [Hi Hh]; [lia|].
  assert (Hhid : hidden 1100 fw_me fw_peer (fw_db fw_mute)).
  { right. exists (MkMute 1 None). split; [apply lookup_singleton_eq|done]. }
  split.
  - apply (Hh fw_key fw_post); [|exact Hhid]. unfold window. rewrite take_ge.
    + apply elem_of_query_rows. split; [|done]. apply elem_of_live_posts. split_and!; [apply lookup_singleton_eq|done|].
      apply bool_decide_eq_true, elem_of_near, fw_near.
    + etransitivity; [apply length_query_rows|]. unfold live_posts. rewrite length_select_where. etransitivity; [apply count_where_size|].
      cbn [store fw_db posts]. rewrite map_size_singleton. unfold fetch_limit. lia.
  - destruct (items _) as [|i l] eqn:E; [done|]. destruct (Hi i) as (k & s & Hl & _ & _ & _ & Hnot); [left|].
    apply fw_only in Hl as [-> ->]. by destruct Hnot.
Defined.

Lemma topic_feed_complete_witness :
  ∃ rows, read_feed 2 (λ c, get_topic_feed (lit "t") c 1 (fw_db ∅)) None = item_of_topic <$> rows ∧ MkTopicPost fw_key 1500 fw_post ∈ rows.
Proof.
  destruct (topic_feed_complete (lit "t") 1 2 (fw_db ∅)) as (rows & Hr & _ & _ & Hin).
  - lia.
  - cbn [topic_posts fw_db]. rewrite map_size_singleton. lia.
  - split.
    + intros h t [_ ->]%fw_topic. unfold i64. lia.
    + intros h h' t [[= ->] _]%fw_topic [[= ->] _]%fw_topic. done.
  - exists rows. split; [exact Hr|]. apply Hin. split_and!; [apply lookup_singleton_eq|apply lookup_singleton_eq|reflexivity].
Defined.

Definition fw_calls : list ReactCall :=
  [MkCall [1%N] (lit "p") (lit "heart") (lit "add") 1; MkCall [2%N] (lit "p") (lit "heart") (lit "add") 2;
   MkCall [1%N] (lit "p") (lit "sad") (lit "add") 3; MkCall [2%N] (lit "p") (lit "joy") (lit "add") 4].
Lemma reactions_counted_witness :
  social_get_reactions (Some [2%N]) (lit "p") (run_reactions fw_calls (fw_db ∅)) =
  Ok ([(lit "heart", 1); (lit "laugh", 0); (lit "fire", 0); (lit "sad", 1); (lit "thinking", 0)], Some (lit "heart")).
Proof. rewrite (reactions_counted fw_calls (fw_db ∅) [2%N] (lit "p") eq_refl). vm_compute. reflexivity. Defined.

Lemma node_feed_complete_witness : ∃ rows, read_cards 2 (λ _, 1%Z) 1100 1 None fw_me (fw_db ∅) = card fw_me (fw_db ∅) <$> rows ∧ (fw_key, fw_post) ∈ rows.
Proof.
  destruct (node_feed_complete (λ _, 1%Z) 1100 1 fw_me 2 (fw_db ∅)) as (rows & Hr & _ & _ & Hin).
  - lia.
  - cbn [store fw_db posts]. rewrite map_size_singleton. lia.
  - apply fw_times.
  - intros k s [-> ->]%fw_only. split_and!; [by eexists|done|]. repeat (constructor; [unfold byte_ok; lia|]). constructor.
  - repeat (constructor; [unfold byte_ok; lia|]). constructor.
  - intros a _. apply fw_visible.
  - exists rows. split; [exact Hr|]. apply Hin. split_and!; [apply lookup_singleton_eq|reflexivity|apply fw_near].
Defined.
End witnesses.
