(* ===== verification/Threads.v ===== *)
(** * What the node shows of messages, and the block and mute operations

    The reading half of [MessageService] and the block and mute operations of
    [SocialService] in [crates/ephemera-node/src/services/social.rs], and the
    conversion of identity keys to X25519 keys ([crates/ephemera-crypto/src/keys.rs])
    by which the node encrypts messages and reads them.  The database is the
    one of [Ingest.Node], the profiles those of [Feeds.SocialDb]; both are
    tables of one file. *)
From S2P Require Import Prelude Types Crypto Unicode Ratchet Tables Metadata Messages Connections Dht Ingest Delivery Post Feeds.
Import DeadDrop.

(* ------------------------------------------------------------------ *)
(** ** From identity keys to X25519 keys *)

(** [SigningKey::to_scalar_bytes], and [VerifyingKey::from_bytes] followed by
    [to_montgomery] (no key when the bytes are no curve point), of
    ed25519-dalek. *)
Class KeyConversion := {
  to_scalar_bytes : bytes → bytes;
  to_montgomery : bytes → option bytes
}.

(** The documentation of [to_montgomery]: its output is the X25519 public key
    of [to_scalar_bytes]. *)
Class KeyConversionLaws `{Primitives, KeyConversion} : Prop := {
  montgomery_of_public seed : to_montgomery (ed25519_public seed) = Some (x25519_public (to_scalar_bytes seed))
}.

Section threads.
Context `{Primitives, KeyConversion, Hex}.

Definition ed25519_seed_to_x25519 (ed25519_seed : bytes) : X25519KeyPair := from_secret_bytes (to_scalar_bytes ed25519_seed).
Definition ed25519_pub_to_x25519 (ed25519_pub : bytes) : result EphemeraError bytes :=
  ok_or (to_montgomery ed25519_pub) (InvalidKey "invalid Ed25519 public key for X25519 conversion").

(* ------------------------------------------------------------------ *)
(** ** Requests of a client *)

Inductive PubkeyError := BadPubkeyHex | PubkeyLength (got : nat).
Inductive ThreadFailure :=
| Locked
| Pubkey (e : PubkeyError)
| BadConversationId
| SocialFailed (during : string) (e : SocialError)
| ConnectionFailed (during : string) (e : ConnectionError).

Definition parse_pubkey (hex_str : str) : result PubkeyError bytes :=
  let? b := ok_or (hex_decode hex_str) BadPubkeyHex in
  if negb (length b =? 32) then Err (PubkeyLength (length b)) else Ok b.

(** Whose request it is, [active] the seed of the unlocked pseudonym, and whom
    it is about. *)
Definition parties (active : option bytes) (target : str) : result ThreadFailure (bytes * bytes) :=
  let? seed := ok_or active Locked in
  let? remote := map_err Pubkey (parse_pubkey target) in
  Ok (ed25519_public seed, remote).

Definition block (now : N) (active : option bytes) (target : str) : SE MetadataDb ThreadFailure unit :=
  let! p := se_lift (parties active target) in
  se_map_err (SocialFailed "block user") (Connections.block now p.1 p.2 None).
Definition unblock (active : option bytes) (target : str) : SE MetadataDb ThreadFailure unit :=
  let! p := se_lift (parties active target) in
  se_map_err (SocialFailed "unblock user") (Connections.unblock p.1 p.2).
(** The hours are multiplied and added in 64 bits; [t_expiry] is the second
    read for them, [now] the one the row is written at. *)
Definition mute (t_expiry now : N) (active : option bytes) (target : str) (hours : option N) : SE MetadataDb ThreadFailure unit :=
  let! p := se_lift (parties active target) in
  let expires_at := (λ h, add64 t_expiry (h * 3600 mod u64_modulus)%N) <$> hours in
  se_map_err (SocialFailed "mute user") (Connections.mute now p.1 p.2 expires_at).
Definition unmute (active : option bytes) (target : str) : SE MetadataDb ThreadFailure unit :=
  let! p := se_lift (parties active target) in
  se_map_err (SocialFailed "unmute user") (Connections.unmute p.1 p.2).
Definition disconnect (active : option bytes) (target : str) : SE MetadataDb ThreadFailure unit :=
  let! p := se_lift (parties active target) in
  se_map_err (ConnectionFailed "disconnect") (Connections.remove p.1 p.2).
Definition unfollow (active : option bytes) (target : str) : SE MetadataDb ThreadFailure unit := disconnect active target.

(** *** Sending *)

Inductive SendFailure := RequestFailed (e : ThreadFailure) | SendFailed (e : NodeError).

(** The random draws and the clock readings of one send. *)
Record SendDraws := MkDraws { sd_fresh : bytes; sd_nonce : bytes; sd_now : N; sd_t_conv : N; sd_t_drop : N; sd_t_dht : N }.

(** [MessageService::send] from its first line. *)
Definition send_as `{Json} (e : SendDraws) (network dht_on : bool) (active : option bytes) (to body : str) (ttl : option N) : SE Node SendFailure Sent :=
  let! p := se_lift (map_err RequestFailed (parties active to)) in
  se_map_err SendFailed
    (Ingest.send (sd_fresh e) (sd_nonce e) (sd_now e) (sd_t_conv e) (sd_t_drop e) (sd_t_dht e) network dht_on p.1 p.2 to body ttl
       (ed25519_pub_to_x25519 p.2)).

(** [MessageService::mark_read]. *)
Definition read_conversation (conv_id_hex : str) : SE MetadataDb ThreadFailure unit :=
  let! conv_id := se_lift (ok_or (hex_decode conv_id_hex) BadConversationId) in
  se_modify (Ingest.mark_read conv_id).

(* ------------------------------------------------------------------ *)
(** ** Conversations *)

Record ConversationItem := MkConvItem {
  ci_conversation_id : str;
  ci_peer : str;
  ci_display_name : option str;
  ci_avatar_url : option str;
  ci_last_message_at : option Z;
  ci_preview : option str;
  ci_unread : Z;
  ci_is_request : bool
}.

(** A failing query leaves both empty, as a missing row does. *)
Definition peer_profile (their_pubkey : bytes) (d : option SocialDb) : option str * option str :=
  match d with
  | Some d => match profiles d !! their_pubkey with
              | Some p => (pr_display_name p, avatar_url p)
              | None => (None, None)
              end
  | None => (None, None)
  end.

Definition conversation_rows (conv : bytes) (d : MetadataDb) : list (bytes * MsgRow) :=
  stable_sort (λ a b, m_received_at b.2 <=? m_received_at a.2)%Z
    (select_where (λ _ m, bool_decide (m_conversation m = conv)) (messages d)).
Definition last_message_preview (conv : bytes) (d : MetadataDb) : option str :=
  r ← head (conversation_rows conv d); m_preview r.2.

Definition conversation_item (d : MetadataDb) (pd : option SocialDb) (c : Service.ConversationSummary) : ConversationItem :=
  let profile := peer_profile (Service.cs_their_pubkey c) pd in
  MkConvItem (hex_encode (Service.cs_conversation_id c)) (hex_encode (Service.cs_their_pubkey c)) profile.1 profile.2
    (Service.cs_last_message_at c) (last_message_preview (Service.cs_conversation_id c) d) (Service.cs_unread_count c)
    (Service.cs_is_request c).
Definition list_conversations (active : option bytes) (pd : option SocialDb) (d : MetadataDb) : result ThreadFailure (list ConversationItem) :=
  let? seed := ok_or active Locked in
  Ok (conversation_item d pd <$> Service.list_conversations (ed25519_public seed) d).

(* ------------------------------------------------------------------ *)
(** ** Threads *)

Record ThreadItem := MkThreadItem {
  ti_message_id : str;
  ti_sender : str;
  ti_body : option str;
  ti_received_at : Z;
  ti_expires_at : Z;
  ti_is_own : bool;
  ti_is_read : bool;
  ti_is_encrypted : bool;
  ti_status : string
}.

(** A body that decrypts to something that is not UTF-8 is not shown; one that
    does not decrypt is replaced by its preview. *)
Definition shown_body (our_secret : bytes) (is_own : bool) (m : Service.StoredMessage) : option str :=
  if Service.is_encrypted m && negb is_own then
    match Service.encrypted_body m with
    | Some ciphertext =>
        match MessageEncryption.decrypt_message ciphertext our_secret with
        | Ok plaintext => from_utf8 plaintext
        | Err _ => Service.body_preview m
        end
    | None => Service.body_preview m
    end
  else Service.body_preview m.

Definition thread_item (local our_secret : bytes) (m : Service.StoredMessage) : ThreadItem :=
  let is_own := bool_decide (Service.sender_pubkey m = local) in
  MkThreadItem (hex_encode (Service.id m)) (hex_encode (Service.sender_pubkey m)) (shown_body our_secret is_own m)
    (Service.received_at m) (Service.expires_at m) is_own (Service.is_read m) (Service.is_encrypted m)
    (if is_own then if Service.is_read m then "read" else "sent" else "delivered").

(** The query keeps the low 32 bits of the limit, [has_more] compares with all
    of it. *)
Definition get_thread (conv_id_hex : str) (limit : N) (active : option bytes) (d : MetadataDb) : result ThreadFailure (list ThreadItem * bool) :=
  let? conv_id := ok_or (hex_decode conv_id_hex) BadConversationId in
  let? seed := ok_or active Locked in
  let our_x25519 := ed25519_seed_to_x25519 seed in
  let messages := Service.get_messages conv_id None (N.to_nat (limit mod 2 ^ 32)) d in
  let items := thread_item (ed25519_public seed) (secret our_x25519) <$> messages in
  Ok (items, (N.of_nat (length items) =? limit)%N).
End threads.

(* ------------------------------------------------------------------ *)
(** ** Lemmas *)

Section properties.
Context `{Primitives, KeyConversion, !PrimitiveLaws, !KeyConversionLaws, HexLaws, JsonLaws}.

(** The row of a pair decides whether it is muted. *)
Lemma is_muted_lookup t who whom d :
  is_muted t who whom d =
    match mutes d !! (who, whom) with
    | Some m => match mu_expires_at m with None => true | Some exp => (as_i64 t <? exp)%Z end
    | None => false
    end.
Proof.
  unfold is_muted.
  by rewrite (count_where_key (who, whom) (λ m, match mu_expires_at m with None => true | Some exp => (as_i64 t <? exp)%Z end)).
Qed.

(** Who was muted for some hours is muted until they are over, and an unmuted
    user is not: nobody else's row changes. *)
Lemma mute_lasts t_expiry now seed remote target h t d :
  parties (Some seed) target = Ok (ed25519_public seed, remote) →
  let d' := (mute t_expiry now (Some seed) target (Some h) d).1 in
  (t < 2 ^ 63)%N → (t_expiry + h * 3600 < 2 ^ 63)%N →
  is_muted t (ed25519_public seed) remote d' = (t <? t_expiry + h * 3600)%N ∧
  is_muted t (ed25519_public seed) remote (unmute (Some seed) target d').1 = false ∧
  (∀ who whom, (who, whom) ≠ (ed25519_public seed, remote) → is_muted t who whom d' = is_muted t who whom d).
Proof.
  intros Hp d' Ht Hh. unfold d', mute, unmute, se_bind, se_lift. rewrite Hp.
  unfold se_map_err, Connections.mute, Connections.unmute, exec, se_modify. cbn [fst snd mutes with_mutes option_map fmap option_fmap].
  assert (Hm : add64 t_expiry (h * 3600 mod u64_modulus) = (t_expiry + h * 3600)%N).
  { unfold u64_modulus. rewrite N.mod_small by lia. apply add64_small. unfold u64, u64_modulus. lia. }
  rewrite Hm, !is_muted_lookup. cbn [mutes with_mutes]. rewrite lookup_insert_eq, lookup_delete_eq.
  cbn [mu_expires_at fmap option_fmap option_map]. rewrite !as_i64_small by lia. split_and!; [|done|].
  - apply eq_true_iff_eq. rewrite Z.ltb_lt, N.ltb_lt. lia.
  - intros who whom Hne. rewrite !is_muted_lookup. cbn [mutes with_mutes]. by rewrite lookup_insert_ne.
Qed.

(** A mute of so many hours that they overflow is over at once. *)
Lemma mute_wraps t_expiry now seed remote target t d :
  parties (Some seed) target = Ok (ed25519_public seed, remote) → (t_expiry ≤ t)%N → (t < 2 ^ 63)%N →
  is_muted t (ed25519_public seed) remote (mute t_expiry now (Some seed) target (Some (2 ^ 60)%N) d).1 = false.
Proof.
  intros Hp Ht Hb. unfold mute, se_bind, se_lift. rewrite Hp.
  unfold se_map_err, Connections.mute, exec, se_modify. cbn [fst snd mutes with_mutes option_map fmap option_fmap].
  replace (2 ^ 60 * 3600 mod u64_modulus)%N with 0%N by (by vm_compute).
  rewrite add64_small by (unfold u64, u64_modulus; lia). rewrite N.add_0_r, is_muted_lookup. cbn [mutes with_mutes].
  rewrite lookup_insert_eq. cbn [mu_expires_at fmap option_fmap option_map]. rewrite !as_i64_small by lia.
  by rewrite (proj2 (Z.ltb_ge _ _)) by lia.
Qed.

(** The newest of the selected rows comes first. *)
Lemma newest_head {K} (rows : list (K * MsgRow)) r :
  r ∈ rows → (∀ r', r' ∈ rows → r' = r ∨ (m_received_at r'.2 < m_received_at r.2)%Z) →
  ∃ rest, stable_sort (λ a b, m_received_at b.2 <=? m_received_at a.2)%Z rows = r :: rest.
Proof.
  intros Hin Hnew. set (leb := λ a b : K * MsgRow, (m_received_at b.2 <=? m_received_at a.2)%Z).
  assert (Hs : StronglySorted (λ a b, leb a b = true) (stable_sort leb rows)).
  { apply stable_sort_sorted; unfold leb; intros *; rewrite !Z.leb_le; lia. }
  pose proof (stable_sort_perm leb rows) as Hperm. rewrite <- Hperm in Hin.
  destruct (stable_sort leb rows) as [|x l]; [by apply not_elem_of_nil in Hin|].
  exists l. f_equal. apply elem_of_cons in Hin as [->|Hin]; [done|].
  apply StronglySorted_inv in Hs as [_ Hall]. rewrite Forall_forall in Hall. specialize (Hall r Hin).
  unfold leb in Hall. apply Z.leb_le in Hall.
  destruct (Hnew x) as [->|]; [|done|lia]. rewrite <- Hperm. apply elem_of_cons. by left.
Qed.

(** A message that is the newest of its conversation heads its thread and is
    what the conversation list shows of it. *)
Lemma thread_newest c i m limit conv_hex seed d :
  messages d !! i = Some m → m_conversation m = c → hex_decode conv_hex = Some c →
  (∀ j m', messages d !! j = Some m' → m_conversation m' = c → j ≠ i → (m_received_at m' < m_received_at m)%Z) →
  (m_received_at m < Service.i64_max)%Z → (limit mod 2 ^ 32 ≠ 0)%N →
  (∃ rest more, get_thread conv_hex limit (Some seed) d =
     Ok (thread_item (ed25519_public seed) (secret (ed25519_seed_to_x25519 seed))
           (Service.MkStored i c (m_sender m) (m_received_at m) (m_expires_at m) (m_preview m) (m_is_read m)
              (m_encrypted_body m) (m_is_encrypted m)) :: rest, more)) ∧
  last_message_preview c d = m_preview m.
Proof.
  intros Hi Hc Hh Hnew Hmax Hl. split.
  - unfold get_thread. rewrite Hh. cbn [ok_or result_bind]. unfold Service.get_messages. cbn [default].
    edestruct (newest_head (select_where (λ _ m0, bool_decide (m_conversation m0 = c) &&
      (m_received_at m0 <? Service.i64_max)%Z) (messages d)) (i, m)) as [rest Hr].
    + apply elem_of_select_where. rewrite bool_decide_true by done. split; [done|]. by apply Z.ltb_lt.
    + intros [j m'] [Hj Hp]%elem_of_select_where. cbn. bprop. destruct (decide (j = i)) as [->|]; [left; congruence|right; eauto].
    + cbv zeta. rewrite Hr. destruct (N.to_nat (limit mod 2 ^ 32)) eqn:El; [lia|]. rewrite firstn_cons, !fmap_cons.
      cbn [fst snd]. rewrite Hc. by do 2 eexists.
  - unfold last_message_preview, conversation_rows.
    edestruct (newest_head (select_where (λ _ m0, bool_decide (m_conversation m0 = c)) (messages d)) (i, m)) as [rest Hr].
    + apply elem_of_select_where. by rewrite bool_decide_true.
    + intros [j m'] [Hj Hp]%elem_of_select_where. cbn. bprop. destruct (decide (j = i)) as [->|]; [left; congruence|right; eauto].
    + by rewrite Hr.
Qed.

(** What is encrypted to somebody's identity key can be read with its seed. *)
Lemma conversion_roundtrip fresh nonce p seed : length fresh = 32 → length nonce = NONCE_LEN →
  ∃ key c, ed25519_pub_to_x25519 (ed25519_public seed) = Ok key ∧
    MessageEncryption.encrypt_message fresh nonce p key = Ok c ∧
    MessageEncryption.decrypt_message c (secret (ed25519_seed_to_x25519 seed)) = Ok p.
Proof.
  intros Hf Hn. destruct (encryption_roundtrip fresh nonce p (to_scalar_bytes seed) Hf Hn) as [(c & Hc & _ & Hd) _].
  exists (x25519_public (to_scalar_bytes seed)), c. unfold ed25519_pub_to_x25519.
  rewrite montgomery_of_public. by split_and!.
Qed.

(** A direct message in both threads.  When it is the newest of its
    conversation on both ends, the sender's thread begins with it, as an own
    message that was read, and so does the recipient's, as an unread one
    that was delivered; both show its first hundred characters and nothing
    more.  The whole of it is in the sealed copy: the recipient's seed opens
    that, but no row that is taken in holds it. *)
Lemma thread_roundtrip (now t1 t2 t3 now' t1' t3' x limit : N) (on : bool) (sa sb fresh nonce : bytes)
  (conv_hex body : str) (ttl : option N) (a b : Node)
  (Ha : key_ok (ed25519_public sa)) (Hb : key_ok (ed25519_public sb)) (Hne : ed25519_public sa ≠ ed25519_public sb)
  (Hf : length fresh = 32) (Hn : length nonce = NONCE_LEN)
  (Hnew : messages (db a) !! blake3_hash (as_bytes body) = None)
  (Hnow : (now < 2 ^ 63 - 1)%N) (Hnow' : (now' + 86400 < 2 ^ 63)%N) (Hlimit : (limit mod 2 ^ 32 ≠ 0)%N)
  (Hc : hex_decode conv_hex = Some (Service.compute_conversation_id (ed25519_public sa) (ed25519_public sb)))
  (Hla : ∀ j m, messages (db a) !! j = Some m →
     m_conversation m = Service.compute_conversation_id (ed25519_public sa) (ed25519_public sb) → (m_received_at m < Z.of_N now)%Z)
  (Hlb : ∀ j m, messages (db b) !! j = Some m →
     m_conversation m = Service.compute_conversation_id (ed25519_public sa) (ed25519_public sb) → (m_received_at m < Z.of_N now)%Z) :
  let alice := ed25519_public sa in
  let bob := ed25519_public sb in
  let sent := send fresh nonce now t1 t2 t3 true on alice bob (hex_encode bob) body ttl (ed25519_pub_to_x25519 bob) a in
  let a' := sent.1 in
  (∃ in_dht, sent.2 = Ok (MkSent (blake3_hash (as_bytes body)) (Service.compute_conversation_id alice bob) true in_dht)) ∧
  ∃ clear sealed, outbox a' = outbox a ++ [clear; sealed] ∧
  (∃ rest more, get_thread conv_hex limit (Some sa) (db a') =
     Ok (MkThreadItem (hex_encode (blake3_hash (as_bytes body))) (hex_encode alice) (Some (take 100 body)) (Z.of_N now)
           (add_i64 (Z.of_N now) (as_i64 (default 86400%N ttl))) true true true "read" :: rest, more)) ∧
  (length clear ≤ MAX_ENVELOPE_SIZE → messages (db b) !! dm_id (hex_encode alice) body now = None →
   let b' := Ingest.ingest x t1' now' t3' (Some bob) clear b in
   (∃ rest more, get_thread conv_hex limit (Some sb) (db b') =
      Ok (MkThreadItem (hex_encode (dm_id (hex_encode alice) body now)) (hex_encode alice) (Some (take 100 body)) (Z.of_N now)
            (Z.of_N now' + 86400) false false false "delivered" :: rest, more)) ∧
   last_message_preview (Service.compute_conversation_id alice bob) (db b') = Some (take 100 body)) ∧
  (∃ e, drop_from_slice sealed = Ok e ∧
     MessageEncryption.decrypt_message (sealed_data e) (secret (ed25519_seed_to_x25519 sb)) = Ok (as_bytes body)).
Proof.
  intros alice bob sent a'. destruct (conversion_roundtrip fresh nonce (as_bytes body) sb Hf Hn) as (key & enc & Hk & He & Hd).
  fold bob in Hk. unfold a', sent in *. clear a' sent. rewrite Hk.
  destruct (send_published fresh nonce now t1 t2 t3 on alice bob (hex_encode bob) body ttl key enc a He Hnew)
    as (clear & sealed & Hcl & Ho & Hm & Hr & e & Hds & <-).
  cbv zeta in *. set (a' := (send _ _ _ _ _ _ _ _ _ _ _ _ _ _ _).1) in *. set (c := Service.compute_conversation_id alice bob) in *.
  assert (Hi : as_i64 now = Z.of_N now) by (apply as_i64_small; lia).
  split; [exact Hr|]. exists clear, sealed. split_and!; [done| | |by eauto].
  - destruct (thread_newest c (blake3_hash (as_bytes body)) (sent_dm_row now (default 86400%N ttl) c alice body (sealed_data e)) limit conv_hex sa (db a')) as [(rest & more & Hg) _];
      [by rewrite Hm, lookup_insert_eq|done|done| | |done|].
    + intros j m Hj Hcv Hne'. rewrite Hm, lookup_insert_ne in Hj by done. cbn. rewrite Hi. by eapply Hla.
    + cbn. rewrite Hi. unfold Service.i64_max. lia.
    + exists rest, more. rewrite Hg. unfold thread_item, shown_body, sent_dm_row. cbn.
      by rewrite !bool_decide_true, Hi by done.
  - intros Hl Hid. destruct (dm_taken_in now now' t1' t3' x alice bob body clear b) as (Hmb & _); [done..|lia|done|]. cbv zeta.
    set (b' := Ingest.ingest _ _ _ _ _ _ _) in *. fold c in Hmb.
    destruct (thread_newest c (dm_id (hex_encode alice) body now)
      (MkMsg c alice (Z.of_N now) (Z.of_N now' + 86400) false (Some (take 100 body)) false None false) limit conv_hex sb (db b')) as [(rest & more & Hg) Hp];
      [by rewrite Hmb, lookup_insert_eq|done|done| | |done|].
    + intros j m Hj Hcv Hne'. rewrite Hmb, lookup_insert_ne in Hj by done. cbn. by eapply Hlb.
    + cbn. unfold Service.i64_max. lia.
    + split; [|done]. exists rest, more. rewrite Hg. unfold thread_item, shown_body. cbn. by rewrite !bool_decide_false.
Qed.
End properties.

(* ------------------------------------------------------------------ *)
(** ** Witnesses *)

(** Keys that convert to themselves. *)
Module ConversionToy.
#[export] Instance conversion : KeyConversion := {| to_scalar_bytes s := s; to_montgomery := Some |}.
#[export] Instance conversion_laws : KeyConversionLaws (H := Toy.toy).
Proof. by split. Qed.
End ConversionToy.

Section witnesses.
Import Toy HexToy JsonToy ConversionToy.

Definition tw_hex : str := hex_encode (Service.compute_conversation_id iw_alice iw_bob).

Lemma thread_roundtrip_witness :
  ∃ clear sealed, outbox (send v_fresh v_nonce 1000 0 0 0 true false iw_alice iw_bob (hex_encode iw_bob) v_hi None
    (ed25519_pub_to_x25519 iw_bob) iw_node).1 = [clear; sealed] ∧
  ∃ e, drop_from_slice sealed = Ok e ∧ MessageEncryption.decrypt_message (sealed_data e) iw_bob = Ok (as_bytes v_hi).
Proof.
  destruct (thread_roundtrip 1000 0 0 0 1010 0 0 0 50 false iw_alice iw_bob v_fresh v_nonce tw_hex v_hi None iw_node iw_node)
    as (_ & c & s & Ho & _ & _ & He).
  - apply v_alice_ok.
  - apply v_bob_ok.
  - by vm_compute.
  - reflexivity.
  - reflexivity.
  - apply lookup_empty.
  - reflexivity.
  - reflexivity.
  - by vm_compute.
  - by vm_compute.
  - intros j m Hj _. exfalso. revert Hj. apply lookup_empty_Some.
  - intros j m Hj _. exfalso. revert Hj. apply lookup_empty_Some.
  - exists c, s. split; [exact Ho|exact He].
Defined.
End witnesses.
