(* ===== verification/Mentions.v ===== *)
(** * Finding mentions: [crates/ephemera-social/src/mention.rs]

    [extract_mention_patterns] on the UTF-8 bytes of a post, and what it
    finds.  A byte that takes part in a multi-byte character is never a
    handle character or an at sign, so the slices it cuts are texts. *)
From S2P Require Import Prelude Unicode.
From stdpp Require Import sorting.

Definition at_sign : N := 64.
Definition is_ascii_alphanumeric (c : N) : bool := is_ascii_lowercase c || is_ascii_uppercase c || is_ascii_digit c.
Definition is_handle_char (c : N) : bool := is_ascii_alphanumeric c || (c =? 45)%N || (c =? 95)%N.

(** The inner loop: the handle characters in front. *)
Fixpoint handle_prefix (l : bytes) : bytes :=
  match l with
  | c :: l => if is_handle_char c then c :: handle_prefix l else []
  | [] => []
  end.

(** The outer loop at offset [i]; a handle with its start and end. *)
Fixpoint extract_from (fuel i : nat) (l : bytes) : list (str * nat * nat) :=
  match fuel, l with
  | S fuel, c :: r =>
      if (c =? at_sign)%N then
        let handle := handle_prefix r in
        let handle_end := i + 1 + length handle in
        (if bool_decide (handle = []) then [] else [(handle, i, handle_end)]) ++
        extract_from fuel handle_end (drop (length handle) r)
      else extract_from fuel (S i) r
  | _, _ => []
  end.

Definition extract_mention_patterns (body : str) : list (str * nat * nat) :=
  let bytes := as_bytes body in
  take 20 (extract_from (length bytes) 0 bytes).

(** ** Properties *)

(** In [l], which starts at offset [i]: an at sign and, right after it, as
    many handle characters as there are. *)
Definition is_mention (i : nat) (l : bytes) (m : str * nat * nat) : Prop :=
  let '(h, s, e) := m in
  ∃ pre post, l = pre ++ at_sign :: h ++ post ∧ s = i + length pre ∧ e = s + 1 + length h ∧ h ≠ [] ∧
    Forall (λ c, is_handle_char c = true) h ∧ ∀ c, head post = Some c → is_handle_char c = false.

Lemma prefix_spec l : Forall (λ c, is_handle_char c = true) (handle_prefix l) ∧ l = handle_prefix l ++ drop (length (handle_prefix l)) l ∧
  ∀ c, head (drop (length (handle_prefix l)) l) = Some c → is_handle_char c = false.
Proof.
  induction l as [|c l (IH1 & IH2 & IH3)]; [done|]. cbn. destruct (is_handle_char c) eqn:E; cbn.
  - split_and!; [by constructor|by f_equal|done].
  - split_and!; [constructor|done|]. by intros ? [= <-].
Qed.

(** The handle in front is determined. *)
Lemma prefix_unique h post : Forall (λ c, is_handle_char c = true) h → (∀ c, head post = Some c → is_handle_char c = false) →
  handle_prefix (h ++ post) = h.
Proof.
  intros Hh Hp. induction Hh as [|c h Hc Hh IH]; cbn.
  - destruct post as [|c post]; [done|]. cbn. by rewrite (Hp c eq_refl).
  - rewrite Hc. by f_equal.
Qed.

Lemma at_not_handle : is_handle_char at_sign = false.
Proof. reflexivity. Qed.

(** A mention after an at sign at the front is behind its handle. *)
Lemma mention_behind i r h pre post : Forall (λ c, is_handle_char c = true) (handle_prefix r) →
  r = handle_prefix r ++ drop (length (handle_prefix r)) r → r = pre ++ at_sign :: h ++ post →
  ∃ pre', pre = handle_prefix r ++ pre' ∧ drop (length (handle_prefix r)) r = pre' ++ at_sign :: h ++ post ∧
    i + 1 + length pre = i + 1 + length (handle_prefix r) + length pre'.
Proof.
  set (hp := handle_prefix r). clearbody hp. intros Hall Hr Hm. destruct (decide (length pre < length hp)) as [Hlt|Hge].
  - exfalso. assert (Hat : hp !! length pre = Some at_sign).
    { rewrite <- (lookup_app_l hp (drop (length hp) r)) by done. rewrite <- Hr, Hm. by rewrite lookup_app_r, Nat.sub_diag by lia. }
    rewrite Forall_lookup in Hall. specialize (Hall _ _ Hat). cbv beta in Hall. by rewrite at_not_handle in Hall.
  - exists (drop (length hp) pre). assert (Hp : pre = hp ++ drop (length hp) pre).
    { rewrite <- (take_drop (length hp) pre) at 1. f_equal. apply (f_equal (take (length hp))) in Hr. rewrite Hm in Hr at 1.
      rewrite take_app_le in Hr by lia. rewrite Hr. apply take_app_length. }
    split_and!; [done| |].
    + rewrite Hm. by rewrite drop_app_le by lia.
    + rewrite Hp at 1. rewrite length_app. lia.
Qed.

Lemma elem_of_extract fuel : ∀ i l m, length l ≤ fuel → m ∈ extract_from fuel i l ↔ is_mention i l m.
Proof.
  induction fuel as [|fuel IH]; intros i l [[h s] e] Hf.
  { destruct l; [|cbn in Hf; lia]. cbn. split; [by intros ?%not_elem_of_nil|]. intros (pre & post & Hl & _). by destruct pre. }
  destruct l as [|c r]; cbn [extract_from length] in *.
  { split; [by intros ?%not_elem_of_nil|]. intros (pre & post & Hl & _). by destruct pre. }
  destruct (N.eqb_spec c at_sign) as [->|Hc].
  - destruct (prefix_spec r) as (Hall & Hr & Hend). rewrite elem_of_app, (IH _ _ (h, s, e)) by (rewrite length_drop; lia). split.
    + intros [Hin|(pre & post & Hd & -> & -> & Hrest)].
      * case_bool_decide as Hne; [by apply not_elem_of_nil in Hin|]. apply list_elem_of_singleton in Hin as [= -> -> ->].
        exists [], (drop (length (handle_prefix r)) r). cbn. split_and!; [by f_equal|lia|lia|done..].
      * exists (at_sign :: handle_prefix r ++ pre), post. cbn. rewrite length_app. split_and!; [|lia|done|apply Hrest..].
        f_equal. rewrite <- app_assoc, <- Hd. exact Hr.
    + intros (pre & post & Hl & -> & -> & Hne & Hh & Hp). destruct pre as [|c pre]; cbn in Hl; injection Hl as Hl.
      * left. rewrite Hl, prefix_unique by done. rewrite bool_decide_false by done. apply list_elem_of_singleton. cbn. do 2 f_equal; lia.
      * right. subst c. destruct (mention_behind i r h pre post Hall Hr H) as (pre' & -> & Hd & Hlen).
        exists pre', post. cbn in *. split_and!; [done|lia|lia|done..].
  - rewrite (IH _ _ (h, s, e)) by lia. split; intros (pre & post & Hl & -> & -> & Hrest).
    + exists (c :: pre), post. cbn. split_and!; [by f_equal|lia|lia|apply Hrest..].
    + destruct pre as [|c' pre]; cbn in Hl; injection Hl as -> ->; [done|]. exists pre, post. cbn. split_and!; [done|lia|lia|apply Hrest..].
Qed.

Lemma extract_sorted fuel : ∀ i l, StronglySorted (λ a b, a.2 ≤ b.1.2) (extract_from fuel i l) ∧ Forall (λ m, i ≤ m.1.2) (extract_from fuel i l).
Proof.
  induction fuel as [|fuel IH]; intros i l; [by split; constructor|]. destruct l as [|c r]; cbn [extract_from]; [by split; constructor|].
  case_match.
  - destruct (IH (i + 1 + length (handle_prefix r)) (drop (length (handle_prefix r)) r)) as [Hs Hf]. case_bool_decide; cbn [app].
    + split; [done|]. eapply Forall_impl; [exact Hf|]. cbn. lia.
    + split; [by constructor|]. constructor; [cbn; lia|]. eapply Forall_impl; [exact Hf|]. cbn. lia.
  - destruct (IH (S i) r) as [Hs Hf]. split; [done|]. eapply Forall_impl; [exact Hf|]. cbn. lia.
Qed.

(** The scanner finds exactly the mentions of a post: every at sign with
    a handle right after it, the handle as long as it can be, from left to
    right and without overlap; the first twenty of them. *)
Theorem mentions_extracted (body : str) :
  ∃ found, extract_mention_patterns body = take 20 found ∧ StronglySorted (λ a b, a.2 ≤ b.1.2) found ∧
    ∀ m, m ∈ found ↔ is_mention 0 (as_bytes body) m.
Proof.
  exists (extract_from (length (as_bytes body)) 0 (as_bytes body)). split_and!; [done|apply extract_sorted|].
  intros m. by apply elem_of_extract.
Qed.
