(* ===== verification/NodeDht.v ===== *)
(** * Records in the DHT: [crates/ephemera-node/src/services/dht.rs], [dht_query.rs]

    Handles, prekeys and profiles as signed JSON records in the node's record
    store ([Dht.Storage]), and the query protocol on the [dht_lookup] gossip
    topic that makes the stores of all nodes one: a miss publishes a query, a
    node that has the key publishes a response, and the response is cached
    and handed to whoever waits for it.  Clock readings, the random query id
    and whether the wait times out are arguments; [outbox] is what was handed
    to the topic, oldest first.  An identity is the seed of the active
    keypair. *)
From S2P Require Import Prelude Types Crypto Unicode Dht Metadata Messages Ingest.

(** [serde_json] beyond [Json]: printing a [Value], a member of an object,
    the object for bytes that are not JSON, and the derived format of
    [DhtResponseMessage]. *)
Class DhtJson `{Json} := {
  value_to_vec : value → result string bytes;
  get_member : string → value → option value;
  raw_hex_value : str → value;
  response_to_vec (key : str) (v : value) (responder query_id : str) : result string bytes
}.
Class DhtJsonLaws `{DhtJson} : Prop := {
  value_parse v : ∃ b, value_to_vec v = Ok b ∧ value_from_slice b = Some v;
  response_parse k v r q : ∃ b j, response_to_vec k v r q = Ok b ∧ value_from_slice b = Some j ∧
    get_str "type" j = Some (lit "dht_response") ∧ get_str "key" j = Some k ∧ get_member "value" j = Some v ∧ get_str "query_id" j = Some q
}.

Definition HANDLE_TTL_SECONDS : N := Storage.MAX_TTL_SECONDS.
Definition DEFAULT_TTL_SECONDS : N := Storage.MAX_TTL_SECONDS.

Inductive DhtFailure :=
| DhtLocked
| SerializeRecord (e : string)
| DeserializeRecord
| DhtPut (e : Storage.DhtError).

Section dht.
Context `{Primitives, Hex, DhtJson}.

Definition dht_key (prefix : string) (identifier : str) : bytes := blake3_hash (as_bytes (lit prefix ++ lit ":" ++ identifier)).
Definition dht_key_bytes (prefix : string) (b : bytes) : bytes := dht_key prefix (hex_encode b).

(** The signature binds the value to the key. *)
Definition build_record (now : N) (key : bytes) (record_type : Storage.DhtRecordType) (v publisher : bytes) (ttl_seconds : N)
    (identity : option bytes) : result DhtFailure Storage.DhtRecord :=
  let? seed := ok_or identity DhtLocked in
  Ok (Storage.MkRecord key record_type v publisher now ttl_seconds (sign seed (key ++ v))).

Definition publisher_bytes (identity : option bytes) : result DhtFailure bytes :=
  let? seed := ok_or identity DhtLocked in Ok (public_key seed).

(** [storage.put] as a step. *)
Definition store (now : N) (r : Storage.DhtRecord) : SE Storage.DhtStorage DhtFailure unit :=
  λ s, let '(s', x) := Storage.put now r s in (s', map_err DhtPut x).

(** [t_build] is read when the record is made, [t_put] when it is stored. *)
Definition put (t_build t_put : N) (key v : bytes) (ttl_seconds : N) (record_type : Storage.DhtRecordType) (identity : option bytes) :
    SE Storage.DhtStorage DhtFailure unit :=
  let! publisher := se_lift (publisher_bytes identity) in
  let! record := se_lift (build_record t_build key record_type v publisher ttl_seconds identity) in
  store t_put record.

Definition handle_object (handle_name owner_hex : str) (registered_at expires_at : N) : list (string * field) :=
  [("name"%string, FStr handle_name); ("owner"%string, FStr owner_hex); ("registered_at"%string, FU64 registered_at);
   ("expires_at"%string, FU64 expires_at)].
Definition store_handle (t_build t_put : N) (handle_name owner_hex : str) (registered_at expires_at : N) (identity : option bytes) :
    SE Storage.DhtStorage DhtFailure unit :=
  let! v := se_lift (map_err SerializeRecord (object_to_vec (handle_object handle_name owner_hex registered_at expires_at))) in
  put t_build t_put (dht_key "handle" handle_name) v HANDLE_TTL_SECONDS Storage.Profile identity.
Definition store_prekey (t_build t_put : N) (pubkey_hex : str) (bundle : list (string * field)) (identity : option bytes) :
    SE Storage.DhtStorage DhtFailure unit :=
  let! v := se_lift (map_err SerializeRecord (object_to_vec bundle)) in
  put t_build t_put (dht_key "prekey" pubkey_hex) v DEFAULT_TTL_SECONDS Storage.PrekeyBundle identity.
Definition store_profile (t_build t_put : N) (pubkey_hex : str) (profile : list (string * field)) (identity : option bytes) :
    SE Storage.DhtStorage DhtFailure unit :=
  let! v := se_lift (map_err SerializeRecord (object_to_vec profile)) in
  put t_build t_put (dht_key "profile" pubkey_hex) v DEFAULT_TTL_SECONDS Storage.Profile identity.

(** Nothing about the record but its value is looked at. *)
Definition lookup_json (now : N) (key : bytes) (s : Storage.DhtStorage) : result DhtFailure (option value) :=
  match Storage.get now key s with
  | Some record => match value_from_slice (Storage.value record) with Some v => Ok (Some v) | None => Err DeserializeRecord end
  | None => Ok None
  end.
Definition lookup_handle (now : N) (handle_name : str) := lookup_json now (dht_key "handle" handle_name).
Definition lookup_prekey (now : N) (pubkey_hex : str) := lookup_json now (dht_key "prekey" pubkey_hex).
Definition lookup_profile (now : N) (pubkey_hex : str) := lookup_json now (dht_key "profile" pubkey_hex).

Definition get (now : N) (key : bytes) (s : Storage.DhtStorage) : option value :=
  match Storage.get now key s with
  | Some record => Some (default (raw_hex_value (hex_encode (Storage.value record))) (value_from_slice (Storage.value record)))
  | None => None
  end.

(* ------------------------------------------------------------------ *)
(** ** Queries over the network ([dht_query.rs]) *)

(** The waiting queries and the answers handed to those that were waiting. *)
Record QueryNode := MkQueryNode {
  storage : Storage.DhtStorage;
  pending : gset str;
  answers : gmap str value;
  outbox : list bytes
}.
Definition with_storage s n := MkQueryNode s (pending n) (answers n) (outbox n).
Definition with_pending p n := MkQueryNode (storage n) p (answers n) (outbox n).
Definition with_answers a n := MkQueryNode (storage n) (pending n) a (outbox n).
Definition publish (payload : bytes) n := MkQueryNode (storage n) (pending n) (answers n) (outbox n ++ [payload]).

Definition decode_key (hex_str : str) : option bytes :=
  b ← hex_decode hex_str; if Nat.eqb (length b) 32 then Some b else None.

(** A member that has to be there. *)
Definition with_str (k : string) (v : value) (n : QueryNode) (f : str → QueryNode) : QueryNode :=
  match get_str k v with Some s => f s | None => n end.

Definition handle_query (now : N) (our_node_id : str) (payload : value) (n : QueryNode) : QueryNode :=
  with_str "key" payload n (λ key_hex,
  with_str "requester" payload n (λ requester,
  with_str "query_id" payload n (λ query_id,
  if bool_decide (requester = our_node_id) then n
  else match decode_key key_hex with
       | None => n
       | Some key_bytes =>
           match get now key_bytes (storage n) with
           | None => n
           | Some v => match response_to_vec key_hex v our_node_id query_id with Ok b => publish b n | Err _ => n end
           end
       end))).

(** The value is stored under our own signature, whether anybody asked or not. *)
Definition handle_response (t_build t_put : N) (identity : option bytes) (payload : value) (n : QueryNode) : QueryNode :=
  with_str "key" payload n (λ key_hex,
  match get_member "value" payload with
  | None => n
  | Some v =>
      with_str "query_id" payload n (λ query_id,
      match decode_key key_hex with
      | None => n
      | Some key_bytes =>
          match value_to_vec v with
          | Err _ => n
          | Ok value_bytes =>
              let n := with_storage (put t_build t_put key_bytes value_bytes Storage.MAX_TTL_SECONDS Storage.Profile identity (storage n)).1 n in
              if bool_decide (query_id ∈ pending n)
              then with_answers (<[query_id := v]> (answers n)) (with_pending (pending n ∖ {[query_id]}) n)
              else n
          end
      end)
  end).

(** One message of [dht_query_ingest_loop_services]. *)
Definition ingest_query (t_get t_build t_put : N) (our_node_id : str) (identity : option bytes) (message : bytes) (n : QueryNode) : QueryNode :=
  match value_from_slice message with
  | None => n
  | Some payload =>
      match get_str "type" payload with
      | Some t =>
          if bool_decide (t = lit "dht_query") then handle_query t_get our_node_id payload n
          else if bool_decide (t = lit "dht_response") then handle_response t_build t_put identity payload n
          else n
      | None => n
      end
  end.

Definition query_object (key_hex requester query_id : str) : list (string * field) :=
  [("type"%string, FStr (lit "dht_query")); ("key"%string, FStr key_hex); ("requester"%string, FStr requester);
   ("query_id"%string, FStr query_id)].

(** Up to the wait, with a topic that takes what it is given: the answer, or the id it waits under.  [network] is our
    node id when there is a network with at least one peer. *)
Definition query_network_dht_inner (now : N) (network : option str) (query_id : str) (key : bytes) (skip_local : bool) :
    SE QueryNode string (option value + str) := λ n,
  match (if skip_local then None else get now key (storage n)) with
  | Some v => (n, Ok (inl (Some v)))
  | None =>
      match network with
      | None => (n, Ok (inl None))
      | Some local_id =>
          let n := with_pending (pending n ∪ {[query_id]}) n in
          match object_to_vec (query_object (hex_encode key) local_id query_id) with
          | Err e => (n, Err e)
          | Ok b => (publish b n, Ok (inr query_id))
          end
      end
  end.
(** The wait: the answer if one was handed over, or a timeout. *)
Definition await_answer (query_id : str) (n : QueryNode) : QueryNode * option value :=
  match answers n !! query_id with
  | Some v => (n, Some v)
  | None => (with_pending (pending n ∖ {[query_id]}) n, None)
  end.
Definition query_network_dht (now : N) (network : option str) (query_id : str) (key : bytes) :=
  query_network_dht_inner now network query_id key false.
Definition query_network_dht_fresh (now : N) (network : option str) (query_id : str) (key : bytes) :=
  query_network_dht_inner now network query_id key true.
End dht.

(* ------------------------------------------------------------------ *)
(** ** Records *)

Section records.
Context `{Primitives, Hex, DhtJson, !JsonLaws, !DhtJsonLaws}.

Lemma store_spec now r s s' : store now r s = (s', Ok tt) →
  Storage.records s' = <[Storage.key r := Storage.MkStored r (add64 (Storage.timestamp r) (Storage.ttl_seconds r))]> (Storage.records s).
Proof.
  unfold store. pose proof (Storage.put_state now r s) as Hs. destruct (Storage.put now r s) as [s1 x]. cbn [fst snd] in Hs.
  intros Hp. injection Hp as -> Hx. destruct x as [[]|]; [|done]. by rewrite Hs.
Qed.

(** What a successful [put] leaves. *)
Lemma record_put_spec tb tp key v ttl type identity s s' : put tb tp key v ttl type identity s = (s', Ok tt) →
  ∃ seed, identity = Some seed ∧ Storage.records s' = <[key := Storage.MkStored
    (Storage.MkRecord key type v (public_key seed) tb ttl (sign seed (key ++ v))) (add64 tb ttl)]> (Storage.records s).
Proof.
  unfold put, publisher_bytes, build_record, se_bind, se_lift. destruct identity as [seed|]; [|done]. cbn [ok_or result_bind].
  intros Hp%store_spec. by exists seed.
Qed.

(** What the store asks of a record. *)
Lemma put_accepts tb tp key v ttl type seed s :
  (N.of_nat (length v) ≤ Storage.max_record_size s)%N → (ttl ≤ Storage.MAX_TTL_SECONDS)%N → (tp ≤ add64 tb ttl)%N →
  is_Some (Storage.records s !! key) ∨ (Storage.len s < Storage.max_records s)%N →
  (put tb tp key v ttl type (Some seed) s).2 = Ok tt.
Proof.
  intros Hv Ht Hp Hr. unfold put, publisher_bytes, build_record, store, se_bind, se_lift. cbn [ok_or result_bind].
  match goal with |- context [Storage.put tp ?r s] =>
    pose proof (proj2 (Storage.put_ok_spec tp r s) (conj Hv (conj Ht (conj Hp Hr)))) as Hok; destruct (Storage.put tp r s) as [s' x] end.
  cbn in *. by subst x.
Qed.

Lemma get_after_put tb tp key v ttl type identity s s' t k : put tb tp key v ttl type identity s = (s', Ok tt) →
  Storage.get t k s' = if decide (k = key) then
      if (add64 tb ttl <? t)%N then None
      else match identity with Some seed => Some (Storage.MkRecord key type v (public_key seed) tb ttl (sign seed (key ++ v))) | None => None end
    else Storage.get t k s.
Proof.
  intros (seed & -> & Hr)%record_put_spec. unfold Storage.get. rewrite Hr. destruct (decide (k = key)) as [->|Hne].
  - by rewrite lookup_insert_eq.
  - by rewrite lookup_insert_ne.
Qed.

(** What the node stores it finds: a handle or profile that was stored is
    looked up with its fields until its thirty days are over, and not after;
    the record is signed by the identity over key and value; every other key
    keeps its record. *)
Theorem dht_store_lookup (tb tp t : N) (seed : bytes) (pubkey_hex : str) (profile : list (string * field)) (s s' : Storage.DhtStorage)
    (Hnd : NoDup profile.*1) (Hput : store_profile tb tp pubkey_hex profile (Some seed) s = (s', Ok tt)) :
  let key := dht_key "profile" pubkey_hex in
  (if (add64 tb DEFAULT_TTL_SECONDS <? t)%N then lookup_profile t pubkey_hex s' = Ok None
   else ∃ v r, lookup_profile t pubkey_hex s' = Ok (Some v) ∧ (∀ k, get_str k v = str_field k profile) ∧ (∀ k, get_u64 k v = u64_field k profile) ∧
        Storage.get t key s' = Some r ∧ Storage.publisher r = public_key seed ∧ Storage.signature r = sign seed (key ++ Storage.value r)) ∧
  ∀ k, k ≠ key → Storage.get t k s' = Storage.get t k s.
Proof.
  intros key. unfold store_profile, se_bind at 1, se_lift in Hput.
  destruct (object_parse profile Hnd) as (b & v & Hb & Hv & Hs & Hu & _). rewrite Hb in Hput. cbn [map_err] in Hput.
  pose proof (λ k, get_after_put _ _ _ _ _ _ _ _ _ t k Hput) as Hget. fold key in Hget. split.
  - specialize (Hget key). rewrite decide_True in Hget by done. unfold lookup_profile, lookup_json. fold key. rewrite Hget.
    destruct (_ <? t)%N; [done|]. cbn [Storage.value]. rewrite Hv. eexists v, _. by split_and!.
  - intros k Hk. by rewrite Hget, decide_False.
Qed.
End records.

(* ------------------------------------------------------------------ *)
(** ** Queries *)

Section queries.
Context `{Primitives, Hex, DhtJson, !HexLaws, !JsonLaws, !DhtJsonLaws}.

Lemma decode_encode_key key : Forall byte_ok key → length key = 32 → decode_key (hex_encode key) = Some key.
Proof. intros Hb Hl. unfold decode_key. rewrite hex_decode_encode by done. cbn. by rewrite Hl. Qed.

(** A response is taken in whoever sent it. *)
Lemma ingest_response t_get tb tp our identity message key v q n j :
  value_from_slice message = Some j → get_str "type" j = Some (lit "dht_response") → get_str "key" j = Some (hex_encode key) →
  get_member "value" j = Some v → get_str "query_id" j = Some q → Forall byte_ok key → length key = 32 →
  ∃ b, value_to_vec v = Ok b ∧ value_from_slice b = Some v ∧
  let n1 := with_storage (put tb tp key b Storage.MAX_TTL_SECONDS Storage.Profile identity (storage n)).1 n in
  ingest_query t_get tb tp our identity message n =
  if bool_decide (q ∈ pending n) then with_answers (<[q := v]> (answers n)) (with_pending (pending n ∖ {[q]}) n1) else n1.
Proof.
  intros Hj Ht Hk Hm Hq Hb Hl. destruct (value_parse v) as (b & Hvb & Hvp). exists b. split_and!; try done.
  unfold ingest_query. rewrite Hj, Ht. rewrite (bool_decide_false (lit "dht_response" = lit "dht_query")) by done.
  rewrite bool_decide_true by done. unfold handle_response, with_str. rewrite Hk, Hm, Hq, decode_encode_key, Hvb by done. done.
Qed.

(** C26. A record is found from another node: a node that does not have the
    key publishes one query; a node that has it answers it once, unchanged;
    and the answer wakes the one who asked, with the value that the other
    holds, and is served from then on by the asking node too when its store
    takes it. *)
Theorem query_answered (ta tb t1 t2 t3 : N) (a_id b_id q_id : str) (ida idb : option bytes) (key : bytes) (v : value) (a b : QueryNode)
    (Hhas : get ta key (storage a) = Some v) (Hmiss : get tb key (storage b) = None) (Hids : b_id ≠ a_id)
    (Hkey : Forall byte_ok key) (Hlen : length key = 32) (Hfresh : answers b !! q_id = None) :
  ∃ query response b1,
    query_network_dht tb (Some b_id) q_id key b = (b1, Ok (inr q_id)) ∧ outbox b1 = outbox b ++ [query] ∧
    ingest_query ta t1 t2 a_id ida query a = publish response a ∧
    let b2 := ingest_query t3 t1 t2 b_id idb response b1 in
    (await_answer q_id b2).2 = Some v ∧ q_id ∉ pending b2 ∧
    ∀ vb s, value_to_vec v = Ok vb → put t1 t2 key vb Storage.MAX_TTL_SECONDS Storage.Profile idb (storage b) = (s, Ok tt) →
      ∀ t, (t ≤ add64 t1 Storage.MAX_TTL_SECONDS)%N → get t key (storage b2) = Some v.
Proof.
  destruct (object_parse (query_object (hex_encode key) b_id q_id)) as (qb & qv & Hqb & Hqv & Hqs & _).
  { repeat constructor; set_solver. }
  destruct (response_parse (hex_encode key) v a_id q_id) as (rb & rv & Hrb & Hrv & Hrt & Hrk & Hrm & Hrq).
  exists qb, rb. unfold query_network_dht, query_network_dht_inner. rewrite Hmiss, Hqb. eexists. split; [reflexivity|]. split; [reflexivity|]. split.
  - assert (Hq1 : get_str "type" qv = Some (lit "dht_query")) by (by rewrite Hqs).
    assert (Hq2 : get_str "key" qv = Some (hex_encode key)) by (by rewrite Hqs).
    assert (Hq3 : get_str "requester" qv = Some b_id) by (by rewrite Hqs).
    assert (Hq4 : get_str "query_id" qv = Some q_id) by (by rewrite Hqs).
    unfold ingest_query. rewrite Hqv, Hq1, bool_decide_true by done. unfold handle_query, with_str. rewrite Hq2, Hq3, Hq4.
    rewrite bool_decide_false, decode_encode_key, Hhas, Hrb by done. done.
  - set (b1 := publish qb _). destruct (ingest_response t3 t1 t2 b_id idb rb key v q_id b1 rv) as (vb & Hvb & Hvp & Hin); try done.
    cbv zeta in Hin. rewrite Hin. rewrite bool_decide_true by (cbn; set_solver). cbv zeta. cbn [pending with_answers with_pending storage with_storage].
    split_and!.
    + unfold await_answer. cbn [answers with_answers]. by rewrite lookup_insert_eq.
    + set_solver.
    + intros vb' s Hvb' Hput t Ht. rewrite Hvb in Hvb'. injection Hvb' as <-. change (storage b1) with (storage b). rewrite Hput. cbn [fst].
      unfold get. rewrite (get_after_put _ _ _ _ _ _ _ _ _ t key Hput), decide_True by done.
      destruct (record_put_spec _ _ _ _ _ _ _ _ _ Hput) as (seed & -> & _).
      rewrite (proj2 (N.ltb_ge _ _)) by done. cbn [Storage.value]. by rewrite Hvp.
Qed.

(** Nothing protects a record of the DHT: any peer can send a response
    that nobody asked for, with any value for any key, and a node that has
    room for it serves that value from then on, in its own name, in place of
    the genuine record. *)
Theorem response_overwrites (t_get tb tp : N) (our : str) (seed : bytes) (message : bytes) (j v : value) (key : bytes) (q : str) (n : QueryNode)
    (Hj : value_from_slice message = Some j) (Ht : get_str "type" j = Some (lit "dht_response")) (Hk : get_str "key" j = Some (hex_encode key))
    (Hm : get_member "value" j = Some v) (Hq : get_str "query_id" j = Some q) (Hunasked : q ∉ pending n)
    (Hkey : Forall byte_ok key) (Hlen : length key = 32)
    (Hroom : ∀ vb, value_to_vec v = Ok vb → (put tb tp key vb Storage.MAX_TTL_SECONDS Storage.Profile (Some seed) (storage n)).2 = Ok tt) :
  let n' := ingest_query t_get tb tp our (Some seed) message n in
  ∀ t, (t ≤ add64 tb Storage.MAX_TTL_SECONDS)%N →
    lookup_json t key (storage n') = Ok (Some v) ∧ get t key (storage n') = Some v ∧
    ∃ r, Storage.get t key (storage n') = Some r ∧ Storage.publisher r = public_key seed ∧ Storage.signature r = sign seed (key ++ Storage.value r).
Proof.
  intros n' t Hle. destruct (ingest_response t_get tb tp our (Some seed) message key v q n j) as (vb & Hvb & Hvp & Hin); try done.
  unfold n'. rewrite Hin, bool_decide_false by done. cbn [storage with_storage]. specialize (Hroom vb Hvb).
  destruct (put _ _ _ _ _ _ _ _) as [s x] eqn:Hput. cbn [snd fst] in *. subst x.
  pose proof (get_after_put _ _ _ _ _ _ _ _ _ t key Hput) as Hget. rewrite decide_True, (proj2 (N.ltb_ge _ _)) in Hget by done.
  unfold lookup_json, get. rewrite Hget. cbn [Storage.value]. rewrite Hvp. split_and!; [done|done|]. eexists. by split_and!.
Qed.
End queries.

(* ------------------------------------------------------------------ *)
(** ** Witnesses *)

(** Documents as numbers, with a ["value"] member. *)
Module DhtJsonToy.
Definition fields : Type := list (string * field).
Definition doc : Type := (fields * list fields) + DeadDrop.DeadDropEnvelope.
Definition to_vec (x : doc) : bytes := [Npos (encode x)].
Definition from_slice (b : bytes) : option doc := match b with [Npos p] => decode p | _ => None end.

#[export] Instance json : Json := {|
  value := fields * list fields;
  value_from_slice b := match from_slice b with Some (inl v) => Some v | Some (inr _) => Some ([], []) | None => None end;
  get_str k v := str_field k v.1;
  get_u64 k v := u64_field k v.1;
  get_i64 k v := i64_field k v.1;
  object_to_vec fs := Ok (to_vec (inl (fs, [])));
  drop_to_vec e := Ok (to_vec (inr e));
  drop_from_slice b := match from_slice b with Some (inr e) => Ok e | _ => Err "missing field `mailbox_key`"%string end
|}.
#[export] Instance dht_json : DhtJson := {|
  value_to_vec v := Ok (to_vec (inl v));
  get_member k (v : fields * list fields) :=
    if bool_decide (k = "value"%string) then match v.2 with x :: xs => Some (x, xs) | [] => None end else None;
  raw_hex_value s := ([("raw_hex"%string, FStr s)], []);
  response_to_vec k v r q := Ok (to_vec (inl ([("type"%string, FStr (lit "dht_response")); ("key"%string, FStr k);
    ("responder"%string, FStr r); ("query_id"%string, FStr q)], v.1 :: v.2)))
|}.

Lemma from_to_record_vec x : from_slice (to_vec x) = Some x.
Proof. apply decode_encode. Qed.

#[export] Instance json_laws : JsonLaws.
Proof.
  split.
  - intros fs _. exists (to_vec (inl (fs, []))), (fs, []). cbn -[to_vec from_slice]. by rewrite from_to_record_vec.
  - intros e. exists (to_vec (inr e)). cbn -[to_vec from_slice]. rewrite from_to_record_vec. split_and!; [done..|]. by intros v [= <-].
  - intros fs b [= <-] _. cbn -[to_vec from_slice]. by rewrite from_to_record_vec.
Qed.
#[export] Instance dht_json_laws : DhtJsonLaws.
Proof.
  split.
  - intros v. eexists. split; [reflexivity|]. cbn -[to_vec from_slice]. by rewrite from_to_record_vec.
  - intros k [x xs] r q. eexists _, _. split; [reflexivity|]. cbn -[to_vec from_slice]. rewrite from_to_record_vec. by split_and!.
Qed.
End DhtJsonToy.

Section witnesses.
Import Toy HexToy DhtJsonToy.

Definition dw_seed : bytes := replicate 32 1%N.
Definition dw_store : Storage.DhtStorage := Storage.new 10 8192.
Definition dw_profile : list (string * field) := [("display_name"%string, FStr (lit "Al"))].
Definition dw_stored := store_profile 100 100 (lit "aa") dw_profile (Some dw_seed) dw_store.

Lemma dw_stored_ok : dw_stored = (dw_stored.1, Ok tt).
Proof. reflexivity. Qed.

Lemma dht_store_lookup_witness : ∃ v, lookup_profile 200 (lit "aa") dw_stored.1 = Ok (Some v) ∧ get_str "display_name" v = Some (lit "Al").
Proof.
  destruct (dht_store_lookup 100 100 200 dw_seed (lit "aa") dw_profile dw_store dw_stored.1) as [Hv _].
  - repeat constructor; set_solver.
  - apply dw_stored_ok.
  - rewrite (proj2 (N.ltb_ge _ _)) in Hv by (vm_compute; discriminate). destruct Hv as (v & _ & Hl & Hs & _).
    exists v. split; [exact Hl|]. rewrite Hs. reflexivity.
Defined.

Definition dw_key : bytes := replicate 32 7%N.
Definition dw_value : Ingest.value := (dw_profile, []).
Definition dw_has : QueryNode :=
  MkQueryNode (Storage.MkStorage {[ dw_key := Storage.MkStored (Storage.MkRecord dw_key Storage.Profile (to_vec (inl dw_value)) [] 100 1000 []) 1100 ]} 10 8192) ∅ ∅ [].
Definition dw_asks : QueryNode := MkQueryNode dw_store ∅ ∅ [].

Lemma dw_get : get 200 dw_key (storage dw_has) = Some dw_value.
Proof.
  unfold get, Storage.get, dw_has. cbn [storage Storage.records]. rewrite lookup_singleton_eq.
  cbn -[to_vec from_slice]. by rewrite from_to_record_vec.
Qed.

Lemma query_answered_witness :
  ∃ query response b1, query_network_dht 200 (Some (lit "b")) (lit "q") dw_key dw_asks = (b1, Ok (inr (lit "q"))) ∧
    outbox (ingest_query 200 201 201 (lit "a") None query dw_has) = [response] ∧
    (await_answer (lit "q") (ingest_query 202 201 201 (lit "b") None response b1)).2 = Some dw_value.
Proof.
  destruct (query_answered 200 200 201 201 202 (lit "a") (lit "b") (lit "q") None None dw_key dw_value dw_has dw_asks)
    as (query & response & b1 & Hq & _ & Ha & Hw & _).
  - exact dw_get.
  - reflexivity.
  - discriminate.
  - repeat (constructor; [unfold byte_ok; lia|]). constructor.
  - reflexivity.
  - reflexivity.
  - exists query, response, b1. split; [exact Hq|]. split; [by rewrite Ha|exact Hw].
Defined.

(** A response nobody asked for replaces the record that is there. *)
Definition dw_lie : Ingest.value := ([("display_name"%string, FStr (lit "Eve"))], []).
Definition dw_message : bytes :=
  match response_to_vec (hex_encode dw_key) dw_lie (lit "x") (lit "unasked") with Ok b => b | Err _ => [] end.

Lemma response_overwrites_witness :
  get 300 dw_key (storage (ingest_query 200 201 201 (lit "a") (Some dw_seed) dw_message dw_has)) = Some dw_lie.
Proof.
  destruct (response_parse (hex_encode dw_key) dw_lie (lit "x") (lit "unasked")) as (b & j & Hb & Hj & Ht & Hk & Hm & Hq).
  assert (Hmsg : dw_message = b) by (unfold dw_message; by rewrite Hb).
  apply (response_overwrites 200 201 201 (lit "a") dw_seed dw_message j dw_lie dw_key (lit "unasked") dw_has).
  - by rewrite Hmsg.
  - exact Ht.
  - exact Hk.
  - exact Hm.
  - exact Hq.
  - set_solver.
  - repeat (constructor; [unfold byte_ok; lia|]). constructor.
  - reflexivity.
  - intros vb [= <-]. apply put_accepts; [by apply N.leb_le|done|by apply N.leb_le|]. left. eexists. apply lookup_singleton_eq.
  - by apply N.leb_le.
Defined.
End witnesses.
