(* ===== verification/HandleNode.v ===== *)
(** * Handles in the node: [crates/ephemera-node/src/services/handle.rs]

    [HandleService] over the registry of [Handles] and the records of
    [NodeDht], the hourly task that collects and renews handles
    ([background.rs]) and the twelve-hourly one that publishes our handle
    again ([background_dht.rs]).  Registering and releasing use the pseudonym
    of the master secret and the active index, everything else the active
    keypair; both are seeds.  [lost] are the [HandleConflictLost] events,
    oldest first. *)
From S2P Require Import Prelude Types Crypto Unicode Pow Handles Dht Metadata Messages Ingest NodeDht.

Record Identity := MkIdentity { pseudonym : option bytes; keypair : option bytes }.

Record HandleNode := MkHandleNode {
  registry : HandleRegistry;
  records : Storage.DhtStorage;
  lost : list (str * bytes)
}.
Definition with_registry r n := MkHandleNode r (records n) (lost n).
Definition with_records s n := MkHandleNode (registry n) s (lost n).
Definition emit (name new_owner : bytes) n := MkHandleNode (registry n) (records n) (lost n ++ [(name, new_owner)]).

Inductive HandleFailure :=
| Locked
| Refused (during : string) (e : HandleError + abort)
| DhtFailed (e : DhtFailure).

Record HandleView := MkHandleView { hv_handle : str; hv_owner : str; hv_registered_at : N; hv_expires_at : N }.

Section handles.
Context `{Primitives, Hex, DhtJson}.

Definition view (h : Handle) : HandleView :=
  MkHandleView (lit "@" ++ name h) (hex_encode (owner h)) (registered_at h) (expires_at h).

Definition get_pseudonym_identity (id : Identity) : result HandleFailure bytes := ok_or (pseudonym id) Locked.
Definition active_key (id : Identity) : result HandleFailure bytes := result_map public_key (ok_or (keypair id) Locked).

(** A registry operation of the given pseudonym. *)
Definition on_registry {A} (during : string) (m : SE HandleRegistry (HandleError + abort) A) : SE HandleNode HandleFailure A :=
  se_map_err (Refused during) (se_zoom registry with_registry m).

Definition register (fuel : nat) (n : str) (id : Identity) (now : N) : SE HandleNode HandleFailure HandleView :=
  let! seed := se_lift (get_pseudonym_identity id) in
  let! h := on_registry "register handle" (Handles.register fuel n seed now) in
  se_ret (view h).
Definition register_with_difficulty (fuel : nat) (n : str) (difficulty : PowDifficulty) (id : Identity) (now : N) :
    SE HandleNode HandleFailure HandleView :=
  let! seed := se_lift (get_pseudonym_identity id) in
  let! h := on_registry "register handle" (Handles.register_with_difficulty fuel n seed difficulty now) in
  se_ret (view h).

(** A failure to publish is only logged.  The key is the name as it was given. *)
Definition publish_handle (t_build t_put : N) (n : str) (v : HandleView) (id : Identity) : SE HandleNode HandleFailure unit := λ st,
  (with_records (store_handle t_build t_put n (hv_owner v) (hv_registered_at v) (hv_expires_at v) (keypair id) (records st)).1 st, Ok tt).

Definition register_and_publish (fuel : nat) (n : str) (id : Identity) (now t_build t_put : N) : SE HandleNode HandleFailure HandleView :=
  let! result := register fuel n id now in
  let! _ := publish_handle t_build t_put n result id in
  se_ret result.
Definition register_with_difficulty_and_publish (fuel : nat) (n : str) (difficulty : PowDifficulty) (id : Identity) (now t_build t_put : N) :
    SE HandleNode HandleFailure HandleView :=
  let! result := register_with_difficulty fuel n difficulty id now in
  let! _ := publish_handle t_build t_put n result id in
  se_ret result.

Definition live (now : N) (h : option Handle) : option HandleView :=
  h ← h; if is_expired_at h now then None else Some (view h).
Definition lookup (now : N) (n : str) (st : HandleNode) : option HandleView := live now (lookup_name (registry st) n).

(** Null, the record of the registry, or whatever the DHT has. *)
Inductive HandleAnswer := Nowhere | Here (v : HandleView) | There (v : value).
Definition lookup_with_dht (now t_get : N) (n : str) (st : HandleNode) : result HandleFailure HandleAnswer :=
  match lookup now n st with
  | Some v => Ok (Here v)
  | None =>
      let? r := map_err DhtFailed (lookup_handle t_get n (records st)) in
      Ok match r with Some v => There v | None => Nowhere end
  end.
(** [asked] is what [query_network_dht] answers. *)
Definition lookup_with_network_dht (now t_get : N) (n : str) (asked : option value) (st : HandleNode) : result HandleFailure HandleAnswer :=
  let? r := lookup_with_dht now t_get n st in
  Ok match r with Nowhere => match asked with Some v => There v | None => Nowhere end | _ => r end.

Definition my_handle (now : N) (id : Identity) (st : HandleNode) : result HandleFailure (option HandleView) :=
  let? k := active_key id in Ok (live now (lookup_by_owner (registry st) k)).
(** Whether a handle is active, and its view. *)
Definition check_handle_status (now : N) (id : Identity) (st : HandleNode) : result HandleFailure (option HandleView) :=
  let? k := active_key id in Ok (live now (lookup_by_owner (registry st) k)).

Definition renew (fuel : nat) (n : str) (id : Identity) (now : N) : SE HandleNode HandleFailure str :=
  let! seed := se_lift (get_pseudonym_identity id) in
  let! _ := on_registry "renew handle" (Handles.renew fuel n seed now) in
  se_ret (lit "@" ++ n).
Definition release (n : str) (id : Identity) (now : N) : SE HandleNode HandleFailure str :=
  let! seed := se_lift (get_pseudonym_identity id) in
  let! _ := on_registry "release handle" (Handles.release n seed now) in
  se_ret (lit "@" ++ n).

(** Whether the record was accepted. *)
Definition receive_remote_handle (h : Handle) (id : Identity) (now : N) : SE HandleNode HandleFailure bool := λ st,
  match validate h now with
  | Err e => (st, Err (Refused "invalid handle" (inl e)))
  | Ok _ =>
      let '(r, outcome) := insert_validated h now (registry st) in
      let st := with_registry r st in
      let st := match outcome with
                | Replaced displaced_owner =>
                    match active_key id with
                    | Ok k => if bool_decide (k = displaced_owner) then emit (name h) (owner h) st else st
                    | Err _ => st
                    end
                | _ => st
                end in
      (st, Ok match outcome with Rejected => false | _ => true end)
  end.

(** One tick of [handle_gc_loop]. *)
Definition SEVEN_DAYS : N := 7 * 24 * 3600.
Definition NINETY_DAYS : N := 90 * 24 * 3600.
Definition extend (n : str) (expiry : N) (r : HandleRegistry) : HandleRegistry :=
  MkRegistry (alter (λ h, MkHandle (name h) (owner h) (registered_at h) expiry (pow_proof h) (signature h)) n (handles r))
    (owner_to_handle r) (last_registration r) (cooldowns r).
Definition handle_gc_tick (now : N) (id : Identity) (st : HandleNode) : HandleNode :=
  let r := gc now (registry st) in
  with_registry
    match active_key id with
    | Ok our_key =>
        match lookup_by_owner r our_key with
        | Some h => if negb (is_expired_at h now) && (expires_at h <=? now + SEVEN_DAYS)%N then extend (name h) (now + NINETY_DAYS) r else r
        | None => r
        end
    | Err _ => r
    end st.

(** The handle part of [republish_own_records]. *)
Definition republish_handle (now t_build t_put : N) (id : Identity) (st : HandleNode) : HandleNode :=
  match active_key id with
  | Err _ => st
  | Ok k =>
      match lookup_by_owner (registry st) k with
      | Some h => if is_expired_at h now then st else (publish_handle t_build t_put (name h) (view h) id st).1
      | None => st
      end
  end.
End handles.

(* ------------------------------------------------------------------ *)
(** ** Records from the network *)

Section remote.
Context `{Primitives, Hex, DhtJson}.

(** The record a name has, when it is live and the incoming one does not beat it. *)
Definition held (h : Handle) (now : N) (r : HandleRegistry) : bool :=
  match handles r !! name h with Some e => negb (is_expired_at e now) && negb (beats h e) | None => false end.
(** The live record of ours that the incoming one beats. *)
Definition displaces (h : Handle) (id : Identity) (now : N) (r : HandleRegistry) : bool :=
  match handles r !! name h, active_key id with
  | Some e, Ok k => negb (is_expired_at e now) && beats h e && bool_decide (owner e = k)
  | _, _ => false
  end.

Lemma insert_validated_outcome h now r :
  insert_validated h now r =
  if held h now r then (r, Rejected)
  else (put_handle h (unindex (name h) r),
        match handles r !! name h with
        | Some e => if is_expired_at e now then Inserted else Replaced (owner e)
        | None => Inserted
        end).
Proof.
  unfold insert_validated, resolve_conflict, held. destruct (handles r !! name h) as [e|]; [|done].
  destruct (is_expired_at e now); [done|]. cbn [negb andb]. unfold beats.
  destruct (_ <? _)%N; [done|]. cbn [orb]. destruct (_ =? _)%N; [|done]. cbn [andb]. by destruct (bytes_ltb _ _).
Qed.

(** A valid record of a name that nobody holds takes it. *)
Lemma receive_live_accepted h id now st : validate h now = Ok tt →
  from_option (λ e, is_expired_at e now) true (handles (registry st) !! name h) = true →
  handles (registry (receive_remote_handle h id now st).1) !! name h = Some h.
Proof.
  intros Hv He. unfold receive_remote_handle. rewrite Hv, insert_validated_outcome.
  replace (held h now (registry st)) with false.
  2: { unfold held. destruct (handles (registry st) !! name h); [|done]. cbn in He. by rewrite He. }
  cbn. repeat case_match; cbn; apply lookup_insert_eq.
Qed.

(** What a record from the network does: one that does not validate is
    refused and changes nothing; one whose name has a live record that is
    older, or as old with a lower key, is not accepted and changes nothing;
    any other is accepted and both indices give it, and a
    [HandleConflictLost] event is emitted exactly when the live record it
    beat was our own. *)
Theorem receive_remote_spec (h : Handle) (id : Identity) (now : N) (st : HandleNode) :
  let '(st', res) := receive_remote_handle h id now st in
  match validate h now with
  | Err e => st' = st ∧ res = Err (Refused "invalid handle" (inl e))
  | Ok _ =>
      if held h now (registry st) then st' = st ∧ res = Ok false
      else res = Ok true ∧ handles (registry st') !! name h = Some h ∧ lookup_by_owner (registry st') (owner h) = Some h ∧
           (∀ n, n ≠ name h → handles (registry st') !! n = handles (registry st) !! n) ∧ records st' = records st ∧
           lost st' = lost st ++ (if displaces h id now (registry st) then [(name h, owner h)] else [])
  end.
Proof.
  unfold receive_remote_handle. destruct (validate h now) as [u|e]; [|done].
  rewrite insert_validated_outcome. unfold displaces. destruct (held h now (registry st)) eqn:Eh; [by destruct st|].
  assert (Hput : let r := put_handle h (unindex (name h) (registry st)) in
    handles r !! name h = Some h ∧ lookup_by_owner r (owner h) = Some h ∧ (∀ n, n ≠ name h → handles r !! n = handles (registry st) !! n)).
  { cbn. unfold lookup_by_owner. cbn. rewrite !lookup_insert_eq. cbn. rewrite lookup_insert_eq. split_and!; [done..|].
    intros n Hn. rewrite lookup_insert_ne by done. unfold unindex. by case_match. }
  unfold held in Eh. destruct (handles (registry st) !! name h) as [e|]; [|by split_and!; try apply Hput; rewrite ?app_nil_r].
  destruct (is_expired_at e now).
  { cbn [negb andb]. destruct (active_key id); by split_and!; try apply Hput; rewrite ?app_nil_r. }
  cbn [negb andb] in *. apply negb_false_iff in Eh. rewrite Eh. cbn [andb].
  destruct (active_key id) as [k|]; [|by split_and!; try apply Hput; rewrite ?app_nil_r].
  rewrite (bool_decide_ext (k = owner e) (owner e = k)) by (split; congruence).
  case_bool_decide; split_and!; try apply Hput; cbn; by rewrite ?app_nil_r.
Qed.

(* ------------------------------------------------------------------ *)
(** ** The hourly renewal *)

Lemma alter_name r n h t : indexed r → handles r !! n = Some h →
  handles (extend n t r) !! n = Some (MkHandle (name h) (owner h) (registered_at h) t (pow_proof h) (signature h)).
Proof. intros _ Hh. cbn. by rewrite lookup_alter_eq, Hh. Qed.

(** The hourly task takes the handle away from its owner: in the last
    seven days of the ninety it moves the expiry of our record by ninety days
    and changes nothing else of it, so the record is refused by [validate]
    at every node and every time until it expires, and cannot be gossiped;
    the rest of the network lets the name go when the old record ends, and
    our node, alone, refuses every valid later record of the name. *)
Theorem auto_renew_invalid (st : HandleNode) (id : Identity) (k : bytes) (h : Handle) (now : N)
    (Hk : active_key id = Ok k) (Hi : indexed (registry st)) (Hh : lookup_by_owner (gc now (registry st)) k = Some h)
    (Hf : validate_handle_format (name h) = Ok tt) (Hlive : (now < expires_at h)%N) (Hdue : (expires_at h ≤ now + SEVEN_DAYS)%N)
    (Hreg : (registered_at h < now)%N) (Hmax : u64 (now + NINETY_DAYS)) :
  let st' := handle_gc_tick now id st in
  ∃ h', lookup_by_owner (registry st') k = Some h' ∧ handles (registry st') !! name h = Some h' ∧
    name h' = name h ∧ owner h' = owner h ∧ registered_at h' = registered_at h ∧ expires_at h' = (now + NINETY_DAYS)%N ∧
    (∀ t, (t < now + NINETY_DAYS)%N → validate h' t = Err (InvalidPow "expires_at does not match registered_at + TTL")) ∧
    ∀ other t, name other = name h → (registered_at h < registered_at other)%N → validate other t = Ok tt →
      ((t < now + NINETY_DAYS)%N → receive_remote_handle other id t st' = (st', Ok false)) ∧
      ∀ st2 id2, from_option (λ e, is_expired_at e t) true (handles (registry st2) !! name h) = true →
        handles (registry (receive_remote_handle other id2 t st2).1) !! name h = Some other.
Proof.
  assert (Hgi : indexed (gc now (registry st))) by exact (step_indexed (OGc now) _ Hi).
  assert (Hn : owner_to_handle (gc now (registry st)) !! k = Some (name h) ∧ handles (gc now (registry st)) !! name h = Some h).
  { unfold lookup_by_owner in Hh. apply bind_Some in Hh as (n & Hn & Hh). by rewrite (proj1 Hgi _ _ Hh). }
  destruct Hn as [Ho Hn]. cbv zeta. unfold handle_gc_tick. rewrite Hk, Hh.
  unfold is_expired_at. rewrite (proj2 (N.leb_gt _ _) Hlive), (proj2 (N.leb_le _ _) Hdue). cbn [negb andb].
  pose proof (alter_name _ _ _ (now + NINETY_DAYS)%N Hgi Hn) as Ha. eexists. split; [|split; [exact Ha|]].
  { unfold lookup_by_owner. cbn [owner_to_handle extend registry with_registry]. rewrite Ho. exact Ha. }
  split_and!; try done.
  - intros t Ht. unfold validate. cbn [name expires_at registered_at]. rewrite Hf. cbn [result_bind map_err]. unfold is_expired_at. cbn [expires_at].
    rewrite (proj2 (N.leb_gt _ _) Ht). rewrite add64_small by (unfold u64 in *; unfold HANDLE_TTL_SECS, NINETY_DAYS in *; lia).
    rewrite (proj2 (N.eqb_neq _ _)) by (unfold HANDLE_TTL_SECS, NINETY_DAYS; lia). done.
  - intros other t Hno Hlater Hv. split.
    + intros Ht. unfold receive_remote_handle. rewrite Hv, insert_validated_outcome.
      assert (Hheld : held other t (extend (name h) (now + NINETY_DAYS) (gc now (registry st))) = true).
      { unfold held. rewrite Hno, Ha. unfold is_expired_at, beats. cbn [expires_at registered_at owner].
        rewrite (proj2 (N.leb_gt _ _) Ht), (proj2 (N.ltb_ge _ _)), (proj2 (N.eqb_neq _ _)) by lia. done. }
      cbn [registry with_registry]. by rewrite Hheld.
    + intros st2 id2 Hst2. rewrite <- Hno in Hst2 |- *. by apply receive_live_accepted.
Qed.
End remote.

(* ------------------------------------------------------------------ *)
(** ** Publishing *)

Section publishing.
Context `{Primitives, Hex, DhtJson, !JsonLaws, !DhtJsonLaws}.

Lemma store_handle_lookup tb tp n o r e identity s s' : store_handle tb tp n o r e identity s = (s', Ok tt) →
  (∀ t, (t ≤ add64 tb HANDLE_TTL_SECONDS)%N → ∃ j, lookup_handle t n s' = Ok (Some j) ∧ get_str "name" j = Some n ∧
     get_str "owner" j = Some o ∧ get_u64 "registered_at" j = Some r ∧ get_u64 "expires_at" j = Some e) ∧
  ∀ m t, dht_key "handle" m ≠ dht_key "handle" n → lookup_handle t m s' = lookup_handle t m s.
Proof.
  unfold store_handle, se_bind at 1, se_lift.
  destruct (object_parse (handle_object n o r e)) as (b & v & Hb & Hv & Hs & Hu & _); [repeat constructor; set_solver|].
  rewrite Hb. cbn [map_err]. intros Hp. pose proof (λ k t, get_after_put _ _ _ _ _ _ _ _ _ t k Hp) as Hget.
  destruct (NodeDht.record_put_spec _ _ _ _ _ _ _ _ _ Hp) as (seed & -> & _). unfold lookup_handle, lookup_json. split.
  - intros t Ht. rewrite Hget, decide_True by done. rewrite (proj2 (N.ltb_ge _ _)) by done. cbn [Storage.value]. rewrite Hv.
    exists v. split; [done|]. by rewrite !Hs, !Hu.
  - intros m t Hm. by rewrite Hget, decide_False by done.
Qed.

(** A handle that was registered and published is the same in the three
    places that are asked for it: under any spelling in our registry until
    its ninety days are over, in the DHT for thirty days from then, with the
    same owner and times, and as our own handle when the pseudonym is the
    active one.  The DHT has it under the spelling that was typed only: the
    record of every other spelling, the registered one included, stays what
    it was. *)
Theorem handle_published (fuel : nat) (n : str) (id : Identity) (seed : bytes) (now tb tp : N) (st st' : HandleNode) (v : HandleView)
    (Hi : indexed (registry st)) (Hp : pseudonym id = Some seed) (Hmax : u64 (now + HANDLE_TTL_SECS))
    (Hreg : register_and_publish fuel n id now tb tp st = (st', Ok v))
    (Hroom : (store_handle tb tp n (hv_owner v) (hv_registered_at v) (hv_expires_at v) (keypair id) (records st)).2 = Ok tt) :
  v = MkHandleView (lit "@" ++ to_ascii_lowercase n) (hex_encode (public_key seed)) now (now + HANDLE_TTL_SECS) ∧
  (∀ m t, to_ascii_lowercase m = to_ascii_lowercase n → lookup t m st' = if (now + HANDLE_TTL_SECS <=? t)%N then None else Some v) ∧
  (∀ t, (t ≤ add64 tb HANDLE_TTL_SECONDS)%N → ∃ j, lookup_handle t n (records st') = Ok (Some j) ∧ get_str "name" j = Some n ∧
     get_str "owner" j = Some (hv_owner v) ∧ get_u64 "registered_at" j = Some now ∧ get_u64 "expires_at" j = Some (hv_expires_at v)) ∧
  (keypair id = Some seed → ∀ t, my_handle t id st' = Ok (if (now + HANDLE_TTL_SECS <=? t)%N then None else Some v)) ∧
  ∀ m t, dht_key "handle" m ≠ dht_key "handle" n → lookup_handle t m (records st') = lookup_handle t m (records st).
Proof.
  unfold register_and_publish, register, get_pseudonym_identity, on_registry, publish_handle, Handles.register, se_bind, se_lift, se_ret in Hreg.
  rewrite Hp in Hreg. cbn [ok_or] in Hreg. unfold se_map_err, se_zoom in Hreg.
  pose proof (register_triple fuel (to_ascii_lowercase n) seed (calculate_pow_difficulty (to_ascii_lowercase n)) now _ Hi) as [_ HQ].
  destruct (Handles.register_with_difficulty _ _ _ _ _ _) as [r [h|e]]; [|done].
  destruct (HQ h eq_refl) as (_ & Hn & Ho & Hr & He & _ & _ & Hl & Hix & _). cbn [fst snd] in *. rewrite (add64_small _ _ Hmax) in He.
  injection Hreg as Hst Hv.
  subst v. cbn [view hv_owner hv_registered_at hv_expires_at] in *.
  destruct (store_handle _ _ _ _ _ _ _ (records st)) as [s x] eqn:Es in Hroom, Hst. cbn [snd fst] in *. subst x.
  destruct (store_handle_lookup _ _ _ _ _ _ _ _ _ Es) as [Hf Hother].
  split; [unfold view; by rewrite Hn, Ho, Hr, He|].
  assert (Hlive : ∀ t, live t (Some h) = if (now + HANDLE_TTL_SECS <=? t)%N then None else Some (view h)).
  { intros t. cbn. unfold is_expired_at. by rewrite He. }
  subst st'. cbn [records with_records registry]. split_and!; try done.
  - intros m t Hm. unfold lookup, lookup_name. cbn. by rewrite Hm, Hl, <- Hlive.
  - intros t Ht. destruct (Hf t Ht) as (j & Hj & Hjn & Hjo & Hjr & Hje). exists j. by rewrite Hr in Hjr.
  - intros Hk t. unfold my_handle, active_key. rewrite Hk. cbn. unfold lookup_by_owner. cbn.
    unfold identity_key_from_pseudonym in Ho. rewrite <- Ho, Hix. cbn. rewrite Hl. by rewrite <- Hlive.
Qed.
End publishing.

(* ------------------------------------------------------------------ *)
(** ** Witnesses *)

Section witnesses.
Import Toy HexToy DhtJsonToy.
#[local] Existing Instance toy.

Definition hw_id : Identity := MkIdentity (Some demo_id) (Some demo_id).
Definition hw_new : HandleNode := MkHandleNode new (Storage.new 10 8192) [].
Definition hw_state : HandleNode := MkHandleNode demo_reg (Storage.new 10 8192) [].
Definition hw_due : N := 1000 + HANDLE_TTL_SECS - 1000.
Definition hw_handle : option Handle := Eval vm_compute in lookup_by_owner demo_reg demo_id.

Lemma hw_handle_some : ∃ h, lookup_by_owner (gc hw_due demo_reg) demo_id = Some h ∧ registered_at h = 1000%N ∧
  expires_at h = (1000 + HANDLE_TTL_SECS)%N ∧ name h = demo_lower.
Proof. vm_compute. eexists. split; [reflexivity|]. by split_and!. Qed.

Lemma auto_renew_invalid_witness : ∃ h h', lookup_by_owner demo_reg demo_id = Some h ∧ is_ok (validate h hw_due) = true ∧
  lookup_by_owner (registry (handle_gc_tick hw_due hw_id hw_state)) demo_id = Some h' ∧
  validate h' hw_due = Err (InvalidPow "expires_at does not match registered_at + TTL").
Proof.
  destruct hw_handle_some as (h & Hh & Hr & He & Hn).
  destruct (auto_renew_invalid hw_state hw_id demo_id h hw_due) as (h' & H1 & _ & _ & _ & _ & _ & H2 & _).
  - reflexivity.
  - exact demo_reg_indexed.
  - exact Hh.
  - rewrite Hn. vm_compute. reflexivity.
  - rewrite He. vm_compute. reflexivity.
  - rewrite He. vm_compute. discriminate.
  - rewrite Hr. vm_compute. reflexivity.
  - vm_compute. reflexivity.
  - destruct (lookup_by_owner demo_reg demo_id) as [h0|] eqn:E0; [|vm_compute in E0; discriminate].
    exists h0, h'. split; [reflexivity|]. split; [|split; [exact H1|apply H2; vm_compute; reflexivity]].
    assert (Hv : option_map (λ h, is_ok (validate h hw_due)) (lookup_by_owner demo_reg demo_id) = Some true) by (vm_compute; reflexivity).
    rewrite E0 in Hv. by injection Hv.
Defined.

Definition hw_published := register_and_publish demo_fuel demo_name hw_id 1000 1000 1000 hw_new.
Definition hw_view : HandleView := MkHandleView (lit "@" ++ demo_lower) (hex_encode demo_id) 1000 (1000 + HANDLE_TTL_SECS).

Lemma hw_published_ok : hw_published = (hw_published.1, Ok hw_view).
Proof.
  assert (Hb : match hw_published.2 with Ok v => bool_decide (hv_handle v = hv_handle hw_view ∧ hv_owner v = hv_owner hw_view ∧
    hv_registered_at v = hv_registered_at hw_view ∧ hv_expires_at v = hv_expires_at hw_view) | Err _ => false end = true) by (vm_compute; reflexivity).
  destruct hw_published as [s [v|]]; [|done]. cbn [snd fst] in *. apply bool_decide_eq_true in Hb as (H1 & H2 & H3 & H4).
  do 2 f_equal. destruct v. cbn in *. by subst.
Qed.

Lemma handle_published_witness : lookup 2000 demo_lower hw_published.1 = Some hw_view ∧
  ∃ j, lookup_handle 2000 demo_name (records hw_published.1) = Ok (Some j) ∧ get_str "owner" j = Some (hex_encode demo_id).
Proof.
  destruct (handle_published demo_fuel demo_name hw_id demo_id 1000 1000 1000 hw_new hw_published.1 hw_view) as (_ & Hl & Hd & _ & _).
  - exact new_indexed.
  - reflexivity.
  - vm_compute. reflexivity.
  - exact hw_published_ok.
  - reflexivity.
  - split; [exact (Hl demo_lower 2000%N eq_refl)|]. destruct (Hd 2000%N) as (j & H1 & _ & H2 & _); [vm_compute; discriminate|].
    exists j. split; [exact H1|exact H2].
Defined.
End witnesses.
