(* ===== verification/Profiles.v ===== *)
(** * Profiles and invites

    [crates/ephemera-social/src/profile.rs] and [invite.rs], the profile
    operations of the node ([ProfileService] and the free functions around it
    in [crates/ephemera-node/src/services/social.rs]), the task that refreshes
    the profiles of connected peers ([background.rs]) and the profile part of
    the one that publishes our own records again ([background_dht.rs]).  The
    rows are those of [Feeds.SocialDb], the records those of [NodeDht].  What
    the media pipeline makes of an avatar is an argument. *)
From S2P Require Import Prelude Types Crypto Unicode Post Dht Tables Metadata Connections Store Ingest Feeds NodeDht Handles HandleNode.

Definition MAX_DISPLAY_NAME_LEN : nat := 30.
Definition MAX_BIO_LEN : nat := 160.

Record ProfileUpdate := MkUpdate { up_display_name : option str; up_bio : option str; up_avatar_id : option ContentId }.

(** [SocialError::Validation], with the count its text shows. *)
Inductive ProfileInvalid := DisplayNameTooLong (chars : nat) | BioTooLong (chars : nat).

Definition too_long (max : nat) (s : option str) : bool := match s with Some s => max <? length s | None => false end.
Definition validate_update (u : ProfileUpdate) : result ProfileInvalid unit :=
  if too_long MAX_DISPLAY_NAME_LEN (up_display_name u) then Err (DisplayNameTooLong (length (default [] (up_display_name u))))
  else if too_long MAX_BIO_LEN (up_bio u) then Err (BioTooLong (length (default [] (up_bio u))))
  else Ok tt.

Record ProfileNode := MkProfileNode { social : SocialDb; dht_records : Storage.DhtStorage }.
Definition with_social d n := MkProfileNode d (dht_records n).
Definition with_dht_records s n := MkProfileNode (social n) s.

Inductive ProfileFailure :=
| BadPubkey
| ProfileInvalid_ (e : ProfileInvalid)
| IdentityLocked_
| ProfileDht (e : DhtFailure)
| Query (e : string)
| AvatarProcessing (e : string)
| AvatarIsVideo
| AvatarStore (e : string).

(** [COALESCE(new, old)]. *)
Definition coalesce {A} (new old : option A) : option A := match new with Some x => Some x | None => old end.

(** [INSERT .. ON CONFLICT DO UPDATE] for a profile of somebody else, and of ours. *)
Definition upsert_remote (now : Z) (pk : bytes) (name bio : option str) (d : SocialDb) : SocialDb :=
  let old := profiles d !! pk in
  with_profiles (<[pk := MkProfile (coalesce name (p ← old; pr_display_name p)) (coalesce bio (p ← old; pr_bio p))
    (p ← old; pr_avatar_cid p) now (replicate 64 0%N) now]> (profiles d)) d.
Definition upsert_own (now : Z) (pk : bytes) (name bio : option str) (sig : bytes) (d : SocialDb) : SocialDb :=
  let old := profiles d !! pk in
  with_profiles (<[pk := MkProfile (coalesce name (p ← old; pr_display_name p)) (coalesce bio (p ← old; pr_bio p))
    (p ← old; pr_avatar_cid p) now sig (default now (pr_received_at <$> old))]> (profiles d)) d.
Definition upsert_avatar (now : Z) (pk cid sig : bytes) (d : SocialDb) : SocialDb :=
  let old := profiles d !! pk in
  with_profiles (<[pk := MkProfile (p ← old; pr_display_name p) (p ← old; pr_bio p) (Some cid) now sig
    (default now (pr_received_at <$> old))]> (profiles d)) d.

Section profiles.
Context `{Primitives, Hex, DhtJson}.

Record ProfileView := MkView { pv_pubkey : str; pv_display_name : option str; pv_bio : option str }.
(** Answers come from a row or are a document of the DHT as it is. *)
Inductive ProfileAnswer := Row (v : ProfileView) | Document (v : value).

Definition get (pubkey_hex : str) (d : SocialDb) : result ProfileFailure ProfileView :=
  let? pk := ok_or (hex_decode pubkey_hex) BadPubkey in
  let p := profiles d !! pk in
  Ok (MkView pubkey_hex (p ← p; pr_display_name p) (p ← p; pr_bio p)).

Definition build_dht_profile (pubkey_hex : str) (display_name bio : option str) (d : SocialDb) : list (string * field) :=
  [("pubkey"%string, FStr pubkey_hex); ("display_name"%string, FOptStr display_name); ("bio"%string, FOptStr bio)] ++
  match (pk ← hex_decode pubkey_hex; p ← profiles d !! pk; pr_avatar_cid p) with
  | Some cid => [("avatar_cid"%string, FStr (hex_encode cid))]
  | None => []
  end.

Definition update (name bio : option str) (active : option bytes) (now : N) : SE ProfileNode ProfileFailure unit :=
  let! _ := se_lift (map_err ProfileInvalid_ (validate_update (MkUpdate name bio None))) in
  let! seed := se_lift (ok_or active IdentityLocked_) in
  se_modify (λ n, with_social (upsert_own (as_i64 now) (public_key seed) name bio (sign seed (bstr "profile-update")) (social n)) n).

(** A failure to publish is only logged. *)
Definition publish_profile (t_build t_put : N) (pubkey_hex : str) (profile : list (string * field)) (active : option bytes) (n : ProfileNode) : ProfileNode :=
  with_dht_records (store_profile t_build t_put pubkey_hex profile active (dht_records n)).1 n.

Definition update_and_publish (name bio : option str) (active : option bytes) (now t_build t_put : N) : SE ProfileNode ProfileFailure unit :=
  let! _ := update name bio active now in
  let! seed := se_lift (ok_or active IdentityLocked_) in
  let pubkey_hex := hex_encode (public_key seed) in
  se_modify (λ n, publish_profile t_build t_put pubkey_hex (build_dht_profile pubkey_hex name bio (social n)) active n).

Definition get_with_dht (t_get : N) (pubkey_hex : str) (n : ProfileNode) : result ProfileFailure ProfileAnswer :=
  let? local := get pubkey_hex (social n) in
  if bool_decide (is_Some (pv_display_name local)) then Ok (Row local)
  else
    let? r := map_err ProfileDht (lookup_profile t_get pubkey_hex (dht_records n)) in
    Ok match r with Some v => Document v | None => Row local end.

(** The names of a document of the DHT, when it has one of the two. *)
Definition profile_names (v : value) : option (option str * option str) :=
  match get_str "display_name" v, get_str "bio" v with
  | None, None => None
  | name, bio => Some (name, bio)
  end.

Definition fetch_and_store_remote_profile (t_get now : N) (pubkey_hex : str) (n : ProfileNode) : ProfileNode :=
  match lookup_profile t_get pubkey_hex (dht_records n) with
  | Ok (Some v) =>
      match profile_names v, hex_decode pubkey_hex with
      | Some (name, bio), Some pk => with_social (upsert_remote (as_i64 now) pk name bio (social n)) n
      | _, _ => n
      end
  | _ => n
  end.

Definition store_profile_from_dht (now : N) (pubkey_hex : str) (v : value) (n : ProfileNode) : ProfileNode :=
  match profile_names v, decode_key pubkey_hex with
  | Some (name, bio), Some pk => with_social (upsert_remote (as_i64 now) pk name bio (social n)) n
  | _, _ => n
  end.

(** [asked] is what [query_network_dht_fresh] answers. *)
Definition get_with_network_dht (t_get now : N) (pubkey_hex : str) (asked : result string (option value)) : SE ProfileNode ProfileFailure ProfileAnswer := λ n,
  match get pubkey_hex (social n) with
  | Err e => (n, Err e)
  | Ok local =>
      match asked with
      | Err e => (n, Err (Query e))
      | Ok (Some v) => (store_profile_from_dht now pubkey_hex v n, Ok (Document v))
      | Ok None =>
          (n, let? r := map_err ProfileDht (lookup_profile t_get pubkey_hex (dht_records n)) in
              Ok match r with Some v => Document v | None => Row local end)
      end
  end.

Record MyProfile := MkMine {
  my_pubkey : str; my_display_name : option str; my_handle_name : option str; my_bio : option str;
  my_avatar_url : option str; my_node_id : str; my_created_at : Z; my_post_count : N
}.
Definition get_mine (active : option bytes) (registry : HandleRegistry) (now : N) (d : SocialDb) : result ProfileFailure MyProfile :=
  let? seed := ok_or active IdentityLocked_ in
  let pubkey := public_key seed in
  let p := profiles d !! pubkey in
  let handle := h ← lookup_by_owner registry pubkey; if is_expired_at h now then None else Some (lit "@" ++ name h) in
  Ok (MkMine (hex_encode pubkey) (p ← p; pr_display_name p) handle (p ← p; pr_bio p) (p ← p; avatar_url p)
    (hex_encode pubkey) (default 0%Z (pr_updated_at <$> p))
    (N.of_nat (count_where (λ _ s, bool_decide (r_author_pubkey (row s) = pubkey) && negb (is_tombstone s)) (posts (Feeds.store d))))).

(** What [MediaPipeline::process_auto] makes of the data. *)
Inductive ProcessedContent := Image (content_hash standard thumbnail : bytes) | Video.
(** [put] is [ContentStore::put]; the blobs stay when the identity is locked. *)
Definition update_avatar {B} (put : bytes → SE B string unit) (processed : result string ProcessedContent) (active : option bytes) (now : N) :
    SE (B * SocialDb) ProfileFailure str := λ st,
  match processed with
  | Err e => (st, Err (AvatarProcessing e))
  | Ok Video => (st, Err AvatarIsVideo)
  | Ok (Image content_hash standard thumbnail) =>
      let '(b1, r1) := put standard st.1 in
      match r1 with
      | Err e => ((b1, st.2), Err (AvatarStore e))
      | Ok _ =>
          let '(b2, r2) := put thumbnail b1 in
          match r2, active with
          | Err e, _ => ((b2, st.2), Err (AvatarStore e))
          | Ok _, None => ((b2, st.2), Err IdentityLocked_)
          | Ok _, Some seed =>
              ((b2, upsert_avatar (as_i64 now) (public_key seed) content_hash (sign seed (bstr "profile-update-avatar")) st.2),
               Ok (lit "/media/" ++ hex_encode content_hash))
          end
      end
  end.

(* ------------------------------------------------------------------ *)
(** ** Connections as the node shows them *)

Record ConnectionView := MkConnView {
  cv_pseudonym_id : str; cv_display_name : option str; cv_avatar_url : option str; cv_initiator : str; cv_responder : str;
  cv_status : string; cv_created_at : N; cv_updated_at : N; cv_since : N; cv_message : option str
}.
Definition status_view (s : ConnectionStatus) : string :=
  match s with PendingOutgoing => "pending_outgoing" | PendingIncoming => "pending_incoming" | Active => "connected" | Blocked => "blocked" end.
Definition connection_to_json (c : Connection) (local : option bytes) (d : option SocialDb) : ConnectionView :=
  let initiator_hex := hex_encode (initiator c) in
  let responder_hex := hex_encode (responder c) in
  let pseudonym_id := match local with
                      | Some l => if bool_decide (initiator c = l) then responder_hex else initiator_hex
                      | None => responder_hex
                      end in
  let p := d ← d; pk ← hex_decode pseudonym_id; profiles d !! pk in
  MkConnView pseudonym_id (p ← p; pr_display_name p) (p ← p; avatar_url p) initiator_hex responder_hex (status_view (status c))
    (created_at c) (updated_at c) (created_at c) (message c).

Definition status_filter (status : string) : option ConnectionStatus :=
  if bool_decide (status = "pending_outgoing"%string) then Some PendingOutgoing
  else if bool_decide (status = "pending_incoming"%string) then Some PendingIncoming
  else if bool_decide (status = "connected"%string) || bool_decide (status = "active"%string) then Some Active
  else if bool_decide (status = "blocked"%string) then Some Blocked
  else None.
Definition social_list_connections (status : string) (active : option bytes) (d : SocialDb) : result ProfileFailure (list ConnectionView) :=
  let? seed := ok_or active IdentityLocked_ in
  let local := public_key seed in
  Ok ((λ c, connection_to_json c (Some local) (Some d)) <$> list_connections local (status_filter status) (meta d)).

(* ------------------------------------------------------------------ *)
(** ** The refresh every thirty minutes, and publishing again *)

(** One connection of [profile_refresh_loop]. *)
Definition refresh_one (t_get now : N) (local : bytes) (n : ProfileNode) (c : Connection) : ProfileNode :=
  let remote := remote_party local c in
  match lookup_profile t_get (hex_encode remote) (dht_records n) with
  | Ok (Some v) =>
      match profile_names v with
      | Some (name, bio) => with_social (upsert_remote (as_i64 now) remote name bio (social n)) n
      | None => n
      end
  | _ => n
  end.
Definition profile_refresh_tick (t_get now : N) (active : option bytes) (n : ProfileNode) : ProfileNode :=
  match active with
  | None => n
  | Some seed =>
      let local := public_key seed in
      foldl (refresh_one t_get now local) n (list_connections local (Some Active) (meta (social n)))
  end.

(** The profile part of [republish_own_records]. *)
Definition republish_profile (t_build t_put : N) (active : option bytes) (n : ProfileNode) : ProfileNode :=
  match active with
  | None => n
  | Some seed =>
      match profiles (social n) !! public_key seed with
      | None => n
      | Some p =>
          let pubkey_hex := hex_encode (public_key seed) in
          publish_profile t_build t_put pubkey_hex
            ([("pubkey"%string, FStr pubkey_hex); ("display_name"%string, FOptStr (pr_display_name p)); ("bio"%string, FOptStr (pr_bio p))] ++
             match pr_avatar_cid p with Some cid => [("avatar_cid"%string, FStr (hex_encode cid))] | None => [] end) active n
      end
  end.

(* ------------------------------------------------------------------ *)
(** ** Invites ([invite.rs]) *)

Definition INVITE_PREFIX : str := lit "ephemera://connect/".
Inductive InviteError := NoInvitePrefix | InviteHex | InviteKeyLength (len : nat) | QrJson (e : string) | QrHex | QrKeyLength (len : nat).

Definition generate_invite_link (identity : bytes) : str := INVITE_PREFIX ++ hex_encode identity.
Fixpoint strip_prefix (prefix s : str) : option str :=
  match prefix, s with
  | [], _ => Some s
  | c :: prefix, c' :: s => if (c =? c')%N then strip_prefix prefix s else None
  | _ :: _, [] => None
  end.
Definition parse_invite_link (link : str) : result InviteError bytes :=
  let? pubkey_hex := ok_or (strip_prefix INVITE_PREFIX link) NoInvitePrefix in
  let? pubkey_bytes := ok_or (hex_decode pubkey_hex) InviteHex in
  if Nat.eqb (length pubkey_bytes) 32 then Ok pubkey_bytes else Err (InviteKeyLength (length pubkey_bytes)).

Record QrPayload := MkQr { qr_pubkey : str; qr_nonce : str }.
(** [to_string] and [from_str] are [serde_json]'s for [QrPayload]. *)
Definition generate_qr_payload (to_string : QrPayload → str) (identity nonce_bytes : bytes) : str :=
  to_string (MkQr (hex_encode identity) (hex_encode nonce_bytes)).
Definition parse_qr_payload (from_str : str → result string QrPayload) (json : str) : result InviteError bytes :=
  let? payload := map_err QrJson (from_str json) in
  let? pubkey_bytes := ok_or (hex_decode (qr_pubkey payload)) QrHex in
  if Nat.eqb (length pubkey_bytes) 32 then Ok pubkey_bytes else Err (QrKeyLength (length pubkey_bytes)).
End profiles.

(* ------------------------------------------------------------------ *)
(** ** Lemmas: rows *)

(** The names a row shows. *)
Definition names (pk : bytes) (d : SocialDb) : option str * option str :=
  (p ← profiles d !! pk; pr_display_name p, p ← profiles d !! pk; pr_bio p).
(** Names in place of others, where there are some. *)
Definition renamed (new old : option str * option str) : option str * option str := (coalesce new.1 old.1, coalesce new.2 old.2).

Lemma renamed_idem new old : renamed new (renamed new old) = renamed new old.
Proof. by destruct new as [[?|] [?|]]. Qed.

Lemma upsert_remote_names now pk nm b d k :
  names k (upsert_remote now pk nm b d) = if decide (k = pk) then renamed (nm, b) (names k d) else names k d.
Proof.
  unfold names, upsert_remote. cbn [profiles with_profiles]. case_decide as Hk; [subst; by rewrite lookup_insert_eq|].
  by rewrite lookup_insert_ne.
Qed.
Lemma upsert_own_names now pk nm b sig d k :
  names k (upsert_own now pk nm b sig d) = if decide (k = pk) then renamed (nm, b) (names k d) else names k d.
Proof.
  unfold names, upsert_own. cbn [profiles with_profiles]. case_decide as Hk; [subst; by rewrite lookup_insert_eq|].
  by rewrite lookup_insert_ne.
Qed.

Section laws.
Context `{Primitives, Hex, DhtJson, !HexLaws, !JsonLaws, !DhtJsonLaws}.

(** The names of a document; of none, none. *)
Definition doc_names (r : result DhtFailure (option value)) : option str * option str :=
  match r with Ok (Some v) => (get_str "display_name" v, get_str "bio" v) | _ => (None, None) end.

Lemma get_names pubkey_hex pk d : hex_decode pubkey_hex = Some pk →
  get pubkey_hex d = Ok (MkView pubkey_hex (names pk d).1 (names pk d).2).
Proof. intros Hpk. unfold get. by rewrite Hpk. Qed.

Lemma refresh_one_dht t now l n c : dht_records (refresh_one t now l n c) = dht_records n.
Proof. unfold refresh_one. by repeat case_match. Qed.

Lemma refresh_one_names t now l n c pk :
  names pk (social (refresh_one t now l n c)) =
  if decide (pk = remote_party l c) then renamed (doc_names (lookup_profile t (hex_encode pk) (dht_records n))) (names pk (social n))
  else names pk (social n).
Proof.
  unfold refresh_one. destruct (lookup_profile t _ _) as [[v|]|] eqn:El; cycle 1.
  1, 2: case_decide; [subst; by rewrite El|done].
  unfold profile_names. destruct (decide (pk = remote_party l c)) as [->|Hne].
  - rewrite El. cbn [doc_names]. destruct (get_str "display_name" v), (get_str "bio" v); [..|by destruct (names _ _)];
      cbn [social with_social]; by rewrite upsert_remote_names, decide_True.
  - destruct (get_str "display_name" v), (get_str "bio" v); [..|done]; cbn [social with_social]; by rewrite upsert_remote_names, decide_False.
Qed.

(** A refresh renames exactly the connected peers that have a document. *)
Lemma refresh_names t now l cs n pk :
  let n' := foldl (refresh_one t now l) n cs in
  dht_records n' = dht_records n ∧
  names pk (social n') =
  if decide (pk ∈ remote_party l <$> cs) then renamed (doc_names (lookup_profile t (hex_encode pk) (dht_records n))) (names pk (social n))
  else names pk (social n).
Proof.
  cbv zeta. revert n; induction cs as [|c cs IH]; intros n; [done|]. cbn [foldl fmap list_fmap].
  destruct (IH (refresh_one t now l n c)) as [-> ->]. rewrite refresh_one_dht, refresh_one_names. split; [done|].
  destruct (decide (pk = remote_party l c)) as [->|Hne].
  - rewrite (decide_True (P := _ ∈ _ :: _)) by constructor. case_decide; [apply renamed_idem|done].
  - destruct (decide (pk ∈ remote_party l <$> cs)); [rewrite decide_True by by constructor|rewrite decide_False by (rewrite elem_of_cons; tauto)]; done.
Qed.

(** What publishing a profile leaves in the store. *)
Lemma publish_profile_lookup tb tp hex profile seed n :
  NoDup profile.*1 → (store_profile tb tp hex profile (Some seed) (dht_records n)).2 = Ok tt →
  ∀ t, (t ≤ add64 tb DEFAULT_TTL_SECONDS)%N → ∃ v,
    lookup_profile t hex (dht_records (publish_profile tb tp hex profile (Some seed) n)) = Ok (Some v) ∧
    (∀ k, get_str k v = str_field k profile) ∧
    ∃ r, Storage.get t (dht_key "profile" hex) (dht_records (publish_profile tb tp hex profile (Some seed) n)) = Some r ∧
      Storage.publisher r = public_key seed ∧ Storage.signature r = sign seed (dht_key "profile" hex ++ Storage.value r).
Proof.
  intros Hnd Hroom t Ht. unfold publish_profile. cbn [dht_records with_dht_records].
  destruct (store_profile _ _ _ _ _ _) as [s x] eqn:Es. cbn [snd fst] in *. subst x.
  destruct (dht_store_lookup tb tp t seed hex profile _ s Hnd Es) as [Hl _].
  rewrite (proj2 (N.ltb_ge _ _)) in Hl by done. destruct Hl as (v & r & Hl & Hs & _ & Hg & Hp & Hsig).
  exists v. split_and!; [done..|]. by exists r.
Qed.

Lemma build_dht_profile_nodup hex nm b d : NoDup (build_dht_profile hex nm b d).*1.
Proof. unfold build_dht_profile. case_match; repeat constructor; set_solver. Qed.
Lemma build_dht_profile_names hex nm b d :
  str_field "display_name" (build_dht_profile hex nm b d) = nm ∧ str_field "bio" (build_dht_profile hex nm b d) = b.
Proof. by unfold build_dht_profile. Qed.

Lemma published_names tb tp hex seed nm b d n t :
  (store_profile tb tp hex (build_dht_profile hex nm b d) (Some seed) (dht_records n)).2 = Ok tt → (t ≤ add64 tb DEFAULT_TTL_SECONDS)%N →
  doc_names (lookup_profile t hex (dht_records (publish_profile tb tp hex (build_dht_profile hex nm b d) (Some seed) n))) = (nm, b).
Proof.
  intros Hroom Ht. destruct (publish_profile_lookup tb tp _ _ seed n (build_dht_profile_nodup _ nm b d) Hroom t Ht) as (v & Hv & Hs & _).
  rewrite Hv. cbn [doc_names]. rewrite !Hs. by destruct (build_dht_profile_names hex nm b d) as [-> ->].
Qed.

(** A successful update: our names, and what it publishes. *)
Lemma update_and_publish_ok nm b active now tb tp n n' : update_and_publish nm b active now tb tp n = (n', Ok tt) →
  ∃ seed d, active = Some seed ∧ d = upsert_own (as_i64 now) (public_key seed) nm b (sign seed (bstr "profile-update")) (social n) ∧
    n' = publish_profile tb tp (hex_encode (public_key seed)) (build_dht_profile (hex_encode (public_key seed)) nm b d) active (with_social d n).
Proof.
  unfold update_and_publish, update, se_bind, se_lift, se_modify. destruct (validate_update _); [|done]. cbn [map_err].
  destruct active as [seed|]; [|done]. cbn [ok_or]. intros [= <-]. by eexists _, _.
Qed.

Definition own_hex (seed : bytes) : str := hex_encode (public_key seed).
Definition own_key_ok (seed : bytes) : Prop := hex_decode (own_hex seed) = Some (public_key seed) ∧ length (public_key seed) = 32.

(** The republishing task publishes the row. *)
Lemma republish_eq seed tb tp n : own_key_ok seed → is_Some (profiles (social n) !! public_key seed) →
  republish_profile tb tp (Some seed) n = publish_profile tb tp (own_hex seed)
    (build_dht_profile (own_hex seed) (names (public_key seed) (social n)).1 (names (public_key seed) (social n)).2 (social n)) (Some seed) n.
Proof.
  intros [Hk _] [p Hp]. unfold republish_profile, build_dht_profile, names. rewrite Hp, Hk. cbn [mbind option_bind]. by rewrite Hp.
Qed.

(** C31. A profile reaches the people it is for: once its owner has updated and
    published it, the owner and every node that has an active connection to
    the owner and the document in its store show the new names after that
    node's next refresh, each name that the update left out being what it was
    there before; nobody the node is not connected to is renamed. *)
Theorem profile_reaches_peers (seed : bytes) (nm b : option str) (now tb tp : N) (a a' : ProfileNode)
    (Hkey : own_key_ok seed) (Hupdate : update_and_publish nm b (Some seed) now tb tp a = (a', Ok tt))
    (Hroom : (store_profile tb tp (own_hex seed) (build_dht_profile (own_hex seed) nm b (social a')) (Some seed) (dht_records a)).2 = Ok tt) :
  names (public_key seed) (social a') = renamed (nm, b) (names (public_key seed) (social a)) ∧
  ∀ t, (t ≤ add64 tb DEFAULT_TTL_SECONDS)%N → ∃ v, lookup_profile t (own_hex seed) (dht_records a') = Ok (Some v) ∧
  ∀ seed2 t2 now2 n, lookup_profile t2 (own_hex seed) (dht_records n) = Ok (Some v) →
    let local := public_key seed2 in
    let peers := remote_party local <$> list_connections local (Some Active) (meta (social n)) in
    let n' := profile_refresh_tick t2 now2 (Some seed2) n in
    (public_key seed ∈ peers →
      let shown := renamed (nm, b) (names (public_key seed) (social n)) in
      get (own_hex seed) (social n') = Ok (MkView (own_hex seed) shown.1 shown.2)) ∧
    ∀ pk, pk ∉ peers → names pk (social n') = names pk (social n).
Proof.
  destruct (update_and_publish_ok _ _ _ _ _ _ _ _ Hupdate) as (sd & d & [= <-] & Hd & Ha'). fold (own_hex seed) in Ha'.
  assert (Hsoc : social a' = d) by (rewrite Ha'; done). split.
  { rewrite Hsoc, Hd, upsert_own_names, decide_True by done. done. }
  rewrite Hsoc in Hroom. intros t Ht.
  destruct (publish_profile_lookup tb tp _ _ seed (with_social d a) (build_dht_profile_nodup _ nm b d) Hroom t Ht) as (v & Hv & Hs & _).
  exists v. rewrite Ha'. split; [exact Hv|]. intros seed2 t2 now2 n Hn local peers n'.
  pose proof (λ pk, refresh_names t2 now2 local (list_connections local (Some Active) (meta (social n))) n pk) as Hf.
  cbv zeta in Hf. change (foldl _ _ _) with n' in Hf. split.
  - intros Hin. destruct (Hf (public_key seed)) as [_ Hnm]. rewrite decide_True in Hnm by done.
    fold (own_hex seed) in Hnm. rewrite Hn in Hnm. cbn [doc_names] in Hnm. rewrite !Hs in Hnm.
    destruct (build_dht_profile_names (own_hex seed) nm b d) as [E1 E2]. rewrite E1, E2 in Hnm.
    rewrite (get_names _ (public_key seed)), Hnm by apply Hkey. done.
  - intros pk Hpk. destruct (Hf pk) as [_ Hnm]. by rewrite decide_False in Hnm.
Qed.

(** What an update leaves in the DHT is the call, not the profile: a name
    that the call leaves out is null in the published document, though the
    owner still has it, until the republishing task writes the whole row. *)
Theorem partial_update_published (seed : bytes) (nm b : option str) (now tb tp tb2 tp2 : N) (a a' : ProfileNode)
    (Hkey : own_key_ok seed) (Hupdate : update_and_publish nm b (Some seed) now tb tp a = (a', Ok tt))
    (Hroom : (store_profile tb tp (own_hex seed) (build_dht_profile (own_hex seed) nm b (social a')) (Some seed) (dht_records a)).2 = Ok tt)
    (Hroom2 : (store_profile tb2 tp2 (own_hex seed) (build_dht_profile (own_hex seed) (names (public_key seed) (social a')).1
                 (names (public_key seed) (social a')).2 (social a')) (Some seed) (dht_records a')).2 = Ok tt) :
  (∀ t, (t ≤ add64 tb DEFAULT_TTL_SECONDS)%N → doc_names (lookup_profile t (own_hex seed) (dht_records a')) = (nm, b)) ∧
  ∀ t, (t ≤ add64 tb2 DEFAULT_TTL_SECONDS)%N →
    doc_names (lookup_profile t (own_hex seed) (dht_records (republish_profile tb2 tp2 (Some seed) a'))) =
    renamed (nm, b) (names (public_key seed) (social a)).
Proof.
  destruct (update_and_publish_ok _ _ _ _ _ _ _ _ Hupdate) as (sd & d & [= <-] & Hd & Ha'). fold (own_hex seed) in Ha'.
  assert (Hsoc : social a' = d) by (rewrite Ha'; done). rewrite Hsoc in Hroom, Hroom2. split; intros t Ht.
  - rewrite Ha'. by apply published_names.
  - assert (Hnames : names (public_key seed) d = renamed (nm, b) (names (public_key seed) (social a)))
      by (rewrite Hd, upsert_own_names, decide_True by done; done).
    rewrite republish_eq; [|done|rewrite Hsoc, Hd; cbn; by rewrite lookup_insert_eq].
    rewrite Hsoc, published_names by done. rewrite <- Hnames. by destruct (names _ d).
Qed.

(** Nothing protects a profile, our own included: whoever answers first
    when a client asks the network for our profile rewrites our row, with
    names of any length, and the republishing task then publishes that row,
    signed with our key, as our profile. *)
Theorem own_profile_forged (seed : bytes) (v : value) (forged : option str * option str) (t_get now tb tp : N) (n : ProfileNode)
    (Hkey : own_key_ok seed) (Hv : profile_names v = Some forged) :
  let '(n1, answer) := get_with_network_dht t_get now (own_hex seed) (Ok (Some v)) n in
  let shown := renamed forged (names (public_key seed) (social n)) in
  answer = Ok (Document v) ∧ get (own_hex seed) (social n1) = Ok (MkView (own_hex seed) shown.1 shown.2) ∧
  (profiles (social n1) !! public_key seed) ≫= (λ p, Some (pr_signature p)) = Some (replicate 64 0%N) ∧
  ((store_profile tb tp (own_hex seed) (build_dht_profile (own_hex seed) shown.1 shown.2 (social n1)) (Some seed) (dht_records n)).2 = Ok tt →
   ∀ t, (t ≤ add64 tb DEFAULT_TTL_SECONDS)%N →
     doc_names (lookup_profile t (own_hex seed) (dht_records (republish_profile tb tp (Some seed) n1))) = shown ∧
     ∃ r, Storage.get t (dht_key "profile" (own_hex seed)) (dht_records (republish_profile tb tp (Some seed) n1)) = Some r ∧
       Storage.publisher r = public_key seed ∧ Storage.signature r = sign seed (dht_key "profile" (own_hex seed) ++ Storage.value r)).
Proof.
  destruct Hkey as [Hk Hl]. unfold get_with_network_dht. rewrite (get_names _ _ _ Hk).
  unfold store_profile_from_dht, decode_key. rewrite Hv, Hk. cbn [mbind option_bind]. rewrite Hl, Nat.eqb_refl. destruct forged as [nm b].
  set (n1 := with_social _ n). set (shown := renamed _ _).
  assert (Hn1 : names (public_key seed) (social n1) = shown) by (unfold n1; cbn [social with_social]; by rewrite upsert_remote_names, decide_True).
  split; [done|]. split; [by rewrite (get_names _ _ _ Hk), Hn1|]. split; [cbn; by rewrite lookup_insert_eq|].
  intros Hroom t Ht. rewrite republish_eq; [|done|cbn; by rewrite lookup_insert_eq]. rewrite Hn1. split.
  - rewrite published_names by done. by destruct shown.
  - destruct (publish_profile_lookup tb tp (own_hex seed) _ seed n1 (build_dht_profile_nodup _ shown.1 shown.2 (social n1)) Hroom t Ht) as (_ & _ & _ & Hr).
    exact Hr.
Qed.

(* ------------------------------------------------------------------ *)
(** ** Invites *)

Lemma strip_prefix_app p s : strip_prefix p (p ++ s) = Some s.
Proof. induction p as [|c p IH]; [done|]. cbn. by rewrite N.eqb_refl. Qed.
Lemma strip_prefix_Some p s r : strip_prefix p s = Some r ↔ s = p ++ r.
Proof.
  split; [|intros ->; apply strip_prefix_app]. revert s; induction p as [|c p IH]; intros [|c' s]; cbn; try congruence.
  destruct (N.eqb_spec c c') as [->|]; [|done]. intros Hs. by rewrite (IH s Hs).
Qed.

(** Invites carry the key: a link and a QR payload give back the identity
    they were made for, and the only links that are taken are the prefix
    followed by thirty-two bytes of hexadecimal. *)
Theorem invites_roundtrip (to_string : QrPayload → str) (from_str : str → result string QrPayload) (identity nonce : bytes) (link : str) (k : bytes)
    (Hqr : ∀ p, from_str (to_string p) = Ok p) (Hb : Forall byte_ok identity) (Hl : length identity = 32) :
  parse_invite_link (generate_invite_link identity) = Ok identity ∧
  parse_qr_payload from_str (generate_qr_payload to_string identity nonce) = Ok identity ∧
  (parse_invite_link link = Ok k ↔ ∃ s, link = INVITE_PREFIX ++ s ∧ hex_decode s = Some k ∧ length k = 32).
Proof.
  unfold parse_invite_link, generate_invite_link, parse_qr_payload, generate_qr_payload. split_and!.
  - rewrite strip_prefix_app. cbn [ok_or result_bind]. rewrite hex_decode_encode by done. cbn [ok_or result_bind]. by rewrite Hl.
  - rewrite Hqr. cbn [map_err result_bind qr_pubkey]. rewrite hex_decode_encode by done. cbn [ok_or result_bind]. by rewrite Hl.
  - split.
    + destruct (strip_prefix INVITE_PREFIX link) as [s|] eqn:Es; [|done]. apply strip_prefix_Some in Es as ->. cbn [ok_or result_bind].
      destruct (hex_decode s) as [k'|] eqn:Ek; [|done]. cbn [ok_or result_bind]. destruct (Nat.eqb_spec (length k') 32); [|done].
      intros [= <-]. by exists s.
    + intros (s & -> & Hs & Hk). rewrite strip_prefix_app. cbn [ok_or result_bind]. rewrite Hs. cbn [ok_or result_bind]. by rewrite Hk.
Qed.
End laws.

(* ------------------------------------------------------------------ *)
(** ** Witnesses *)

Section witnesses.
Import Toy HexToy DhtJsonToy.
#[local] Existing Instance toy.

Definition pw_a : bytes := replicate 32 1%N.
Definition pw_b : bytes := replicate 32 2%N.
Definition pw_db (conns : gmap (bytes * bytes) ConnRow) (p : gmap bytes ProfileRow) : SocialDb :=
  MkSocial (MkDb conns ∅ ∅ ∅ ∅ ∅ ∅) (MkStoreDb ∅ ∅ ∅ ∅ ∅) ∅ ∅ ∅ ∅ ∅ ∅ p.
Definition pw_old : ProfileRow := MkProfile (Some (lit "A")) (Some (lit "fox")) None 5 [] 5.
Definition pw_node_a : ProfileNode := MkProfileNode (pw_db ∅ {[ pw_a := pw_old ]}) (Storage.new 10 8192).
Definition pw_update := update_and_publish (Some (lit "Al")) None (Some pw_a) 100 100 100 pw_node_a.
Definition pw_after : ProfileNode := pw_update.1.
Definition pw_node_b : ProfileNode :=
  MkProfileNode (pw_db {[ (pw_b, pw_a) := MkConn "connected" 1 1 None None ]} ∅) (dht_records pw_after).

Lemma pw_key : own_key_ok pw_a.
Proof. split; vm_compute; reflexivity. Qed.
Lemma pw_update_ok : pw_update = (pw_after, Ok tt).
Proof. reflexivity. Qed.
Lemma pw_room tb tp nm b d s : (store_profile tb tp (own_hex pw_a) (build_dht_profile (own_hex pw_a) nm b d) (Some pw_a) s).2 = Ok tt ↔
  (put tb tp (dht_key "profile" (own_hex pw_a)) (to_vec (inl (build_dht_profile (own_hex pw_a) nm b d, []))) DEFAULT_TTL_SECONDS Storage.Profile (Some pw_a) s).2 = Ok tt.
Proof. done. Qed.
Lemma pw_room_a : (store_profile 100 100 (own_hex pw_a) (build_dht_profile (own_hex pw_a) (Some (lit "Al")) None (social pw_after)) (Some pw_a) (dht_records pw_node_a)).2 = Ok tt.
Proof. apply pw_room, put_accepts; [by apply N.leb_le|done|by apply N.leb_le|]. right. by apply N.ltb_lt. Qed.
Lemma pw_again nm b d : (store_profile 200 200 (own_hex pw_a) (build_dht_profile (own_hex pw_a) nm b d) (Some pw_a) (dht_records pw_after)).2 = Ok tt.
Proof. apply pw_room, put_accepts; [by apply N.leb_le|done|by apply N.leb_le|]. right. by apply N.ltb_lt. Qed.

Lemma profile_reaches_peers_witness :
  get (own_hex pw_a) (social (profile_refresh_tick 150 150 (Some pw_b) pw_node_b)) = Ok (MkView (own_hex pw_a) (Some (lit "Al")) None).
Proof.
  destruct (profile_reaches_peers pw_a (Some (lit "Al")) None 100 100 100 pw_node_a pw_after pw_key pw_update_ok pw_room_a) as [_ Hreach].
  destruct (Hreach 150%N ltac:(by apply N.leb_le)) as (v & Hv & Hpeer).
  destruct (Hpeer pw_b 150%N 150%N pw_node_b Hv) as [Hshown _]. etrans; [apply Hshown|reflexivity].
  assert (Hp : remote_party (public_key pw_b) <$> list_connections (public_key pw_b) (Some Active) (meta (social pw_node_b)) = [public_key pw_a])
    by (vm_compute; reflexivity).
  rewrite Hp. by constructor.
Defined.

Lemma partial_update_published_witness :
  doc_names (lookup_profile 150 (own_hex pw_a) (dht_records pw_after)) = (Some (lit "Al"), None) ∧
  doc_names (lookup_profile 250 (own_hex pw_a) (dht_records (republish_profile 200 200 (Some pw_a) pw_after))) = (Some (lit "Al"), Some (lit "fox")).
Proof.
  destruct (partial_update_published pw_a (Some (lit "Al")) None 100 100 100 200 200 pw_node_a pw_after pw_key pw_update_ok pw_room_a (pw_again _ _ _)) as [H1 H2].
  split; [apply H1; by apply N.leb_le|apply H2; by apply N.leb_le].
Defined.

Definition pw_lie : Ingest.value := ([("display_name"%string, FStr (lit "Eve"))], []).

Lemma own_profile_forged_witness : ∃ n1, get_with_network_dht 150 150 (own_hex pw_a) (Ok (Some pw_lie)) pw_after = (n1, Ok (Document pw_lie)) ∧
  doc_names (lookup_profile 250 (own_hex pw_a) (dht_records (republish_profile 200 200 (Some pw_a) n1))) = (Some (lit "Eve"), Some (lit "fox")).
Proof.
  pose proof (own_profile_forged pw_a pw_lie (Some (lit "Eve"), None) 150 150 200 200 pw_after pw_key eq_refl) as Hf.
  destruct (get_with_network_dht 150 150 (own_hex pw_a) (Ok (Some pw_lie)) pw_after) as [n1 answer] eqn:En. destruct Hf as (-> & _ & _ & Hf).
  exists n1. split; [done|]. destruct (Hf (pw_again _ _ _) 250%N) as [Hd _]; [by apply N.leb_le|]. rewrite Hd. reflexivity.
Defined.

Definition pw_to_string (p : QrPayload) : str := N.of_nat (length (qr_pubkey p)) :: qr_pubkey p ++ qr_nonce p.
Definition pw_from_str (s : str) : result string QrPayload :=
  match s with
  | n :: s => Ok (MkQr (take (N.to_nat n) s) (drop (N.to_nat n) s))
  | [] => Err "EOF while parsing a value"%string
  end.
Lemma pw_qr p : pw_from_str (pw_to_string p) = Ok p.
Proof. destruct p as [k n]. unfold pw_from_str, pw_to_string. by rewrite Nat2N.id, take_app_length, drop_app_length. Qed.

Lemma invites_roundtrip_witness :
  parse_invite_link (generate_invite_link pw_a) = Ok pw_a ∧
  parse_qr_payload pw_from_str (generate_qr_payload pw_to_string pw_a [1%N]) = Ok pw_a.
Proof.
  destruct (invites_roundtrip pw_to_string pw_from_str pw_a [1%N] [] [] pw_qr) as (H1 & H2 & _).
  - repeat (constructor; [unfold byte_ok; lia|]). constructor.
  - reflexivity.
  - by split.
Defined.
End witnesses.
