(* ===== verification/Notifications.v ===== *)
(** * Notifications: [crates/ephemera-node/src/services/notifications.rs]

    The notification centre over its table ([schema_v10] of
    [crates/ephemera-store/src/metadata.rs]), keyed by the id.  The time and
    the random part of an id are arguments. *)
From S2P Require Import Prelude Types Crypto Unicode Tables Listing.
From stdpp Require Import pretty.

Record NotificationRow := MkNotification {
  nt_type : str;
  nt_from_pubkey : option bytes;
  nt_display_name : option str;
  nt_preview : option str;
  nt_post_hash : option bytes;
  nt_is_read : Z;
  nt_created_at : Z
}.
Abbreviation Notifications := (gmap str NotificationRow).

Definition set_read (r : NotificationRow) : NotificationRow :=
  MkNotification (nt_type r) (nt_from_pubkey r) (nt_display_name r) (nt_preview r) (nt_post_hash r) 1 (nt_created_at r).
Definition is_unread (_ : str) (r : NotificationRow) : bool := (nt_is_read r =? 0)%Z.

(** A notification as it is listed. *)
Record NotificationView := MkNotificationView {
  nv_id : str; nv_type : str; nv_from_pubkey : option str; nv_display_name : option str; nv_preview : option str;
  nv_post_hash : option str; nv_is_read : bool; nv_created_at : Z
}.

Section notifications.
Context `{Primitives, Hex}.

Definition notification_id (notification_type : str) (now : Z) (random : N) : str :=
  hex_encode (take 16 (blake3_hash (as_bytes (notification_type ++ lit ":" ++ lit (pretty now) ++ lit ":" ++ lit (pretty random))))).

(** The id is the answer whether or not the row was ignored. *)
Definition insert (now random : N) (notification_type : str) (from_pubkey : option bytes) (display_name preview : option str)
    (post_hash : option bytes) (t : Notifications) : Notifications * str :=
  let id := notification_id notification_type (as_i64 now) random in
  (insert_or_ignore id (MkNotification notification_type from_pubkey display_name preview post_hash 0 (as_i64 now)) t, id).

Definition notification_view (kr : str * NotificationRow) : NotificationView :=
  let r := kr.2 in
  MkNotificationView kr.1 (nt_type r) (hex_encode <$> nt_from_pubkey r) (nt_display_name r) (nt_preview r) (hex_encode <$> nt_post_hash r)
    (negb (nt_is_read r =? 0)%Z) (nt_created_at r).
Definition unread_rows (t : Notifications) : list (str * NotificationRow) := select_where is_unread t.
Definition list_unread (limit : N) (t : Notifications) : list NotificationView :=
  notification_view <$> sql_limit limit (newest_first (λ kr, nt_created_at kr.2) (unread_rows t)).
Definition count_unread (t : Notifications) : nat := count_where is_unread t.

(** Whether a row has the id, read or not. *)
Definition mark_read (notification_id : str) (t : Notifications) : Notifications * bool :=
  (update_where (λ k _, bool_decide (k = notification_id)) set_read t, 0 <? count_where (λ k _, bool_decide (k = notification_id)) t).
Definition mark_all_read (t : Notifications) : Notifications * nat := (update_where is_unread set_read t, count_where is_unread t).
End notifications.

(** The ids that wait to be read. *)
Definition unread (t : Notifications) : gset str := dom (rows_where is_unread t).

Lemma elem_of_unread t id : id ∈ unread t ↔ ∃ r, t !! id = Some r ∧ nt_is_read r = 0%Z.
Proof.
  unfold unread. rewrite elem_of_dom. unfold is_Some. setoid_rewrite lookup_rows_where. unfold is_unread.
  by setoid_rewrite Z.eqb_eq.
Qed.

Section center.
Context `{Primitives, Hex}.

(** The notification centre is a set of unread ids: an insert adds its id
    unless a row has it, marking takes out one or all of them, the count is
    the size of the set, and the list shows its rows, newest first, as many as
    there are up to the limit. *)
Theorem notification_center (t : Notifications) :
  (∀ now random ty from nm pv ph, let '(t', id) := insert now random ty from nm pv ph t in
     unread t' = match t !! id with Some _ => unread t | None => unread t ∪ {[id]} end ∧ ∀ k, is_Some (t !! k) → t' !! k = t !! k) ∧
  (∀ id, unread (mark_read id t).1 = unread t ∖ {[id]} ∧ (mark_read id t).2 = bool_decide (is_Some (t !! id))) ∧
  (unread (mark_all_read t).1 = ∅ ∧ (mark_all_read t).2 = size (unread t)) ∧
  count_unread t = size (unread t) ∧
  ∀ limit, ∃ rows, list_unread limit t = notification_view <$> rows ∧
    page (λ kr, nt_created_at kr.2) limit (unread_rows t) rows ∧
    ∀ id r, (id, r) ∈ unread_rows t ↔ t !! id = Some r ∧ id ∈ unread t.
Proof.
  assert (Hcount : count_unread t = size (unread t)) by (unfold count_unread, count_where, unread; by rewrite size_dom).
  split_and!.
  - intros now random ty from nm pv ph. unfold insert. set (id := notification_id _ _ _). set (r := MkNotification _ _ _ _ _ _ _). split.
    + destruct (t !! id) as [r0|] eqn:E; [by rewrite insert_or_ignore_present by done|]. rewrite insert_or_ignore_fresh by done.
      apply set_eq. intros k. rewrite elem_of_union, !elem_of_unread, elem_of_singleton. split.
      * intros (r' & [[<- <-]|[_ Hr]]%lookup_insert_Some & Hz); [by right|left; by exists r'].
      * intros [(r' & Hr & Hz)| ->]; [|exists r; by rewrite lookup_insert_eq]. exists r'. rewrite lookup_insert_ne; [done|]. intros ->. by rewrite E in Hr.
    + intros k [r0 Hk]. rewrite lookup_insert_or_ignore. case_decide as He; [subst; by rewrite Hk|done].
  - intros id. unfold mark_read. split.
    + apply set_eq. intros k. rewrite elem_of_difference, !elem_of_unread, elem_of_singleton. cbn [fst]. setoid_rewrite lookup_update_where.
      destruct (t !! k) as [r|]; cbn; [|naive_solver]. case_bool_decide as Hk; naive_solver.
    + cbn [snd]. apply eq_true_iff_eq. rewrite bool_decide_eq_true, Nat.ltb_lt, count_where_pos. setoid_rewrite bool_decide_eq_true.
      unfold is_Some. naive_solver.
  - unfold mark_all_read. cbn [fst]. apply set_eq. intros k. rewrite elem_of_unread. setoid_rewrite lookup_update_where.
    destruct (t !! k) as [r|] eqn:E; cbn; [|set_solver]. unfold is_unread. split; [|set_solver]. intros (r' & [= <-] & Hz).
    destruct (Z.eqb_spec (nt_is_read r) 0); done.
  - exact Hcount.
  - exact Hcount.
  - intros limit. eexists. split; [reflexivity|]. split.
    + apply newest_page. apply NoDup_map_to_list.
    + intros id r. unfold unread_rows. rewrite elem_of_select_where, elem_of_unread. unfold is_unread. rewrite Z.eqb_eq. naive_solver.
Qed.
End center.
