(* ===== verification/Keystore.v ===== *)
(** * Keys on disk and on paper: [crates/ephemera-crypto/src]

    The encrypted keystore file ([keystore.rs]), the three export formats of
    the master secret ([export.rs]), the registered devices ([device.rs]),
    pseudonym keys ([keys.rs]) and [identity.rs].  A file is the bytes in it,
    or nothing; random bytes and clock readings are arguments; a key pair is
    its seed. *)
From S2P Require Import Prelude Types Crypto Unicode Bip39.

Record PseudonymEntry := MkEntry { index : N; entry_secret : bytes }.
Record KeystoreContents := MkContents { c_master_secret : bytes; c_node_secret : bytes; c_pseudonym_secrets : list PseudonymEntry }.

Inductive Platform := Desktop | Android | IOS.
Record DeviceInfo := MkDevice {
  device_id : bytes;
  device_name : str;
  platform : Platform;
  dev_created_at : N;
  last_seen_at : N
}.

(** Third parties: [Argon2id] with the parameters of both files,
    [sha2], full Unicode lower case, and the JSON of the two documents. *)
Class KeyFormats := {
  argon2id_into : bytes → bytes → result string bytes;
  sha256 : bytes → bytes;
  to_lowercase : str → str;
  contents_to_vec : KeystoreContents → result string bytes;
  contents_from_slice : bytes → result string KeystoreContents;
  devices_to_vec : list DeviceInfo → result string bytes;
  devices_from_slice : bytes → result string (list DeviceInfo)
}.
Class KeyFormatLaws `{KeyFormats} : Prop := {
  argon2id_total pw salt : length salt = 16 → ∃ k, argon2id_into pw salt = Ok k ∧ length k = 32 ∧ Forall byte_ok k;
  sha256_first m : ∃ b r, sha256 m = b :: r ∧ byte_ok b;
  lowercase_ascii s : Forall ascii s → to_lowercase s = to_ascii_lowercase s;
  contents_parse c : ∃ b, contents_to_vec c = Ok b ∧ contents_from_slice b = Ok c;
  devices_parse l : ∃ b, devices_to_vec l = Ok b ∧ devices_from_slice b = Ok l
}.

Section keystore.
Context `{Primitives, KeyFormats}.

(* ------------------------------------------------------------------ *)
(** ** Pseudonyms ([keys.rs], [identity.rs]) *)

Definition PSEUDONYM_INFO_PREFIX : bytes := bstr "ephemera-pseudonym".
Definition derive_pseudonym_key (master_secret : bytes) (i : N) : result EphemeraError bytes :=
  hkdf_derive master_secret None (PSEUDONYM_INFO_PREFIX ++ le_bytes 4 i).

Record PseudonymIdentity := MkPseudonym { key_pair : bytes; pseudonym_index : N }.
Definition derive (master : bytes) (i : N) : result EphemeraError PseudonymIdentity :=
  let? k := derive_pseudonym_key master i in Ok (MkPseudonym k i).

(* ------------------------------------------------------------------ *)
(** ** The keystore file ([keystore.rs]) *)

Definition KEYSTORE_VERSION : bytes := [0; 0; 0; 1]%N.
Definition SALT_LEN : nat := 16.

Definition derive_key_from_passphrase (passphrase salt : bytes) : result EphemeraError bytes :=
  map_err (λ e, KeyDerivationError ("Argon2id key derivation failed: " +:+ e)) (argon2id_into passphrase salt).

(** The bytes that [save_keystore] writes. *)
Definition save_keystore (salt nonce passphrase : bytes) (contents : KeystoreContents) : result EphemeraError bytes :=
  let? plaintext := map_err (λ e, SerializationError ("keystore serialization failed: " +:+ e)) (contents_to_vec contents) in
  let? key := derive_key_from_passphrase passphrase salt in
  let? sealed := Crypto.seal nonce key plaintext in
  Ok (KEYSTORE_VERSION ++ salt ++ sealed).

Definition min_len : nat := 4 + SALT_LEN + NONCE_LEN + TAG_LEN.
(** The checks both loaders make: the salt and what is sealed. *)
Definition open_file (file : option bytes) : result EphemeraError (bytes * bytes) :=
  match file with
  | None => Err (Io "No such file or directory (os error 2)")
  | Some file_contents =>
      if length file_contents <? min_len then Err (KeystoreError "keystore file too short")
      else if negb (bool_decide (take 4 file_contents = KEYSTORE_VERSION)) then Err (KeystoreError "unsupported keystore version")
      else Ok (take SALT_LEN (drop 4 file_contents), drop (4 + SALT_LEN) file_contents)
  end.
Definition parse_contents (plaintext : bytes) : result EphemeraError KeystoreContents :=
  map_err (λ e, KeystoreError ("keystore deserialization failed: " +:+ e)) (contents_from_slice plaintext).

Definition load_keystore (file : option bytes) (passphrase : bytes) : result EphemeraError KeystoreContents :=
  let? f := open_file file in
  let? key := derive_key_from_passphrase passphrase f.1 in
  let? plaintext := map_err (λ _, KeystoreError "decryption failed (wrong passphrase or corrupt keystore)") (Crypto.open key f.2) in
  parse_contents plaintext.

Definition load_keystore_with_key (file : option bytes) (derived_key : bytes) : result EphemeraError KeystoreContents :=
  let? f := open_file file in
  let? plaintext := map_err (λ _, KeystoreError "decryption failed (invalid cached key or corrupt keystore)") (Crypto.open derived_key f.2) in
  parse_contents plaintext.

Definition extract_salt (file : option bytes) : option bytes :=
  d ← file; if length d <? 4 + SALT_LEN then None else Some (take SALT_LEN (drop 4 d)).
Definition derive_key_for_keystore (file : option bytes) (passphrase : bytes) : result EphemeraError bytes :=
  let? salt := ok_or (extract_salt file) (KeystoreError "cannot read keystore salt") in
  derive_key_from_passphrase passphrase salt.

(* ------------------------------------------------------------------ *)
(** ** Export formats ([export.rs]) *)

(** The bits of a number, high bit first, and back. *)
Definition to_bits (w : nat) (x : N) : list N := (λ i, N.land (N.shiftr x (N.of_nat i)) 1) <$> rev (seq 0 w).
Definition from_bits (l : list N) : N := foldl (λ acc b, N.lor (N.shiftl acc 1) b) 0%N l.
(** [slice::chunks]. *)
Fixpoint chunks (fuel n : nat) (l : list N) : list (list N) :=
  match fuel, l with
  | 0, _ | _, [] => []
  | S fuel, _ => take n l :: chunks fuel n (drop n l)
  end.

Definition checksum_byte (secret : bytes) : N := default 0%N (head (sha256 secret)).
Definition mnemonic_bits (master : bytes) : list N := concat (to_bits 8 <$> master) ++ to_bits 8 (checksum_byte master).
(** An index past the word list panics; eleven bits are none. *)
Definition word_at (i : N) : str := default [] (WORDLIST !! N.to_nat i).
Definition to_mnemonic (master : bytes) : list str :=
  let bits := mnemonic_bits master in (λ chunk, word_at (from_bits chunk)) <$> chunks (length bits) 11 bits.

Definition position (w : str) : option N := (λ p, N.of_nat p.1) <$> list_find (eq w) WORDLIST.
Fixpoint word_bits (ws : list str) : result EphemeraError (list N) :=
  match ws with
  | [] => Ok []
  | word :: ws =>
      let lower := to_lowercase word in
      let? i := ok_or (position lower) (InvalidKey "unknown mnemonic word") in
      let? bits := word_bits ws in
      Ok (to_bits 11 i ++ bits)
  end.
Definition from_mnemonic (ws : list str) : result EphemeraError bytes :=
  if negb (Nat.eqb (length ws) 24) then Err (InvalidKey ("expected 24 mnemonic words, got " +:+ pretty (length ws)))
  else
    let? bits := word_bits ws in
    let secret := from_bits <$> chunks 256 8 (take 256 bits) in
    if (from_bits (drop 256 bits) =? checksum_byte secret)%N then Ok secret
    else Err (InvalidKey "mnemonic checksum mismatch (typo in words?)").

Definition QR_VERSION : N := 1.
Definition QR_CHECKSUM_LEN : nat := 4.
Definition to_qr_bytes (master : bytes) : bytes :=
  let d := QR_VERSION :: master in d ++ take QR_CHECKSUM_LEN (blake3_hash d).
Definition from_qr_bytes (d : bytes) : result EphemeraError bytes :=
  let expected_len := 1 + 32 + QR_CHECKSUM_LEN in
  if negb (Nat.eqb (length d) expected_len) then
    Err (InvalidKey ("QR data wrong length: expected " +:+ pretty expected_len +:+ ", got " +:+ pretty (length d)))
  else if negb (default 0%N (head d) =? QR_VERSION)%N then Err (InvalidKey "unsupported QR version")
  else if negb (bool_decide (drop 33 d = take QR_CHECKSUM_LEN (blake3_hash (take 33 d)))) then
    Err (InvalidKey "QR checksum mismatch (data corrupted or tampered)")
  else Ok (take 32 (drop 1 d)).

Definition BACKUP_VERSION : bytes := [69; 80; 72; 1]%N.
Definition BACKUP_SALT_LEN : nat := 16.
Definition derive_backup_key (passphrase salt : bytes) : result EphemeraError bytes :=
  map_err (λ e, KeyDerivationError ("Argon2id backup key derivation failed: " +:+ e)) (argon2id_into passphrase salt).
Definition to_encrypted_backup (salt nonce master : bytes) (passphrase : str) : result EphemeraError bytes :=
  if bool_decide (passphrase = []) then Err (InvalidKey "backup passphrase must not be empty")
  else
    let? key := derive_backup_key (as_bytes passphrase) salt in
    let? sealed := Crypto.seal nonce key master in
    Ok (BACKUP_VERSION ++ salt ++ sealed).
Definition from_encrypted_backup (d : bytes) (passphrase : str) : result EphemeraError bytes :=
  if length d <? 4 + BACKUP_SALT_LEN + NONCE_LEN + TAG_LEN then Err (KeystoreError "backup file too short")
  else if negb (bool_decide (take 4 d = BACKUP_VERSION)) then Err (KeystoreError "unsupported backup file version")
  else
    let? key := derive_backup_key (as_bytes passphrase) (take BACKUP_SALT_LEN (drop 4 d)) in
    let? plaintext := map_err (λ _, KeystoreError "decryption failed (wrong passphrase or corrupt backup)")
                        (Crypto.open key (drop (4 + BACKUP_SALT_LEN) d)) in
    if negb (Nat.eqb (length plaintext) 32) then
      Err (InvalidKey ("decrypted master secret wrong length: expected 32, got " +:+ pretty (length plaintext)))
    else Ok plaintext.

(* ------------------------------------------------------------------ *)
(** ** Devices ([device.rs]) *)

Abbreviation DeviceManager := (list DeviceInfo).

Definition register_device (id : bytes) (now : N) (name : str) (p : Platform) (devices : DeviceManager) : DeviceManager * DeviceInfo :=
  let info := MkDevice id name p now now in (devices ++ [info], info).
Definition find_device (id : bytes) (devices : DeviceManager) : option (nat * DeviceInfo) := list_find (λ d, device_id d = id) devices.
Definition DeviceNotFound : EphemeraError := InvalidKey "device not found".
Definition touch_device (id : bytes) (now : N) (devices : DeviceManager) : result EphemeraError DeviceManager :=
  match find_device id devices with
  | Some (pos, d) => Ok (<[pos := MkDevice (device_id d) (device_name d) (platform d) (dev_created_at d) now]> devices)
  | None => Err DeviceNotFound
  end.
Definition revoke_device (id : bytes) (devices : DeviceManager) : result EphemeraError (DeviceManager * DeviceInfo) :=
  match find_device id devices with
  | Some (pos, d) => Ok (delete pos devices, d)
  | None => Err DeviceNotFound
  end.
Definition get_device (id : bytes) (devices : DeviceManager) : option DeviceInfo := snd <$> find_device id devices.
Definition to_json (devices : DeviceManager) : result EphemeraError bytes :=
  map_err (λ e, SerializationError ("device list serialization failed: " +:+ e)) (devices_to_vec devices).
Definition from_json (d : bytes) : result EphemeraError DeviceManager :=
  map_err (λ e, SerializationError ("device list deserialization failed: " +:+ e)) (devices_from_slice d).
End keystore.

(* ------------------------------------------------------------------ *)
(** ** Lemmas: bits *)

Section bits.
Definition bit (b : N) : Prop := (b < 2)%N.

Lemma to_bits_S w x : to_bits (S w) x = N.b2n (N.testbit x (N.of_nat w)) :: to_bits w x.
Proof.
  unfold to_bits. rewrite seq_S, rev_app_distr. cbn [rev app fmap list_fmap]. f_equal.
  change 1%N with (N.ones 1). rewrite N.land_ones. change (2 ^ 1)%N with 2%N. by rewrite <- N.bit0_mod, N.shiftr_spec', N.add_0_l.
Qed.

Lemma length_to_bits w x : length (to_bits w x) = w.
Proof. unfold to_bits. by rewrite length_fmap, length_rev, length_seq. Qed.

Lemma to_bits_bit w x : Forall bit (to_bits w x).
Proof. induction w as [|w IH]; [constructor|]. rewrite to_bits_S. constructor; [|done]. unfold bit. by destruct (N.testbit _ _). Qed.

Lemma to_bits_mod w n x : w ≤ n → to_bits w (x mod 2 ^ N.of_nat n) = to_bits w x.
Proof.
  induction w as [|w IH]; intros Hw; [done|]. rewrite !to_bits_S, IH by lia. do 2 f_equal. apply N.mod_pow2_bits_low. lia.
Qed.

Lemma from_bits_app l1 l2 : Forall bit l2 → from_bits (l1 ++ l2) = (from_bits l1 * 2 ^ N.of_nat (length l2) + from_bits l2)%N.
Proof.
  unfold from_bits. rewrite foldl_app. generalize (foldl (λ acc b, N.lor (N.shiftl acc 1) b) 0%N l1). clear l1.
  induction l2 as [|b l IH] using rev_ind; intros acc Hl; [cbn; lia|].
  apply Forall_app in Hl as [Hl Hb]. inversion Hb as [|? ? Hb1 _]; subst. rewrite !foldl_app, length_app, IH by done. cbn [foldl length].
  set (r := foldl _ 0%N l). assert (Hlor : ∀ y, N.lor (N.shiftl y 1) b = (2 * y + b)%N).
  { intros y. rewrite N.shiftl_mul_pow2. change (2 ^ 1)%N with 2%N. unfold bit in Hb1. rewrite N.lor_comm.
    assert (b = 0 ∨ b = 1)%N as [-> | ->] by lia; [rewrite N.lor_0_l; lia|]. rewrite (N.mul_comm y 2). by destruct y. }
  rewrite !Hlor, Nat.add_1_r, Nat2N.inj_succ, N.pow_succ_r'. lia.
Qed.

Lemma from_to_bits w x : from_bits (to_bits w x) = (x mod 2 ^ N.of_nat w)%N.
Proof.
  induction w as [|w IH]; [by rewrite N.mod_1_r|]. rewrite to_bits_S, Nat2N.inj_succ, N.pow_succ_r'.
  change (?b :: ?l) with ([b] ++ l). rewrite from_bits_app, IH, length_to_bits by apply to_bits_bit.
  rewrite (N.mul_comm 2), N.Div0.mod_mul_r, N.add_comm, N.mul_comm. do 2 f_equal. rewrite <- N.shiftr_div_pow2, <- N.bit0_mod, N.shiftr_spec'.
  cbn [from_bits foldl]. rewrite N.add_0_l. by destruct (N.testbit _ _).
Qed.

Lemma from_bits_lt l : Forall bit l → (from_bits l < 2 ^ N.of_nat (length l))%N.
Proof.
  induction l as [|b l IH]; [done|]. intros Hl. inversion Hl as [|? ? Hb Hl']; subst. change (b :: l) with ([b] ++ l).
  rewrite from_bits_app by done. cbn [app length]. rewrite Nat2N.inj_succ, N.pow_succ_r'. specialize (IH Hl'). unfold bit in Hb.
  assert (from_bits [b] = b) as -> by (unfold from_bits; cbn; by destruct b). nia.
Qed.

Lemma to_from_bits l : Forall bit l → to_bits (length l) (from_bits l) = l.
Proof.
  induction l as [|b l IH]; [done|]. intros Hl. inversion Hl as [|? ? Hb Hl']; subst. change (b :: l) with ([b] ++ l) at 2.
  pose proof (from_bits_lt l Hl') as Hlt. rewrite from_bits_app by done. cbn [length]. rewrite to_bits_S.
  assert (from_bits [b] = b) as -> by (unfold from_bits; cbn; by destruct b). f_equal.
  - rewrite N.testbit_spec' , N.div_add_l, N.div_small, N.add_0_r by (try apply N.pow_nonzero; done). apply N.mod_small. exact Hb.
  - rewrite <- (to_bits_mod _ (length l)), N.add_comm, N.Div0.mod_add, N.mod_small by done. by apply IH.
Qed.

Lemma to_from_bits' n l : Forall bit l → length l = n → to_bits n (from_bits l) = l.
Proof. intros Hl <-. by apply to_from_bits. Qed.

Lemma chunks_concat fuel n ls : 0 < n → Forall (λ c, length c = n) ls → length (concat ls) ≤ fuel → chunks fuel n (concat ls) = ls.
Proof.
  intros Hn. revert fuel; induction ls as [|c ls IH]; intros fuel Hls Hf; [by destruct fuel|].
  inversion Hls as [|? ? Hc Hls']; subst. cbn [concat] in *. rewrite length_app in Hf. destruct fuel as [|fuel]; [lia|]. cbn [chunks].
  destruct (c ++ concat ls) as [|x r] eqn:E; [destruct c; cbn in *; [lia|done]|]. rewrite <- E, take_app_length, drop_app_length.
  f_equal. apply IH; [done|lia].
Qed.

Lemma chunks_spec fuel n k (l : list N) : 0 < n → length l = n * k → length l ≤ fuel →
  concat (chunks fuel n l) = l ∧ Forall (λ c, length c = n) (chunks fuel n l) ∧ length (chunks fuel n l) = k.
Proof.
  intros Hn. revert fuel l; induction k as [|k IH]; intros fuel l Hl Hf.
  { destruct l; [by destruct fuel|cbn in Hl; lia]. }
  destruct l as [|x l]; [cbn in Hl; lia|]. destruct fuel as [|fuel]; [cbn in Hf; lia|]. cbn [chunks].
  destruct (IH fuel (drop n (x :: l))) as (H1 & H2 & H3); [rewrite length_drop; lia|rewrite length_drop; cbn [length] in *; lia|].
  cbn [concat length]. rewrite H1, H3, take_drop. split_and!; [done| |done]. constructor; [|done]. rewrite length_take. lia.
Qed.

Lemma length_concat_bits w (l : list N) : length (concat (to_bits w <$> l)) = length l * w.
Proof. induction l as [|x l IH]; [done|]. cbn. rewrite length_app, length_to_bits, IH. lia. Qed.

Lemma concat_Forall {A} (P : A → Prop) ls : Forall P (concat ls) ↔ Forall (Forall P) ls.
Proof. induction ls as [|c ls IH]; cbn; [done|]. by rewrite Forall_app, Forall_cons, IH. Qed.
End bits.

(* ------------------------------------------------------------------ *)
(** ** Mnemonics *)

Section mnemonics.
Context `{KeyFormats, !KeyFormatLaws}.

Lemma word_lower i : (i < 2048)%N → to_lowercase (word_at i) = word_at i.
Proof.
  intros Hi. unfold word_at. destruct (lookup_lt_is_Some_2 WORDLIST (N.to_nat i)) as [w Hw]; [pose proof length_WORDLIST; lia|].
  rewrite Hw. cbn [default from_option]. pose proof (Forall_lookup_1 _ _ _ _ words_lower Hw) as Hl. unfold lower_word in Hl.
  rewrite forallb_forall in Hl. rewrite lowercase_ascii.
  - unfold to_ascii_lowercase. rewrite <- (list_fmap_id w) at 2. apply list_fmap_ext. intros j c Hc.
    specialize (Hl c (proj1 (list_elem_of_In _ _) (list_elem_of_lookup_2 _ _ _ Hc))). unfold is_ascii_lowercase, is_ascii_uppercase in *.
    destruct (65 <=? c)%N eqn:E1, (c <=? 90)%N eqn:E2; bprop; cbn [andb id]; try done; lia.
  - apply Forall_forall. intros c Hc. specialize (Hl c (proj1 (list_elem_of_In _ _) Hc)). unfold is_ascii_lowercase, ascii in *. bprop. lia.
Qed.

Lemma position_word_at i : (i < 2048)%N → position (word_at i) = Some i.
Proof.
  intros Hi. unfold word_at. destruct (lookup_lt_is_Some_2 WORDLIST (N.to_nat i)) as [w Hw]; [pose proof length_WORDLIST; lia|].
  rewrite Hw. cbn [default from_option]. unfold position. rewrite fmap_Some. exists (N.to_nat i, w). cbn [fst]. rewrite N2Nat.id. split; [|done].
  apply list_find_Some. split_and!; [done|done|]. intros j y Hy Hj <-. pose proof (NoDup_lookup _ _ _ _ words_nodup Hw Hy). lia.
Qed.

Lemma position_Some w i : position w = Some i → (i < 2048)%N ∧ w = word_at i.
Proof.
  unfold position. intros ((j & w') & (Hl & <- & _)%list_find_Some & ->)%fmap_Some. cbn [fst]. split.
  - apply lookup_lt_Some in Hl. pose proof length_WORDLIST. lia.
  - unfold word_at. rewrite Nat2N.id. cbn [fst] in *. by rewrite Hl.
Qed.

(** Reading words gives the bits of their indices. *)
Lemma word_bits_ok ws bits : word_bits ws = Ok bits ↔
  ∃ ids, to_lowercase <$> ws = word_at <$> ids ∧ Forall (λ i, (i < 2048)%N) ids ∧ bits = concat (to_bits 11 <$> ids).
Proof.
  revert bits; induction ws as [|w ws IH]; intros bits; cbn [word_bits].
  { split; [intros [= <-]; by exists []|]. intros ([|] & ? & _ & ->); done. }
  destruct (position (to_lowercase w)) as [i|] eqn:Ei; cbn [ok_or result_bind].
  - destruct (word_bits ws) as [bits'|e]; cbn [result_bind]; split.
    + intros [= <-]. destruct (proj1 (IH bits') eq_refl) as (ids & H1 & H2 & ->). apply position_Some in Ei as [Hi Hw].
      exists (i :: ids). cbn [fmap list_fmap concat]. rewrite Hw, H1. split_and!; [done|by constructor|done].
    + intros ([|j ids] & H1 & H2 & ->); [done|]. cbn in H1. injection H1 as Hw H1. inversion H2 as [|? ? Hj H2']; subst.
      rewrite Hw, position_word_at in Ei by done. injection Ei as <-. cbn. do 2 f_equal.
      assert (Ok bits' = Ok (E := EphemeraError) (concat (to_bits 11 <$> ids))) as [= ->]; [|done]. apply IH. by exists ids.
    + done.
    + intros ([|j ids] & H1 & H2 & ->); [done|]. cbn in H1. injection H1 as Hw H1. inversion H2 as [|? ? Hj H2']; subst.
      assert (Err e = Ok (concat (to_bits 11 <$> ids))) as Hbad; [|done]. apply IH. by exists ids.
  - split; [done|]. intros ([|j ids] & H1 & H2 & ->); [done|]. cbn in H1. injection H1 as Hw H1. inversion H2 as [|? ? Hj H2']; subst.
    by rewrite Hw, position_word_at in Ei.
Qed.

Lemma checksum_byte_ok m : byte_ok (checksum_byte m).
Proof. unfold checksum_byte. by destruct (sha256_first m) as (b & r & -> & Hb). Qed.

Lemma from_to_byte x : byte_ok x → from_bits (to_bits 8 x) = x.
Proof. intros Hx. rewrite from_to_bits. apply N.mod_small. exact Hx. Qed.

Lemma mnemonic_bits_spec m : length m = 32 →
  length (mnemonic_bits m) = 264 ∧ Forall bit (mnemonic_bits m) ∧ take 256 (mnemonic_bits m) = concat (to_bits 8 <$> m) ∧
  drop 256 (mnemonic_bits m) = to_bits 8 (checksum_byte m).
Proof.
  intros Hl. unfold mnemonic_bits. assert (Hc : length (concat (to_bits 8 <$> m)) = 256) by (rewrite length_concat_bits, Hl; done). split_and!.
  - by rewrite length_app, Hc, length_to_bits.
  - apply Forall_app. split; [|apply to_bits_bit]. apply concat_Forall, Forall_fmap, Forall_true. intros x. apply to_bits_bit.
  - by rewrite take_app_length'.
  - by rewrite drop_app_length'.
Qed.

Lemma word_at_inj l1 l2 : Forall (λ i, (i < 2048)%N) l1 → Forall (λ i, (i < 2048)%N) l2 → word_at <$> l1 = word_at <$> l2 → l1 = l2.
Proof.
  revert l2; induction l1 as [|i l1 IH]; intros [|j l2] H1 H2 E; try done. inversion H1 as [|? ? Hi H1']; inversion H2 as [|? ? Hj H2']; subst.
  injection E as Ew E. apply (f_equal position) in Ew. rewrite !position_word_at in Ew by done. injection Ew as ->. f_equal. by apply IH.
Qed.

(** The words are those of the bits, eleven at a time. *)
Lemma to_mnemonic_words m ids : length m = 32 → Forall (λ i, (i < 2048)%N) ids →
  mnemonic_bits m = concat (to_bits 11 <$> ids) ↔ to_mnemonic m = word_at <$> ids ∧ length ids = 24.
Proof.
  intros Hl His. destruct (mnemonic_bits_spec m Hl) as (H1 & H2 & _).
  assert (Hlen : Forall (λ c, length c = 11) (to_bits 11 <$> ids)) by (apply Forall_fmap, Forall_true; intros; apply length_to_bits).
  assert (Hback : ∀ l, Forall (λ i, (i < 2048)%N) l → from_bits <$> (to_bits 11 <$> l) = l).
  { intros l Hi. rewrite <- list_fmap_compose. rewrite <- (list_fmap_id l) at 2. apply list_fmap_ext. intros j x Hx. unfold compose.
    rewrite from_to_bits. apply N.mod_small, (Forall_lookup_1 _ _ _ _ Hi Hx). }
  unfold to_mnemonic. cbv zeta. rewrite (list_fmap_compose from_bits word_at). split.
  - intros E. rewrite E, chunks_concat, Hback by (done || lia). split; [done|].
    rewrite E, length_concat_bits in H1. lia.
  - intros [E Hn]. destruct (chunks_spec (length (mnemonic_bits m)) 11 24 (mnemonic_bits m)) as (C1 & C2 & C3); [lia|lia|lia|].
    rewrite <- C1. f_equal. rewrite <- C1 in H2. apply concat_Forall in H2. set (cs := chunks _ _ _) in *. clearbody cs.
    assert (Hcs : from_bits <$> cs = ids).
    { apply word_at_inj; [|done|exact E]. apply Forall_fmap, Forall_forall. intros c Hc. rewrite Forall_forall in C2, H2.
      specialize (from_bits_lt c (H2 c Hc)). by rewrite (C2 c Hc). }
    rewrite <- Hcs, <- list_fmap_compose. rewrite <- (list_fmap_id cs) at 1. apply list_fmap_ext. intros j c Hc.
    pose proof (Forall_lookup_1 _ _ _ _ H2 Hc) as Hb. pose proof (Forall_lookup_1 _ _ _ _ C2 Hc) as Hc11. symmetry. by apply to_from_bits'.
Qed.

Lemma length_to_mnemonic m : length m = 32 → length (to_mnemonic m) = 24.
Proof.
  intros Hl. unfold to_mnemonic. rewrite length_fmap. destruct (mnemonic_bits_spec m Hl) as (Hb & _).
  destruct (chunks_spec (length (mnemonic_bits m)) 11 24 (mnemonic_bits m)) as (_ & _ & C3); [lia|lia|lia|]. exact C3.
Qed.

Lemma from_mnemonic_sound ws m : from_mnemonic ws = Ok m → length m = 32 ∧ Forall byte_ok m ∧ to_lowercase <$> ws = to_mnemonic m.
Proof.
  unfold from_mnemonic. destruct (Nat.eqb_spec (length ws) 24) as [Hlen|Hlen]; cbn [negb]; [|done].
  destruct (word_bits ws) as [bits|] eqn:Ew; [|done]. cbn [result_bind]. apply word_bits_ok in Ew as (ids & Hws & His & ->).
  set (bits := concat (to_bits 11 <$> ids)). assert (Hn : length ids = 24) by (apply (f_equal length) in Hws; rewrite !length_fmap in Hws; lia).
  assert (Hb : Forall bit bits) by (apply concat_Forall, Forall_fmap, Forall_true; intros; apply to_bits_bit).
  assert (Hbl : length bits = 264) by (unfold bits; rewrite length_concat_bits; lia).
  destruct (chunks_spec 256 8 32 (take 256 bits)) as (C1 & C2 & C3); [lia|rewrite length_take; lia|rewrite length_take; lia|].
  pose proof (Forall_take bit 256 _ Hb) as Ht. rewrite <- C1 in Ht. apply concat_Forall in Ht.
  set (cs := chunks 256 8 (take 256 bits)) in *. destruct (N.eqb_spec (from_bits (drop 256 bits)) (checksum_byte (from_bits <$> cs))) as [Hck|]; [|done].
  intros [= <-]. assert (Hl : length (from_bits <$> cs) = 32) by (by rewrite length_fmap). split; [done|]. split.
  { apply Forall_fmap, Forall_forall. intros c Hc. rewrite Forall_forall in C2, Ht. specialize (from_bits_lt c (Ht c Hc)).
    rewrite (C2 c Hc). done. }
  rewrite Hws. symmetry. apply to_mnemonic_words; [done|done|]. unfold mnemonic_bits. rewrite <- Hck.
  assert (Hd : to_bits 8 (from_bits (drop 256 bits)) = drop 256 bits).
  { apply to_from_bits'; [exact (Forall_drop bit 256 bits Hb)|rewrite length_drop; lia]. }
  rewrite Hd. change (concat (to_bits 11 <$> ids)) with bits. transitivity (take 256 bits ++ drop 256 bits); [|apply take_drop]. f_equal. rewrite <- C1. f_equal.
  rewrite <- list_fmap_compose. rewrite <- (list_fmap_id cs) at 2. apply list_fmap_ext. intros j c Hc.
  pose proof (Forall_lookup_1 _ _ _ _ Ht Hc) as Hcb. pose proof (Forall_lookup_1 _ _ _ _ C2 Hc) as Hc8. by apply to_from_bits'.
Qed.

(** Words written for a secret, in any case, are read back. *)
Lemma from_to_mnemonic ws m : length m = 32 → Forall byte_ok m → to_lowercase <$> ws = to_mnemonic m → from_mnemonic ws = Ok m.
Proof.
  intros Hl Hm E. unfold from_mnemonic. assert (Hlen : length ws = 24) by (apply (f_equal length) in E; by rewrite length_fmap, length_to_mnemonic in E).
  rewrite Hlen. cbn [Nat.eqb negb].
  destruct (mnemonic_bits_spec m Hl) as (H1 & H2 & H3 & H4).
  destruct (chunks_spec (length (mnemonic_bits m)) 11 24 (mnemonic_bits m)) as (C1 & C2 & C3); [lia|lia|lia|].
  assert (His : Forall (λ i, (i < 2048)%N) (from_bits <$> chunks (length (mnemonic_bits m)) 11 (mnemonic_bits m))).
  { rewrite <- C1 in H2. apply concat_Forall in H2. apply Forall_fmap, Forall_forall. intros c Hc. rewrite Forall_forall in C2, H2.
    specialize (from_bits_lt c (H2 c Hc)). by rewrite (C2 c Hc). }
  assert (Ew : word_bits ws = Ok (mnemonic_bits m)).
  { apply word_bits_ok. eexists. split; [rewrite E; unfold to_mnemonic; apply (list_fmap_compose from_bits word_at)|]. split; [exact His|].
    apply to_mnemonic_words; [done|exact His|]. rewrite length_fmap, C3. split; [|done]. unfold to_mnemonic. apply (list_fmap_compose from_bits word_at). }
  rewrite Ew. cbn [result_bind]. rewrite H3, H4.
  rewrite chunks_concat by (try lia; try (rewrite length_concat_bits; lia); apply Forall_fmap, Forall_true; intros; apply length_to_bits).
  assert (Hback : from_bits <$> (to_bits 8 <$> m) = m).
  { rewrite <- list_fmap_compose. rewrite <- (list_fmap_id m) at 2. apply list_fmap_ext. intros j x Hx. unfold compose.
    apply from_to_byte, (Forall_lookup_1 _ _ _ _ Hm Hx). }
  rewrite Hback, from_to_byte by apply checksum_byte_ok. by rewrite N.eqb_refl.
Qed.


Lemma to_mnemonic_lower m : length m = 32 → to_lowercase <$> to_mnemonic m = to_mnemonic m.
Proof.
  intros Hl. destruct (mnemonic_bits_spec m Hl) as (H1 & H2 & _). unfold to_mnemonic. cbv zeta.
  destruct (chunks_spec (length (mnemonic_bits m)) 11 24 (mnemonic_bits m)) as (C1 & C2 & _); [lia|lia|lia|].
  rewrite <- C1 in H2. apply concat_Forall in H2. rewrite <- list_fmap_compose. apply list_fmap_ext. intros j c Hc. unfold compose.
  apply word_lower. pose proof (from_bits_lt c (Forall_lookup_1 _ _ _ _ H2 Hc)) as Hlt. by rewrite (Forall_lookup_1 _ _ _ _ C2 Hc) in Hlt.
Qed.
End mnemonics.

(* ------------------------------------------------------------------ *)
(** ** Files *)

Section files.
Context `{Primitives, KeyFormats, !PrimitiveLaws, !KeyFormatLaws}.

(** A sealed file: version, salt and what was sealed under the key for the salt. *)
Lemma sealed_file version salt nonce key p : length version = 4 → length salt = 16 → length nonce = NONCE_LEN →
  ∃ sealed, Crypto.seal nonce key p = Ok sealed ∧
    length (version ++ salt ++ sealed) <? 4 + 16 + NONCE_LEN + TAG_LEN = false ∧ take 4 (version ++ salt ++ sealed) = version ∧
    take 16 (drop 4 (version ++ salt ++ sealed)) = salt ∧ drop (4 + 16) (version ++ salt ++ sealed) = sealed ∧ Crypto.open key sealed = Ok p.
Proof.
  intros Hv Hs Hn. destruct (seal_total nonce key p) as (c & Hc & Hl). exists c. split_and!; [done|..].
  - apply Nat.ltb_ge. rewrite !length_app. lia.
  - by rewrite take_app_length'.
  - rewrite drop_app_length' by done. by rewrite take_app_length'.
  - rewrite app_assoc, drop_app_length' by (rewrite length_app; lia). done.
  - by eapply open_seal.
Qed.

Lemma load_saved salt nonce passphrase contents : length salt = 16 → length nonce = NONCE_LEN →
  ∃ f k, save_keystore salt nonce passphrase contents = Ok f ∧ load_keystore (Some f) passphrase = Ok contents ∧
    derive_key_for_keystore (Some f) passphrase = Ok k ∧ length k = 32 ∧ Forall byte_ok k ∧ load_keystore_with_key (Some f) k = Ok contents.
Proof.
  intros Hs Hn.
  destruct (contents_parse contents) as (p & Hp & Hpc). destruct (argon2id_total passphrase salt Hs) as (k & Hk & Hkl & Hkb).
  destruct (sealed_file KEYSTORE_VERSION salt nonce k p eq_refl Hs Hn) as (c & Hc & Hlen & Hver & Hsalt & Hrest & Hopen).
  exists (KEYSTORE_VERSION ++ salt ++ c), k. unfold save_keystore, derive_key_from_passphrase. rewrite Hp. cbn [map_err result_bind].
  rewrite Hk. cbn [map_err result_bind]. rewrite Hc. cbn [result_bind]. split; [done|].
  assert (Ho : open_file (Some (KEYSTORE_VERSION ++ salt ++ c)) = Ok (salt, c)).
  { unfold open_file. change (length ?l <? min_len) with (length l <? 4 + 16 + NONCE_LEN + TAG_LEN). rewrite Hlen, Hver, bool_decide_true by done.
    change SALT_LEN with 16. cbn [negb]. by rewrite Hsalt, Hrest. }
  unfold load_keystore, load_keystore_with_key, derive_key_for_keystore, derive_key_from_passphrase. rewrite Ho. cbn [result_bind fst snd].
  rewrite Hk. cbn [map_err result_bind]. rewrite Hopen. cbn [map_err result_bind]. unfold parse_contents. rewrite Hpc. cbn [map_err].
  split_and!; try done. unfold extract_salt. cbn [mbind option_bind]. change SALT_LEN with 16. rewrite Hsalt.
  rewrite (proj2 (Nat.ltb_ge _ _)); [cbn [ok_or result_bind]; by rewrite Hk|]. rewrite !length_app, Hs. cbn. lia.
Qed.

(** A keystore that was saved is loaded again, with the passphrase or with
    the key that is derived from it for the session file; a file that is not
    there, is too short or has another version is refused with its own
    error whatever the passphrase. *)
Theorem keystore_roundtrip (salt nonce passphrase : bytes) (contents : KeystoreContents)
    (Hs : length salt = 16) (Hn : length nonce = NONCE_LEN) :
  (∃ f k, save_keystore salt nonce passphrase contents = Ok f ∧ load_keystore (Some f) passphrase = Ok contents ∧
     derive_key_for_keystore (Some f) passphrase = Ok k ∧ length k = 32 ∧ Forall byte_ok k ∧ load_keystore_with_key (Some f) k = Ok contents) ∧
  (∀ pw, load_keystore None pw = Err (Io "No such file or directory (os error 2)")) ∧
  (∀ f pw, length f < 60 → load_keystore (Some f) pw = Err (KeystoreError "keystore file too short")) ∧
  (∀ f pw, 60 ≤ length f → take 4 f ≠ KEYSTORE_VERSION → load_keystore (Some f) pw = Err (KeystoreError "unsupported keystore version")).
Proof.
  split_and!; [by apply load_saved|done|..].
  - intros f pw Hf. unfold load_keystore, open_file. change min_len with 60. by rewrite (proj2 (Nat.ltb_lt _ _) Hf).
  - intros f pw Hf Hv. unfold load_keystore, open_file. change min_len with 60. by rewrite (proj2 (Nat.ltb_ge _ _) Hf), bool_decide_false.
Qed.

Lemma from_qr_iff d m : from_qr_bytes d = Ok m ↔ length m = 32 ∧ d = to_qr_bytes m.
Proof.
  unfold from_qr_bytes, to_qr_bytes, QR_CHECKSUM_LEN. destruct (Nat.eqb_spec (length d) (1 + 32 + 4)) as [Hl|Hl]; cbn [negb]; cycle 1.
  { split; [done|]. intros [Hlm ->]. exfalso. apply Hl. rewrite length_app, length_take, blake3_len. cbn. lia. }
  destruct d as [|v d]; [done|]. change (default 0%N (head (v :: d))) with v. destruct (N.eqb_spec v QR_VERSION) as [->|Hv]; cbn [negb]; cycle 1.
  { split; [done|]. intros [_ E]. cbn [app] in E. injection E as E _. by destruct Hv. }
  assert (Hl36 : length d = 36) by (cbn in Hl; lia). change (drop 1 (QR_VERSION :: d)) with d.
  change (drop 33 (QR_VERSION :: d)) with (drop 32 d). change (take 33 (QR_VERSION :: d)) with (QR_VERSION :: take 32 d).
  case_bool_decide as Hck; cbn [negb]; split.
  + intros [= <-]. split; [rewrite length_take; lia|]. rewrite <- Hck. cbn [app]. by rewrite take_drop.
  + intros [Hlm E]. cbn [app] in E. injection E as E. subst d. by rewrite take_app_length'.
  + done.
  + intros [Hlm E]. cbn [app] in E. injection E as E. subst d. rewrite take_app_length', drop_app_length' in Hck by done. done.
Qed.

Lemma backup_restored salt nonce master passphrase : length salt = 16 → length nonce = NONCE_LEN → length master = 32 → passphrase ≠ [] →
  ∃ backup, to_encrypted_backup salt nonce master passphrase = Ok backup ∧ from_encrypted_backup backup passphrase = Ok master.
Proof.
  intros Hs Hn Hm Hp.
  destruct (argon2id_total (as_bytes passphrase) salt Hs) as (k & Hk & _).
  destruct (sealed_file BACKUP_VERSION salt nonce k master eq_refl Hs Hn) as (c & Hc & Hlen & Hver & Hsalt & Hrest & Hopen).
  exists (BACKUP_VERSION ++ salt ++ c). unfold to_encrypted_backup, from_encrypted_backup, derive_backup_key, BACKUP_SALT_LEN.
  rewrite bool_decide_false, Hk by done. cbn [map_err result_bind]. rewrite Hc. cbn [result_bind]. split; [done|].
  rewrite Hlen, Hver, bool_decide_true by done. cbn [negb]. rewrite Hsalt, Hrest, Hk. cbn [map_err result_bind]. rewrite Hopen. cbn [map_err result_bind].
  by rewrite Hm.
Qed.

(** The other two exports: what is taken as a QR payload is exactly what
    [to_qr_bytes] makes of the secret that comes out, and a backup gives its
    secret back to its passphrase. *)
Theorem exports_roundtrip (salt nonce master d m : bytes) (passphrase : str)
    (Hs : length salt = 16) (Hn : length nonce = NONCE_LEN) (Hm : length master = 32) (Hp : passphrase ≠ []) :
  (from_qr_bytes d = Ok m ↔ length m = 32 ∧ d = to_qr_bytes m) ∧
  ∃ backup, to_encrypted_backup salt nonce master passphrase = Ok backup ∧ from_encrypted_backup backup passphrase = Ok master.
Proof. split; [apply from_qr_iff|by apply backup_restored]. Qed.
End files.

(* ------------------------------------------------------------------ *)
(** ** Devices *)

Section devices.
Context `{KeyFormats, !KeyFormatLaws}.

Lemma find_device_app id l d : find_device id (l ++ [d]) =
  match find_device id l with Some x => Some x | None => if decide (device_id d = id) then Some (length l, d) else None end.
Proof.
  unfold find_device. induction l as [|e l IH]; cbn; [by destruct (decide (device_id d = id))|].
  destruct (decide (device_id e = id)); [done|]. rewrite IH. destruct (list_find _ l) as [x|]; [done|].
  by destruct (decide (device_id d = id)).
Qed.

Lemma find_device_lookup id l pos d : find_device id l = Some (pos, d) → l !! pos = Some d ∧ device_id d = id.
Proof. intros (H1 & H2 & _)%list_find_Some. done. Qed.

(** With unique ids a device is found by its id. *)
Lemma get_device_spec id l d : NoDup (device_id <$> l) → get_device id l = Some d ↔ d ∈ l ∧ device_id d = id.
Proof.
  intros Hnd. unfold get_device. rewrite fmap_Some. split.
  - intros ([pos d'] & Hf & ->). apply find_device_lookup in Hf as [Hl Hid]. split; [by eapply list_elem_of_lookup_2|done].
  - intros [[pos Hl]%list_elem_of_lookup_1 <-]. exists (pos, d). split; [|done]. apply list_find_Some. split_and!; [done|done|].
    intros j e He Hj Hid. assert (j = pos); [|lia]. eapply (NoDup_lookup _ _ _ _ Hnd); rewrite list_lookup_fmap; [by rewrite He|by rewrite Hl; cbn; rewrite Hid].
Qed.

(** Devices are a map from their ids: registering under a new id adds the
    device, touching and revoking find exactly the devices that are there and
    change no other, ids stay unique, and the list survives its JSON; the
    keys are not looked at, so a revoked device keeps them. *)
Theorem devices_map (l : list DeviceInfo) (id : bytes) (now : N) (nm : str) (p : Platform) (Hnd : NoDup (device_id <$> l)) :
  (id ∉ device_id <$> l → let '(l', info) := register_device id now nm p l in
     NoDup (device_id <$> l') ∧ ∀ k, get_device k l' = if decide (k = id) then Some info else get_device k l) ∧
  (match touch_device id now l with
   | Err e => e = DeviceNotFound ∧ get_device id l = None
   | Ok l' => NoDup (device_id <$> l') ∧ ∀ k, get_device k l' = if decide (k = id)
       then (λ d, MkDevice (device_id d) (device_name d) (platform d) (dev_created_at d) now) <$> get_device k l else get_device k l
   end) ∧
  (match revoke_device id l with
   | Err e => e = DeviceNotFound ∧ get_device id l = None
   | Ok (l', d) => get_device id l = Some d ∧ NoDup (device_id <$> l') ∧ ∀ k, get_device k l' = if decide (k = id) then None else get_device k l
   end) ∧
  ∃ b, to_json l = Ok b ∧ from_json b = Ok l.
Proof.
  assert (Hext : ∀ (l' : list DeviceInfo) k (o : option DeviceInfo), NoDup (device_id <$> l') →
    (∀ d, o = Some d ↔ d ∈ l' ∧ device_id d = k) → get_device k l' = o).
  { intros l' k o Hnd' Ho. apply option_eq. intros d. by rewrite get_device_spec, Ho. }
  split_and!.
  - intros Hid. cbn. unfold get_device. assert (Hnone : find_device id l = None).
    { apply list_find_None, Forall_forall. intros d Hd Hx. apply Hid. subst. by apply list_elem_of_fmap_2. }
    split; [rewrite fmap_app; apply NoDup_app; split_and!; [done| |apply NoDup_singleton]; cbn; set_solver|].
    intros k. rewrite find_device_app. cbn [device_id]. destruct (decide (k = id)) as [->|Hk]; [by rewrite Hnone, decide_True by done|].
    destruct (find_device k l); [done|]. by rewrite decide_False by congruence.
  - unfold touch_device. destruct (find_device id l) as [[pos d]|] eqn:Ef; [|unfold get_device; by rewrite Ef].
    pose proof (find_device_lookup _ _ _ _ Ef) as [Hl Hid]. set (d' := MkDevice _ _ _ _ _).
    assert (Hids : device_id <$> <[pos:=d']> l = device_id <$> l).
    { rewrite list_fmap_insert. apply list_insert_id. by rewrite list_lookup_fmap, Hl. }
    split; [by rewrite Hids|]. intros k. apply Hext; [by rewrite Hids|]. intros e.
    assert (Hlt : pos < length l) by (by eapply lookup_lt_Some). assert (Hin : ∀ x, x ∈ <[pos:=d']> l ↔ x = d' ∨ (x ∈ l ∧ device_id x ≠ id)).
    { intros x. rewrite !list_elem_of_lookup. split.
      - intros [i Hi]. apply list_lookup_insert_Some in Hi as [(-> & -> & _)|[Hne Hi]]; [by left|]. right. split; [by exists i|]. intros Hx.
        apply Hne. eapply (NoDup_lookup _ _ _ _ Hnd); rewrite list_lookup_fmap; [by rewrite Hl|by rewrite Hi; cbn; rewrite Hx, Hid].
      - intros [->|[[i Hi] Hx]]; [exists pos; by apply list_lookup_insert_eq|]. exists i. rewrite list_lookup_insert_ne; [done|].
        intros ->. rewrite Hl in Hi. injection Hi as <-. done. }
    rewrite Hin. case_decide as Hk; [subst k|].
    + assert (get_device id l = Some d) as -> by (unfold get_device; by rewrite Ef). cbn. split; [intros [= <-]; by split; [left|]|].
      intros [[->|[_ Hx]] He]; done.
    + rewrite get_device_spec by done. split; [intros [He Hk']; split; [right; split; [done|congruence]|done]|].
      intros [[->|[He _]] Hk']; [|done]. cbn in Hk'. congruence.
  - unfold revoke_device. destruct (find_device id l) as [[pos d]|] eqn:Ef; [|unfold get_device; by rewrite Ef].
    pose proof (find_device_lookup _ _ _ _ Ef) as [Hl Hid]. split; [unfold get_device; by rewrite Ef|].
    pose proof (delete_Permutation _ _ _ Hl) as Hperm. pose proof Hnd as Hnd2. rewrite Hperm in Hnd2. cbn in Hnd2.
    apply NoDup_cons in Hnd2 as [Hni Hnd2]. split; [done|]. intros k. apply Hext; [done|]. intros e. case_decide as Hk; [subst k|].
    + split; [done|]. intros [He Hx]. exfalso. apply Hni. rewrite Hid, <- Hx. by apply list_elem_of_fmap_2.
    + assert (Hin : ∀ l0, l ≡ₚ d :: l0 → e ∈ l ↔ e = d ∨ e ∈ l0) by (intros l0 Hp; by rewrite Hp, elem_of_cons).
      rewrite get_device_spec, (Hin _ Hperm) by done. split; [|tauto]. intros [[->|He] Hx]; [congruence|done].
  - unfold to_json, from_json. destruct (devices_parse l) as (b & -> & Hb). exists b. by rewrite Hb.
Qed.
End devices.

(* ------------------------------------------------------------------ *)
(** ** Witnesses *)

(** Documents as numbers. *)
Module KeyToy.
Import Toy.
#[export] Instance entry_dec : EqDecision PseudonymEntry.
Proof. solve_decision. Defined.
#[export] Instance contents_dec : EqDecision KeystoreContents.
Proof. solve_decision. Defined.
#[export] Instance platform_dec : EqDecision Platform.
Proof. solve_decision. Defined.
#[export] Instance device_dec : EqDecision DeviceInfo.
Proof. solve_decision. Defined.

#[export] Instance entry_countable : Countable PseudonymEntry.
Proof. refine (inj_countable' (λ e, (index e, entry_secret e)) (λ x, MkEntry x.1 x.2) _). by intros []. Defined.
#[export] Instance contents_countable : Countable KeystoreContents.
Proof.
  refine (inj_countable' (λ c, (c_master_secret c, c_node_secret c, c_pseudonym_secrets c)) (λ x, MkContents x.1.1 x.1.2 x.2) _). by intros [].
Defined.
#[export] Instance platform_countable : Countable Platform.
Proof.
  refine (inj_countable' (λ p, match p with Desktop => 0 | Android => 1 | IOS => 2 end) (λ n, match n with 0 => Desktop | 1 => Android | _ => IOS end) _).
  by intros [].
Defined.
#[export] Instance device_countable : Countable DeviceInfo.
Proof.
  refine (inj_countable' (λ d, (device_id d, device_name d, platform d, dev_created_at d, last_seen_at d))
    (λ x, MkDevice x.1.1.1.1 x.1.1.1.2 x.1.1.2 x.1.2 x.2) _). by intros [].
Defined.

Definition to_vec {A} `{Countable A} (x : A) : result string bytes := Ok [Npos (encode x)].
Definition from_slice {A} `{Countable A} (b : bytes) : result string A :=
  match b with [Npos p] => ok_or (decode p) "invalid document"%string | _ => Err "expected value at line 1 column 1"%string end.
Lemma from_to_key_vec {A} `{Countable A} (x : A) : ∃ b, to_vec x = Ok b ∧ from_slice b = Ok x.
Proof. eexists. split; [done|]. unfold from_slice. by rewrite decode_encode. Qed.

#[export] Instance formats : KeyFormats := {|
  argon2id_into pw salt := Ok (mix (pw ++ salt));
  sha256 := mix;
  to_lowercase := to_ascii_lowercase;
  contents_to_vec := to_vec;
  contents_from_slice := from_slice;
  devices_to_vec := to_vec;
  devices_from_slice := from_slice
|}.
#[export] Instance format_laws : KeyFormatLaws.
Proof.
  split.
  - intros pw salt _. eexists. split; [done|]. split; [apply length_mix|apply be_bytes_ok].
  - intros m. pose proof (length_mix m) as Hl. assert (Hb : Forall byte_ok (mix m)) by apply be_bytes_ok. cbn.
    destruct (mix m) as [|b r]; [done|]. exists b, r. split; [done|]. by inversion Hb.
  - done.
  - intros c. apply from_to_key_vec.
  - intros l. apply from_to_key_vec.
Qed.
End KeyToy.

Section witnesses.
Import Toy KeyToy.
#[local] Existing Instance toy.

Definition kw_master : bytes := replicate 32 171%N.
Definition kw_salt : bytes := replicate 16 3%N.
Definition kw_nonce : bytes := replicate 24 4%N.
Definition kw_contents : KeystoreContents := MkContents kw_master (replicate 32 9%N) [MkEntry 0 (replicate 32 7%N)].
Definition kw_device : DeviceInfo := MkDevice (replicate 16 1%N) (lit "phone") Android 5 5.


Lemma keystore_roundtrip_witness : ∃ f, save_keystore kw_salt kw_nonce (bstr "pw") kw_contents = Ok f ∧ load_keystore (Some f) (bstr "pw") = Ok kw_contents.
Proof.
  destruct (keystore_roundtrip kw_salt kw_nonce (bstr "pw") kw_contents eq_refl eq_refl) as [(f & k & Hf & Hl & _) _].
  exists f. split; [exact Hf|exact Hl].
Defined.

Lemma exports_roundtrip_witness : from_qr_bytes (to_qr_bytes kw_master) = Ok kw_master ∧
  ∃ b, to_encrypted_backup kw_salt kw_nonce kw_master (lit "pw") = Ok b ∧ from_encrypted_backup b (lit "pw") = Ok kw_master.
Proof.
  destruct (exports_roundtrip kw_salt kw_nonce kw_master (to_qr_bytes kw_master) kw_master (lit "pw") eq_refl eq_refl eq_refl ltac:(discriminate)) as [Hq Hb].
  split; [apply Hq; split; [reflexivity|reflexivity]|exact Hb].
Defined.

Lemma devices_map_witness : ∃ l d, revoke_device (replicate 16 1%N) [kw_device] = Ok (l, d) ∧ get_device (replicate 16 1%N) l = None.
Proof.
  destruct (devices_map [kw_device] (replicate 16 1%N) 7 (lit "x") Desktop (NoDup_singleton _)) as (_ & _ & Hr & _).
  destruct (revoke_device (replicate 16 1%N) [kw_device]) as [[l d]|e] eqn:E; [|vm_compute in E; discriminate].
  exists l, d. split; [reflexivity|]. destruct Hr as (_ & _ & Hr). rewrite Hr. by rewrite decide_True.
Defined.
End witnesses.
