(* ===== verification/IdentityNode.v ===== *)
(** * The identity of a node: [crates/ephemera-node/src/services/identity.rs]

    [IdentityService]: the keystore file and the session file of [Keystore],
    what is in memory while the identity is unlocked, the exports and imports
    of the master secret and the registered devices.  The file system takes
    what it is given; random bytes and clock readings are arguments.  [view]
    is how the services of [HandleNode] see the identity: the pseudonym of the
    master secret and the active index, and the active keypair. *)
From S2P Require Import Prelude Types Crypto Unicode Pow Handles Keystore Ingest Dht NodeDht HandleNode Profiles.

Record IdentityService := MkService {
  keystore_file : option bytes;
  session_file : option str;
  active_keypair : option bytes;
  active_index : N;
  master_secret : option bytes;
  pseudonym_count : N;
  devices : list DeviceInfo
}.
Definition new_service : IdentityService := MkService None None None 0 None 0 [].
Definition with_file f st := MkService f (session_file st) (active_keypair st) (active_index st) (master_secret st) (pseudonym_count st) (devices st).
Definition with_session s st := MkService (keystore_file st) s (active_keypair st) (active_index st) (master_secret st) (pseudonym_count st) (devices st).
Definition with_active k i st := MkService (keystore_file st) (session_file st) k i (master_secret st) (pseudonym_count st) (devices st).
Definition with_master m st := MkService (keystore_file st) (session_file st) (active_keypair st) (active_index st) m (pseudonym_count st) (devices st).
Definition with_count c st := MkService (keystore_file st) (session_file st) (active_keypair st) (active_index st) (master_secret st) c (devices st).
Definition with_devices d st := MkService (keystore_file st) (session_file st) (active_keypair st) (active_index st) (master_secret st) (pseudonym_count st) d.

(** The failures the service tells apart ([NodeServiceError] and [EphemeraError] in its strings). *)
Inductive IdentityFailure :=
| IdentityLocked
| CryptoFailed (e : EphemeraError)
| InvalidInput (reason : string)
| KeystoreFailed (during : string) (e : EphemeraError)
| KeystoreBad (reason : string)
| HexDecode.

Section identity.
Context `{Primitives, Hex, KeyFormats}.
Notation IM := (SE IdentityService IdentityFailure).

Definition crypto {A} (r : result EphemeraError A) : IM A := se_lift (map_err CryptoFailed r).

(** The keystore of a master secret with its first pseudonym. *)
Definition first_contents (master node_secret kp : bytes) : KeystoreContents := MkContents master node_secret [MkEntry 0 kp].

(** Creating leaves the active index as it was. *)
Definition create (master node_secret salt nonce : bytes) (passphrase : str) : IM bytes :=
  let! kp := crypto (derive_pseudonym_key master 0) in
  let! f := se_lift (map_err (KeystoreFailed "save failed") (save_keystore salt nonce (as_bytes passphrase) (first_contents master node_secret kp))) in
  let! _ := se_modify (with_file (Some f)) in
  let! _ := se_modify (λ st, with_active (Some kp) (active_index st) st) in
  let! _ := se_modify (with_master (Some master)) in
  let! _ := se_modify (with_count 1) in
  se_ret (public_key kp).

Definition load_contents (contents : KeystoreContents) : IM N :=
  let count := (N.of_nat (length (c_pseudonym_secrets contents)) mod 2 ^ 32)%N in
  match c_pseudonym_secrets contents with
  | [] => se_lift (Err (KeystoreBad "keystore has no pseudonyms"))
  | active_entry :: _ =>
      let! _ := se_modify (λ st, with_active (Some (entry_secret active_entry)) (index active_entry) st) in
      let! _ := se_modify (with_master (Some (c_master_secret contents))) in
      let! _ := se_modify (with_count count) in
      se_ret count
  end.

Definition unlock (passphrase : str) (remember : bool) : IM N :=
  let! st := se_get in
  let! contents := se_lift (map_err (KeystoreFailed "unlock failed") (load_keystore (keystore_file st) (as_bytes passphrase))) in
  let! _ := se_modify (if remember then match derive_key_for_keystore (keystore_file st) (as_bytes passphrase) with
                                        | Ok derived => with_session (Some (hex_encode derived))
                                        | Err _ => id
                                        end else id) in
  load_contents contents.

(** The number of pseudonyms when a session was there and opened the keystore. *)
Definition auto_unlock : IM (option N) :=
  let! st := se_get in
  match session_file st with
  | None => se_ret None
  | Some contents =>
      match hex_decode (trim contents) with
      | None => let! _ := se_modify (with_session None) in se_lift (Err (KeystoreBad "bad session key"))
      | Some key =>
          if negb (Nat.eqb (length key) 32) then
            let! _ := se_modify (with_session None) in se_lift (Err (KeystoreBad "session key wrong length"))
          else
            match load_keystore_with_key (keystore_file st) key with
            | Ok contents => let! n := load_contents contents in se_ret (Some n)
            | Err _ => let! _ := se_modify (with_session None) in se_ret None
            end
      end
  end.

Definition has_session (st : IdentityService) : bool := bool_decide (is_Some (session_file st)).
Definition has_keystore (st : IdentityService) : bool := bool_decide (is_Some (keystore_file st)).

Definition lock (forget : bool) : IM unit :=
  let! _ := se_modify (λ st, with_active None (active_index st) st) in
  let! _ := se_modify (with_master None) in
  se_modify (if forget then with_session None else id).

(** The public key and the index. *)
Definition get_active (st : IdentityService) : result IdentityFailure (str * N) :=
  let? kp := ok_or (active_keypair st) IdentityLocked in Ok (hex_encode (public_key kp), active_index st).

Fixpoint pseudonyms_from (master : bytes) (fuel : nat) (i : N) : result IdentityFailure (list (N * str)) :=
  match fuel with
  | 0 => Ok []
  | S fuel =>
      let? kp := map_err CryptoFailed (derive_pseudonym_key master i) in
      let? rest := pseudonyms_from master fuel (i + 1) in
      Ok ((i, hex_encode (public_key kp)) :: rest)
  end.
Definition list_pseudonyms (st : IdentityService) : result IdentityFailure (list (N * str)) :=
  let? master := ok_or (master_secret st) IdentityLocked in pseudonyms_from master (N.to_nat (pseudonym_count st)) 0.

Definition switch_pseudonym (i : N) : IM str :=
  let! st := se_get in
  let! master := se_lift (ok_or (master_secret st) IdentityLocked) in
  let i := (i mod 2 ^ 32)%N in
  let! kp := crypto (derive_pseudonym_key master i) in
  let! _ := se_modify (with_active (Some kp) i) in
  se_ret (hex_encode (public_key kp)).

(* ------------------------------------------------------------------ *)
(** ** Exports and imports *)

Definition export_mnemonic (st : IdentityService) : result IdentityFailure (list str) :=
  let? master := ok_or (master_secret st) IdentityLocked in Ok (to_mnemonic master).
(** The payload; the picture of it is drawn by a library. *)
Definition export_qr (st : IdentityService) : result IdentityFailure str :=
  let? master := ok_or (master_secret st) IdentityLocked in Ok (hex_encode (to_qr_bytes master)).
Definition invite_qr (st : IdentityService) : result IdentityFailure str :=
  let? kp := ok_or (active_keypair st) IdentityLocked in Ok (lit "ephemera://connect/" ++ hex_encode (public_key kp)).
Definition export_backup (salt nonce : bytes) (passphrase : str) (st : IdentityService) : result IdentityFailure str :=
  let? master := ok_or (master_secret st) IdentityLocked in
  let? backup := map_err CryptoFailed (to_encrypted_backup salt nonce master passphrase) in
  Ok (hex_encode backup).

Definition import_master_secret (node_secret salt nonce master : bytes) (passphrase : str) : IM bytes :=
  let! kp := crypto (derive_pseudonym_key master 0) in
  let! f := se_lift (map_err (KeystoreFailed "save failed") (save_keystore salt nonce (as_bytes passphrase) (first_contents master node_secret kp))) in
  let! _ := se_modify (with_file (Some f)) in
  let! _ := se_modify (λ st, with_active (Some kp) (active_index st) st) in
  let! _ := se_modify (with_master (Some master)) in
  let! _ := se_modify (λ st, with_active (active_keypair st) 0 st) in
  let! _ := se_modify (with_count 1) in
  se_ret (public_key kp).

Definition import_mnemonic (node_secret salt nonce : bytes) (ws : list str) (passphrase : str) : IM bytes :=
  let! master := crypto (from_mnemonic ws) in import_master_secret node_secret salt nonce master passphrase.
Definition import_backup (node_secret salt nonce : bytes) (backup_hex backup_passphrase new_passphrase : str) : IM bytes :=
  let! d := se_lift (ok_or (hex_decode backup_hex) HexDecode) in
  let! master := crypto (from_encrypted_backup d backup_passphrase) in
  import_master_secret node_secret salt nonce master new_passphrase.
Definition import_qr (node_secret salt nonce : bytes) (qr_hex passphrase : str) : IM bytes :=
  let! d := se_lift (ok_or (hex_decode qr_hex) HexDecode) in
  let! master := crypto (from_qr_bytes d) in
  import_master_secret node_secret salt nonce master passphrase.

(* ------------------------------------------------------------------ *)
(** ** Devices *)

Definition parse_platform (s : str) : result IdentityFailure Platform :=
  let s := to_lowercase s in
  if bool_decide (s = lit "desktop") then Ok Desktop
  else if bool_decide (s = lit "android") then Ok Android
  else if bool_decide (s = lit "ios") then Ok IOS
  else Err (InvalidInput "unknown platform").
Definition register_device_named (id : bytes) (now : N) (nm plat : str) : IM DeviceInfo :=
  let! p := se_lift (parse_platform plat) in
  λ st, let '(l, info) := register_device id now nm p (devices st) in (with_devices l st, Ok info).
Definition list_devices (st : IdentityService) : list DeviceInfo := devices st.
Definition revoke_device_hex (device_id_hex : str) : IM str :=
  let! id := se_lift (ok_or (hex_decode device_id_hex) HexDecode) in
  if negb (Nat.eqb (length id) 16) then se_lift (Err (InvalidInput ("device_id must be 16 bytes, got " +:+ pretty (length id))))
  else λ st,
    match revoke_device id (devices st) with
    | Ok (l, d) => (with_devices l st, Ok (device_name d))
    | Err e => (st, Err (CryptoFailed e))
    end.

(** The identity as the handle service sees it ([get_pseudonym_identity] and
    [get_signing_keypair]). *)
Definition view (st : IdentityService) : Identity :=
  MkIdentity (m ← master_secret st; match derive m (active_index st) with Ok p => Some (key_pair p) | Err _ => None end) (active_keypair st).
End identity.

(* ------------------------------------------------------------------ *)
(** ** Lemmas *)

Section laws.
Context `{Primitives, Hex, KeyFormats, !PrimitiveLaws, !HexLaws, !HexOutput, !KeyFormatLaws}.

Lemma derive_total m i : ∃ kp, derive_pseudonym_key m i = Ok kp ∧ length kp = 32.
Proof. apply hkdf_derive_total. Qed.

(** The file opens with a passphrase, or the key derived from it, and has the
    first pseudonym of a master secret. *)
Definition keeps (pw : str) (m kp k : bytes) (st : IdentityService) : Prop :=
  ∃ f ns, keystore_file st = Some f ∧ load_keystore (Some f) (as_bytes pw) = Ok (first_contents m ns kp) ∧
    derive_key_for_keystore (Some f) (as_bytes pw) = Ok k ∧ length k = 32 ∧ Forall byte_ok k ∧
    load_keystore_with_key (Some f) k = Ok (first_contents m ns kp).
Definition unlocked_as (m kp : bytes) (st : IdentityService) : Prop :=
  active_keypair st = Some kp ∧ active_index st = 0%N ∧ master_secret st = Some m ∧ pseudonym_count st = 1%N.

(** Creating and importing: the file, and what is in memory. *)
Lemma create_identity_ok m ns salt nonce pw st : length salt = 16 → length nonce = NONCE_LEN →
  ∃ kp f k, derive_pseudonym_key m 0 = Ok kp ∧
    create m ns salt nonce pw st =
      (MkService (Some f) (session_file st) (Some kp) (active_index st) (Some m) 1 (devices st), Ok (public_key kp)) ∧
    ∀ st', keystore_file st' = Some f → keeps pw m kp k st'.
Proof.
  intros Hs Hn. destruct (derive_total m 0) as (kp & Hkp & _).
  destruct (load_saved salt nonce (as_bytes pw) (first_contents m ns kp) Hs Hn) as (f & k & Hf & Hload).
  exists kp, f, k. split; [done|]. split; [|intros st' Hst; exists f, ns; split; [exact Hst|exact Hload]].
  unfold create, crypto, se_bind, se_lift, se_modify, se_ret. rewrite Hkp. cbn [map_err]. rewrite Hf. done.
Qed.

Lemma import_ok ns salt nonce m pw st : length salt = 16 → length nonce = NONCE_LEN →
  ∃ kp f k, derive_pseudonym_key m 0 = Ok kp ∧
    import_master_secret ns salt nonce m pw st = (MkService (Some f) (session_file st) (Some kp) 0 (Some m) 1 (devices st), Ok (public_key kp)) ∧
    ∀ st', keystore_file st' = Some f → keeps pw m kp k st'.
Proof.
  intros Hs Hn. destruct (derive_total m 0) as (kp & Hkp & _).
  destruct (load_saved salt nonce (as_bytes pw) (first_contents m ns kp) Hs Hn) as (f & k & Hf & Hload).
  exists kp, f, k. split; [done|]. split; [|intros st' Hst; exists f, ns; split; [exact Hst|exact Hload]].
  unfold import_master_secret, crypto, se_bind, se_lift, se_modify, se_ret. rewrite Hkp. cbn [map_err]. rewrite Hf. done.
Qed.

Lemma load_contents_first m ns kp st :
  load_contents (first_contents m ns kp) st = (MkService (keystore_file st) (session_file st) (Some kp) 0 (Some m) 1 (devices st), Ok 1%N).
Proof. done. Qed.

Lemma unlock_keeps pw remember m kp k st : keeps pw m kp k st →
  unlock pw remember st =
    (MkService (keystore_file st) (if remember then Some (hex_encode k) else session_file st) (Some kp) 0 (Some m) 1 (devices st), Ok 1%N).
Proof.
  intros (f & ns & Hf & Hl & Hd & _). unfold unlock, se_bind, se_get, se_lift, se_modify. rewrite Hf, Hl. cbn [map_err].
  destruct remember; [rewrite Hd|]; rewrite load_contents_first; cbn [keystore_file with_session id]; by rewrite ?Hf.
Qed.

Lemma auto_unlock_keeps pw m kp k st : keeps pw m kp k st → session_file st = Some (hex_encode k) →
  auto_unlock st = (MkService (keystore_file st) (session_file st) (Some kp) 0 (Some m) 1 (devices st), Ok (Some 1%N)).
Proof.
  intros (f & ns & Hf & _ & _ & Hl & Hb & Hk) Hs. unfold auto_unlock, se_bind, se_get. rewrite Hs, trim_hex, hex_decode_encode by done.
  rewrite Hl. cbn [Nat.eqb negb]. rewrite Hf, Hk, load_contents_first. unfold se_ret. by rewrite Hf, Hs.
Qed.

(** The passphrase gives the identity back: after it is created, locking
    takes every key out of memory, and unlocking with the passphrase, or with
    the session that unlocking left when it was asked to, restores the same
    keypair and master secret; a session that locking was to forget opens
    nothing. *)
Theorem identity_restored (m ns salt nonce : bytes) (pw : str) (st : IdentityService) (Hs : length salt = 16) (Hn : length nonce = NONCE_LEN) :
  ∃ kp st1, derive_pseudonym_key m 0 = Ok kp ∧ create m ns salt nonce pw st = (st1, Ok (public_key kp)) ∧ active_keypair st1 = Some kp ∧
  ∀ remember forget, let st2 := (lock forget st1).1 in
    get_active st2 = Err IdentityLocked ∧ export_mnemonic st2 = Err IdentityLocked ∧
    ∃ st3, unlock pw remember st2 = (st3, Ok 1%N) ∧ unlocked_as m kp st3 ∧
      (remember = true → ∃ st4, auto_unlock (lock false st3).1 = (st4, Ok (Some 1%N)) ∧ unlocked_as m kp st4) ∧
      auto_unlock (lock true st3).1 = ((lock true st3).1, Ok None).
Proof.
  destruct (create_identity_ok m ns salt nonce pw st Hs Hn) as (kp & f & k & Hkp & Hc & Hkeeps). exists kp. eexists.
  split; [done|]. split; [exact Hc|]. split; [done|]. intros remember forget st2. split; [by destruct forget|]. split; [by destruct forget|].
  assert (Hf : keystore_file st2 = Some f) by (by destruct forget). eexists. split; [apply unlock_keeps, Hkeeps, Hf|]. split; [done|]. split; [|done].
  intros ->. eexists. split; [eapply auto_unlock_keeps; [by apply Hkeeps|done]|done].
Qed.

(** The master secret moves the whole identity: what an unlocked node
    exports as words, as a QR payload or as a backup makes the same first
    pseudonym the active identity of any node that imports it, with index
    zero and in a keystore of its own that its passphrase opens. *)
Theorem identity_transferred (m ns salt nonce : bytes) (bp pw : str) (a b : IdentityService)
    (Hs : length salt = 16) (Hn : length nonce = NONCE_LEN) (Ha : master_secret a = Some m) (Hm : length m = 32) (Hb : Forall byte_ok m)
    (Hbp : bp ≠ []) (Hbytes : ∀ d, to_encrypted_backup salt nonce m bp = Ok d → Forall byte_ok d) (Hqr : Forall byte_ok (to_qr_bytes m)) :
  ∃ kp k ws qr backup b', derive_pseudonym_key m 0 = Ok kp ∧ unlocked_as m kp b' ∧ keeps pw m kp k b' ∧
    export_mnemonic a = Ok ws ∧ import_mnemonic ns salt nonce ws pw b = (b', Ok (public_key kp)) ∧
    export_qr a = Ok qr ∧ import_qr ns salt nonce qr pw b = (b', Ok (public_key kp)) ∧
    export_backup salt nonce bp a = Ok backup ∧ import_backup ns salt nonce backup bp pw b = (b', Ok (public_key kp)).
Proof.
  destruct (import_ok ns salt nonce m pw b Hs Hn) as (kp & f & k & Hkp & Hi & Hkeeps).
  destruct (backup_restored salt nonce m bp Hs Hn Hm Hbp) as (d & Hd & Hd').
  exists kp, k, (to_mnemonic m), (hex_encode (to_qr_bytes m)), (hex_encode d). exists (MkService (Some f) (session_file b) (Some kp) 0 (Some m) 1 (devices b)).
  split; [done|]. split; [done|]. split; [by apply Hkeeps|].
  unfold export_mnemonic, export_qr, export_backup. rewrite Ha. cbn [ok_or result_bind]. rewrite Hd. cbn [map_err result_bind].
  split; [done|]. split; [|split; [done|split; [|split; [done|]]]].
  - unfold import_mnemonic, crypto, se_bind at 1, se_lift at 1. rewrite (from_to_mnemonic _ m) by (done || by apply to_mnemonic_lower). exact Hi.
  - unfold import_qr, crypto, se_bind at 1 2, se_lift at 1 2. rewrite hex_decode_encode by done. cbn [ok_or].
    rewrite (proj2 (from_qr_iff _ m)) by done. exact Hi.
  - unfold import_backup, crypto, se_bind at 1 2, se_lift at 1 2. rewrite hex_decode_encode by (by apply Hbytes). cbn [ok_or]. rewrite Hd'. exact Hi.
Qed.

(* ------------------------------------------------------------------ *)
(** ** The states of the service *)

(** Everything that changes the state, and when creating is safe. *)
Inductive op :=
| OCreate (m ns salt nonce : bytes) (pw : str)
| OUnlock (pw : str) (remember : bool)
| OAutoUnlock
| OLock (forget : bool)
| OSwitch (i : N)
| OImportMnemonic (ns salt nonce : bytes) (ws : list str) (pw : str)
| OImportBackup (ns salt nonce : bytes) (backup bp pw : str)
| OImportQr (ns salt nonce : bytes) (qr pw : str)
| ORegisterDevice (id : bytes) (now : N) (nm plat : str)
| ORevokeDevice (id : str).
Definition step (st : IdentityService) (o : op) : IdentityService :=
  match o with
  | OCreate m ns salt nonce pw => (create m ns salt nonce pw st).1
  | OUnlock pw remember => (unlock pw remember st).1
  | OAutoUnlock => (auto_unlock st).1
  | OLock forget => (lock forget st).1
  | OSwitch i => (switch_pseudonym i st).1
  | OImportMnemonic ns salt nonce ws pw => (import_mnemonic ns salt nonce ws pw st).1
  | OImportBackup ns salt nonce backup bp pw => (import_backup ns salt nonce backup bp pw st).1
  | OImportQr ns salt nonce qr pw => (import_qr ns salt nonce qr pw st).1
  | ORegisterDevice id now nm plat => (register_device_named id now nm plat st).1
  | ORevokeDevice id => (revoke_device_hex id st).1
  end.
Definition drawn (salt nonce : bytes) : Prop := length salt = 16 ∧ length nonce = NONCE_LEN.
Definition safe (st : IdentityService) (o : op) : Prop :=
  match o with
  | OCreate _ _ salt nonce _ => drawn salt nonce ∧ active_index st = 0%N
  | OImportMnemonic _ salt nonce _ _ | OImportBackup _ salt nonce _ _ _ | OImportQr _ salt nonce _ _ => drawn salt nonce
  | _ => True
  end.
Inductive reach : IdentityService → Prop :=
| reach_new : reach new_service
| reach_step st o : reach st → safe st o → reach (step st o).

(** What is in memory belongs together. *)
Definition coherent (st : IdentityService) : Prop :=
  match active_keypair st with
  | Some kp => ∃ m, master_secret st = Some m ∧ derive_pseudonym_key m (active_index st) = Ok kp
  | None => master_secret st = None
  end.
(** Whatever opens the file finds a master secret with its first pseudonym. *)
Definition file_ok (st : IdentityService) : Prop :=
  ∀ contents, (∃ pw, load_keystore (keystore_file st) pw = Ok contents) ∨ (∃ k, load_keystore_with_key (keystore_file st) k = Ok contents) →
    ∃ m ns kp, contents = first_contents m ns kp ∧ derive_pseudonym_key m 0 = Ok kp.

(** A sealed text opens as what was sealed, or not at all. *)
Context (sealed_once : ∀ k k' nonce p c p', xchacha_encrypt k nonce p = Ok c → xchacha_decrypt k' nonce c = Ok p' → p' = p).

Lemma open_master_sealed k k' nonce p c p' : length nonce = NONCE_LEN → Crypto.seal nonce k p = Ok c → Crypto.open k' c = Ok p' → p' = p.
Proof.
  intros Hn. unfold Crypto.seal, Crypto.open, encrypt, decrypt. destruct (xchacha_encrypt k nonce p) as [ct|] eqn:E; [|done].
  cbn [map_err result_bind]. intros [= <-]. destruct (_ <? _); [done|]. rewrite take_app_length', drop_app_length' by done.
  destruct (xchacha_decrypt k' nonce ct) as [q|] eqn:E'; [|done]. intros [= <-]. by eapply sealed_once.
Qed.

(** Only what was saved is ever loaded. *)
Lemma load_only_saved salt nonce pw contents f c : length salt = 16 → length nonce = NONCE_LEN → save_keystore salt nonce pw contents = Ok f →
  (∃ pw', load_keystore (Some f) pw' = Ok c) ∨ (∃ k, load_keystore_with_key (Some f) k = Ok c) → c = contents.
Proof.
  intros Hs Hn. unfold save_keystore, derive_key_from_passphrase. destruct (contents_parse contents) as (p & Hp & Hpc). rewrite Hp.
  destruct (argon2id_total pw salt Hs) as (k & Hk & _). rewrite Hk. cbn [map_err result_bind].
  destruct (sealed_file KEYSTORE_VERSION salt nonce k p eq_refl Hs Hn) as (sl & Hsl & _ & _ & Hsalt & Hrest & _). rewrite Hsl. cbn [result_bind].
  intros [= <-]. assert (Ho : ∀ fl, open_file (Some (KEYSTORE_VERSION ++ salt ++ sl)) = Ok fl → fl = (salt, sl)).
  { intros fl. unfold open_file. destruct (_ <? _); [done|]. destruct (negb _); [done|]. change SALT_LEN with 16. rewrite Hsalt, Hrest. by intros [= <-]. }
  assert (Hopen : ∀ k' q, Crypto.open k' sl = Ok q → parse_contents q = Ok c → c = contents).
  { intros k' q Hq. rewrite (open_master_sealed _ _ _ _ _ _ Hn Hsl Hq). unfold parse_contents. rewrite Hpc. by intros [= <-]. }
  unfold load_keystore, load_keystore_with_key. destruct (open_file _) as [fl|e]; [|by intros [[? ?]|[? ?]]].
  rewrite (Ho fl eq_refl). cbn [result_bind fst snd]. intros [[pw' Hl]|[k' Hl]].
  - destruct (derive_key_from_passphrase pw' salt) as [k'|]; [|done]. cbn [result_bind] in Hl. destruct (Crypto.open k' sl) as [q|] eqn:Eq; [|done]. by eapply Hopen.
  - destruct (Crypto.open k' sl) as [q|] eqn:Eq; [|done]. by eapply Hopen.
Qed.

Lemma saved_file_ok salt nonce pw m ns kp f st : drawn salt nonce → derive_pseudonym_key m 0 = Ok kp →
  save_keystore salt nonce pw (first_contents m ns kp) = Ok f → keystore_file st = Some f → file_ok st.
Proof.
  intros [Hs Hn] Hkp Hf Hst contents. rewrite Hst. intros Hl. rewrite (load_only_saved _ _ _ _ _ _ Hs Hn Hf Hl). by exists m, ns, kp.
Qed.

Lemma file_ok_same st st' : keystore_file st' = keystore_file st → file_ok st → file_ok st'.
Proof. unfold file_ok. by intros ->. Qed.

Definition good (st : IdentityService) : Prop := coherent st ∧ file_ok st.

Lemma load_contents_good st contents : good st →
  (∃ pw, load_keystore (keystore_file st) pw = Ok contents) ∨ (∃ k, load_keystore_with_key (keystore_file st) k = Ok contents) →
  ∀ sess, good (load_contents contents (with_session sess st)).1.
Proof.
  intros [_ Hf] Hl sess. destruct (Hf _ Hl) as (m & ns & kp & -> & Hkp). rewrite load_contents_first. split; [by exists m|].
  by eapply file_ok_same, Hf.
Qed.

Lemma import_good ns salt nonce m pw st : drawn salt nonce → good (import_master_secret ns salt nonce m pw st).1.
Proof.
  intros Hd. destruct (derive_total m 0) as (kp & Hkp & _). unfold import_master_secret, crypto, se_bind, se_lift, se_modify, se_ret.
  rewrite Hkp. cbn [map_err]. destruct (load_saved salt nonce (as_bytes pw) (first_contents m ns kp)) as (f & _ & Hf & _); [apply Hd..|].
  rewrite Hf. split; [by exists m|]. by eapply saved_file_ok.
Qed.

Lemma identity_step_good st o : good st → safe st o → good (step st o).
Proof.
  intros Hg. pose proof Hg as [Hc Hf]. destruct o; cbn [safe step].
  - intros [Hd Hi]. destruct (derive_total m 0) as (kp & Hkp & _). unfold create, crypto, se_bind, se_lift, se_modify, se_ret.
    rewrite Hkp. cbn [map_err]. destruct (load_saved salt nonce (as_bytes pw) (first_contents m ns kp)) as (f & _ & Hsv & _); [apply Hd..|].
    rewrite Hsv. split; [exists m; cbn; by rewrite Hi|]. by eapply saved_file_ok.
  - intros _. unfold unlock, se_bind, se_get, se_lift, se_modify. destruct (load_keystore _ _) as [c|] eqn:El; [|done]. cbn [map_err].
    assert (Hl : ∀ sess, good (load_contents c (with_session sess st)).1) by (apply load_contents_good; [done|left; by eexists]).
    destruct remember; [destruct (derive_key_for_keystore _ _); [apply Hl|]|]; specialize (Hl (session_file st)); by destruct st.
  - intros _. unfold auto_unlock, se_bind, se_get. destruct (session_file st) as [s|] eqn:Es; [|done].
    assert (Hno : ∀ sess, good (with_session sess st)) by (intros sess; split; [exact Hc|by eapply file_ok_same, Hf]).
    destruct (hex_decode _) as [k|]; [|apply Hno]. destruct (negb _); [apply Hno|].
    destruct (load_keystore_with_key _ _) as [c|] eqn:El; [|apply Hno].
    pose proof (load_contents_good st c Hg (or_intror (ex_intro _ k El)) (session_file st)) as Hl.
    replace (with_session (session_file st) st) with st in Hl by (by destruct st). by destruct (load_contents c st) as [st' [n|]].
  - intros _. split; [by destruct forget|]. eapply file_ok_same; [|exact Hf]. by destruct forget.
  - intros _. unfold switch_pseudonym, crypto, se_bind, se_get, se_lift, se_modify. destruct (master_secret st) as [m|] eqn:Em; [|done]. cbn [ok_or].
    destruct (derive_total m (i mod 2 ^ 32)) as (kp & Hkp & _). rewrite Hkp. cbn [map_err]. split; [by exists m|]. by eapply file_ok_same, Hf.
  - intros Hd. unfold import_mnemonic, crypto, se_bind at 1, se_lift at 1. destruct (from_mnemonic ws); [by apply import_good|done].
  - intros Hd. unfold import_backup, crypto, se_bind at 1 2, se_lift at 1 2. destruct (hex_decode backup) as [d|]; [|done]. cbn [ok_or].
    destruct (from_encrypted_backup d bp); [by apply import_good|done].
  - intros Hd. unfold import_qr, crypto, se_bind at 1 2, se_lift at 1 2. destruct (hex_decode qr) as [d|]; [|done]. cbn [ok_or].
    destruct (from_qr_bytes d); [by apply import_good|done].
  - intros _. unfold register_device_named, se_bind, se_lift. destruct (parse_platform plat); [|done]. split; [exact Hc|]. by eapply file_ok_same, Hf.
  - intros _. unfold revoke_device_hex, se_bind, se_lift. destruct (hex_decode id) as [d|]; [|done]. cbn [ok_or]. destruct (negb _); [done|].
    destruct (revoke_device d (devices st)) as [[l dv]|]; [|done]. split; [exact Hc|]. by eapply file_ok_same, Hf.
Qed.

End laws.

(* ------------------------------------------------------------------ *)
(** ** Creating over another pseudonym *)

Section split_identity.
Context `{Primitives, Hex, KeyFormats, DhtJson, !PrimitiveLaws, !HexLaws, !HexOutput, !KeyFormatLaws}.

(** Registering in an empty registry leaves one name. *)
Lemma register_new fuel n seed now r h : Handles.register fuel n seed now Handles.new = (r, Ok h) →
  owner_to_handle r = {[ public_key seed := to_ascii_lowercase n ]}.
Proof.
  unfold Handles.register, Handles.register_with_difficulty, check_owner, check_rate, check_name, check_cooldown, se_bind, se_lift, se_get, se_modify, se_ret.
  destruct (validate_handle_format _); [|done]. cbn [map_err new owner_to_handle handles last_registration cooldowns].
  rewrite !lookup_empty. destruct (generate_pow _ _ _); [|done]. cbn [map_err]. destruct (sign_record _ _ _ _); [|done]. cbn [map_err].
  by intros [= <- _].
Qed.

(** Creating an identity while pseudonym [i] of the old one is active
    leaves the index: the new node shows index [i] with the key of index 0,
    and signs as the first pseudonym while handles are registered for
    pseudonym [i]; so the handle that it registers is not its own. *)
Theorem create_splits_identity (m ns salt nonce : bytes) (pw : str) (st : IdentityService) (k0 ki : bytes)
    (Hs : length salt = 16) (Hn : length nonce = NONCE_LEN) (H0k : derive_pseudonym_key m 0 = Ok k0)
    (Hik : derive_pseudonym_key m (active_index st) = Ok ki) (Hne : public_key ki ≠ public_key k0) :
  let st' := (create m ns salt nonce pw st).1 in
  get_active st' = Ok (hex_encode (public_key k0), active_index st) ∧ view st' = MkIdentity (Some ki) (Some k0) ∧
  ∀ fuel n now s r v, register fuel n (view st') now (MkHandleNode Handles.new s []) = (r, Ok v) →
    lookup_by_owner (registry r) (public_key ki) ≠ None ∧ ∀ t, my_handle t (view st') r = Ok None.
Proof.
  cbv zeta. destruct (create_identity_ok m ns salt nonce pw st Hs Hn) as (kp & f & k & Hkp & -> & _).
  rewrite H0k in Hkp. injection Hkp as <-. cbn [fst]. unfold get_active. cbn [active_keypair active_index ok_or result_bind]. split; [done|].
  assert (Hview : view (MkService (Some f) (session_file st) (Some k0) (active_index st) (Some m) 1 (devices st)) = MkIdentity (Some ki) (Some k0)).
  { unfold view. cbn. unfold derive. by rewrite Hik. }
  rewrite Hview. split; [done|]. intros fuel n now s r v Hreg.
  unfold register, get_pseudonym_identity, on_registry, se_bind, se_lift, se_map_err, se_zoom, se_ret in Hreg. cbn [pseudonym ok_or registry] in Hreg.
  pose proof (register_triple fuel (to_ascii_lowercase n) ki (calculate_pow_difficulty (to_ascii_lowercase n)) now _ new_indexed) as [_ HQ].
  pose proof (register_new fuel n ki now) as Hnew. unfold Handles.register in *.
  destruct (Handles.register_with_difficulty _ _ _ _ _ _) as [r' [h|]]; [|done]. specialize (Hnew r' h eq_refl).
  destruct (HQ h eq_refl) as (_ & _ & _ & _ & _ & _ & _ & Hl & _). cbn [fst snd map_err] in *. injection Hreg as <- _.
  unfold my_handle, active_key, lookup_by_owner. cbn. rewrite Hnew. split.
  - rewrite lookup_singleton_eq. cbn. by rewrite Hl.
  - intros t. by rewrite lookup_singleton_ne.
Qed.
End split_identity.

(* ------------------------------------------------------------------ *)
(** ** Witnesses *)

Section witnesses.
Import Toy HexToy KeyToy.
#[local] Existing Instance toy.

Definition iw_pw : str := lit "correct horse".
Definition iw_created := create kw_master (replicate 32 9%N) kw_salt kw_nonce iw_pw new_service.

Lemma identity_restored_witness : ∃ kp st3,
  unlock iw_pw true (lock true iw_created.1).1 = (st3, Ok 1%N) ∧ active_keypair st3 = Some kp ∧ active_keypair iw_created.1 = Some kp.
Proof.
  destruct (identity_restored kw_master (replicate 32 9%N) kw_salt kw_nonce iw_pw new_service eq_refl eq_refl) as (kp & st1 & _ & Hc & Hk & Hr).
  destruct (Hr true true) as (_ & _ & st3 & Hu & [H3 _] & _). exists kp, st3. unfold iw_created. rewrite Hc. split; [exact Hu|]. split; [exact H3|exact Hk].
Defined.

Lemma toy_bytes m : Forall byte_ok (mix m).
Proof. apply be_bytes_ok. Qed.

Definition iw_master_bytes : Forall byte_ok kw_master.
Proof. unfold kw_master. repeat (constructor; [unfold byte_ok; lia|]). constructor. Defined.

Lemma iw_backup_ok salt nonce m pw d : Forall byte_ok salt → Forall byte_ok nonce → Forall byte_ok m →
  to_encrypted_backup salt nonce m pw = Ok d → Forall byte_ok d.
Proof.
  intros Hs Hn Hm. unfold to_encrypted_backup, derive_backup_key, Crypto.seal, encrypt. destruct (bool_decide _); [done|].
  cbn [argon2id_into formats xchacha_encrypt toy map_err result_bind]. set (k := mix _). intros [= <-].
  assert (Ht : Forall byte_ok (tag k nonce m)) by exact (Forall_take byte_ok 16 _ (toy_bytes _)).
  assert (Hr : Forall byte_ok (salt ++ nonce ++ m ++ tag k nonce m)) by (by repeat (apply Forall_app; split)).
  unfold BACKUP_VERSION. cbn [app]. repeat (constructor; [unfold byte_ok; lia|]). exact Hr.
Qed.
Lemma iw_backup_bytes d : to_encrypted_backup kw_salt kw_nonce kw_master (lit "pw") = Ok d → Forall byte_ok d.
Proof. apply iw_backup_ok; [apply Forall_replicate; unfold byte_ok; lia..|exact iw_master_bytes]. Qed.

Definition iw_sender : IdentityService := MkService None None None 0 (Some kw_master) 1 [].

Lemma identity_transferred_witness : ∃ kp ws b',
  export_mnemonic iw_sender = Ok ws ∧ import_mnemonic (replicate 32 9%N) kw_salt kw_nonce ws iw_pw new_service = (b', Ok (public_key kp)) ∧
  active_keypair b' = Some kp.
Proof.
  destruct (identity_transferred kw_master (replicate 32 9%N) kw_salt kw_nonce (lit "pw") iw_pw iw_sender new_service)
    as (kp & k & ws & qr & backup & b' & _ & [Hk _] & _ & He & Hi & _).
  - reflexivity.
  - reflexivity.
  - reflexivity.
  - reflexivity.
  - exact iw_master_bytes.
  - discriminate.
  - exact iw_backup_bytes.
  - unfold to_qr_bytes. apply Forall_app. split; [constructor; [unfold byte_ok, QR_VERSION; lia|exact iw_master_bytes]|].
    apply Forall_take. exact (toy_bytes _).
  - exists kp, ws, b'. split; [exact He|]. split; [exact Hi|exact Hk].
Defined.

Lemma toy_sealed_once (k k' nonce p c p' : bytes) : xchacha_encrypt k nonce p = Ok c → xchacha_decrypt k' nonce c = Ok p' → p' = p.
Proof.
  cbn. intros [= <-]. case_bool_decide; [|done]. intros [= <-]. rewrite length_app, length_tag, Nat.add_sub. apply take_app_length.
Qed.

Definition iw_switched : IdentityService := step (step new_service (OCreate kw_master (replicate 32 9%N) kw_salt kw_nonce iw_pw)) (OSwitch 3).
Lemma iw_reach : reach iw_switched.
Proof. apply reach_step; [apply reach_step; [apply reach_new|]|]; repeat split. Qed.


Lemma create_splits_identity_witness : ∃ k0 ki, k0 ≠ ki ∧
  view (create kw_master (replicate 32 9%N) kw_salt kw_nonce iw_pw iw_switched).1 = MkIdentity (Some ki) (Some k0).
Proof.
  destruct (derive_total kw_master 0) as (k0 & Hk0 & _). destruct (derive_total kw_master 3) as (ki & Hki & _).
  assert (Hne : public_key ki ≠ public_key k0).
  { assert (E : match derive_pseudonym_key kw_master 3, derive_pseudonym_key kw_master 0 with Ok a, Ok b => bool_decide (a = b) | _, _ => true end = false)
      by (vm_compute; reflexivity). rewrite Hk0, Hki in E. by apply bool_decide_eq_false in E. }
  exists k0, ki. split; [intros ->; done|].
  apply (create_splits_identity kw_master (replicate 32 9%N) kw_salt kw_nonce iw_pw iw_switched k0 ki); [reflexivity|reflexivity|exact Hk0|exact Hki|exact Hne].
Defined.
End witnesses.
