(* ===== verification/Video.v ===== *)
(** * Video metadata

    [ephemera-media/src/video_metadata.rs]: the walk over the boxes of an MP4
    file that zeroes user data and timestamps in place ([strip_boxes_recursive])
    and the walk that looks for user data that is left
    ([scan_for_metadata_boxes]).  Positions and sizes are [usize]s of 64 bits,
    so [pos + actual_size] wraps in the release profile; an index or slice out
    of range panics.  Both loops recurse into container boxes, so they run
    under fuel; [strip_runs] says when the length of the file is enough, and
    [strip_diverges] that nothing is enough for a file of 24 bytes. *)
From S2P Require Import Prelude.

(** [MediaError] of [lib.rs]; the messages are kept. *)
Inductive MediaError : Type :=
| Validation (msg : string)
| UnsupportedFormat (msg : string)
| Processing (msg : string).

#[global] Instance media_error_eq_dec : EqDecision MediaError.
Proof. solve_decision. Defined.

(** What running a loop does: it comes back with its result, panics, or is
    still running when the fuel ends. *)
Inductive run (A : Type) : Type :=
| Returns (r : result MediaError A)
| Panics
| OutOfFuel.
Arguments Returns {A} _.
Arguments Panics {A}.
Arguments OutOfFuel {A}.

Definition run_bind {A B} (m : run A) (k : A → run B) : run B :=
  match m with
  | Returns (Ok a) => k a
  | Returns (Err e) => Returns (Err e)
  | Panics => Panics
  | OutOfFuel => OutOfFuel
  end.
Notation "'let*' x ':=' m 'in' k" := (run_bind m (fun x => k))
  (at level 10, x pattern, m at level 100, k at level 200) : eph_scope.

(* ------------------------------------------------------------------ *)
(** ** Slices *)

Definition len (data : bytes) : N := N.of_nat (length data).

(** [&data\[a..b\]]. *)
Definition slice (data : bytes) (a b : N) : run bytes :=
  if (a <=? b)%N && (b <=? len data)%N
  then Returns (Ok (take (N.to_nat (b - a)) (drop (N.to_nat a) data)))
  else Panics.

(** [data\[i\]]. *)
Definition index (data : bytes) (i : N) : run N :=
  if (i <? len data)%N then Returns (Ok (data !!! N.to_nat i)) else Panics.

(** [data\[a..b\].fill(0)], with the bounds already checked. *)
Definition fill_zero (data : bytes) (a b : N) : bytes :=
  take (N.to_nat a) data ++ replicate (N.to_nat (b - a)) 0%N ++ drop (N.to_nat b) data.

Definition fill (data : bytes) (a b : N) : run bytes :=
  if (a <=? b)%N && (b <=? len data)%N then Returns (Ok (fill_zero data a b)) else Panics.

(* ------------------------------------------------------------------ *)
(** ** Reading boxes *)

Definition METADATA_BOX_TYPES : list bytes := [bstr "udta"; bstr "meta"; bstr "uuid"].

Definition is_metadata_box (box_type : bytes) : bool := existsb (λ mt, bool_decide (box_type = mt)) METADATA_BOX_TYPES.

Definition is_container (box_type : bytes) : bool :=
  bool_decide (box_type = bstr "moov") || bool_decide (box_type = bstr "trak") || bool_decide (box_type = bstr "mdia").

Definition read_box_size (data : bytes) (pos : N) : run N :=
  if (len data <? add64 pos 4)%N then Returns (Err (Processing "truncated MP4 box header"))
  else let* b := slice data pos (add64 pos 4) in Returns (Ok (be_value b)).

Definition read_u64 (data : bytes) (pos : N) : run N :=
  let* b := slice data pos (add64 pos 8) in Returns (Ok (be_value b)).

(** The size a box says it has: [None] where the extended size is cut off. *)
Definition actual_size (data : bytes) (box_size pos end_ : N) : run (option N) :=
  if (box_size =? 0)%N then Returns (Ok (Some (end_ - pos)%N))
  else if (box_size =? 1)%N then
    if (end_ <? add64 pos 16)%N then Returns (Ok None)
    else let* n := read_u64 data (add64 pos 8) in Returns (Ok (Some n))
  else Returns (Ok (Some box_size)).

(* ------------------------------------------------------------------ *)
(** ** Stripping *)

Definition zero_box_contents (data : bytes) (pos size : N) : run bytes :=
  let content_start := add64 pos 8 in
  let content_end := add64 pos size in
  if (content_start <? content_end)%N && (content_end <=? len data)%N
  then fill data content_start content_end
  else Returns (Ok data).

Definition strip_mvhd_timestamps (data : bytes) (pos size : N) : run bytes :=
  if (size <? 20)%N then Returns (Ok data)
  else
    let* version := index data (add64 pos 8) in
    let ts_start := add64 (add64 pos 8) 4 in
    if (version =? 0)%N && (8 + 4 + 8 <=? size)%N then fill data ts_start (add64 ts_start 8)
    else if (version =? 1)%N && (8 + 4 + 16 <=? size)%N then fill data ts_start (add64 ts_start 16)
    else Returns (Ok data).

Definition strip_tkhd_timestamps : bytes → N → N → run bytes := strip_mvhd_timestamps.

Fixpoint strip_boxes_recursive (fuel : nat) (data : bytes) (pos end_ : N) : run bytes :=
  match fuel with
  | O => OutOfFuel
  | S fuel =>
    if (add64 pos 8 <=? end_)%N then
      let* box_size := read_box_size data pos in
      let* box_type := slice data (add64 pos 4) (add64 pos 8) in
      let* size := actual_size data box_size pos end_ in
      match size with
      | None => Returns (Err (Processing "truncated MP4 box with extended size"))
      | Some size =>
        if (size <? 8)%N || (end_ <? add64 pos size)%N then Returns (Ok data)
        else
          let* data' :=
            if is_metadata_box box_type then zero_box_contents data pos size
            else if is_container box_type then
              strip_boxes_recursive fuel data (add64 pos (if (box_size =? 1)%N then 16 else 8)) (add64 pos size)
            else if bool_decide (box_type = bstr "mvhd") then strip_mvhd_timestamps data pos size
            else if bool_decide (box_type = bstr "tkhd") then strip_tkhd_timestamps data pos size
            else Returns (Ok data) in
          strip_boxes_recursive fuel data' (add64 pos size) end_
      end
    else Returns (Ok data)
  end.

(** The length of the file is enough fuel, when any is. *)
Definition strip_video_metadata (data : bytes) : run bytes := strip_boxes_recursive (S (length data)) data 0 (len data).

(* ------------------------------------------------------------------ *)
(** ** Looking for what is left *)

Definition has_content (data : bytes) : bool := existsb (λ b, negb (b =? 0)%N) data.

Fixpoint scan_for_metadata_boxes (fuel : nat) (data : bytes) (pos end_ : N) : run bool :=
  match fuel with
  | O => OutOfFuel
  | S fuel =>
    if (add64 pos 8 <=? end_)%N then
      match read_box_size data pos with
      | Returns (Err _) => Returns (Ok false)
      | r =>
        let* box_size := r in
        let* box_type := slice data (add64 pos 4) (add64 pos 8) in
        let* size := actual_size data box_size pos end_ in
        match size with
        | None => Returns (Ok false)
        | Some size =>
          if (size <? 8)%N || (end_ <? add64 pos size)%N then Returns (Ok false)
          else
            let* found :=
              if is_metadata_box box_type then
                if (add64 pos 8 <? add64 pos size)%N
                then let* c := slice data (add64 pos 8) (add64 pos size) in Returns (Ok (has_content c))
                else Returns (Ok false)
              else if is_container box_type then
                scan_for_metadata_boxes fuel data (add64 pos (if (box_size =? 1)%N then 16 else 8)) (add64 pos size)
              else Returns (Ok false) in
            if found : bool then Returns (Ok true) else scan_for_metadata_boxes fuel data (add64 pos size) end_
        end
      end
    else Returns (Ok false)
  end.

Definition verify_metadata_stripped (data : bytes) : run bool :=
  let* b := scan_for_metadata_boxes (S (length data)) data 0 (len data) in Returns (Ok (negb b)).


(* ------------------------------------------------------------------ *)
(** ** Zeroing *)

(** [out] is [data] with some bytes in [\[a, b)] zeroed. *)
Definition zeroed_in (a b : N) (data out : bytes) : Prop :=
  length out = length data ∧
  ∀ i, out !! N.to_nat i = data !! N.to_nat i ∨ ((a ≤ i < b)%N ∧ out !! N.to_nat i = Some 0%N).

(** Two files of one length with the same bytes in [\[a, b)]. *)
Definition agree (a b : N) (x y : bytes) : Prop :=
  length x = length y ∧ ∀ i, (a ≤ i < b)%N → x !! N.to_nat i = y !! N.to_nat i.

(** [k] bytes from [p]. *)
Definition sub (data : bytes) (p : N) (k : nat) : bytes := take k (drop (N.to_nat p) data).

Lemma zeroed_refl a b d : zeroed_in a b d d.
Proof. split; [done|]. auto. Qed.

Lemma zeroed_trans a b x y z : zeroed_in a b x y → zeroed_in a b y z → zeroed_in a b x z.
Proof.
  intros [L1 H1] [L2 H2]. split; [by rewrite L2|]. intros i.
  destruct (H2 i) as [E|?]; [|by right]. rewrite E. apply H1.
Qed.

Lemma zeroed_weaken a b a' b' x y : (a' ≤ a)%N → (b ≤ b')%N → zeroed_in a b x y → zeroed_in a' b' x y.
Proof. intros Ha Hb [L Hz]. split; [done|]. intros i. destruct (Hz i) as [|[? ?]]; [by left|right]. split; [lia|done]. Qed.

Lemma zeroed_agree a b c d x y : (d ≤ a ∨ b ≤ c)%N → zeroed_in a b x y → agree c d x y.
Proof. intros Hd [L Hz]. split; [done|]. intros i Hi. destruct (Hz i) as [->|[? _]]; [done|lia]. Qed.

Lemma zeroed_len a b x y : zeroed_in a b x y → len y = len x.
Proof. intros [L _]. unfold len. by rewrite L. Qed.

Lemma agree_len a b x y : agree a b x y → len x = len y.
Proof. intros [L _]. unfold len. by rewrite L. Qed.

Lemma agree_sym a b x y : agree a b x y → agree a b y x.
Proof. intros [L Ha]. split; [done|]. intros i Hi. by rewrite Ha. Qed.

Lemma agree_trans a b x y z : agree a b x y → agree a b y z → agree a b x z.
Proof. intros [L1 H1] [L2 H2]. split; [by rewrite L1|]. intros i Hi. by rewrite H1, H2. Qed.

Lemma agree_weaken a b a' b' x y : (a ≤ a')%N → (b' ≤ b)%N → agree a b x y → agree a' b' x y.
Proof. intros ?? [L Ha]. split; [done|]. intros i Hi. apply Ha. lia. Qed.

Lemma sub_agree a b x y p k : agree a b x y → (a ≤ p)%N → (p + N.of_nat k ≤ b)%N → sub x p k = sub y p k.
Proof.
  intros [L Ha] Hp Hk. unfold sub. apply list_eq. intros j. destruct (decide (j < k)).
  - rewrite !lookup_take_lt, !lookup_drop by lia. specialize (Ha (p + N.of_nat j)%N ltac:(lia)).
    replace (N.to_nat (p + N.of_nat j)) with (N.to_nat p + j) in Ha by lia. done.
  - by rewrite !lookup_take_ge by lia.
Qed.

Lemma length_sub data p k : (p + N.of_nat k ≤ len data)%N → length (sub data p k) = k.
Proof. unfold sub, len. intros Hp. rewrite length_take, length_drop. lia. Qed.

Lemma slice_sub data a b k : b = (a + N.of_nat k)%N → (b ≤ len data)%N → slice data a b = Returns (Ok (sub data a k)).
Proof.
  intros -> Hb. unfold slice, sub. rewrite (proj2 (N.leb_le _ _)) by lia. rewrite (proj2 (N.leb_le _ _)) by done. cbn [andb].
  by replace (N.to_nat (a + N.of_nat k - a)) with k by lia.
Qed.

Lemma length_fill data a b : (a ≤ b)%N → (b ≤ len data)%N → length (fill_zero data a b) = length data.
Proof. unfold fill_zero, len. intros ??. rewrite !length_app, length_take, length_replicate, length_drop. lia. Qed.

Lemma lookup_fill data a b i : (a ≤ b)%N → (b ≤ len data)%N →
  fill_zero data a b !! N.to_nat i = if bool_decide (a ≤ i < b)%N then Some 0%N else data !! N.to_nat i.
Proof.
  unfold fill_zero, len. intros Hab Hb. case_bool_decide as Hi.
  - rewrite lookup_app_r by (rewrite length_take; lia). rewrite length_take.
    rewrite lookup_app_l by (rewrite length_replicate; lia). apply lookup_replicate_2. lia.
  - destruct (decide (i < a)%N).
    + rewrite lookup_app_l by (rewrite length_take; lia). apply lookup_take_lt. lia.
    + rewrite lookup_app_r by (rewrite length_take; lia). rewrite length_take.
      rewrite lookup_app_r by (rewrite length_replicate; lia). rewrite length_replicate, lookup_drop. f_equal. lia.
Qed.

Lemma fill_zeroed data a b : (a ≤ b)%N → (b ≤ len data)%N → zeroed_in a b data (fill_zero data a b).
Proof.
  intros Hab Hb. split; [by apply length_fill|]. intros i. rewrite lookup_fill by done. case_bool_decide; auto.
Qed.

Lemma fill_same data a b : (a ≤ b)%N → (b ≤ len data)%N → (∀ i, (a ≤ i < b)%N → data !! N.to_nat i = Some 0%N) → fill_zero data a b = data.
Proof.
  intros Hab Hb Hz. apply list_eq. intros i. rewrite <- (Nat2N.id i), lookup_fill by done.
  case_bool_decide; [by rewrite Hz|done].
Qed.

Lemma add64_le a b : (a + b < 2 ^ 64)%N → add64 a b = (a + b)%N.
Proof. intros. by apply add64_small. Qed.

(* ------------------------------------------------------------------ *)
(** ** One box *)

(** What the loops see at a position. *)
Inductive hdr : Type :=
| NoBox
| Truncated
| BadSize
| Box (ty : bytes) (ext : bool) (size : N).

Definition sized (ty : bytes) (ext : bool) (size pos end_ : N) : hdr :=
  if (size <? 8)%N || (end_ <? pos + size)%N then BadSize else Box ty ext size.

Definition header (data : bytes) (pos end_ : N) : hdr :=
  if (end_ <? pos + 8)%N then NoBox
  else
    let bs := be_value (sub data pos 4) in
    let ty := sub data (pos + 4) 4 in
    if (bs =? 0)%N then sized ty false (end_ - pos) pos end_
    else if (bs =? 1)%N then
      if (end_ <? pos + 16)%N then Truncated else sized ty true (be_value (sub data (pos + 8) 8)) pos end_
    else sized ty false bs pos end_.

(** An extended size at [pos], if there is one, does not take the position past
    the end of memory. *)
Definition small_at (data : bytes) (pos end_ : N) : Prop :=
  (pos + 16 ≤ end_)%N → be_value (sub data pos 4) = 1%N → (pos + be_value (sub data (pos + 8) 8) < 2 ^ 64)%N.

Definition timestamps (data : bytes) (pos size : N) : bytes :=
  if (size <? 20)%N then data
  else if (data !!! N.to_nat (pos + 8) =? 0)%N then fill_zero data (pos + 12) (pos + 20)
  else if (data !!! N.to_nat (pos + 8) =? 1)%N && (28 <=? size)%N then fill_zero data (pos + 12) (pos + 28)
  else data.

Definition header_len (ext : bool) : N := if ext then 16 else 8.

Definition file_ok (data : bytes) : Prop := (len data < 2 ^ 32)%N ∧ Forall byte_ok data.

Lemma sub_ok data p k : Forall byte_ok data → Forall byte_ok (sub data p k).
Proof. intros Hd. unfold sub. by apply Forall_take, Forall_drop. Qed.

(** What stripping does with a box before it goes on to the next. *)
Definition handle (fuel : nat) (data : bytes) (ty : bytes) (ext : bool) (pos size : N) : run bytes :=
  if is_metadata_box ty then Returns (Ok (fill_zero data (pos + 8) (pos + size)))
  else if is_container ty then strip_boxes_recursive fuel data (pos + header_len ext) (pos + size)
  else if bool_decide (ty = bstr "mvhd") || bool_decide (ty = bstr "tkhd") then Returns (Ok (timestamps data pos size))
  else Returns (Ok data).

Definition found_in (fuel : nat) (data : bytes) (ty : bytes) (ext : bool) (pos size : N) : run bool :=
  if is_metadata_box ty then Returns (Ok (has_content (sub data (pos + 8) (N.to_nat (size - 8)))))
  else if is_container ty then scan_for_metadata_boxes fuel data (pos + header_len ext) (pos + size)
  else Returns (Ok false).

Definition truncated_msg : MediaError := Processing "truncated MP4 box with extended size".

Lemma be4_lt data p : file_ok data → (p + 4 ≤ len data)%N → (be_value (sub data p 4) < 2 ^ 32)%N.
Proof.
  intros [_ Hb] Hp. pose proof (be_value_lt (sub data p 4) (sub_ok _ _ _ Hb)) as H. by rewrite length_sub in H by lia.
Qed.

(** The reads of a box header, when there is room for one. *)
Lemma read_header data pos end_ : file_ok data → (end_ ≤ len data)%N → (pos + 8 ≤ end_)%N →
  read_box_size data pos = Returns (Ok (be_value (sub data pos 4))) ∧
  slice data (add64 pos 4) (add64 pos 8) = Returns (Ok (sub data (pos + 4) 4)) ∧
  actual_size data (be_value (sub data pos 4)) pos end_ =
    Returns (Ok (if (be_value (sub data pos 4) =? 0)%N then Some (end_ - pos)%N
                 else if (be_value (sub data pos 4) =? 1)%N then
                   if (end_ <? pos + 16)%N then None else Some (be_value (sub data (pos + 8) 8))
                 else Some (be_value (sub data pos 4)))).
Proof.
  intros [Hlen Hb] He Hp. unfold read_box_size, actual_size, read_u64. rewrite !add64_le by lia.
  rewrite (proj2 (N.ltb_ge _ _)) by lia.
  rewrite (slice_sub data pos (pos + 4) 4) by lia. rewrite (slice_sub data (pos + 4) (pos + 8) 4) by lia. cbn [run_bind].
  split; [done|]. split; [done|].
  destruct (_ =? 0)%N; [done|]. destruct (_ =? 1)%N; [|done].
  destruct (N.ltb_spec end_ (pos + 16)); [done|]. by rewrite (slice_sub data (pos + 8) _ 8) by lia.
Qed.

Lemma strip_contents data pos size : file_ok data → (8 ≤ size)%N → (pos + size ≤ len data)%N →
  zero_box_contents data pos size = Returns (Ok (fill_zero data (pos + 8) (pos + size))).
Proof.
  intros [Hlen Hb] Hs Hp. unfold zero_box_contents, fill. rewrite !add64_le by lia.
  rewrite (proj2 (N.leb_le (pos + size) _)) by done. rewrite andb_true_r. destruct (N.ltb_spec (pos + 8) (pos + size)).
  - by rewrite (proj2 (N.leb_le _ _)) by lia.
  - rewrite fill_same; [done|lia|lia|]. intros i Hi. lia.
Qed.

Lemma strip_timestamps data pos size : file_ok data → (8 ≤ size)%N → (pos + size ≤ len data)%N →
  strip_mvhd_timestamps data pos size = Returns (Ok (timestamps data pos size)).
Proof.
  intros [Hlen Hb] Hs Hp. unfold strip_mvhd_timestamps, timestamps, index, fill. destruct (N.ltb_spec size 20); [done|].
  rewrite (add64_le pos 8) by lia. rewrite (add64_le (pos + 8) 4), (add64_le (pos + 8 + 4) 8), (add64_le (pos + 8 + 4) 16) by lia.
  rewrite (proj2 (N.ltb_lt (pos + 8) (len data))) by lia. cbn [run_bind].
  rewrite (proj2 (N.leb_le (8 + 4 + 8) size)) by lia. rewrite andb_true_r. replace (pos + 8 + 4)%N with (pos + 12)%N by lia.
  destruct (_ =? 0)%N.
  - replace (pos + 12 + 8)%N with (pos + 20)%N by lia. rewrite (proj2 (N.leb_le _ _)) by lia. by rewrite (proj2 (N.leb_le _ _)) by lia.
  - replace (8 + 4 + 16)%N with 28%N by lia. destruct (N.leb_spec 28 size); [|by rewrite andb_false_r].
    rewrite !andb_true_r. destruct (_ =? 1)%N; [|done].
    replace (pos + 12 + 16)%N with (pos + 28)%N by lia. rewrite (proj2 (N.leb_le _ _)) by lia. by rewrite (proj2 (N.leb_le _ _)) by lia.
Qed.

Lemma sized_box ty ext size pos end_ ty' ext' size' : sized ty ext size pos end_ = Box ty' ext' size' →
  ty' = ty ∧ ext' = ext ∧ size' = size ∧ (8 ≤ size)%N ∧ (pos + size ≤ end_)%N.
Proof. unfold sized. destruct (_ || _) eqn:E; [done|]. bprop. intros [= <- <- <-]. auto. Qed.

Lemma header_box data pos end_ ty ext size : header data pos end_ = Box ty ext size →
  (pos + 8 ≤ end_)%N ∧ (8 ≤ size)%N ∧ (pos + size ≤ end_)%N ∧ ty = sub data (pos + 4) 4 ∧
  ext = (be_value (sub data pos 4) =? 1)%N ∧ (ext = true → pos + 16 ≤ end_ ∧ size = be_value (sub data (pos + 8) 8))%N.
Proof.
  unfold header. destruct (N.ltb_spec end_ (pos + 8)); [done|].
  destruct (N.eqb_spec (be_value (sub data pos 4)) 0) as [E0|E0].
  - intros (-> & -> & -> & ? & ?)%sized_box. split_and!; [done..| |done]. by rewrite E0.
  - destruct (N.eqb_spec (be_value (sub data pos 4)) 1) as [E1|E1].
    + destruct (N.ltb_spec end_ (pos + 16)); [done|]. intros (-> & -> & -> & ? & ?)%sized_box.
      by split_and!.
    + intros (-> & -> & -> & ? & ?)%sized_box. by split_and!.
Qed.

Lemma header_add (b : bool) pos : (pos + 16 < 2 ^ 64)%N → add64 pos (if b then 16 else 8) = (pos + if b then 16 else 8)%N.
Proof. intros. destruct b; apply add64_le; lia. Qed.

Section steps.
Context (data : bytes) (pos end_ : N).
Context (Hfile : file_ok data) (Hend : (end_ ≤ len data)%N) (Hpos : (pos ≤ end_ + 16)%N) (Hsmall : small_at data pos end_).

(** Sizes do not wrap. *)
Lemma size_check size :
  (size < 2 ^ 32 ∨ (pos + size < 2 ^ 64))%N →
  (size <? 8)%N || (end_ <? add64 pos size)%N = (size <? 8)%N || (end_ <? pos + size)%N.
Proof. destruct Hfile. intros [?|?]; rewrite add64_le by lia; done. Qed.

(** Reading the header where nothing wraps, for either loop. *)
Lemma with_header {A} (eof trunc bad : run A) (k : bytes → bool → N → run A) :
  (pos + 8 ≤ end_)%N →
  (let* size := actual_size data (be_value (sub data pos 4)) pos end_ in
   match size with
   | None => trunc
   | Some size => if (size <? 8)%N || (end_ <? add64 pos size)%N then bad
                  else k (sub data (pos + 4) 4) (be_value (sub data pos 4) =? 1)%N size
   end) =
  match header data pos end_ with NoBox => eof | Truncated => trunc | BadSize => bad | Box ty ext size => k ty ext size end.
Proof using Hfile Hend Hpos Hsmall.
  intros Hroom. destruct (read_header data pos end_ Hfile Hend Hroom) as (_ & _ & ->). cbn [run_bind].
  unfold header. rewrite (proj2 (N.ltb_ge end_ (pos + 8))) by lia. pose proof (be4_lt data pos Hfile ltac:(lia)) as H4.
  pose proof (proj1 Hfile) as Hlen. unfold small_at in Hsmall. unfold sized.
  destruct (N.eqb_spec (be_value (sub data pos 4)) 0) as [E0|E0].
  - rewrite size_check by (left; lia). rewrite (proj2 (N.eqb_neq _ 1)) by lia. by destruct (_ || _).
  - destruct (N.eqb_spec (be_value (sub data pos 4)) 1) as [E1|E1].
    + destruct (N.ltb_spec end_ (pos + 16)); [done|].
      rewrite size_check by (right; apply Hsmall; [lia|done]). by destruct (_ || _).
    + rewrite size_check by (left; lia). by destruct (_ || _).
Qed.

Lemma strip_step f : strip_boxes_recursive (S f) data pos end_ =
  match header data pos end_ with
  | NoBox | BadSize => Returns (Ok data)
  | Truncated => Returns (Err truncated_msg)
  | Box ty ext size => let* data' := handle f data ty ext pos size in strip_boxes_recursive f data' (pos + size) end_
  end.
Proof using Hfile Hend Hpos Hsmall.
  cbn [strip_boxes_recursive]. rewrite add64_le by (destruct Hfile; lia).
  destruct (N.leb_spec (pos + 8) end_) as [Hroom|Hroom];
    [|unfold header; by rewrite (proj2 (N.ltb_lt end_ (pos + 8))) by lia].
  destruct (read_header data pos end_ Hfile Hend Hroom) as (-> & Hty & _). cbn [run_bind].
  rewrite (add64_le pos 8) in Hty by (destruct Hfile; lia). rewrite Hty. cbn [run_bind].
  erewrite (with_header _ _ _ (λ ty ext size, _)) by done. cbv beta.
  destruct (header data pos end_) as [| | |ty ext size] eqn:Hh; [done..|].
  apply header_box in Hh as (_ & Hs & Hin & -> & -> & _). pose proof (proj1 Hfile) as Hlen. unfold handle, strip_tkhd_timestamps.
  rewrite !(add64_le pos size) by lia. rewrite (strip_contents data pos size), (strip_timestamps data pos size) by (done || lia).
  unfold header_len. rewrite header_add by lia.
  destruct (is_metadata_box _); [done|]. destruct (is_container _); [done|].
  destruct (bool_decide (_ = bstr "mvhd")); [done|]. by destruct (bool_decide (_ = bstr "tkhd")).
Qed.

Lemma scan_step f : scan_for_metadata_boxes (S f) data pos end_ =
  match header data pos end_ with
  | NoBox | BadSize | Truncated => Returns (Ok false)
  | Box ty ext size =>
      let* found := found_in f data ty ext pos size in
      if found : bool then Returns (Ok true) else scan_for_metadata_boxes f data (pos + size) end_
  end.
Proof using Hfile Hend Hpos Hsmall.
  cbn [scan_for_metadata_boxes]. rewrite add64_le by (destruct Hfile; lia).
  destruct (N.leb_spec (pos + 8) end_) as [Hroom|Hroom];
    [|unfold header; by rewrite (proj2 (N.ltb_lt end_ (pos + 8))) by lia].
  destruct (read_header data pos end_ Hfile Hend Hroom) as (-> & Hty & _). cbn [run_bind].
  rewrite (add64_le pos 8) in Hty by (destruct Hfile; lia). rewrite Hty. cbn [run_bind].
  erewrite (with_header _ _ _ (λ ty ext size, _)) by done. cbv beta.
  destruct (header data pos end_) as [| | |ty ext size] eqn:Hh; [done..|].
  apply header_box in Hh as (_ & Hs & Hin & -> & -> & _). pose proof (proj1 Hfile) as Hlen. unfold found_in.
  rewrite !(add64_le pos size) by lia. unfold header_len. rewrite header_add by lia.
  destruct (is_metadata_box _); [|done].
  destruct (N.ltb_spec (pos + 8) (pos + size)).
  - rewrite (slice_sub data (pos + 8) (pos + size) (N.to_nat (size - 8))) by lia. done.
  - replace (N.to_nat (size - 8)) with 0 by lia. done.
Qed.
End steps.

(* ------------------------------------------------------------------ *)
(** ** The walk ends, and only zeroes *)

Definition small_from (data : bytes) (p0 : N) : Prop := ∀ p, (p0 ≤ p)%N → small_at data p (len data).

Lemma file_ok_zeroed a b x y : zeroed_in a b x y → file_ok x → file_ok y.
Proof.
  intros [L Hz] [Hlen Hb]. split; [unfold len in *; by rewrite L|].
  apply Forall_lookup_2. intros i v Hv. rewrite <- (Nat2N.id i) in Hv. destruct (Hz (N.of_nat i)) as [E|[_ E]]; rewrite E in Hv.
  - by apply (Forall_lookup_1 _ _ _ _ Hb Hv).
  - injection Hv as <-. done.
Qed.

Lemma small_agree a b x y pos end_ : agree a b x y → (a ≤ pos)%N → (end_ ≤ b)%N → small_at x pos end_ → small_at y pos end_.
Proof.
  intros Ha Hp Hb Hs Hin. rewrite <- !(sub_agree a b x y) by (done || lia). by apply Hs.
Qed.

Lemma small_from_agree x y p0 : agree p0 (len x) x y → small_from x p0 → small_from y p0.
Proof. intros Ha Hs p Hp. rewrite <- (agree_len _ _ _ _ Ha). eapply small_agree; [exact Ha|done|lia|by apply Hs]. Qed.

Lemma small_from_le x p q : (p ≤ q)%N → small_from x p → small_from x q.
Proof. intros ? Hs r ?. apply Hs. lia. Qed.

Lemma small_from_at x p end_ : (end_ ≤ len x)%N → small_from x p → small_at x p end_.
Proof. intros He Hs Hin. apply (Hs p); lia. Qed.

Lemma timestamps_zeroed data pos size : (pos + size ≤ len data)%N → zeroed_in (pos + 12) (pos + size) data (timestamps data pos size).
Proof.
  intros Hp. unfold timestamps. destruct (N.ltb_spec size 20); [apply zeroed_refl|].
  destruct (_ =? 0)%N; [eapply zeroed_weaken; [..|apply fill_zeroed]; lia|].
  destruct (_ && _) eqn:E; [|apply zeroed_refl]. bprop. eapply zeroed_weaken; [..|apply fill_zeroed]; lia.
Qed.

(** Enough fuel gives a result, and what comes back differs from what went in
    only by zeroes behind the first header. *)
Definition runs (m : run bytes) (a b : N) (data : bytes) : Prop :=
  ∃ r, m = Returns r ∧ match r with Ok out => zeroed_in a b data out | Err e => e = truncated_msg end.

Lemma handle_runs (f : nat) data ty ext pos size end_ :
  (∀ pos' end', (pos + 8 ≤ pos')%N → (pos' ≤ end' + 16)%N → (end' - pos' < N.of_nat f)%N → (end' ≤ len data)%N →
     runs (strip_boxes_recursive f data pos' end') (pos' + 8) end' data) →
  (pos + size ≤ len data)%N → (8 ≤ size)%N → (size ≤ N.of_nat f)%N →
  header data pos end_ = Box ty ext size → runs (handle f data ty ext pos size) (pos + 8) (pos + size) data.
Proof.
  intros IH Hp Hs Hf Hh. unfold handle.
  destruct (is_metadata_box ty); [eexists; split; [done|]; apply fill_zeroed; lia|].
  destruct (is_container ty).
  - destruct (IH (pos + header_len ext)%N (pos + size)%N) as (r & -> & Hr); [destruct ext; cbn; lia..|].
    exists r. split; [done|]. destruct r; [|done]. eapply zeroed_weaken; [| |exact Hr]; destruct ext; cbn; lia.
  - destruct (_ || _); eexists; (split; [done|]); [|apply zeroed_refl].
    eapply zeroed_weaken; [| |by apply timestamps_zeroed]; lia.
Qed.

Lemma strip_runs f data pos end_ :
  file_ok data → (end_ ≤ len data)%N → (pos ≤ end_ + 16)%N → small_from data pos → (end_ - pos < N.of_nat f)%N →
  runs (strip_boxes_recursive f data pos end_) (pos + 8) end_ data.
Proof.
  revert data pos end_; induction f as [|f IH]; intros data pos end_ Hfile He Hp Hs Hf; [lia|].
  rewrite strip_step by (done || by apply small_from_at).
  destruct (header data pos end_) as [| | |ty ext size] eqn:Hh; try (eexists; split; [done|]; apply zeroed_refl || done).
  pose proof (header_box _ _ _ _ _ _ Hh) as (Hroom & Hs8 & Hin & _).
  destruct (handle_runs f data ty ext pos size end_) as (r & -> & Hr); [|lia|lia|lia|done|].
  { intros pos' end' Hp1 Hp2 Hf' He'. apply IH; [done|done|done| |done]. eapply small_from_le; [|exact Hs]. lia. }
  destruct r as [d1|e]; cbn [run_bind]; [|by exists (Err e)].
  pose proof (zeroed_len _ _ _ _ Hr) as Hl.
  destruct (IH d1 (pos + size)%N end_) as (r & -> & Hr'); [by eapply file_ok_zeroed|by rewrite Hl|lia| |lia|].
  { eapply small_from_agree; [|by eapply small_from_le, Hs; lia]. eapply zeroed_agree; [|exact Hr]. lia. }
  exists r. split; [done|]. destruct r as [out|]; [|done].
  eapply zeroed_trans; (eapply zeroed_weaken; [| |eassumption]; lia).
Qed.

(* ------------------------------------------------------------------ *)
(** ** Nothing is left *)

Lemma be_value_zeros k : be_value (replicate k 0%N) = 0%N.
Proof. induction k as [|k IH]; [done|]. cbn [replicate]. rewrite be_value_cons, IH. lia. Qed.

Lemma be_value_top l1 l2 : Forall byte_ok l1 → (be_value (l1 ++ l2) < 256 ^ N.of_nat (length l2))%N → l1 = replicate (length l1) 0%N.
Proof.
  induction l1 as [|x l1 IH]; intros Hb Hlt; [done|]. apply Forall_cons_1 in Hb as [Hx Hb].
  rewrite <- app_comm_cons, be_value_cons, length_app, Nat2N.inj_add, N.pow_add_r in Hlt.
  pose proof (N.pow_nonzero 256 (N.of_nat (length l1)) ltac:(lia)). pose proof (N.pow_nonzero 256 (N.of_nat (length l2)) ltac:(lia)).
  generalize dependent (256 ^ N.of_nat (length l1))%N. generalize dependent (256 ^ N.of_nat (length l2))%N. intros b IH' Hb0 a Hlt Ha0.
  assert (x = 0%N) as ->.
  { destruct (decide (x = 0%N)) as [|Hx0]; [done|exfalso]. assert (1 * (1 * b) ≤ x * (a * b))%N by (repeat apply N.mul_le_mono; lia). lia. }
  cbn [length replicate]. f_equal. apply IH'; [done|]. lia.
Qed.

(** A small big-endian number has zeroes on top. *)
Lemma be_small data p k j : file_ok data → (p + N.of_nat (k + j) ≤ len data)%N →
  (be_value (sub data p (k + j)) < 256 ^ N.of_nat j)%N → ∀ i, (p ≤ i < p + N.of_nat k)%N → data !! N.to_nat i = Some 0%N.
Proof.
  intros [_ Hb] Hp Hlt i Hi.
  assert (E : sub data p (k + j) = sub data p k ++ sub data (p + N.of_nat k) j).
  { unfold sub. rewrite <- (take_take_drop _ k j), drop_drop. by replace (N.to_nat p + k) with (N.to_nat (p + N.of_nat k)) by lia. }
  rewrite E in Hlt. pose proof (be_value_top (sub data p k) (sub data (p + N.of_nat k) j) (sub_ok _ _ _ Hb)) as Ht.
  rewrite (length_sub data (p + N.of_nat k) j), (length_sub data p k) in Ht by lia. specialize (Ht Hlt).
  assert (Hl : sub data p k !! (N.to_nat (i - p)) = Some 0%N) by (rewrite Ht; apply lookup_replicate_2; lia).
  unfold sub in Hl. rewrite lookup_take_lt, lookup_drop in Hl by lia. by replace (N.to_nat p + N.to_nat (i - p)) with (N.to_nat i) in Hl by lia.
Qed.

Lemma be_zero data p k : (p + N.of_nat k ≤ len data)%N → (∀ i, (p ≤ i < p + N.of_nat k)%N → data !! N.to_nat i = Some 0%N) →
  be_value (sub data p k) = 0%N.
Proof.
  intros Hp Hz. replace (sub data p k) with (replicate k 0%N); [apply be_value_zeros|].
  apply list_eq. intros i. destruct (decide (i < k)).
  - rewrite lookup_replicate_2 by done. unfold sub. rewrite lookup_take_lt, lookup_drop by done.
    specialize (Hz (p + N.of_nat i)%N ltac:(lia)). replace (N.to_nat (p + N.of_nat i)) with (N.to_nat p + i) in Hz by lia. done.
  - unfold sub. rewrite lookup_take_ge by lia. apply lookup_replicate_None. lia.
Qed.

(** The extended size of a box that was handled is what it was or zero. *)
Lemma ext_handled f data ty pos size d1 d2 : file_ok data → (pos + 16 ≤ len data)%N → (8 ≤ size)%N → (pos + size ≤ len data)%N →
  size = be_value (sub data (pos + 8) 8) → handle f data ty true pos size = Returns (Ok d1) →
  (is_container ty = true → is_metadata_box ty = false → zeroed_in (pos + 24) (pos + size) data d1) → agree (pos + 8) (pos + 16) d1 d2 →
  be_value (sub d2 (pos + 8) 8) = size ∨ be_value (sub d2 (pos + 8) 8) = 0%N.
Proof.
  intros Hfile Hp Hs8 Hin Hsz Hh Hc Hd2. rewrite <- (sub_agree _ _ d1 d2 (pos + 8) 8 Hd2) by lia.
  pose proof (proj1 Hfile) as Hlen. unfold len in Hlen.
  assert (Hsame : agree (pos + 8) (pos + 16) data d1 → be_value (sub d1 (pos + 8) 8) = size).
  { intros Ha. by rewrite <- (sub_agree _ _ data d1 (pos + 8) 8 Ha) by lia. }
  assert (Htop : ∀ i, (pos + 8 ≤ i < pos + 12)%N → data !! N.to_nat i = Some 0%N).
  { intros i Hi. apply (be_small data (pos + 8) 4 4); [done|lia| |lia]. change (4 + 4) with 8. rewrite <- Hsz.
    change (256 ^ N.of_nat 4)%N with (2 ^ 32)%N. unfold len in *. lia. }
  unfold handle in Hh. destruct (is_metadata_box ty).
  - injection Hh as <-. destruct (N.leb_spec 16 size) as [H16|H16].
    + right. apply be_zero; [unfold len; rewrite length_fill by lia; unfold len in *; lia|]. intros i Hi.
      rewrite lookup_fill by lia. by rewrite bool_decide_true by lia.
    + left. apply Hsame. split; [by rewrite length_fill by lia|]. intros i Hi. rewrite lookup_fill by lia.
      case_bool_decide; [|done]. apply (be_small data (pos + 8) 7 1); [done|lia| |lia]. change (7 + 1) with 8. rewrite <- Hsz.
      change (256 ^ N.of_nat 1)%N with 256%N. lia.
  - destruct (is_container ty).
    + left. apply Hsame. eapply zeroed_agree; [|by apply Hc]. lia.
    + destruct (_ || _); injection Hh as <-; [|by left; apply Hsame; split].
      unfold timestamps in Hsame |- *. destruct (N.ltb_spec size 20) as [H20|H20]; [by left; apply Hsame; split|].
      rewrite (list_lookup_total_correct data (N.to_nat (pos + 8)) 0%N) by (apply Htop; lia). cbn [N.eqb].
      right. apply be_zero; [unfold len; rewrite length_fill by lia; unfold len in *; lia|]. intros i Hi.
      rewrite lookup_fill by lia. case_bool_decide; [done|]. apply Htop. lia.
Qed.

Lemma header_agree x y pos end_ : agree pos end_ x y → header x pos end_ = header y pos end_.
Proof.
  intros Ha. unfold header. destruct (N.ltb_spec end_ (pos + 8)); [done|].
  rewrite <- (sub_agree _ _ x y pos 4 Ha), <- (sub_agree _ _ x y (pos + 4) 4 Ha) by lia.
  destruct (_ =? 0)%N; [done|]. destruct (_ =? 1)%N; [|done]. destruct (N.ltb_spec end_ (pos + 16)); [done|].
  by rewrite <- (sub_agree _ _ x y (pos + 8) 8 Ha) by lia.
Qed.

Lemma header_after data d2 pos end_ ty ext size : header data pos end_ = Box ty ext size → agree pos (pos + 8) data d2 →
  (ext = true → be_value (sub d2 (pos + 8) 8) = size ∨ be_value (sub d2 (pos + 8) 8) = 0%N) →
  header d2 pos end_ = Box ty ext size ∨ header d2 pos end_ = BadSize.
Proof.
  intros Hh Ha Hext. unfold header in *. destruct (N.ltb_spec end_ (pos + 8)); [done|].
  rewrite <- (sub_agree _ _ data d2 pos 4 Ha), <- (sub_agree _ _ data d2 (pos + 4) 4 Ha) by lia.
  destruct (_ =? 0)%N; [by left|]. destruct (_ =? 1)%N; [|by left].
  destruct (N.ltb_spec end_ (pos + 16)); [done|]. pose proof (sized_box _ _ _ _ _ _ _ _ Hh) as (-> & -> & -> & _).
  destruct (Hext eq_refl) as [->| ->]; [by left|by right].
Qed.

Lemma zero_has_no_content l : Forall (λ b, b = 0%N) l → has_content l = false.
Proof. induction 1 as [|x l -> _ IH]; [done|]. exact IH. Qed.

(** A box that was handled has nothing left, and handling it again changes nothing. *)
Lemma handled_again f f2 data ty ext pos size d1 d2 :
  (pos + size ≤ len data)%N → (8 ≤ size)%N → handle f data ty ext pos size = Returns (Ok d1) →
  length d1 = length data → agree (pos + 8) (pos + size) d1 d2 →
  (strip_boxes_recursive f data (pos + header_len ext) (pos + size) = Returns (Ok d1) →
    scan_for_metadata_boxes f2 d2 (pos + header_len ext) (pos + size) = Returns (Ok false) ∧
    strip_boxes_recursive f2 d2 (pos + header_len ext) (pos + size) = Returns (Ok d2)) →
  found_in f2 d2 ty ext pos size = Returns (Ok false) ∧ handle f2 d2 ty ext pos size = Returns (Ok d2).
Proof.
  intros Hin Hs8 Hh Hl Ha Hc. unfold handle, found_in in *. pose proof (agree_len _ _ _ _ Ha) as Hl2.
  assert (Hl1 : len d1 = len data) by (unfold len; by rewrite Hl).
  destruct (is_metadata_box ty).
  - injection Hh as <-. assert (Hz : ∀ i, (pos + 8 ≤ i < pos + size)%N → d2 !! N.to_nat i = Some 0%N).
    { intros i Hi. destruct Ha as [_ Ha]. rewrite <- Ha, lookup_fill by lia. by rewrite bool_decide_true by lia. }
    split; [|by rewrite fill_same by (done || lia)]. f_equal. f_equal. apply zero_has_no_content, Forall_lookup_2.
    intros i x Hx. unfold sub in Hx. apply lookup_take_Some in Hx as [Hx Hi]. rewrite lookup_drop in Hx.
    specialize (Hz (pos + 8 + N.of_nat i)%N ltac:(lia)). replace (N.to_nat (pos + 8 + N.of_nat i)) with (N.to_nat (pos + 8) + i) in Hz by lia.
    congruence.
  - destruct (is_container ty); [by apply Hc|]. split; [done|]. destruct (_ || _); injection Hh as <-; [|done].
    f_equal. f_equal. unfold timestamps in *. destruct (N.ltb_spec size 20); [done|].
    assert (Hv : d2 !!! N.to_nat (pos + 8) = data !!! N.to_nat (pos + 8)).
    { rewrite !list_lookup_total_alt. destruct Ha as [_ Ha]. rewrite <- Ha by lia. f_equal.
      destruct (_ =? 0)%N; [|destruct (_ && _) eqn:E; [bprop|done]]; rewrite lookup_fill by lia; by rewrite bool_decide_false by lia. }
    rewrite Hv. destruct (_ =? 0)%N; [|destruct (_ && _) eqn:E; [bprop|done]]; (apply fill_same; [lia..|]);
      intros i Hi; destruct Ha as [_ Ha]; rewrite <- Ha, lookup_fill by lia; by rewrite bool_decide_true by lia.
Qed.

Lemma strip_clean_gen f data pos end_ out :
  file_ok data → (end_ ≤ len data)%N → (pos ≤ end_ + 16)%N → small_from data pos → (end_ - pos < N.of_nat f)%N →
  strip_boxes_recursive f data pos end_ = Returns (Ok out) → ∀ d2 f2, file_ok d2 → agree pos end_ out d2 → (end_ - pos < N.of_nat f2)%N →
  scan_for_metadata_boxes f2 d2 pos end_ = Returns (Ok false) ∧ strip_boxes_recursive f2 d2 pos end_ = Returns (Ok d2).
Proof.
  revert data pos end_ out; induction f as [|f IH]; intros data pos end_ out Hfile He Hp Hs Hf Hstrip d2 f2 Hok2 Ha Hf2; [lia|].
  pose proof (strip_runs (S f) data pos end_ Hfile He Hp Hs Hf) as (r & E & Hout). rewrite Hstrip in E. injection E as <-.
  pose proof (zeroed_len _ _ _ _ Hout) as Hlo. pose proof (agree_len _ _ _ _ Ha) as Hl2.
  destruct f2 as [|f2]; [lia|]. rewrite strip_step in Hstrip by (done || by apply small_from_at).
  destruct (header data pos end_) as [| | |ty ext size] eqn:Hh.
  1, 3: injection Hstrip as <-; pose proof (header_agree _ _ _ _ Ha) as Hh2;
    (assert (Hs2 : small_at d2 pos end_) by (eapply small_agree; [exact Ha|done|done|by apply small_from_at]));
    rewrite scan_step, strip_step by (done || lia); by rewrite <- Hh2, Hh.
  { done. }
  pose proof (header_box _ _ _ _ _ _ Hh) as (Hroom & Hs8 & Hin & Hty & Hex & Hext).
  destruct (handle_runs f data ty ext pos size end_) as (r & Hr & Hd1); [|lia|lia|lia|done|].
  { intros pos' end' Hp1 Hp2 Hf' He'. apply strip_runs; [done|done|done|eapply small_from_le; [|exact Hs]; lia|done]. }
  rewrite Hr in Hstrip. destruct r as [d1|e]; [|done]. cbn [run_bind] in Hstrip.
  pose proof (zeroed_len _ _ _ _ Hd1) as Hl1. pose proof (file_ok_zeroed _ _ _ _ Hd1 Hfile) as Hok1.
  assert (Hs1 : small_from d1 (pos + size)).
  { eapply small_from_agree; [|by eapply small_from_le, Hs; lia]. eapply zeroed_agree; [|exact Hd1]. lia. }
  pose proof (strip_runs f d1 (pos + size) end_ Hok1 ltac:(lia) ltac:(lia) Hs1 ltac:(lia)) as (r & E & Hrest).
  rewrite Hstrip in E. injection E as <-.
  (* the second file has the handled box *)
  assert (Ha1 : agree pos (N.min end_ (pos + size + 8)) d1 d2).
  { eapply agree_trans; [eapply zeroed_agree; [|exact Hrest]; lia|]. eapply agree_weaken; [| |exact Ha]; lia. }
  assert (Ha0 : agree pos (pos + 8) data d2).
  { eapply agree_trans; [eapply zeroed_agree; [|exact Hd1]; lia|]. eapply agree_weaken; [| |exact Ha1]; lia. }
  assert (Hex2 : ext = true → be_value (sub d2 (pos + 8) 8) = size ∨ be_value (sub d2 (pos + 8) 8) = 0%N).
  { intros ->. destruct (Hext eq_refl) as [H16 Hsz]. eapply (ext_handled f data ty pos size d1); [done|lia|done|lia|done|done| |].
    - intros Hc Hm. unfold handle in Hr. rewrite Hm, Hc in Hr.
      destruct (strip_runs f data (pos + 16) (pos + size)) as (r & E & Hz); [done|lia|lia|eapply small_from_le; [|exact Hs]; lia|lia|].
      cbn [header_len] in Hr. rewrite Hr in E. injection E as <-. eapply zeroed_weaken; [| |exact Hz]; lia.
    - eapply agree_weaken; [| |exact Ha1]; lia. }
  assert (Hs2 : small_at d2 pos end_).
  { intros Hp16 H1. rewrite <- (sub_agree _ _ data d2 pos 4 Ha0) in H1 by lia. rewrite H1 in Hex. cbn in Hex.
    destruct (Hex2 Hex) as [->| ->]; destruct Hfile; lia. }
  rewrite scan_step, strip_step by (done || lia).
  destruct (header_after _ _ _ _ _ _ _ Hh Ha0 Hex2) as [Hh2|Hh2]; rewrite Hh2; [|done].
  destruct (handled_again f f2 data ty ext pos size d1 d2) as [-> ->]; [lia|done|done|by destruct Hd1| | |].
  { eapply agree_weaken; [| |exact Ha1]; lia. }
  { intros Hc. eapply (IH data); [done|lia| | | |exact Hc|done| |]; [destruct ext; cbn; lia|eapply small_from_le; [|exact Hs]; lia|destruct ext; cbn; lia| |destruct ext; cbn; lia].
    eapply agree_weaken; [| |exact Ha1]; [destruct ext; cbn; lia|lia]. }
  cbn [run_bind]. eapply (IH d1); [done|lia|lia|done|lia|exact Hstrip|done| |lia].
  eapply agree_weaken; [| |exact Ha]; lia.
Qed.

(** What a stripped file is worth. *)
Lemma strip_ok_spec data out : file_ok data → small_from data 0 → strip_video_metadata data = Returns (Ok out) →
  length out = length data ∧ (∀ i, out !! i = data !! i ∨ out !! i = Some 0%N) ∧
  verify_metadata_stripped out = Returns (Ok true) ∧ strip_video_metadata out = Returns (Ok out).
Proof.
  unfold strip_video_metadata, verify_metadata_stripped. intros Hfile Hsmall Hstrip.
  destruct (strip_runs (S (length data)) data 0 (len data)) as (r & E & Hr); [done|unfold len; lia..| |unfold len; lia|]; [done|].
  rewrite Hstrip in E. injection E as <-.
  pose proof (zeroed_len _ _ _ _ Hr) as Hl. pose proof (file_ok_zeroed _ _ _ _ Hr Hfile) as Hok. destruct Hr as [Hlen Hz].
  destruct (strip_clean_gen (S (length data)) data 0 (len data) out) with (d2 := out) (f2 := S (length data)) as [Hscan Hagain];
    [done|unfold len; lia..|done|unfold len; lia|done|done|by split|unfold len; lia|].
  split; [done|]. rewrite Hlen, Hl, Hscan, Hagain. split_and!; [|done|done].
  intros i. destruct (Hz (N.of_nat i)) as [Hi|[_ Hi]]; rewrite Nat2N.id in Hi; auto.
Qed.

(** C19. Stripping a file below four gigabytes whose extended sizes stay in memory
    ends.  Where it gives a file, that file has the same length, differs only
    by zeroed bytes, passes [verify_metadata_stripped] and is left alone by
    stripping; otherwise the one error is a box header that is cut off. *)
Theorem metadata_stripped (data : bytes) (Hfile : file_ok data) (Hsmall : small_from data 0) :
  strip_video_metadata data = Returns (Err truncated_msg) ∨
  ∃ out, strip_video_metadata data = Returns (Ok out) ∧ length out = length data ∧
    (∀ i, out !! i = data !! i ∨ out !! i = Some 0%N) ∧
    verify_metadata_stripped out = Returns (Ok true) ∧ strip_video_metadata out = Returns (Ok out).
Proof.
  destruct (strip_runs (S (length data)) data 0 (len data)) as (r & E & Hr); [done|unfold len; lia..| |unfold len; lia|]; [done|].
  destruct r as [out|e]; [right|left; by subst]. exists out. split; [done|]. by apply strip_ok_spec.
Qed.

(* ------------------------------------------------------------------ *)
(** ** Where sizes wrap, and where stripping damages the file *)

(** A box of eight bytes, then one that says it is [2^64 - 8] bytes long. *)
Definition loop_file : bytes := be_bytes 4 8 ++ bstr "free" ++ be_bytes 4 1 ++ bstr "free" ++ be_bytes 8 (2 ^ 64 - 8).

(** The walk over it goes back to the first box for ever, with any fuel. *)
Lemma strip_diverges f : strip_boxes_recursive f loop_file 0 (len loop_file) = OutOfFuel ∧
  strip_boxes_recursive f loop_file 8 (len loop_file) = OutOfFuel.
Proof.
  induction f as [|f [IH0 IH8]]; [done|]. split; [exact IH8|exact IH0].
Qed.

(** A private box with an extended size, then a movie box. *)
Definition ext_file : bytes := be_bytes 4 1 ++ bstr "uuid" ++ be_bytes 8 24 ++ bstr "Camera 1" ++ be_bytes 4 8 ++ bstr "moov".

(** Zeroing its contents zeroes its size, so that a reader of the stripped file
    finds neither that box nor the movie behind it. *)
Lemma ext_size_lost : ∃ out, strip_video_metadata ext_file = Returns (Ok out) ∧
  header ext_file 0 (len ext_file) = Box (bstr "uuid") true 24 ∧ header ext_file 24 (len ext_file) = Box (bstr "moov") false 8 ∧
  header out 0 (len out) = BadSize.
Proof. eexists. split_and!; vm_compute; reflexivity. Qed.

(* ------------------------------------------------------------------ *)
(** ** Stripping as an operation on boxes *)

(** A file as its boxes with 32-bit sizes: the containers stripping looks into
    have boxes inside, any other box has bytes. *)
Inductive mbox : Type :=
| Leaf (ty content : bytes)
| Node (ty : bytes) (children : list mbox).

Fixpoint encode_box (b : mbox) : bytes :=
  match b with
  | Leaf ty c => be_bytes 4 (8 + len c) ++ ty ++ c
  | Node ty cs => let p := concat (map encode_box cs) in be_bytes 4 (8 + len p) ++ ty ++ p
  end.
Definition encode_boxes (bs : list mbox) : bytes := concat (map encode_box bs).

Definition is_movie_header (ty : bytes) : bool := bool_decide (ty = bstr "mvhd") || bool_decide (ty = bstr "tkhd").

Definition clear_times (c : bytes) : bytes :=
  if (len c <? 12)%N then c
  else if (c !!! 0%nat =? 0)%N then fill_zero c 4 12
  else if (c !!! 0%nat =? 1)%N && (20 <=? len c)%N then fill_zero c 4 20
  else c.

Fixpoint strip_box (b : mbox) : mbox :=
  match b with
  | Leaf ty c => Leaf ty (if is_metadata_box ty then replicate (length c) 0%N else if is_movie_header ty then clear_times c else c)
  | Node ty cs => Node ty (map strip_box cs)
  end.

Fixpoint box_wf (b : mbox) : Prop :=
  match b with
  | Leaf ty c => length ty = 4 ∧ is_container ty = false
  | Node ty cs => is_metadata_box ty = false ∧ is_container ty = true ∧ foldr (λ b P, box_wf b ∧ P) True cs
  end.

Lemma container_type ty : is_container ty = true → length ty = 4.
Proof. unfold is_container. rewrite !orb_true_iff, !bool_decide_eq_true. by intros [[->| ->]| ->]. Qed.

Section box_ind.
Context (P : mbox → Prop) (HL : ∀ ty c, P (Leaf ty c)) (HN : ∀ ty cs, Forall P cs → P (Node ty cs)).
Fixpoint mbox_induction (b : mbox) : P b :=
  match b with
  | Leaf ty c => HL ty c
  | Node ty cs => HN ty cs ((fix go l : Forall P l := match l with [] => Forall_nil_2 P | x :: l => Forall_cons_2 P x l (mbox_induction x) (go l) end) cs)
  end.
End box_ind.

Lemma length_clear_times c : length (clear_times c) = length c.
Proof.
  unfold clear_times. destruct (N.ltb_spec (len c) 12); [done|]. destruct (_ =? 0)%N; [apply length_fill; lia|].
  destruct (_ && _) eqn:E; [|done]. bprop. apply length_fill; lia.
Qed.

Lemma length_strip_box b : length (encode_box (strip_box b)) = length (encode_box b).
Proof.
  induction b as [ty c|ty cs IH] using mbox_induction; cbn [strip_box encode_box].
  - rewrite !length_app, !length_be_bytes. destruct (is_metadata_box ty); [by rewrite length_replicate|].
    destruct (is_movie_header ty); [by rewrite length_clear_times|done].
  - rewrite !length_app, !length_be_bytes. assert (E : length (concat (map encode_box (map strip_box cs))) = length (concat (map encode_box cs))).
    { induction IH as [|x l Hx _ IH]; [done|]. cbn. by rewrite !length_app, Hx, IH. }
    by rewrite E.
Qed.

Lemma length_strip_boxes bs : length (encode_boxes (map strip_box bs)) = length (encode_boxes bs).
Proof. unfold encode_boxes. induction bs as [|b bs IH]; [done|]. cbn. by rewrite !length_app, length_strip_box, IH. Qed.

Lemma sub_app x y p k : len x = p → k ≤ length y → sub (x ++ y) p k = take k y.
Proof.
  unfold sub, len. intros <- Hk. rewrite Nat2N.id, drop_app_length. done.
Qed.

Lemma fill_zero_app x y z a b : (a ≤ b)%N → (b ≤ len y)%N →
  fill_zero (x ++ y ++ z) (len x + a) (len x + b) = x ++ fill_zero y a b ++ z.
Proof.
  intros Hab Hb. unfold len in *. unfold fill_zero.
  replace (N.to_nat (N.of_nat (length x) + a)) with (length x + N.to_nat a) by lia.
  replace (N.to_nat (N.of_nat (length x) + b)) with (length x + N.to_nat b) by lia.
  replace (N.to_nat (N.of_nat (length x) + b - (N.of_nat (length x) + a))) with (N.to_nat (b - a)) by lia.
  rewrite take_app_add, drop_app_add, take_app_le, drop_app_le by lia. by rewrite <- !(assoc_L (++)).
Qed.

(** A box in front of the rest of the file is read as what it is. *)
Lemma header_encoded pre ty p rest end_ : length ty = 4 → (8 + len p < 2 ^ 32)%N → (len pre + 8 + len p ≤ end_)%N →
  header (pre ++ be_bytes 4 (8 + len p) ++ ty ++ p ++ rest) (len pre) end_ = Box ty false (8 + len p).
Proof.
  intros Hty Hp He. unfold header. rewrite (proj2 (N.ltb_ge _ _)) by lia.
  rewrite (sub_app pre) by (done || rewrite length_app, length_be_bytes; lia). rewrite take_app_length' by (by rewrite length_be_bytes).
  rewrite be_value_bytes by done. rewrite (proj2 (N.eqb_neq _ 0)), (proj2 (N.eqb_neq _ 1)) by lia.
  rewrite (assoc_L (++) pre), (sub_app (pre ++ _)); [| |rewrite length_app; lia].
  - rewrite take_app_length' by done. unfold sized. by rewrite (proj2 (N.ltb_ge _ 8)), (proj2 (N.ltb_ge end_ _)) by lia.
  - unfold len. rewrite length_app, length_be_bytes. lia.
Qed.

Lemma fill_zero_all c : fill_zero c 0 (len c) = replicate (length c) 0%N.
Proof. unfold fill_zero, len. rewrite take_0, N.sub_0_r, Nat2N.id, drop_all. by rewrite app_nil_r. Qed.

Lemma fill_zero_ok c a b : Forall byte_ok c → Forall byte_ok (fill_zero c a b).
Proof.
  intros Hc. unfold fill_zero. rewrite !Forall_app. split_and!; [by apply Forall_take|by apply Forall_replicate|by apply Forall_drop].
Qed.

Lemma box_bytes_ok b : Forall byte_ok (encode_box b) → Forall byte_ok (encode_box (strip_box b)).
Proof.
  induction b as [ty c|ty cs IH] using mbox_induction; cbn [strip_box encode_box]; rewrite !Forall_app.
  - intros (_ & Hty & Hc). split_and!; [apply be_bytes_ok|done|]. destruct (is_metadata_box ty); [by apply Forall_replicate|].
    destruct (is_movie_header ty); [|done]. unfold clear_times. destruct (_ <? _)%N; [done|]. destruct (_ =? 0)%N; [by apply fill_zero_ok|].
    destruct (_ && _); [by apply fill_zero_ok|done].
  - intros (_ & Hty & Hc). split_and!; [apply be_bytes_ok|done|]. clear Hty. induction IH as [|x l Hx _ IH]; [done|].
    cbn in Hc |- *. apply Forall_app in Hc as [? ?]. apply Forall_app. auto.
Qed.

(** The bytes of a box in its place. *)
Lemma payload_at pre ty p rest : length ty = 4 →
  pre ++ (be_bytes 4 (8 + len p) ++ ty ++ p) ++ rest = (pre ++ be_bytes 4 (8 + len p) ++ ty) ++ p ++ rest ∧
  len (pre ++ be_bytes 4 (8 + len p) ++ ty) = (len pre + 8)%N.
Proof. intros Hty. split; [by rewrite <- !(assoc_L (++))|]. unfold len. rewrite !length_app, length_be_bytes. lia. Qed.

Lemma timestamps_at pre ty c rest : length ty = 4 →
  timestamps (pre ++ encode_box (Leaf ty c) ++ rest) (len pre) (8 + len c) =
  pre ++ (be_bytes 4 (8 + len c) ++ ty ++ clear_times c) ++ rest.
Proof.
  intros Hty. cbn [encode_box]. destruct (payload_at pre ty c rest Hty) as [-> Hl].
  destruct (payload_at pre ty (clear_times c) rest Hty) as [E _].
  assert (El : len (clear_times c) = len c) by (unfold len; by rewrite length_clear_times). rewrite El in E. rewrite E.
  set (h := pre ++ be_bytes 4 (8 + len c) ++ ty) in *.
  unfold timestamps, clear_times. replace (8 + len c <? 20)%N with (len c <? 12)%N by (destruct (N.ltb_spec (len c) 12), (N.ltb_spec (8 + len c) 20); lia).
  destruct (N.ltb_spec (len c) 12) as [Hs|Hs]; [done|].
  rewrite <- Hl. assert (Hv : (h ++ c ++ rest) !!! N.to_nat (len h) = c !!! 0%nat).
  { unfold len. rewrite Nat2N.id, lookup_total_app_r, Nat.sub_diag by lia. apply lookup_total_app_l. unfold len in *. lia. }
  rewrite Hv. replace (28 <=? 8 + len c)%N with (20 <=? len c)%N by (destruct (N.leb_spec 20 (len c)), (N.leb_spec 28 (8 + len c)); lia).
  replace (len pre + 12)%N with (len h + 4)%N by lia. replace (len pre + 20)%N with (len h + 12)%N by lia.
  replace (len pre + 28)%N with (len h + 20)%N by lia.
  destruct (_ =? 0)%N; [by rewrite fill_zero_app by lia|]. destruct (_ && _) eqn:Ev; [|done]. bprop. by rewrite fill_zero_app by lia.
Qed.

Lemma small_encoded pre n rest end_ : (8 ≤ n < 2 ^ 32)%N → small_at (pre ++ be_bytes 4 n ++ rest) (len pre) end_.
Proof.
  intros Hn _. rewrite (sub_app pre) by (done || rewrite length_app, length_be_bytes; lia).
  rewrite take_app_length' by (by rewrite length_be_bytes). rewrite be_value_bytes by (cbn; lia). lia.
Qed.

Definition box_type (b : mbox) : bytes := match b with Leaf ty _ | Node ty _ => ty end.
Definition box_payload (b : mbox) : bytes := match b with Leaf _ c => c | Node _ cs => encode_boxes cs end.

Lemma encode_payload b : encode_box b = be_bytes 4 (8 + len (box_payload b)) ++ box_type b ++ box_payload b.
Proof. by destruct b. Qed.

Lemma box_type_length b : box_wf b → length (box_type b) = 4.
Proof. destruct b as [ty c|ty cs]; [by intros []|]. intros (_ & Hc & _). by apply container_type. Qed.

Lemma len_encode_box b : box_wf b → len (encode_box b) = (8 + len (box_payload b))%N.
Proof. intros Hb%box_type_length. rewrite encode_payload. unfold len. rewrite !length_app, length_be_bytes, Hb. lia. Qed.

Lemma container_box_wf ty cs : box_wf (Node ty cs) → Forall box_wf cs.
Proof. intros (_ & _ & Hc). induction cs as [|c cs IH]; [done|]. destruct Hc. constructor; auto. Qed.

Lemma handle_encoded f b pre rest : box_wf b →
  (is_container (box_type b) = true →
     let pre' := pre ++ be_bytes 4 (8 + len (box_payload b)) ++ box_type b in
     strip_boxes_recursive f (pre' ++ box_payload b ++ rest) (len pre') (len pre' + len (box_payload b)) =
       Returns (Ok (pre' ++ (match b with Node _ cs => encode_boxes (map strip_box cs) | Leaf _ c => c end) ++ rest))) →
  handle f (pre ++ encode_box b ++ rest) (box_type b) false (len pre) (8 + len (box_payload b)) =
    Returns (Ok (pre ++ encode_box (strip_box b) ++ rest)).
Proof.
  intros Hwf IH. pose proof (box_type_length b Hwf) as Hty. unfold handle. destruct b as [ty c|ty cs]; cbn [box_type box_payload] in *.
  - destruct Hwf as [_ Hc]. rewrite Hc. cbn [strip_box]. destruct (is_metadata_box ty).
    + cbn [encode_box]. destruct (payload_at pre ty c rest Hty) as [-> Hl].
      replace (len (replicate (length c) 0%N)) with (len c) by (unfold len; by rewrite length_replicate).
      destruct (payload_at pre ty (replicate (length c) 0%N) rest Hty) as [E _].
      replace (len (replicate (length c) 0%N)) with (len c) in E by (unfold len; by rewrite length_replicate). rewrite E.
      replace (len pre + 8)%N with (len (pre ++ be_bytes 4 (8 + len c) ++ ty) + 0)%N by lia.
      replace (len pre + (8 + len c))%N with (len (pre ++ be_bytes 4 (8 + len c) ++ ty) + len c)%N by lia.
      rewrite fill_zero_app by lia. by rewrite fill_zero_all.
    + fold (is_movie_header ty). destruct (is_movie_header ty); [|done]. rewrite timestamps_at by done.
      cbn [encode_box]. by replace (len (clear_times c)) with (len c) by (unfold len; by rewrite length_clear_times).
  - destruct Hwf as (Hm & Hc & _). rewrite Hm, Hc. cbn [strip_box header_len]. destruct (payload_at pre ty (encode_boxes cs) rest Hty) as [E Hl].
    change (encode_box (Node ty cs)) with (be_bytes 4 (8 + len (encode_boxes cs)) ++ ty ++ encode_boxes cs). rewrite E.
    pose proof (IH Hc) as Hs. cbv zeta in Hs. rewrite Hl in Hs.
    replace (len pre + (8 + len (encode_boxes cs)))%N with (len pre + 8 + len (encode_boxes cs))%N by lia. rewrite Hs. f_equal. f_equal.
    change (encode_box (Node ty (map strip_box cs))) with (be_bytes 4 (8 + len (encode_boxes (map strip_box cs))) ++ ty ++ encode_boxes (map strip_box cs)).
    destruct (payload_at pre ty (encode_boxes (map strip_box cs)) rest Hty) as [-> _].
    by replace (len (encode_boxes (map strip_box cs))) with (len (encode_boxes cs)) by (unfold len; by rewrite length_strip_boxes).
Qed.

(** Stripping the file of some boxes is stripping the boxes. *)
Lemma strip_encoded f bs pre post :
  file_ok (pre ++ encode_boxes bs ++ post) → Forall box_wf bs → (len (encode_boxes bs) < N.of_nat f)%N →
  strip_boxes_recursive f (pre ++ encode_boxes bs ++ post) (len pre) (len pre + len (encode_boxes bs)) =
  Returns (Ok (pre ++ encode_boxes (map strip_box bs) ++ post)).
Proof.
  revert bs pre post; induction f as [|f IH]; intros bs pre post Hfile Hwf Hf; [lia|].
  assert (Hlen : len (pre ++ encode_boxes bs ++ post) = (len pre + len (encode_boxes bs) + len post)%N).
  { unfold len. rewrite !length_app. lia. }
  destruct bs as [|b bs].
  { change (encode_boxes []) with (@nil N) in *. change (len []) with 0%N in *. rewrite strip_step; [|done|lia|lia|intros Hin; lia].
    unfold header. by rewrite (proj2 (N.ltb_lt _ _)) by lia. }
  inversion Hwf as [|? ? Hb Hbs]; subst. set (p := box_payload b).
  change (encode_boxes (b :: bs)) with (encode_box b ++ encode_boxes bs) in *.
  change (encode_boxes (map strip_box (b :: bs))) with (encode_box (strip_box b) ++ encode_boxes (map strip_box bs)).
  set (rest := encode_boxes bs ++ post).
  assert (Hle : len (encode_box b ++ encode_boxes bs) = (8 + len p + len (encode_boxes bs))%N).
  { unfold p. rewrite <- len_encode_box by done. unfold len. rewrite length_app. lia. }
  rewrite Hle in *. rewrite <- (assoc_L (++)) in *. fold rest in Hfile, Hlen |- *. pose proof (proj1 Hfile) as H32. rewrite Hlen in H32.
  assert (Hdata : pre ++ encode_box b ++ rest = pre ++ be_bytes 4 (8 + len p) ++ box_type b ++ p ++ rest).
  { unfold p. rewrite encode_payload at 1. by rewrite <- !(assoc_L (++)). }
  rewrite strip_step; [|done|lia|lia|rewrite Hdata; apply small_encoded; lia].
  rewrite Hdata at 1. rewrite header_encoded by (by apply box_type_length || lia). unfold p. rewrite handle_encoded; [|done|].
  - fold p. cbn [run_bind]. assert (Hlb' : len (pre ++ encode_box (strip_box b)) = (len pre + (8 + len p))%N).
    { unfold p. rewrite <- len_encode_box by done. unfold len. rewrite length_app, length_strip_box. lia. }
    rewrite (assoc_L (++) pre), <- Hlb'.
    replace (len pre + (8 + len p + len (encode_boxes bs)))%N with (len (pre ++ encode_box (strip_box b)) + len (encode_boxes bs))%N by lia.
    unfold rest. rewrite IH; [by rewrite <- !(assoc_L (++))| |done|lia].
    destruct Hfile as [_ Hok]. split; [unfold rest, len in *; rewrite !length_app in *; lia|].
    unfold rest in Hok. rewrite !Forall_app in *. destruct Hok as (? & ? & ? & ?). split_and!; [done|by apply box_bytes_ok|done|done].
  - intros Hc. cbv zeta. destruct b as [ty c|ty cs]; [destruct Hb; cbn [box_type] in Hc; congruence|].
    destruct (payload_at pre ty (encode_boxes cs) rest) as [E _]; [by apply container_type|].
    apply IH; [|by eapply container_box_wf|unfold p in *; cbn [box_payload] in *; lia]. cbn [box_payload box_type]. rewrite <- E. exact Hfile.
Qed.

(** C6. Where every box has a 32-bit size, stripping rewrites the tree of boxes:
    each user-data box keeps its place and size with zeroes inside, the movie
    and track headers lose their two times, and every other box, the frames
    included, is what it was. *)
Theorem strip_refines_boxes (bs : list mbox) (Hfile : file_ok (encode_boxes bs)) (Hwf : Forall box_wf bs) :
  strip_video_metadata (encode_boxes bs) = Returns (Ok (encode_boxes (map strip_box bs))).
Proof.
  unfold strip_video_metadata. pose proof (strip_encoded (S (length (encode_boxes bs))) bs [] []) as H.
  cbn [app] in H. rewrite !app_nil_r in H. apply H; [done|done|unfold len; lia].
Qed.

(* ------------------------------------------------------------------ *)
(** ** Witnesses *)

(** A file type, a movie with a header, a track and user data, and frames. *)
Definition demo_boxes : list mbox :=
  [Leaf (bstr "ftyp") (bstr "isom" ++ [0; 0; 2; 0]%N);
   Node (bstr "moov")
     [Leaf (bstr "mvhd") (replicate 4 0%N ++ replicate 8 7%N ++ replicate 8 9%N);
      Node (bstr "trak") [Leaf (bstr "tkhd") (1%N :: replicate 3 0%N ++ replicate 16 5%N)];
      Leaf (bstr "udta") (bstr "GPS +52.1 +4.3")];
   Leaf (bstr "mdat") (replicate 6 255%N)].
Definition demo_file : bytes := encode_boxes demo_boxes.

Lemma demo_file_ok : file_ok demo_file.
Proof. split; [by apply N.ltb_lt|]. apply Forall_forall. intros b Hb. apply N.ltb_lt. revert b Hb. apply Forall_forall. vm_compute. repeat constructor. Qed.

Lemma small_from_check data :
  forallb (λ p, negb (be_value (sub data (N.of_nat p) 4) =? 1)%N) (seq 0 (length data)) = true → small_from data 0.
Proof.
  intros Hc p _ Hin Hone. exfalso. unfold len in Hin. rewrite forallb_forall in Hc.
  specialize (Hc (N.to_nat p)). rewrite N2Nat.id, Hone in Hc. cbn in Hc.
  assert (false = true) by (apply Hc, in_seq; lia). done.
Qed.

Lemma demo_small : small_from demo_file 0.
Proof. apply small_from_check. vm_compute. reflexivity. Qed.

Lemma metadata_stripped_witness : ∃ out, strip_video_metadata demo_file = Returns (Ok out) ∧ verify_metadata_stripped demo_file = Returns (Ok false) ∧
  verify_metadata_stripped out = Returns (Ok true).
Proof.
  destruct (metadata_stripped demo_file demo_file_ok) as [Hs|(out & Hs & _ & _ & Hv & _)].
  - exact demo_small.
  - exfalso. revert Hs. vm_compute. discriminate.
  - exists out. split_and!; [exact Hs|vm_compute; reflexivity|exact Hv].
Defined.

Lemma strip_refines_boxes_witness : strip_video_metadata demo_file = Returns (Ok (encode_boxes (map strip_box demo_boxes))).
Proof. apply (strip_refines_boxes demo_boxes); [exact demo_file_ok|]. repeat (constructor; [vm_compute; tauto|]). constructor. Defined.
