(* ===== verification/MediaPipeline.v ===== *)
(** * The media pipeline

    [ephemera-media]: detection and limits of images ([validation.rs]) and
    videos ([video_validation.rs]), re-encoding ([exif.rs], [resize.rs]), and
    the two pipelines ([pipeline.rs], [video.rs]) up to what the node's media
    service stores.  The [image] and [mp4] crates are the classes [ImageCrate]
    and [Mp4Crate]; what the code relies on of them is [ImageLaws]. *)
From S2P Require Import Prelude Types Crypto Unicode Metadata Store Video.

(* ------------------------------------------------------------------ *)
(** ** The codecs *)

Inductive ImageFormat := FmtJpeg | FmtPng | FmtWebP.
#[global] Instance image_format_eq_dec : EqDecision ImageFormat.
Proof. solve_decision. Defined.

Class ImageCrate := {
  DynamicImage : Type;
  width : DynamicImage → N;
  height : DynamicImage → N;
  (** [image::load_from_memory] and [write_to]. *)
  load_from_memory : bytes → result string DynamicImage;
  write_to : ImageFormat → DynamicImage → result string bytes;
  (** [resize] and [resize_to_fill] with the Lanczos filter. *)
  resize : N → N → DynamicImage → DynamicImage;
  resize_to_fill : N → N → DynamicImage → DynamicImage;
  (** [RgbImage::from_pixel] with one grey. *)
  from_pixel : N → N → DynamicImage
}.

(** As documented: an encoded image is read back in its dimensions; [resize]
    fits the bounds, [resize_to_fill] meets them. *)
Class ImageLaws `{ImageCrate} := {
  write_load f i b : write_to f i = Ok b → ∃ j, load_from_memory b = Ok j ∧ width j = width i ∧ height j = height i;
  resize_fits w h i : (width (resize w h i) ≤ w)%N ∧ (height (resize w h i) ≤ h)%N;
  resize_to_fill_meets w h i : width (resize_to_fill w h i) = w ∧ height (resize_to_fill w h i) = h
}.

Inductive TrackType := TrackVideo | TrackAudio | TrackSubtitle.
Inductive MediaType := H264 | OtherType (name : string).
#[global] Instance track_type_eq_dec : EqDecision TrackType.
Proof. solve_decision. Defined.
#[global] Instance media_type_eq_dec : EqDecision MediaType.
Proof. solve_decision. Defined.

(** [Mp4Track], by what the code asks of it. *)
Record Mp4Track := MkTrack {
  track_type : result string TrackType;
  media_type : result string MediaType;
  track_width : N;
  track_height : N;
  as_millis : N;
  timescale : N
}.

Class Mp4Crate := {
  (** The tracks of [Mp4Reader::read_header]. *)
  read_header : bytes → N → result string (gmap N Mp4Track);
  (** [MediaType]'s [Display]. *)
  display_media_type : MediaType → string
}.

(* ------------------------------------------------------------------ *)
(** ** Limits and detection *)

Definition MAX_INPUT_SIZE : N := 10 * 1024 * 1024.
Definition MAX_VIDEO_INPUT_SIZE : N := 50 * 1024 * 1024.
Definition MAX_VIDEO_DURATION_MS : N := 3 * 60 * 1000.
Definition MIN_MP4_SIZE : N := 8.
Definition STANDARD_MAX_WIDTH : N := 1920.
Definition STANDARD_MAX_HEIGHT : N := 1080.
Definition THUMBNAIL_WIDTH : N := 200.
Definition THUMBNAIL_HEIGHT : N := 200.

Inductive SupportedFormat := Jpeg | Png | WebP.
#[global] Instance supported_format_eq_dec : EqDecision SupportedFormat.
Proof. solve_decision. Defined.

Definition to_image_format (f : SupportedFormat) : ImageFormat :=
  match f with Jpeg => FmtJpeg | Png => FmtPng | WebP => FmtWebP end.

Definition detect_format (data : bytes) : result MediaError SupportedFormat :=
  if (len data <? 4)%N then Err (UnsupportedFormat "file too small to identify")
  else if bool_decide (take 3 data = [255; 216; 255]%N) then Ok Jpeg
  else if bool_decide (take 4 data = [137; 80; 78; 71]%N) then Ok Png
  else if (12 <=? len data)%N && bool_decide (take 4 data = bstr "RIFF") && bool_decide (take 4 (drop 8 data) = bstr "WEBP") then Ok WebP
  else Err (UnsupportedFormat "only JPEG, PNG, and WebP are supported").

Definition is_mp4 (data : bytes) : bool :=
  if (len data <? MIN_MP4_SIZE)%N then false else bool_decide (take 4 (drop 4 data) = bstr "ftyp").
Definition is_video : bytes → bool := is_mp4.

Record VideoInfo := MkInfo {
  duration_ms : N;
  info_width : N;
  info_height : N;
  codec : string;
  info_file_size : N;
  info_timescale : N
}.

Record ResizeResult := MkResized { r_data : bytes; r_width : N; r_height : N }.

Record ProcessedMedia := MkMedia {
  standard : bytes;
  standard_width : N;
  standard_height : N;
  thumbnail : bytes;
  content_hash : ContentId;
  original_format : SupportedFormat
}.

Record ProcessedVideo := MkVideo {
  video_data : bytes;
  v_thumbnail : ProcessedMedia;
  v_content_hash : ContentId;
  v_duration_ms : N;
  v_width : N;
  v_height : N;
  v_codec : string;
  v_file_size : N
}.

Inductive ProcessedContent := Image (m : ProcessedMedia) | Video (v : ProcessedVideo).

(* ------------------------------------------------------------------ *)
(** ** Images *)

Section image.
Context `{Primitives, ImageCrate}.

Definition validate_media (data : bytes) : result MediaError SupportedFormat :=
  if bool_decide (data = []) then Err (Validation "empty file")
  else if (MAX_INPUT_SIZE <? len data)%N then
    Err (Validation ("file size " +:+ pretty (len data) +:+ " bytes exceeds maximum " +:+ pretty MAX_INPUT_SIZE +:+ " bytes"))
  else
    let? format := detect_format data in
    let? img := map_err (λ e, Validation ("failed to decode image: " +:+ e)) (load_from_memory data) in
    if (width img =? 0)%N || (height img =? 0)%N then Err (Validation "image has zero dimensions") else Ok format.

Definition strip_exif_data (data : bytes) (format : ImageFormat) : result MediaError bytes :=
  let? img := map_err (λ e, Processing ("failed to decode for EXIF strip: " +:+ e)) (load_from_memory data) in
  map_err (λ e, Processing ("failed to re-encode after EXIF strip: " +:+ e)) (write_to format img).

Definition encode_png (img : DynamicImage) : result MediaError bytes :=
  map_err (λ e, Processing ("PNG encoding failed: " +:+ e)) (write_to FmtPng img).

Definition resize_image (data : bytes) (max_width max_height : N) : result MediaError ResizeResult :=
  let? img := map_err (λ e, Processing ("failed to decode for resize: " +:+ e)) (load_from_memory data) in
  let resized :=
    if (max_width <? width img)%N || (max_height <? height img)%N then resize max_width max_height img else img in
  let? encoded := encode_png resized in
  Ok (MkResized encoded (width resized) (height resized)).

Definition generate_thumbnail (data : bytes) : result MediaError ResizeResult :=
  let? img := map_err (λ e, Processing ("failed to decode for thumbnail: " +:+ e)) (load_from_memory data) in
  let thumb := resize_to_fill THUMBNAIL_WIDTH THUMBNAIL_HEIGHT img in
  let? encoded := encode_png thumb in
  Ok (MkResized encoded (width thumb) (height thumb)).

(** [MediaPipeline::process]. *)
Definition process_image (raw_bytes : bytes) : result MediaError ProcessedMedia :=
  let? format := validate_media raw_bytes in
  let? stripped := strip_exif_data raw_bytes (to_image_format format) in
  let? std := resize_image stripped STANDARD_MAX_WIDTH STANDARD_MAX_HEIGHT in
  let? thumb := generate_thumbnail stripped in
  Ok (MkMedia (r_data std) (r_width std) (r_height std) (r_data thumb) (from_digest (blake3_hash (r_data std))) format).

(* ------------------------------------------------------------------ *)
(** ** Videos *)

Context `{Mp4Crate}.

(** The first of the tracks [1 ..= n] that is a video. *)
Fixpoint find_video_from (tracks : gmap N Mp4Track) (id : N) (n : nat) : result MediaError Mp4Track :=
  match n with
  | O => Err (Validation "MP4 file contains no video track")
  | S n =>
      match tracks !! id with
      | Some t => if bool_decide (track_type t = Ok TrackVideo) then Ok t else find_video_from tracks (id + 1) n
      | None => find_video_from tracks (id + 1) n
      end
  end.
Definition find_video_track (tracks : gmap N Mp4Track) : result MediaError Mp4Track := find_video_from tracks 1 (size tracks).

Definition validate_video (data : bytes) : result MediaError VideoInfo :=
  if (len data <? MIN_MP4_SIZE)%N then Err (Validation "file too small to be a valid MP4")
  else if negb (is_mp4 data) then Err (Validation "not an MP4 file (missing ftyp box)")
  else if (MAX_VIDEO_INPUT_SIZE <? len data)%N then
    Err (Validation ("video file size " +:+ pretty (len data) +:+ " bytes exceeds maximum " +:+ pretty MAX_VIDEO_INPUT_SIZE +:+ " bytes"))
  else
    let? tracks := map_err (λ e, Validation ("failed to parse MP4 container: " +:+ e)) (read_header data (len data)) in
    let? video_track := find_video_track tracks in
    let? mt := map_err (λ e, Validation ("cannot determine video codec: " +:+ e)) (media_type video_track) in
    if negb (bool_decide (mt = H264)) then
      Err (Validation ("unsupported video codec '" +:+ display_media_type mt +:+ "'; only H.264 is supported"))
    else if (track_width video_track =? 0)%N || (track_height video_track =? 0)%N then Err (Validation "video has zero dimensions")
    else
      let ms := wrap64 (as_millis video_track) in
      if (MAX_VIDEO_DURATION_MS <? ms)%N then
        Err (Validation ("video duration " +:+ pretty ms +:+ "ms exceeds maximum " +:+ pretty MAX_VIDEO_DURATION_MS +:+ "ms (3 minutes)"))
      else Ok (MkInfo ms (track_width video_track) (track_height video_track) (display_media_type mt) (len data) (timescale video_track)).

Definition placeholder_size (w h : N) : N * N :=
  if (h <=? w)%N then (N.min 200 w, N.max (N.min 200 w * h / N.max w 1) 1)
  else (N.max (N.min 200 h * w / N.max h 1) 1, N.min 200 h).

(** The encoding is expected not to fail. *)
Definition generate_placeholder_thumbnail (info : VideoInfo) : run bytes :=
  let '(w, h) := placeholder_size (info_width info) (info_height info) in
  match write_to FmtPng (from_pixel w h) with Ok b => Returns (Ok b) | Err _ => Panics end.

Definition extract_thumbnail (_data : bytes) (info : VideoInfo) : run ProcessedMedia :=
  let* thumb_image := generate_placeholder_thumbnail info in Returns (process_image thumb_image).

(** [VideoProcessor::process]. *)
Definition process_video (input : bytes) : run ProcessedVideo :=
  let* info := Returns (validate_video input) in
  let* cleaned := strip_video_metadata input in
  let* thumb := extract_thumbnail cleaned info in
  Returns (Ok (MkVideo cleaned thumb (from_digest (blake3_hash cleaned)) (duration_ms info) (info_width info) (info_height info)
                 (codec info) (len cleaned))).

Definition process_auto (raw_bytes : bytes) : run ProcessedContent :=
  if is_video raw_bytes then let* v := process_video raw_bytes in Returns (Ok (Video v))
  else let* m := Returns (process_image raw_bytes) in Returns (Ok (Image m)).
End image.

(* ------------------------------------------------------------------ *)
(** ** What the node stores *)

Definition display_error (e : MediaError) : string :=
  match e with
  | Validation m => "validation error: " +:+ m
  | UnsupportedFormat m => "unsupported format: " +:+ m
  | Processing m => "processing error: " +:+ m
  end.

(** The fields [store_image] and [store_video] take, with their casts. *)
Definition to_store (p : ProcessedContent) : Store.Media.ProcessedContent :=
  match p with
  | Image m => Store.Media.Image (content_hash m) (standard m) (thumbnail m) (as_i64 (standard_width m)) (as_i64 (standard_height m))
  | Video v => Store.Media.Video (v_content_hash v) (video_data v) (thumbnail (v_thumbnail v)) (as_i64 (v_file_size v))
                 (as_i64 (v_width v)) (as_i64 (v_height v)) (as_i64 (v_duration_ms v))
  end.

(** The answer of the pipeline, if it comes back. *)
Definition answer (r : run ProcessedContent) : option (result string Store.Media.ProcessedContent) :=
  match r with Returns r => Some (result_map to_store (map_err display_error r)) | Panics | OutOfFuel => None end.

(* ------------------------------------------------------------------ *)
(** ** Properties of the pipelines *)

Section image_properties.
Context `{Primitives, ImageCrate, !ImageLaws}.

Lemma encode_png_spec i b : encode_png i = Ok b → ∃ j, load_from_memory b = Ok j ∧ width j = width i ∧ height j = height i.
Proof. unfold encode_png. destruct (write_to FmtPng i) as [b'|] eqn:E; [|done]. intros [= <-]. by eapply write_load. Qed.

Lemma validate_media_spec data f : validate_media data = Ok f →
  (0 < len data ≤ MAX_INPUT_SIZE)%N ∧ detect_format data = Ok f ∧ ∃ i, load_from_memory data = Ok i ∧ (0 < width i)%N ∧ (0 < height i)%N.
Proof.
  unfold validate_media. case_bool_decide as He; [done|]. destruct (_ <? _)%N eqn:E1; [done|].
  destruct (detect_format data) as [f'|] eqn:E2; [|done]. cbn [result_bind].
  destruct (load_from_memory data) as [i|] eqn:E3; [|done]. cbn [map_err result_bind].
  destruct (_ || _) eqn:E4; [done|]. intros [= <-]. bprop. split_and!; [|lia|done|].
  - unfold len. destruct data; [done|]. cbn. lia.
  - exists i. split_and!; [done|lia|lia].
Qed.

Lemma resize_image_spec data w h r : resize_image data w h = Ok r →
  ∃ i j, load_from_memory data = Ok i ∧ load_from_memory (r_data r) = Ok j ∧ width j = r_width r ∧ height j = r_height r ∧
    (r_width r ≤ w)%N ∧ (r_height r ≤ h)%N ∧ ((width i ≤ w)%N → (height i ≤ h)%N → r_width r = width i ∧ r_height r = height i).
Proof.
  unfold resize_image. destruct (load_from_memory data) as [i|] eqn:E; [|done]. cbn [map_err result_bind].
  match goal with |- context [encode_png ?x] => set (j := x) end. destruct (encode_png j) as [b|] eqn:Ep; [|done]. intros [= <-]. cbn [r_data r_width r_height].
  destruct (encode_png_spec _ _ Ep) as (k & Hk & Hw & Hh). exists i, k. split_and!; [done..| | |].
  1, 2: subst j; destruct (_ || _) eqn:Eb; [apply resize_fits|bprop; lia].
  intros Hiw Hih. subst j. by rewrite (proj2 (N.ltb_ge w _)), (proj2 (N.ltb_ge h _)) by done.
Qed.

Lemma generate_thumbnail_spec data r : generate_thumbnail data = Ok r →
  ∃ j, load_from_memory (r_data r) = Ok j ∧ width j = THUMBNAIL_WIDTH ∧ height j = THUMBNAIL_HEIGHT.
Proof.
  unfold generate_thumbnail. destruct (load_from_memory data) as [i|] eqn:E; [|done]. cbn [map_err result_bind].
  destruct (encode_png _) as [b|] eqn:Ep; [|done]. intros [= <-]. cbn [r_data]. destruct (encode_png_spec _ _ Ep) as (k & Hk & Hw & Hh).
  exists k. destruct (resize_to_fill_meets THUMBNAIL_WIDTH THUMBNAIL_HEIGHT i) as [Ew' Eh']. rewrite Hw, Hh. done.
Qed.

Lemma process_image_spec raw m : process_image raw = Ok m →
  (0 < len raw ≤ MAX_INPUT_SIZE)%N ∧ detect_format raw = Ok (original_format m) ∧
  (∃ i, load_from_memory (standard m) = Ok i ∧ width i = standard_width m ∧ height i = standard_height m ∧
     (standard_width m ≤ 1920)%N ∧ (standard_height m ≤ 1080)%N) ∧
  (∃ t, load_from_memory (thumbnail m) = Ok t ∧ width t = 200%N ∧ height t = 200%N) ∧
  content_hash m = from_digest (blake3_hash (standard m)) ∧
  (∃ i, load_from_memory raw = Ok i ∧ ((width i ≤ 1920)%N → (height i ≤ 1080)%N → standard_width m = width i ∧ standard_height m = height i)).
Proof.
  unfold process_image. destruct (validate_media raw) as [f|] eqn:Ev; [|done]. cbn [result_bind].
  apply validate_media_spec in Ev as (Hlen & Hf & i & Hi & _). unfold strip_exif_data. rewrite Hi. cbn [map_err result_bind].
  destruct (write_to (to_image_format f) i) as [s|] eqn:Ew; [|done]. cbn [map_err result_bind].
  destruct (resize_image s _ _) as [std|] eqn:Er; [|done]. cbn [result_bind].
  destruct (generate_thumbnail s) as [th|] eqn:Et; [|done]. cbn [result_bind]. intros [= <-]. cbn.
  apply resize_image_spec in Er as (i' & j & Hi' & Hj & Hw & Hh & Hw' & Hh' & Hsame). apply generate_thumbnail_spec in Et as Ht.
  destruct (write_load _ _ _ Ew) as (k & Hk & Hkw & Hkh). assert (k = i') as -> by congruence.
  split_and!; [lia|lia|done|by exists j|done|done|]. exists i. split; [done|]. rewrite <- Hkw, <- Hkh. exact Hsame.
Qed.

(** An image the pipeline accepts has at most ten megabytes and one of three
    formats; it comes out with a thumbnail of 200 by 200 and in at most 1920 by
    1080, or as large as it was if that is less, under the hash of what comes
    out.  Nothing but the pixels and the format of the file shows in it: files
    of one format that decode to one image have one result, whatever else is
    in them. *)
Theorem image_pipeline (raw raw' : bytes) (f : SupportedFormat)
    (Hf : detect_format raw = Ok f) (Hf' : detect_format raw' = Ok f) (Hload : load_from_memory raw = load_from_memory raw')
    (Hlen : (len raw ≤ MAX_INPUT_SIZE)%N) (Hlen' : (len raw' ≤ MAX_INPUT_SIZE)%N) :
  process_image raw = process_image raw' ∧
  ∀ m, process_image raw = Ok m →
    (∃ i, load_from_memory (standard m) = Ok i ∧ width i = standard_width m ∧ height i = standard_height m ∧
       (standard_width m ≤ 1920)%N ∧ (standard_height m ≤ 1080)%N) ∧
    (∃ t, load_from_memory (thumbnail m) = Ok t ∧ width t = 200%N ∧ height t = 200%N) ∧
    content_hash m = from_digest (blake3_hash (standard m)) ∧
    (∃ i, load_from_memory raw = Ok i ∧ ((width i ≤ 1920)%N → (height i ≤ 1080)%N → standard_width m = width i ∧ standard_height m = height i)).
Proof.
  split; [|intros m Hm; apply process_image_spec in Hm as (_ & _ & ? & ? & ? & ?); by split_and!].
  assert (Hne : ∀ d, detect_format d = Ok f → d ≠ []) by (intros d Hd ->; discriminate).
  unfold process_image, validate_media, strip_exif_data. rewrite !bool_decide_false by (by apply Hne).
  rewrite !(proj2 (N.ltb_ge MAX_INPUT_SIZE _)) by done. rewrite Hf, Hf'. cbn [result_bind]. by rewrite Hload.
Qed.
End image_properties.

Section video_properties.
Context `{Primitives, !PrimitiveLaws, Hex, ImageCrate, !ImageLaws, Mp4Crate}.

Lemma validate_video_spec data info : validate_video data = Ok info →
  is_mp4 data = true ∧ (len data ≤ MAX_VIDEO_INPUT_SIZE)%N ∧ (duration_ms info ≤ MAX_VIDEO_DURATION_MS)%N ∧
  (0 < info_width info)%N ∧ (0 < info_height info)%N ∧ codec info = display_media_type H264 ∧ info_file_size info = len data ∧
  ∃ tracks t id, read_header data (len data) = Ok tracks ∧ tracks !! id = Some t ∧ track_type t = Ok TrackVideo ∧ media_type t = Ok H264 ∧
    info_width info = track_width t ∧ info_height info = track_height t ∧ duration_ms info = wrap64 (as_millis t) ∧
    (1 ≤ id)%N ∧ ∀ id' t', (1 ≤ id' < id)%N → tracks !! id' = Some t' → track_type t' ≠ Ok TrackVideo.
Proof.
  unfold validate_video. destruct (_ <? _)%N; [done|]. destruct (is_mp4 data); [|done]. cbn [negb].
  destruct (N.ltb_spec MAX_VIDEO_INPUT_SIZE (len data)); [done|]. destruct (read_header _ _) as [tracks|] eqn:Eh; [|done]. cbn [map_err result_bind].
  destruct (find_video_track tracks) as [t|] eqn:Et; [|done]. cbn [result_bind].
  destruct (media_type t) as [mt|] eqn:Em; [|done]. cbn [map_err result_bind]. case_bool_decide as Hmt; [|done]. cbn [negb].
  destruct (_ || _) eqn:Ez; [done|]. destruct (_ <? _)%N eqn:Ed; [done|]. intros [= <-]. cbn. bprop. subst mt.
  assert (Hfind : ∀ n id, find_video_from tracks id n = Ok t → ∃ id', (id ≤ id')%N ∧ tracks !! id' = Some t ∧ track_type t = Ok TrackVideo ∧
    ∀ k t', (id ≤ k < id')%N → tracks !! k = Some t' → track_type t' ≠ Ok TrackVideo).
  { induction n as [|n IH]; intros id Hn; [done|]. cbn in Hn.
    assert (Hnext : find_video_from tracks (id + 1) n = Ok t → (∀ t', tracks !! id = Some t' → track_type t' ≠ Ok TrackVideo) →
      ∃ id', (id ≤ id')%N ∧ tracks !! id' = Some t ∧ track_type t = Ok TrackVideo ∧ ∀ k t', (id ≤ k < id')%N → tracks !! k = Some t' → track_type t' ≠ Ok TrackVideo).
    { intros (id' & Hle & Hl & Htt & Hb)%IH Hid. exists id'. split_and!; [lia|done|done|]. intros k t' Hk Hkt.
      destruct (decide (k = id)) as [->|]; [by apply Hid|]. apply (Hb k); [lia|done]. }
    destruct (tracks !! id) as [t0|] eqn:E0; [|by apply Hnext]. case_bool_decide as Ht0; [|apply Hnext; [done|by intros t' [= <-]]].
    injection Hn as <-. exists id. split_and!; [lia|done|done|]. intros. lia. }
  destruct (Hfind _ _ Et) as (id & Hid & Hl & Htt & Hb). split_and!; try done; try lia.
  exists tracks, t, id. split_and!; try done.
Qed.

(** The placeholder is at most 200 by 200, never empty, and has the ratio of
    the video, rounded down, where that leaves a pixel. *)
Lemma placeholder_size_spec w h : (0 < w)%N → (0 < h)%N →
  let '(tw, th) := placeholder_size w h in
  (1 ≤ tw ≤ 200)%N ∧ (1 ≤ th ≤ 200)%N ∧ (tw ≤ w)%N ∧ (th ≤ h)%N ∧ ((h ≤ w)%N → th = N.max 1 (tw * h / w)) ∧ ((w < h)%N → tw = N.max 1 (th * w / h)).
Proof.
  intros Hw Hh. unfold placeholder_size.
  assert (Hdiv : ∀ a b m : N, (0 < b)%N → (a ≤ b)%N → (m * a / b ≤ m)%N).
  { intros a b m Hb Hab. apply N.Div0.div_le_upper_bound. nia. }
  assert (Hdiv' : ∀ a b m : N, (0 < b)%N → (m ≤ b)%N → (m * a / b ≤ a)%N).
  { intros a b m Hb Hmb. apply N.Div0.div_le_upper_bound. nia. }
  destruct (N.leb_spec h w).
  - rewrite (N.max_l w 1) by lia. specialize (Hdiv h w (N.min 200 w) Hw ltac:(lia)). specialize (Hdiv' h w (N.min 200 w) Hw ltac:(lia)).
    split_and!; lia.
  - rewrite (N.max_l h 1) by lia. specialize (Hdiv w h (N.min 200 h) Hh ltac:(lia)). specialize (Hdiv' w h (N.min 200 h) Hh ltac:(lia)).
    split_and!; lia.
Qed.

Lemma process_video_spec input v : Forall byte_ok input → small_from input 0 → process_video input = Returns (Ok v) →
  is_mp4 input = true ∧ (len input ≤ MAX_VIDEO_INPUT_SIZE)%N ∧ v_file_size v = len input ∧ (v_duration_ms v ≤ MAX_VIDEO_DURATION_MS)%N ∧
  strip_video_metadata input = Returns (Ok (video_data v)) ∧ verify_metadata_stripped (video_data v) = Returns (Ok true) ∧
  length (video_data v) = length input ∧ v_content_hash v = from_digest (blake3_hash (video_data v)) ∧
  (∃ b, write_to FmtPng (from_pixel (placeholder_size (v_width v) (v_height v)).1 (placeholder_size (v_width v) (v_height v)).2) = Ok b ∧
     process_image b = Ok (v_thumbnail v)).
Proof.
  intros Hb Hsmall. unfold process_video. destruct (validate_video input) as [info|] eqn:Ev; [|done]. cbn [run_bind].
  apply validate_video_spec in Ev as (Hm & Hlen & Hd & _). unfold MAX_VIDEO_INPUT_SIZE in *.
  destruct (strip_video_metadata input) as [[out|]| |] eqn:Es; [|done..]. cbn [run_bind].
  destruct (strip_ok_spec input out) as (Hl & _ & Hv & _); [by split; [lia|]|done|done|].
  unfold extract_thumbnail, generate_placeholder_thumbnail. destruct (placeholder_size _ _) as [tw th] eqn:Ep.
  destruct (write_to FmtPng (from_pixel tw th)) as [b|] eqn:Ew; [|done]. cbn [run_bind].
  destruct (process_image b) as [th'|] eqn:Ei; [|done]. cbn [run_bind]. intros [= <-]. cbn.
  split_and!; [done|lia|unfold len; by rewrite Hl|done|done|done|done|done|]. exists b. by rewrite Ep.
Qed.

End video_properties.

(* ------------------------------------------------------------------ *)
(** ** Witnesses *)

(** Images of one colour: a magic number and two dimensions. *)
Module CodecToy.
Definition magic (f : ImageFormat) : bytes :=
  match f with FmtJpeg => [255; 216; 255; 224]%N | FmtPng => [137; 80; 78; 71]%N | FmtWebP => bstr "RIFF0000WEBP" end.
Definition dims (b : bytes) : result string (N * N) :=
  if bool_decide (length b < 8) then Err "unexpected end of file"%string else Ok (be_value (take 4 b), be_value (take 4 (drop 4 b))).
Definition load (b : bytes) : result string (N * N) :=
  if bool_decide (take 4 b = magic FmtJpeg) || bool_decide (take 4 b = magic FmtPng) then dims (drop 4 b)
  else if bool_decide (take 12 b = magic FmtWebP) then dims (drop 12 b) else Err "unknown format"%string.
Definition write (f : ImageFormat) (i : N * N) : result string bytes :=
  if (i.1 <? 2 ^ 32)%N && (i.2 <? 2 ^ 32)%N then Ok (magic f ++ be_bytes 4 i.1 ++ be_bytes 4 i.2) else Err "too large"%string.

#[export] Instance image_crate : ImageCrate := {|
  DynamicImage := N * N;
  width := fst;
  height := snd;
  load_from_memory := load;
  write_to := write;
  resize w h i := (N.min w i.1, N.min h i.2);
  resize_to_fill w h _ := (w, h);
  from_pixel w h := (w, h)
|}.

Lemma dims_of w h : (w < 2 ^ 32)%N → (h < 2 ^ 32)%N → dims (be_bytes 4 w ++ be_bytes 4 h) = Ok (w, h).
Proof.
  intros Hw Hh. unfold dims. rewrite bool_decide_false by (rewrite length_app, !length_be_bytes; lia).
  rewrite take_app_length', drop_app_length' by (by rewrite length_be_bytes). rewrite take_ge by (rewrite length_be_bytes; lia).
  by rewrite !be_value_bytes.
Qed.

#[export] Instance image_laws : ImageLaws.
Proof.
  split.
  - intros f [w h] b. cbn. unfold write. cbn [fst snd]. destruct (_ && _) eqn:E; [|done]. bprop. intros [= <-].
    exists (w, h). split; [|done]. destruct f; unfold load; cbn [magic]; [| |]; (rewrite <- dims_of by done); reflexivity.
  - intros w h i. cbn. lia.
  - done.
Qed.

(** Every MP4 file has one second of H.264. *)
#[export] Instance mp4_crate : Mp4Crate := {|
  read_header _ _ := Ok {[1%N := MkTrack (Ok TrackVideo) (Ok H264) 640 480 1000 600]};
  display_media_type t := match t with H264 => "h264" | OtherType n => n end
|}.
End CodecToy.

Section witnesses.
Import Toy CodecToy HexToy.
#[local] Existing Instances toy toy_laws.

(** Two PNG files of one picture, one with a comment behind it. *)
Definition mw_png (comment : string) : bytes := [137; 80; 78; 71]%N ++ be_bytes 4 4000 ++ be_bytes 4 3000 ++ bstr comment.

Lemma mw_same_pixels : load_from_memory (mw_png "GPS 52N 4E") = load_from_memory (mw_png "").
Proof. vm_compute. reflexivity. Qed.

Lemma image_pipeline_witness : process_image (mw_png "GPS 52N 4E") = process_image (mw_png "") ∧
  ∃ m, process_image (mw_png "") = Ok m ∧ (standard_width m ≤ 1920)%N.
Proof.
  destruct (image_pipeline (mw_png "GPS 52N 4E") (mw_png "") Png eq_refl eq_refl mw_same_pixels ltac:(by apply N.leb_le) ltac:(by apply N.leb_le)) as [E Hm].
  split; [exact E|]. eexists. split; [reflexivity|]. edestruct Hm as ((i & _ & _ & _ & Hw & _) & _); [reflexivity|exact Hw].
Defined.

(** The video of [demo_file], stored for a post on an empty disk. *)
Definition mw_video : ProcessedContent := match process_auto demo_file with Returns (Ok p) => p | _ => Image (MkMedia [] 0 0 [] (from_digest []) Png) end.
Definition mw_disk : Disk := MkDisk (MkStoreDb ∅ ∅ ∅ ∅ ∅) (Content.open_encrypted (replicate 32 4%N)).
Definition mw_nonce : bytes := replicate 24 1%N.

Lemma mw_blobs : Content.blobs_ok (content mw_disk).
Proof. intros hex raw Hl. by destruct (lookup_empty_Some _ _ Hl). Qed.

Lemma mw_media_ok : Media.media_ok mw_disk.
Proof. intros k c Hl. by destruct (lookup_empty_Some _ _ Hl). Qed.

Lemma mw_size : length (Media.main_bytes (to_store mw_video)) = 124.
Proof. vm_compute. reflexivity. Qed.

Lemma mw_fresh : Media.chunks_fresh ∅ (Chunker.chunk (Media.main_bytes (to_store mw_video))).
Proof.
  rewrite Chunker.chunk_short; [|vm_compute; discriminate|rewrite mw_size; unfold Chunker.DEFAULT_CHUNK_SIZE; lia].
  split; [apply NoDup_singleton|]. intros c _. apply lookup_empty.
Qed.

Lemma mw_stored : ∃ s' res, Media.process_and_store mw_nonce 100 (Ok (to_store mw_video)) (lit "a.mp4") [1]%N 0 mw_disk = (s', Ok res).
Proof.
  pose proof (Media.process_and_store_spec mw_nonce 100 (to_store mw_video) (lit "a.mp4") [1]%N 0 mw_disk eq_refl mw_blobs mw_media_ok) as Hs.
  destruct (Media.process_and_store _ _ _ _ _ _ _) as [s' [res|e]]; [by exists s', res|exfalso].
  destruct Hs as (_ & Hiff & _); [rewrite mw_size; by apply N.ltb_lt|rewrite mw_size; lia|].
  assert (false = true); [|done]. apply Hiff. split; [apply lookup_empty|exact mw_fresh].
Qed.

Lemma mw_processed : process_auto demo_file = Returns (Ok mw_video).
Proof. vm_compute. reflexivity. Qed.

End witnesses.
