(* ===== verification/Transport.v ===== *)
(** * Transport: [crates/ephemera-transport/src]

    [Pool] is the connection manager ([manager.rs], [connection.rs]), [Iroh]
    the peer table of the QUIC transport with its reader and writer tasks
    ([iroh_transport.rs]) as a step relation over interleavings, [Registry] the
    broadcasts of [peer.rs] over the [Transport] trait, here the class
    [Transport] that [Iroh] implements; [Nat] and [Discovery] are the small
    types of [nat.rs] and [discovery.rs].  QUIC itself is outside: a connection
    is alive or not and hands over streams of bytes; handshakes are steps. *)
From S2P Require Import Prelude Unicode.

(* ------------------------------------------------------------------ *)
(** ** Addresses, errors, configuration *)

Record PeerAddr := MkAddr { node_id : bytes; addresses : list str }.

(** [TransportError]; an I/O error by its text. *)
Inductive TransportError :=
| ConnectionFailed (peer reason : str)
| ConnectionClosed (reason : str)
| SendTimeout (duration_ms : N)
| RecvTimeout (duration_ms : N)
| MessageTooLarge (size max : N)
| PeerNotConnected (peer : str)
| ConnectionLimitReached (current max : nat)
| Io (error : str)
| Shutdown.

(** A relay of the community. *)
Record RelayNodeConfig := MkRelayNode { relay_id : bytes; url : str; region : str }.

(** Times in milliseconds. *)
Record TransportConfig := MkConfig {
  max_connections : nat;
  idle_timeout : N;
  max_streams : N;
  recv_buffer_size : N;
  send_buffer_size : N;
  keep_alive_interval : N;
  bootstrap_nodes : list str;
  relay_nodes : list RelayNodeConfig;
  send_timeout : N;
  max_message_size : N
}.
Definition default_config : TransportConfig :=
  MkConfig 256 60000 100 (2 * 1024 * 1024) (2 * 1024 * 1024) 15000 [] [] 10000 1048576.

Section debug.
Context `{Hex}.
(** [{:?}] of a node id. *)
Definition debug_id (p : bytes) : str := lit "NodeId(" ++ hex_encode (take 8 p) ++ lit ")".
End debug.

(* ------------------------------------------------------------------ *)
(** ** The connection manager *)

Module Pool.
Section pool.
Context `{Hex}.

Inductive ConnectionState := Connecting | Relayed | Direct | Disconnected.
#[export] Instance state_eq_dec : EqDecision ConnectionState.
Proof. solve_decision. Defined.

(** One end of a bounded channel: whether the other end is still there, and
    what is in between. *)
Record Channel := MkChannel { other_end : bool; buffer : list bytes; capacity : nat }.

(** [PeerConnection]; instants are milliseconds. *)
Record PeerConnection := MkConn {
  peer_id : bytes;
  addr : PeerAddr;
  state : ConnectionState;
  connected_at : N;
  last_recv : N;
  last_send : N;
  outbound_tx : Channel;
  inbound_rx : Channel;
  messages_sent : N;
  messages_received : N;
  last_rtt : option N
}.

(** The other ends of both channels are local variables of the constructor and
    are dropped when it returns. *)
Definition new_connection (now : N) (peer : bytes) (a : PeerAddr) (buffer_size : nat) : PeerConnection :=
  MkConn peer a Connecting now now now (MkChannel false [] buffer_size) (MkChannel false [] buffer_size) 0 0 None.

Definition set_state (s : ConnectionState) (c : PeerConnection) : PeerConnection :=
  MkConn (peer_id c) (addr c) s (connected_at c) (last_recv c) (last_send c) (outbound_tx c) (inbound_rx c)
    (messages_sent c) (messages_received c) (last_rtt c).
Definition set_rtt (rtt : N) (c : PeerConnection) : PeerConnection :=
  MkConn (peer_id c) (addr c) (state c) (connected_at c) (last_recv c) (last_send c) (outbound_tx c) (inbound_rx c)
    (messages_sent c) (messages_received c) (Some rtt).

Definition is_active (c : PeerConnection) : bool := negb (bool_decide (state c = Disconnected)).

(** [send] waits while the channel is full: [None]. *)
Definition conn_send (now : N) (data : bytes) (c : PeerConnection) : option (PeerConnection * result TransportError unit) :=
  let ch := outbound_tx c in
  if negb (other_end ch) then Some (c, Err (ConnectionClosed (lit "outbound channel closed")))
  else if bool_decide (length (buffer ch) < capacity ch) then
    Some (MkConn (peer_id c) (addr c) (state c) (connected_at c) (last_recv c) now (MkChannel true (buffer ch ++ [data]) (capacity ch))
            (inbound_rx c) (add64 (messages_sent c) 1) (messages_received c) (last_rtt c), Ok tt)
  else None.

(** [recv] waits while the channel is empty and has a sender. *)
Definition conn_recv (now : N) (c : PeerConnection) : option (PeerConnection * result TransportError bytes) :=
  let ch := inbound_rx c in
  match buffer ch with
  | d :: q =>
      Some (MkConn (peer_id c) (addr c) (state c) (connected_at c) now (last_send c) (outbound_tx c) (MkChannel (other_end ch) q (capacity ch))
              (messages_sent c) (add64 (messages_received c) 1) (last_rtt c), Ok d)
  | [] => if other_end ch then None else Some (c, Err (ConnectionClosed (lit "inbound channel closed")))
  end.

Definition idle_duration (now : N) (c : PeerConnection) : N := now - last_recv c.
Definition uptime (now : N) (c : PeerConnection) : N := now - connected_at c.

Record ConnectionManager := MkManager {
  config : TransportConfig;
  connections : gmap bytes PeerConnection;
  local_id : bytes
}.
Definition new (local : bytes) (c : TransportConfig) : ConnectionManager := MkManager c ∅ local.
Definition with_connections (t : gmap bytes PeerConnection) (m : ConnectionManager) : ConnectionManager := MkManager (config m) t (local_id m).

Definition active (m : ConnectionManager) : gmap bytes PeerConnection := filter (λ kc, is_active kc.2 = true) (connections m).
Definition connection_count (m : ConnectionManager) : nat := size (active m).
Definition has_capacity (m : ConnectionManager) : bool := bool_decide (connection_count m < max_connections (config m)).

Definition get_connection (peer : bytes) (m : ConnectionManager) : option PeerConnection :=
  match connections m !! peer with Some c => if is_active c then Some c else None | None => None end.
Definition is_connected (peer : bytes) (m : ConnectionManager) : bool :=
  match connections m !! peer with Some c => is_active c | None => false end.
Definition connected_peers (m : ConnectionManager) : list bytes := (map_to_list (active m)).*1.

Definition add_connection (now : N) (a : PeerAddr) : SE ConnectionManager TransportError unit := λ m,
  let peer_id := node_id a in
  if bool_decide (peer_id = local_id m) then (m, Err (ConnectionFailed (debug_id peer_id) (lit "cannot connect to self")))
  else if is_connected peer_id m then (m, Ok tt)
  else if negb (has_capacity m) then (m, Err (ConnectionLimitReached (connection_count m) (max_connections (config m))))
  else (with_connections (<[peer_id := new_connection now peer_id a 64]> (connections m)) m, Ok tt).

Definition remove_connection (peer : bytes) (m : ConnectionManager) : ConnectionManager := with_connections (delete peer (connections m)) m.

(** What a caller does through [get_connection_mut]. *)
Definition update_connection (f : PeerConnection → PeerConnection) (peer : bytes) (m : ConnectionManager) : ConnectionManager :=
  match get_connection peer m with Some c => with_connections (<[peer := f c]> (connections m)) m | None => m end.

Definition send_to (now : N) (peer data : bytes) (m : ConnectionManager) : option (ConnectionManager * result TransportError unit) :=
  let size := N.of_nat (length data) in
  if (max_message_size (config m) <? size)%N then Some (m, Err (MessageTooLarge size (max_message_size (config m))))
  else match get_connection peer m with
       | None => Some (m, Err (PeerNotConnected (debug_id peer)))
       | Some c => '(c', r) ← conn_send now data c; Some (with_connections (<[peer := c']> (connections m)) m, r)
       end.

Definition is_stale (now : N) (m : ConnectionManager) (c : PeerConnection) : bool :=
  is_active c && (idle_timeout (config m) <? idle_duration now c)%N.
Definition cleanup_stale (now : N) (m : ConnectionManager) : ConnectionManager :=
  let stale := (map_to_list (filter (λ kc, is_stale now m kc.2 = true) (connections m))).*1 in
  foldl (λ m peer, remove_connection peer m) m stale.

Record ConnectionStats := MkStats { s_active : nat; s_relayed : nat; s_direct : nat; s_max : nat }.
Definition count_state (s : ConnectionState) (m : ConnectionManager) : nat := size (filter (λ kc, state kc.2 = s) (connections m)).
Definition stats (m : ConnectionManager) : ConnectionStats :=
  MkStats (connection_count m) (count_state Relayed m) (count_state Direct m) (max_connections (config m)).

(** *** Properties *)

(** What happens to a manager: the operations, and what the holder of a
    connection does with it. *)
Inductive step (m : ConnectionManager) : ConnectionManager → Prop :=
| step_add now a : step m (add_connection now a m).1
| step_remove peer : step m (remove_connection peer m)
| step_state s peer : step m (update_connection (set_state s) peer m)
| step_rtt rtt peer : step m (update_connection (set_rtt rtt) peer m)
| step_send now peer data m' r : send_to now peer data m = Some (m', r) → step m m'
| step_cleanup now : step m (cleanup_stale now m).

(** A connection whose channels lead nowhere. *)
Definition detached (k : bytes) (c : PeerConnection) : Prop :=
  peer_id c = k ∧ other_end (outbound_tx c) = false ∧ inbound_rx c = MkChannel false [] (capacity (inbound_rx c)).

Definition pool_ok (m : ConnectionManager) : Prop :=
  connection_count m ≤ max_connections (config m) ∧ connections m !! local_id m = None ∧ map_Forall detached (connections m).

Lemma active_lookup m k : active m !! k = get_connection k m.
Proof.
  unfold active, get_connection. destruct (connections m !! k) as [c|] eqn:E.
  - destruct (is_active c) eqn:Ea.
    + apply map_lookup_filter_Some. by split.
    + apply map_lookup_filter_None. right. intros c' Hc'. cbn. congruence.
  - apply map_lookup_filter_None. by left.
Qed.

Lemma active_insert_true k c m : is_active c = true → active (with_connections (<[k := c]> (connections m)) m) = <[k := c]> (active m).
Proof. intros Hc. unfold active. cbn. by rewrite map_filter_insert_True. Qed.

Lemma active_insert_false k c m : is_active c = false → active (with_connections (<[k := c]> (connections m)) m) = delete k (active m).
Proof. intros Hc. unfold active. cbn. rewrite map_filter_insert_False by (cbn; congruence). by rewrite map_filter_delete. Qed.

Lemma active_delete k m : active (remove_connection k m) = delete k (active m).
Proof. unfold active, remove_connection. cbn. by rewrite map_filter_delete. Qed.

Lemma size_delete_le {A} (k : bytes) (t : gmap bytes A) : size (delete k t) ≤ size t.
Proof. destruct (t !! k) as [x|] eqn:E; [rewrite (map_size_delete_Some k t) by eauto; lia|by rewrite delete_id]. Qed.

(** Changing an active connection keeps the pool, if it stays detached. *)
Lemma pool_ok_change k c c' m : pool_ok m → get_connection k m = Some c → (detached k c → detached k c') →
  pool_ok (with_connections (<[k := c']> (connections m)) m).
Proof.
  intros (Hn & Hl & Hd) Hk Hc. pose proof Hk as Hk'. rewrite <- active_lookup in Hk'.
  unfold get_connection in Hk. destruct (connections m !! k) as [c0|] eqn:E; [|done].
  assert (c0 = c) as -> by (by destruct (is_active c0); simplify_eq).
  split_and!.
  - unfold connection_count in *. cbn. destruct (is_active c') eqn:Ea.
    + rewrite active_insert_true, map_size_insert_Some by eauto. done.
    + rewrite active_insert_false by done. pose proof (size_delete_le k (active m)). lia.
  - cbn. rewrite lookup_insert_ne; [done|]. intros ->. congruence.
  - cbn. apply map_Forall_insert_2; [|done]. apply Hc, (Hd k c E).
Qed.

Lemma pool_ok_remove k m : pool_ok m → pool_ok (remove_connection k m).
Proof.
  intros (Hn & Hl & Hd). split_and!.
  - unfold connection_count in *. rewrite active_delete. pose proof (size_delete_le k (active m)). cbn. lia.
  - cbn. rewrite lookup_delete_None. by right.
  - cbn. by apply map_Forall_delete.
Qed.

Lemma send_fails now peer data m m' r : pool_ok m → send_to now peer data m = Some (m', r) →
  connections m' = connections m ∧ config m' = config m ∧ local_id m' = local_id m ∧ is_ok r = false.
Proof.
  intros (_ & _ & Hd). unfold send_to. destruct (_ <? _)%N; [by intros [= <- <-]|].
  destruct (get_connection peer m) as [c|] eqn:Ec; [|by intros [= <- <-]].
  unfold get_connection in Ec. destruct (connections m !! peer) as [c0|] eqn:E; [|done]. destruct (is_active c0); [|done]. simplify_eq.
  destruct (Hd peer c E) as (_ & Ho & _). unfold conn_send. rewrite Ho. cbn. intros [= <- <-]. cbn. by rewrite insert_id.
Qed.

Lemma cleanup_connections now m : connections (cleanup_stale now m) = filter (λ kc, is_stale now m kc.2 = false) (connections m) ∧
  config (cleanup_stale now m) = config m ∧ local_id (cleanup_stale now m) = local_id m.
Proof.
  unfold cleanup_stale. set (l := (map_to_list _).*1).
  assert (Hf : ∀ l m0, connections (foldl (λ m peer, remove_connection peer m) m0 l) = filter (λ kc, kc.1 ∉ l) (connections m0) ∧
    config (foldl (λ m peer, remove_connection peer m) m0 l) = config m0 ∧ local_id (foldl (λ m peer, remove_connection peer m) m0 l) = local_id m0).
  { clear. induction l as [|k l IH]; intros m0; cbn [foldl].
    - split_and!; [|done|done]. symmetry. apply map_filter_id. intros i x _. cbn. apply not_elem_of_nil.
    - destruct (IH (remove_connection k m0)) as (-> & -> & ->). split_and!; [|done|done]. cbn. apply map_eq. intros i. apply option_eq. intros x.
      rewrite !map_lookup_filter_Some, lookup_delete_Some. cbn. rewrite not_elem_of_cons. naive_solver. }
  destruct (Hf l m) as (-> & -> & ->). split_and!; [|done|done]. apply map_filter_ext. intros i x Hx. cbn. unfold l.
  rewrite list_elem_of_fmap. split.
  - intros Hn. apply not_true_is_false. intros Hs. apply Hn. exists (i, x). split; [done|]. apply elem_of_map_to_list, map_lookup_filter_Some. done.
  - intros Hs ([i' x'] & -> & Hin). apply elem_of_map_to_list, map_lookup_filter_Some in Hin as [Hin Ht]. cbn in *. simplify_eq. congruence.
Qed.

Lemma step_pool_ok m m' : pool_ok m → step m m' → pool_ok m' ∧ config m' = config m ∧ local_id m' = local_id m.
Proof.
  intros Hok Hs. pose proof Hok as (Hn & Hl & Hd). destruct Hs as [now a|peer|s peer|rtt peer|now peer data m' r Hs|now].
  - unfold add_connection. case_bool_decide as Hself; [done|]. destruct (is_connected (node_id a) m) eqn:Ec; [done|].
    unfold has_capacity. case_bool_decide as Hcap; [|done]. cbn. split; [|done]. split_and!.
    + unfold connection_count in *. rewrite active_insert_true by done. rewrite map_size_insert. cbn. destruct (active m !! _); unfold id; lia.
    + cbn. by rewrite lookup_insert_ne.
    + cbn. by apply map_Forall_insert_2.
  - split; [by apply pool_ok_remove|done].
  - unfold update_connection. destruct (get_connection peer m) as [c|] eqn:E; [|done]. split; [|done]. by eapply pool_ok_change.
  - unfold update_connection. destruct (get_connection peer m) as [c|] eqn:E; [|done]. split; [|done]. by eapply pool_ok_change.
  - destruct (send_fails _ _ _ _ _ _ Hok Hs) as (Hc & Hcf & Hli & _). unfold pool_ok, connection_count, active in *. by rewrite Hc, Hcf, Hli.
  - destruct (cleanup_connections now m) as (Hc & Hcf & Hli). split; [|done]. unfold pool_ok, connection_count, active in *. rewrite Hc, Hcf, Hli. split_and!.
    + etrans; [|exact Hn]. apply map_subseteq_size. apply map_filter_subseteq_mono, map_filter_subseteq.
    + apply map_lookup_filter_None. by left.
    + intros k c [Hk _]%map_lookup_filter_Some. by apply Hd.
Qed.

Lemma reach_pool_ok local c m : rtc step (new local c) m → pool_ok m ∧ config m = c ∧ local_id m = local.
Proof.
  intros Hr. apply (rtc_preserve (λ m, pool_ok m ∧ config m = c ∧ local_id m = local) step (new local c) m); [|split; [|done]|done].
  - intros m1 m2 (Hok & <- & <-) Hs. by apply step_pool_ok.
  - split_and!; [|by apply lookup_empty|by apply map_Forall_empty]. unfold connection_count, active. cbn. rewrite map_filter_empty, map_size_empty. lia.
Qed.

Lemma is_connected_active peer m : is_connected peer m = true ↔ is_Some (active m !! peer).
Proof.
  rewrite active_lookup. unfold is_connected, get_connection. destruct (connections m !! peer) as [c|]; [|by split; [|intros []]].
  destruct (is_active c); split; (done || by eauto || by intros []).
Qed.

(** In every state of a manager: no more active connections than the limit and
    none to ourselves; the peers it lists are those it is connected to, once
    each; a new peer is taken exactly when it is another node and either
    connected already or there is room; and cleaning up drops the peers idle
    for too long and no others.  Sending, though, never succeeds: what a
    connection would send to was dropped when it was made. *)
Theorem pool_invariant (local : bytes) (c : TransportConfig) (m : ConnectionManager) (Hr : rtc step (new local c) m) :
  connection_count m ≤ max_connections c ∧ is_connected local m = false ∧
  NoDup (connected_peers m) ∧ length (connected_peers m) = connection_count m ∧
  (∀ peer, peer ∈ connected_peers m ↔ is_connected peer m = true) ∧
  (∀ now a, let '(m', r) := add_connection now a m in
     (is_ok r = true ↔ node_id a ≠ local ∧ (is_connected (node_id a) m = true ∨ connection_count m < max_connections c)) ∧
     (is_ok r = true → is_connected (node_id a) m' = true) ∧ (is_ok r = false → m' = m)) ∧
  (∀ now peer, is_connected peer (cleanup_stale now m) = true ↔
     ∃ k, get_connection peer m = Some k ∧ (idle_duration now k ≤ idle_timeout c)%N) ∧
  (∀ now peer data m' r, send_to now peer data m = Some (m', r) → is_ok r = false ∧ connections m' = connections m).
Proof.
  destruct (reach_pool_ok _ _ _ Hr) as (Hok & Hc & Hl). pose proof Hok as (Hn & Hself & Hd). rewrite Hc in Hn. rewrite Hl in Hself.
  split_and!; [done|by unfold is_connected; rewrite Hself| | | | | |].
  - apply NoDup_fst_map_to_list.
  - unfold connected_peers, connection_count. by rewrite length_fmap, length_map_to_list.
  - intros peer. rewrite is_connected_active. unfold connected_peers. rewrite list_elem_of_fmap. split.
    + intros ([k x] & -> & Hin%elem_of_map_to_list). by exists x.
    + intros [x Hx]. exists (peer, x). split; [done|by apply elem_of_map_to_list].
  - intros now a. unfold add_connection. rewrite Hl. case_bool_decide as Hs; [cbn; naive_solver|].
    destruct (is_connected (node_id a) m) eqn:E; [cbn; naive_solver|]. unfold has_capacity. rewrite Hc.
    case_bool_decide; cbn; [|naive_solver lia]. split_and!; [naive_solver| |done]. intros _. unfold is_connected. cbn. by rewrite lookup_insert_eq.
  - intros now peer. destruct (cleanup_connections now m) as (Hcc & _). unfold is_connected, get_connection. rewrite Hcc.
    destruct (filter _ _ !! peer) as [k|] eqn:E.
    + apply map_lookup_filter_Some in E as [E Hst]. rewrite E. cbn in Hst. unfold is_stale in Hst. rewrite Hc in Hst.
      destruct (is_active k); [|naive_solver]. cbn in Hst. bprop. split; [eauto|done].
    + split; [done|]. intros (k & Hk & Hi). destruct (connections m !! peer) as [k'|] eqn:Ek; [|done]. destruct (is_active k') eqn:Ea; [|done].
      injection Hk as ->. apply map_lookup_filter_None in E as [E|E]; [congruence|]. exfalso. apply (E k Ek). cbn. unfold is_stale.
      rewrite Ea, Hc. cbn. by apply N.ltb_ge.
  - intros now peer data m' r Hs. destruct (send_fails _ _ _ _ _ _ Hok Hs) as (? & _ & _ & ?). done.
Qed.
End pool.
End Pool.

(* ------------------------------------------------------------------ *)
(** ** The QUIC transport *)

Module Iroh.
Section iroh.
Context `{Hex}.

Definition MAX_FRAME_SIZE : N := 1048576.
(** The capacities given to the two kinds of channels. *)
Definition OUTBOUND : nat := 256.
Definition INBOUND : nat := 1024.

(** *** Frames *)

(** What the writer puts on a stream; the length is cast to 32 bits. *)
Definition frame (data : bytes) : bytes := be_bytes 4 (N.of_nat (length data) mod 2 ^ 32) ++ data.

(** What the reader makes of a stream: [None] where it goes on to the next. *)
Definition read_frame (s : bytes) : option bytes :=
  if bool_decide (length s < 4) then None
  else
    let n := be_value (take 4 s) in
    if (MAX_FRAME_SIZE <? n)%N then None
    else if (N.of_nat (length (drop 4 s)) <? n)%N then None
    else Some (take (N.to_nat n) (drop 4 s)).

(** *** State *)

(** A writer task is in its loop, out of it with its receiver dropped, or done
    with removing the peer. *)
Inductive Writer := Running | Ended | Cleaned.
#[export] Instance writer_eq_dec : EqDecision Writer.
Proof. solve_decision. Defined.

(** A connection that [setup_connection] kept, with its two tasks. *)
Record Connection := MkConnection {
  remote : bytes;
  queue : list bytes;
  writer : Writer;
  reading : bool;
  alive : bool;
  wire : list bytes;
  sent : list bytes
}.

(** [peers] names the connection whose sender it holds. *)
Record IrohTransport := MkTransport {
  local_node_id : bytes;
  peers : gmap bytes nat;
  conns : gmap nat Connection;
  inbound : list (bytes * bytes)
}.
Definition new (local : bytes) : IrohTransport := MkTransport local ∅ ∅ [].

Definition with_peers (p : gmap bytes nat) (t : IrohTransport) : IrohTransport := MkTransport (local_node_id t) p (conns t) (inbound t).
Definition with_conn (id : nat) (c : Connection) (t : IrohTransport) : IrohTransport :=
  MkTransport (local_node_id t) (peers t) (<[id := c]> (conns t)) (inbound t).
Definition with_inbound (i : list (bytes * bytes)) (t : IrohTransport) : IrohTransport := MkTransport (local_node_id t) (peers t) (conns t) i.

Definition with_queue (q : list bytes) (c : Connection) : Connection :=
  MkConnection (remote c) q (writer c) (reading c) (alive c) (wire c) (sent c).
Definition with_writer (w : Writer) (c : Connection) : Connection :=
  MkConnection (remote c) (queue c) w (reading c) (alive c) (wire c) (sent c).
Definition with_wire (w : list bytes) (c : Connection) : Connection :=
  MkConnection (remote c) (queue c) (writer c) (reading c) (alive c) w (sent c).
Definition with_sent (s : list bytes) (c : Connection) : Connection :=
  MkConnection (remote c) (queue c) (writer c) (reading c) (alive c) (wire c) s.
Definition stop_reading (c : Connection) : Connection :=
  MkConnection (remote c) (queue c) (writer c) false (alive c) (wire c) (sent c).
Definition die (c : Connection) : Connection :=
  MkConnection (remote c) (queue c) (writer c) (reading c) false (wire c) (sent c).

(** [is_closed] of the sender: the receiver is gone. *)
Definition is_closed (id : nat) (t : IrohTransport) : bool :=
  match conns t !! id with Some c => negb (bool_decide (writer c = Running)) | None => true end.

(** *** Operations *)

(** Of two connections with a peer the first is kept. *)
Definition setup_connection (id : nat) (remote_node_id : bytes) (t : IrohTransport) : IrohTransport :=
  if bool_decide (is_Some (peers t !! remote_node_id)) then t
  else with_conn id (MkConnection remote_node_id [] Running true true [] []) (with_peers (<[remote_node_id := id]> (peers t)) t).

(** [send] waits, with the table locked, while the channel is full: [None]. *)
Definition send (peer data : bytes) (t : IrohTransport) : option (IrohTransport * result TransportError unit) :=
  match peers t !! peer with
  | None => Some (t, Err (PeerNotConnected (debug_id peer)))
  | Some id =>
      match conns t !! id with
      | Some c =>
          if negb (bool_decide (writer c = Running)) then Some (t, Err (ConnectionClosed (lit "outbound channel closed")))
          else if bool_decide (length (queue c) < OUTBOUND) then Some (with_conn id (with_queue (queue c ++ [data]) c) t, Ok tt)
          else None
      | None => Some (t, Err (ConnectionClosed (lit "outbound channel closed")))
      end
  end.

(** [recv] waits for a message: [None].  The transport itself holds a sender,
    so the channel never closes. *)
Definition recv (t : IrohTransport) : option (IrohTransport * (bytes * bytes)) :=
  match inbound t with m :: q => Some (with_inbound q t, m) | [] => None end.

(** [key] is the conversion of the node id, [dialed] the answer of the endpoint. *)
Definition connect (id : nat) (a : PeerAddr) (key dialed : result str unit) (t : IrohTransport) : IrohTransport * result TransportError unit :=
  if bool_decide (is_Some (peers t !! node_id a)) then (t, Ok tt)
  else match key with
       | Err e => (t, Err (ConnectionFailed (debug_id (node_id a)) (lit "invalid node ID for Iroh: " ++ e)))
       | Ok _ =>
           match dialed with
           | Err e => (t, Err (ConnectionFailed (debug_id (node_id a)) (lit "Iroh connect failed: " ++ e)))
           | Ok _ => (setup_connection id (node_id a) t, Ok tt)
           end
       end.

Definition disconnect (peer : bytes) (t : IrohTransport) : IrohTransport := with_peers (delete peer (peers t)) t.

(** Both look only if they get the lock at once; [locked] says it is taken. *)
Definition connected_peers (locked : bool) (t : IrohTransport) : list bytes := if locked then [] else (map_to_list (peers t)).*1.
Definition is_connected (locked : bool) (peer : bytes) (t : IrohTransport) : bool :=
  if locked then false else bool_decide (is_Some (peers t !! peer)).

(** *** Tasks *)

(** One turn of the writer: the next message on a stream of its own, the end
    of the loop, or the removal of the peer afterwards.  [None]: it waits. *)
Definition writer_step (id : nat) (t : IrohTransport) : option IrohTransport :=
  c ← conns t !! id;
  match writer c with
  | Running =>
      match queue c with
      | d :: q =>
          if alive c then Some (with_conn id (with_sent (sent c ++ [frame d]) (with_queue q c)) t)
          else Some (with_conn id (with_writer Ended (with_queue [] c)) t)
      | [] => if bool_decide (peers t !! remote c = Some id) then None else Some (with_conn id (with_writer Ended c) t)
      end
  | Ended =>
      let t' := with_conn id (with_writer Cleaned c) t in
      match peers t !! remote c with
      | Some id' => if is_closed id' t then Some (with_peers (delete (remote c) (peers t)) t') else Some t'
      | None => Some t'
      end
  | Cleaned => None
  end.

(** One turn of the reader: the [i]-th stream that is there, or its end. *)
Definition reader_step (id i : nat) (t : IrohTransport) : option IrohTransport :=
  c ← conns t !! id;
  if negb (reading c) then None
  else if negb (alive c) then Some (with_conn id (stop_reading c) t)
  else
    s ← wire c !! i;
    let t' := with_conn id (with_wire (delete i (wire c)) c) t in
    match read_frame s with
    | None => Some t'
    | Some d => if bool_decide (length (inbound t) < INBOUND) then Some (with_inbound (inbound t ++ [(remote c, d)]) t') else None
    end.

(** Everything that happens, labelled with the peer we send to or leave. *)
Inductive step (t : IrohTransport) : option bytes → IrohTransport → Prop :=
| step_setup id p : conns t !! id = None → step t None (setup_connection id p t)
| step_send p d t' r : send p d t = Some (t', r) → step t (Some p) t'
| step_disconnect p : step t (Some p) (disconnect p t)
| step_recv t' m : recv t = Some (t', m) → step t None t'
| step_writer id t' : writer_step id t = Some t' → step t None t'
| step_reader id i t' : reader_step id i t = Some t' → step t None t'
| step_arrive id c s : conns t !! id = Some c → alive c = true → step t None (with_conn id (with_wire (wire c ++ [s]) c) t)
| step_die id c : conns t !! id = Some c → step t None (with_conn id (die c) t).

Definition any_step (t t' : IrohTransport) : Prop := ∃ l, step t l t'.
Definition reach (local : bytes) (t : IrohTransport) : Prop := rtc any_step (new local) t.

(** *** Properties *)

Definition conn_ok (c : Connection) : Prop := length (queue c) ≤ OUTBOUND ∧ (writer c ≠ Running → queue c = []).

(** Every entry of the table has a connection with that peer whose writer task
    will still remove it. *)
Definition transport_ok (t : IrohTransport) : Prop :=
  (∀ p id, peers t !! p = Some id → ∃ c, conns t !! id = Some c ∧ remote c = p ∧ writer c ≠ Cleaned) ∧
  map_Forall (λ _ c, conn_ok c) (conns t) ∧
  length (inbound t) ≤ INBOUND ∧
  Forall (λ m, (N.of_nat (length m.2) ≤ MAX_FRAME_SIZE)%N ∧ ∃ id c, conns t !! id = Some c ∧ remote c = m.1) (inbound t).

Lemma read_frame_le s d : read_frame s = Some d → (N.of_nat (length d) ≤ MAX_FRAME_SIZE)%N.
Proof.
  unfold read_frame. cbv zeta. case_bool_decide; [done|]. destruct (MAX_FRAME_SIZE <? _)%N eqn:E1; [done|]. destruct (N.of_nat _ <? _)%N eqn:E2; [done|].
  bprop. intros [= <-]. rewrite length_take. lia.
Qed.

(** Replacing a connection by one with the same peer, whose writer is not done
    while its entry stands. *)
Lemma ok_with_conn id c c' t : transport_ok t → conns t !! id = Some c → remote c' = remote c → conn_ok c' →
  (peers t !! remote c = Some id → writer c' ≠ Cleaned) → transport_ok (with_conn id c' t).
Proof.
  intros (Hp & Hc & Hl & Hi) Hid Hr Hok Hw. split_and!; cbn.
  - intros p id' Hpid. destruct (decide (id' = id)) as [->|Hne].
    + destruct (Hp p id Hpid) as (c0 & Hc0 & <- & _). rewrite Hid in Hc0. injection Hc0 as <-.
      exists c'. rewrite lookup_insert_eq. split_and!; [done|done|by apply Hw].
    + rewrite lookup_insert_ne by done. by apply Hp.
  - by apply map_Forall_insert_2.
  - done.
  - eapply Forall_impl; [exact Hi|]. intros m (Hlen & id' & c0 & Hc0 & Hm). split; [done|].
    destruct (decide (id' = id)) as [->|Hne]; [|exists id', c0; by rewrite lookup_insert_ne].
    rewrite Hid in Hc0. injection Hc0 as <-. exists id, c'. by rewrite lookup_insert_eq, Hr.
Qed.

Lemma ok_delete_peer p t : transport_ok t → transport_ok (with_peers (delete p (peers t)) t).
Proof. intros (Hp & Hrest). split; [|exact Hrest]. intros q id Hq. cbn in Hq. apply lookup_delete_Some in Hq as [_ Hq]. by apply Hp. Qed.

Lemma iroh_send_ok p d t t' r : transport_ok t → send p d t = Some (t', r) → transport_ok t'.
Proof.
  intros Hok. unfold send. destruct (peers t !! p) as [id|] eqn:Ep; [|by intros [= <- <-]].
  destruct (conns t !! id) as [c|] eqn:Ec; [|by intros [= <- <-]].
  case_bool_decide as Hw; [|by intros [= <- <-]]. cbn [negb]. case_bool_decide as Hq; [|done]. intros [= <- <-].
  eapply ok_with_conn; [done|done|done| |]; cbn; [|by rewrite Hw].
  split; cbn; [rewrite length_app; cbn; lia|by rewrite Hw].
Qed.

Lemma writer_ok id t t' : transport_ok t → writer_step id t = Some t' → transport_ok t'.
Proof.
  intros Hok. pose proof Hok as (Hp & Hc & _). unfold writer_step. destruct (conns t !! id) as [c|] eqn:Ec; [|done]. cbn [mbind option_bind].
  destruct (Hc id c Ec) as [Hq Hw]. destruct (writer c) eqn:Ew.
  - destruct (queue c) as [|d q] eqn:Eq.
    + case_bool_decide; [done|]. intros [= <-]. eapply ok_with_conn; [done|done|done|by split; cbn; rewrite ?Eq; cbn; lia || done|done].
    + cbn in Hq. destruct (alive c); intros [= <-]; (eapply ok_with_conn; [done|done|done| |]); cbn; try (by rewrite Ew); try done.
      all: split; cbn; [lia|by rewrite ?Ew].
  - specialize (Hw ltac:(done)).
    assert (Hok' : peers t !! remote c ≠ Some id → transport_ok (with_conn id (with_writer Cleaned c) t)).
    { intros Hne. eapply ok_with_conn; [done|done|done|split; cbn; [rewrite Hw; cbn; lia|done]|done]. }
    destruct (peers t !! remote c) as [id'|] eqn:Ep; [|intros [= <-]; by apply Hok'].
    destruct (is_closed id' t) eqn:Ecl.
    + intros [= <-]. change (with_peers (delete (remote c) (peers t)) (with_conn id (with_writer Cleaned c) t))
        with (with_conn id (with_writer Cleaned c) (with_peers (delete (remote c) (peers t)) t)).
      eapply ok_with_conn; [by apply ok_delete_peer|done|done|split; cbn; [rewrite Hw; cbn; lia|done]|].
      cbn. by rewrite lookup_delete_eq.
    + intros [= <-]. apply Hok'. intros [= ->]. unfold is_closed in Ecl. rewrite Ec, Ew in Ecl. done.
  - done.
Qed.

Lemma reader_ok id i t t' : transport_ok t → reader_step id i t = Some t' → transport_ok t'.
Proof.
  intros Hok. pose proof Hok as (Hp & Hc & _). unfold reader_step. destruct (conns t !! id) as [c|] eqn:Ec; [|done]. cbn [mbind option_bind].
  assert (Hsame : ∀ c', remote c' = remote c → queue c' = queue c → writer c' = writer c → transport_ok (with_conn id c' t)).
  { intros c' Hr Hq Hw. eapply ok_with_conn; [done|done|done| |].
    - unfold conn_ok. rewrite Hq, Hw. by apply (Hc id).
    - intros Hpid. rewrite Hw. destruct (Hp _ _ Hpid) as (c0 & Hc0 & _ & ?). congruence. }
  destruct (reading c); [|done]. cbn [negb]. destruct (alive c); cbn [negb]; [|intros [= <-]; by apply Hsame].
  destruct (wire c !! i) as [s|] eqn:Es; [|done]. cbn [mbind option_bind].
  destruct (read_frame s) as [d|] eqn:Ef; [|intros [= <-]; by apply Hsame].
  case_bool_decide as Hi; [|done]. intros [= <-].
  assert (Hok' : transport_ok (with_conn id (with_wire (delete i (wire c)) c) t)) by by apply Hsame.
  destruct Hok' as (H1 & H2 & H3 & H4). split_and!; [exact H1|exact H2|cbn; rewrite length_app; cbn; lia|].
  cbn in *. apply Forall_app. split; [exact H4|]. constructor; [|constructor]. cbn. split; [by eapply read_frame_le|].
  eexists id, _. by rewrite lookup_insert_eq.
Qed.

Lemma step_ok l t t' : transport_ok t → step t l t' → transport_ok t'.
Proof.
  intros Hok Hs. pose proof Hok as (Hp & Hc & Hl & Hi). destruct Hs as [id p Hnew|p d t' r Hs|p|t' m Hs|id t' Hs|id i t' Hs|id c s Hid Ha|id c Hid].
  - unfold setup_connection. case_bool_decide as Hd; [done|]. split_and!; cbn.
    + intros q id' [[<- <-]|[Hne Hq]]%lookup_insert_Some; [eexists; rewrite lookup_insert_eq; by split_and!|].
      destruct (Hp q id' Hq) as (c & Hcc & ?). exists c. rewrite lookup_insert_ne; [done|]. intros ->. congruence.
    + apply map_Forall_insert_2; [|done]. split; cbn; [lia|done].
    + done.
    + eapply Forall_impl; [exact Hi|]. intros m (Hlen & id' & c & Hcc & Hm). split; [done|]. exists id', c.
      rewrite lookup_insert_ne; [done|]. intros ->. congruence.
  - by eapply iroh_send_ok.
  - by apply ok_delete_peer.
  - unfold recv in Hs. destruct (inbound t) as [|x q] eqn:E; [done|]. injection Hs as <- <-. split_and!; cbn; [done|done|cbn in Hl; lia|].
    by inversion Hi.
  - by eapply writer_ok.
  - by eapply reader_ok.
  - eapply ok_with_conn; [done|done|done|exact (Hc id c Hid)|]. cbn. intros Hpid. destruct (Hp _ _ Hpid) as (c0 & Hc0 & _ & ?). congruence.
  - eapply ok_with_conn; [done|done|done|exact (Hc id c Hid)|]. cbn. intros Hpid. destruct (Hp _ _ Hpid) as (c0 & Hc0 & _ & ?). congruence.
Qed.

Lemma reach_ok local t : reach local t → transport_ok t.
Proof.
  intros Hr. apply (rtc_preserve transport_ok any_step (new local) t); [|split_and!; cbn|done].
  - intros t1 t2 Hok [l Hs]. by eapply step_ok.
  - intros p id Hl. by rewrite lookup_empty in Hl.
  - apply map_Forall_empty.
  - lia.
  - constructor.
Qed.

Lemma read_own_frame d : (N.of_nat (length d) < 2 ^ 32)%N →
  read_frame (frame d) = if (MAX_FRAME_SIZE <? N.of_nat (length d))%N then None else Some d.
Proof.
  intros Hd. unfold read_frame, frame. rewrite bool_decide_false by (rewrite length_app, length_be_bytes; lia).
  rewrite take_app_length', drop_app_length' by (by rewrite length_be_bytes). cbv zeta.
  rewrite (N.mod_small _ (2 ^ 32)) by done. rewrite be_value_bytes by done. destruct (_ <? _)%N; [done|].
  rewrite N.ltb_irrefl. by rewrite Nat2N.id, firstn_all.
Qed.

(** C17. In every state the transport can reach, whatever the interleaving of calls,
    tasks and connections: a peer is listed once and only while the task that
    will remove it is still there, queues keep their capacities, and what
    [recv] hands out is a frame of at most a mebibyte from a peer there was a
    connection with.  A writer task that waits has an empty queue and its
    sender in the table; so when all have stopped, the peers that are left are
    those whose writer waits for a message. *)
Theorem transport_invariant (local : bytes) (t : IrohTransport) (Hr : reach local t) :
  NoDup (connected_peers false t) ∧
  (∀ p, is_connected false p t = true → ∃ id c, peers t !! p = Some id ∧ conns t !! id = Some c ∧ remote c = p ∧ writer c ≠ Cleaned) ∧
  map_Forall (λ _ c, length (queue c) ≤ 256) (conns t) ∧ length (inbound t) ≤ 1024 ∧
  (∀ t' p d, recv t = Some (t', (p, d)) → (N.of_nat (length d) ≤ 1048576)%N ∧ ∃ id c, conns t !! id = Some c ∧ remote c = p) ∧
  (∀ id c, conns t !! id = Some c → writer_step id t = None →
     writer c = Cleaned ∨ (writer c = Running ∧ queue c = [] ∧ peers t !! remote c = Some id)).
Proof.
  destruct (reach_ok _ _ Hr) as (Hp & Hc & Hl & Hi). split_and!; [apply NoDup_fst_map_to_list| | |done| |].
  - intros p Hpc. cbn in Hpc. bprop. destruct Hpc as [id Hid]. exists id. destruct (Hp p id Hid) as (c & ? & ? & ?). by exists c.
  - intros id c Hid. by apply (Hc id).
  - intros t' p d Hrecv. unfold recv in Hrecv. destruct (inbound t) as [|m q]; [done|]. injection Hrecv as _ ->.
    apply Forall_cons_1 in Hi as [[Hm Hex] _]. done.
  - intros id c Hid. unfold writer_step. rewrite Hid. cbn [mbind option_bind]. destruct (writer c) eqn:Ew; [|repeat case_match; done|by left].
    destruct (queue c) eqn:Eq; [|by destruct (alive c)]. case_bool_decide; [by right|done].
Qed.

(** *** A connection that broke *)

(** The peer is listed, but its connection is gone and nothing waits to be sent. *)
Definition stale (p : bytes) (id : nat) (t : IrohTransport) : Prop :=
  peers t !! p = Some id ∧ ∃ c, conns t !! id = Some c ∧ remote c = p ∧ writer c = Running ∧ queue c = [] ∧ alive c = false.

(** Steps that neither send to [p] nor disconnect it. *)
Definition quiet (p : bytes) (t t' : IrohTransport) : Prop := ∃ l, l ≠ Some p ∧ step t l t'.

Lemma stale_other p id id' c' t : stale p id t → id' ≠ id → stale p id (with_conn id' c' t).
Proof. intros (Hp & c & Hc & ?) Hne. split; [done|]. exists c. cbn. by rewrite lookup_insert_ne. Qed.

Lemma stale_same p id c c' t : stale p id t → conns t !! id = Some c → remote c' = remote c → queue c' = queue c → writer c' = writer c →
  alive c' = alive c → stale p id (with_conn id c' t).
Proof.
  intros (Hp & c0 & Hc0 & Hr & Hw & Hq & Ha) Hc E1 E2 E3 E4. rewrite Hc in Hc0. injection Hc0 as <-. split; [done|].
  exists c'. cbn. rewrite lookup_insert_eq, E1, E2, E3, E4. done.
Qed.

Lemma stale_conn p id id' c c' t : stale p id t → conns t !! id' = Some c → remote c' = remote c → queue c' = queue c → writer c' = writer c →
  (id' = id → alive c' = alive c) → stale p id (with_conn id' c' t).
Proof. intros Hst Hc ? ? ? Ha. destruct (decide (id' = id)) as [->|]; [eapply stale_same; eauto|by apply stale_other]. Qed.

Lemma stale_quiet p id t t' : transport_ok t → stale p id t → quiet p t t' → stale p id t'.
Proof.
  intros Hok Hst (l & Hl & Hs). pose proof Hst as (Hp & c & Hc & Hrem & Hw & Hq & Ha).
  destruct Hs as [id' q Hnew|q d t' r Hs|q|t' m Hs|id' t' Hs|id' i t' Hs|id' c' s Hid Hal|id' c' Hid].
  - unfold setup_connection. case_bool_decide as Hd; [done|]. split; cbn.
    + rewrite lookup_insert_ne; [done|]. intros ->. apply Hd. by exists id.
    + exists c. rewrite lookup_insert_ne; [done|]. intros ->. congruence.
  - unfold send in Hs. destruct (peers t !! q) as [id'|] eqn:Eq; [|by injection Hs as <- <-].
    destruct (conns t !! id') as [c'|] eqn:Ec; [|by injection Hs as <- <-]. destruct (negb _); [by injection Hs as <- <-|].
    case_bool_decide; [|done]. injection Hs as <- <-. apply stale_other; [done|]. intros ->.
    destruct Hok as (Hpk & _). destruct (Hpk q id Eq) as (c0 & Hc0 & Hr0 & _). rewrite Hc in Hc0. injection Hc0 as <-. congruence.
  - split; [cbn; rewrite lookup_delete_ne; [done|congruence]|]. by exists c.
  - unfold recv in Hs. destruct (inbound t); [done|]. by injection Hs as <- <-.
  - unfold writer_step in Hs. destruct (conns t !! id') as [c'|] eqn:Ec; [|done]. cbn [mbind option_bind] in Hs.
    destruct (decide (id' = id)) as [->|Hne].
    { assert (c' = c) as -> by congruence. rewrite Hw, Hq, Hrem, bool_decide_true in Hs by done. done. }
    destruct (writer c').
    + destruct (queue c'); [case_bool_decide; [done|]; injection Hs as <-; by apply stale_other|].
      destruct (alive c'); injection Hs as <-; by apply stale_other.
    + destruct (peers t !! remote c') as [id''|] eqn:Ep; [|injection Hs as <-; by apply stale_other].
      destruct (is_closed id'' t) eqn:Ecl; injection Hs as <-; [|by apply stale_other].
      split; [|exists c; cbn; by rewrite lookup_insert_ne]. cbn. rewrite lookup_delete_ne; [done|]. intros E. rewrite E, Hp in Ep. injection Ep as <-.
      unfold is_closed in Ecl. by rewrite Hc, Hw in Ecl.
    + done.
  - unfold reader_step in Hs. destruct (conns t !! id') as [c'|] eqn:Ec; [|done]. cbn [mbind option_bind] in Hs.
    destruct (reading c'); [|done]. cbn [negb] in Hs. destruct (alive c') eqn:Eal; cbn [negb] in Hs.
    + destruct (wire c' !! i) as [s|]; [|done]. cbn [mbind option_bind] in Hs.
      assert (Hst' : stale p id (with_conn id' (with_wire (delete i (wire c')) c') t)) by (eapply stale_conn; by eauto).
      destruct (read_frame s); [|by injection Hs as <-]. case_bool_decide; [|done]. by injection Hs as <-.
    + injection Hs as <-. eapply stale_conn; by eauto.
  - eapply stale_conn; by eauto.
  - eapply stale_conn; eauto; [done..|]. intros ->. cbn. congruence.
Qed.

(** A peer whose connection broke stays listed as connected for as long as we
    send it nothing: calls to [connect] return at once without dialling, and
    the connection the peer itself opens, after a restart say, is dropped.
    The first message to it is accepted and lost, and only then does its entry
    go, so that the next connection is taken. *)
Theorem stale_peer (local p : bytes) (id : nat) (t t' : IrohTransport)
    (Hr : reach local t) (Hst : stale p id t) (Hq : rtc (quiet p) t t') :
  is_connected false p t' = true ∧
  (∀ id' addrs key dialed, connect id' (MkAddr p addrs) key dialed t' = (t', Ok tt)) ∧
  (∀ id', setup_connection id' p t' = t') ∧
  ∀ d, ∃ t1 t2 t3, send p d t' = Some (t1, Ok tt) ∧ writer_step id t1 = Some t2 ∧ writer_step id t2 = Some t3 ∧
    is_connected false p t3 = false ∧
    (sent <$> conns t3 !! id) = (sent <$> conns t' !! id) ∧
    ∀ id', conns t3 !! id' = None → is_connected false p (setup_connection id' p t3) = true.
Proof.
  assert (Hst' : transport_ok t' ∧ stale p id t').
  { apply (rtc_preserve (λ t, transport_ok t ∧ stale p id t) (quiet p) t t'); [|split; [by eapply reach_ok|done]|done].
    intros t1 t2 [Hok1 Hst1] Hq1. split; [|by eapply stale_quiet]. destruct Hq1 as (l & _ & Hs1). by eapply step_ok. }
  destruct Hst' as [Hok (Hp & c & Hc & Hrem & Hw & Hqu & Ha)].
  assert (His : is_Some (peers t' !! p)) by by exists id.
  split_and!.
  - cbn. by apply bool_decide_eq_true.
  - intros. unfold connect. cbn. by rewrite bool_decide_true.
  - intros. unfold setup_connection. by rewrite bool_decide_true.
  - intros d. unfold send. rewrite Hp, Hc, Hw, Hqu. rewrite !bool_decide_true by (done || (cbn; unfold OUTBOUND; lia)). cbn [negb].
    eexists _, _, _. split; [done|]. split.
    { unfold writer_step at 1. cbn. rewrite lookup_insert_eq. cbn. rewrite Hw, Ha. done. }
    split.
    { unfold writer_step at 1. cbn. rewrite lookup_insert_eq. cbn. rewrite Hrem, Hp. unfold is_closed. cbn. rewrite lookup_insert_eq. cbn. done. }
    cbn. rewrite lookup_delete_eq. split; [done|]. rewrite !lookup_insert_eq. split; [done|].
    intros id' _. unfold setup_connection. cbn. rewrite lookup_delete_eq. rewrite (bool_decide_false (is_Some None)) by (by intros []). cbn.
    by rewrite lookup_insert_eq.
Qed.

(** Leaving a peer does not close the connection: its messages still arrive. *)
Lemma disconnected_peer_heard p id c d t : peers t !! p = Some id → conns t !! id = Some c → remote c = p → reading c = true → alive c = true →
  wire c = [] → inbound t = [] → (N.of_nat (length d) ≤ MAX_FRAME_SIZE)%N →
  let t1 := disconnect p t in
  is_connected false p t1 = false ∧
  ∃ t2 t3 t4, step t1 None t2 ∧ reader_step id 0 t2 = Some t3 ∧ recv t3 = Some (t4, (p, d)).
Proof.
  intros Hp Hc Hrem Hrd Ha Hwi Hin Hd t1. split; [cbn; by rewrite lookup_delete_eq|].
  eexists _, _, _. split; [by apply (step_arrive t1 id c (frame d))|].
  unfold reader_step. cbn -[read_frame frame]. rewrite lookup_insert_eq. cbn -[read_frame frame]. rewrite Hrd, Ha, Hwi. cbn -[read_frame frame]. rewrite read_own_frame by (unfold MAX_FRAME_SIZE in Hd; lia).
  rewrite (proj2 (N.ltb_ge _ _)) by done. rewrite Hin. rewrite bool_decide_true by (cbn; unfold INBOUND; lia).
  split; [done|]. cbn. by rewrite Hrem.
Qed.
End iroh.
End Iroh.

(* ------------------------------------------------------------------ *)
(** ** Broadcasting over any transport *)

(** The trait, as far as [PeerRegistry] uses it, for a transport with states
    [S]; [t_send] is [None] while it waits. *)
Class Transport (S : Type) := {
  t_send : bytes → bytes → S → option (S * result TransportError unit);
  t_connected_peers : S → list bytes;
  t_is_connected : bytes → S → bool
}.

(** What a transport owes its users: a message is queued for its peer alone, or
    for nobody when sending fails. *)
Class TransportLaws (S : Type) `{Transport S} := {
  t_valid : S → Prop;
  queued : S → bytes → list bytes;
  peers_once s : NoDup (t_connected_peers s);
  send_valid p d s s' r : t_valid s → t_send p d s = Some (s', r) → t_valid s';
  send_queues p d s s' r : t_valid s → t_send p d s = Some (s', r) →
    ∀ q, queued s' q = if bool_decide (q = p) && is_ok r then queued s q ++ [d] else queued s q
}.

Module Registry.
Section registry.
Context {S : Type} `{Transport S}.

(** Errors are logged and do not stop the broadcast. *)
Fixpoint send_all (data : bytes) (ps : list bytes) (success_count : nat) (s : S) : option (S * nat) :=
  match ps with
  | [] => Some (s, success_count)
  | peer :: ps =>
      '(s', r) ← t_send peer data s;
      send_all data ps (if is_ok r then success_count + 1 else success_count) s'
  end.

Definition broadcast (data : bytes) (s : S) : option (S * nat) := send_all data (t_connected_peers s) 0 s.
Definition broadcast_except (data exclude : bytes) (s : S) : option (S * nat) :=
  send_all data (filter (λ p, p ≠ exclude) (t_connected_peers s)) 0 s.
Definition peer_count (s : S) : nat := length (t_connected_peers s).

Context `{!TransportLaws S}.

Lemma send_all_spec data ps n s s' m : t_valid s → NoDup ps → send_all data ps n s = Some (s', m) →
  ∃ served, NoDup served ∧ served ⊆ ps ∧ m = n + length served ∧
    ∀ q, queued s' q = queued s q ++ (if bool_decide (q ∈ served) then [data] else []).
Proof.
  revert n s. induction ps as [|p ps IH]; intros n s Hv Hnd Hs; cbn in Hs.
  - injection Hs as <- <-. exists []. split_and!; [constructor|done|cbn; lia|]. intros q. rewrite bool_decide_false by set_solver. by rewrite app_nil_r.
  - apply NoDup_cons in Hnd as [Hp Hnd]. destruct (t_send p data s) as [[s1 r]|] eqn:Es; [|done]. cbn in Hs.
    pose proof (send_valid _ _ _ _ _ Hv Es) as Hv1. destruct (IH _ _ Hv1 Hnd Hs) as (served & Hnds & Hsub & -> & Hq). pose proof (send_queues _ _ _ _ _ Hv Es) as Hs1. destruct (is_ok r).
    + exists (p :: served). split_and!; [constructor; [set_solver|done]|set_solver|cbn; lia|]. intros q. rewrite Hq, Hs1. rewrite andb_true_r.
      destruct (decide (q = p)) as [->|Hne].
      * rewrite (bool_decide_true (p = p)) by done. rewrite (bool_decide_false (p ∈ served)) by set_solver.
        rewrite bool_decide_true by set_solver. by rewrite app_nil_r.
      * rewrite (bool_decide_false (q = p)) by done. do 2 case_bool_decide; set_solver.
    + exists served. split_and!; [done|set_solver|lia|]. intros q. rewrite Hq, Hs1. by rewrite andb_false_r.
Qed.

(** A broadcast queues the data once for each of a set of connected peers,
    other than the one it leaves out, and for nobody else; its answer is how
    many they are. *)
Theorem broadcast_counts (data exclude : bytes) (s s' : S) (n : nat) (Hv : t_valid s) (Hb : broadcast_except data exclude s = Some (s', n)) :
  ∃ served, NoDup served ∧ length served = n ∧ (∀ p, p ∈ served → p ∈ t_connected_peers s ∧ p ≠ exclude) ∧
    ∀ q, queued s' q = queued s q ++ (if bool_decide (q ∈ served) then [data] else []).
Proof.
  unfold broadcast_except in Hb. apply send_all_spec in Hb as (served & Hnd & Hsub & -> & Hq); [|done|apply NoDup_filter, peers_once].
  exists served. split_and!; [done|done| |done]. intros p Hp%Hsub. apply list_elem_of_filter in Hp as [??]. done.
Qed.
End registry.
End Registry.

(** The QUIC transport is one. *)
Section instance.
Context `{Hex}.
#[export] Instance iroh_transport : Transport Iroh.IrohTransport := {|
  t_send := Iroh.send;
  t_connected_peers := Iroh.connected_peers false;
  t_is_connected := Iroh.is_connected false
|}.

(** What a peer's writer has still to send. *)
Definition waiting (t : Iroh.IrohTransport) (p : bytes) : list bytes :=
  match Iroh.peers t !! p with
  | Some id => match Iroh.conns t !! id with Some c => Iroh.queue c | None => [] end
  | None => []
  end.

Lemma iroh_send_queues p d t t' r : Iroh.transport_ok t → Iroh.send p d t = Some (t', r) →
  ∀ q, waiting t' q = if bool_decide (q = p) && is_ok r then waiting t q ++ [d] else waiting t q.
Proof.
  intros (Hp & _) Hs q. unfold Iroh.send in Hs.
  destruct (Iroh.peers t !! p) as [id|] eqn:Ep; [|injection Hs as <- <-; by rewrite andb_false_r].
  destruct (Iroh.conns t !! id) as [c|] eqn:Ec; [|injection Hs as <- <-; by rewrite andb_false_r].
  destruct (negb _); [injection Hs as <- <-; by rewrite andb_false_r|]. case_bool_decide; [|done]. injection Hs as <- <-.
  rewrite andb_true_r. unfold waiting. cbn. destruct (Iroh.peers t !! q) as [id'|] eqn:Eq.
  - destruct (decide (id' = id)) as [->|Hne].
    + destruct (Hp p id Ep) as (c1 & Hc1 & <- & _). destruct (Hp q id Eq) as (c2 & Hc2 & <- & _). assert (c1 = c) as -> by congruence.
      assert (c2 = c) as -> by congruence. rewrite lookup_insert_eq, Ec, bool_decide_true by done. done.
    + rewrite lookup_insert_ne by done. rewrite bool_decide_false; [done|]. intros ->. congruence.
  - rewrite bool_decide_false; [done|]. intros ->. congruence.
Qed.

#[export] Instance iroh_transport_laws : TransportLaws Iroh.IrohTransport.
Proof.
  refine {| t_valid := Iroh.transport_ok; queued := waiting |}.
  - intros t. apply NoDup_fst_map_to_list.
  - intros p d t t' r. apply Iroh.iroh_send_ok.
  - apply iroh_send_queues.
Defined.

(** While no queue is full, a broadcast does not wait and counts every
    connected peer whose writer runs. *)
Lemma iroh_broadcast_total data exclude t : Iroh.transport_ok t →
  (∀ p id c, Iroh.peers t !! p = Some id → Iroh.conns t !! id = Some c → Iroh.writer c = Iroh.Running ∧ length (Iroh.queue c) < 256) →
  ∃ t', Registry.broadcast_except data exclude t = Some (t', length (filter (λ p, p ≠ exclude) (Iroh.connected_peers false t))).
Proof.
  intros Hok Hfree. unfold Registry.broadcast_except. cbn [t_connected_peers iroh_transport].
  set (ps := filter _ _). assert (Hps : ∀ p, p ∈ ps → is_Some (Iroh.peers t !! p)).
  { intros p [_ Hp]%list_elem_of_filter. cbn in Hp. apply list_elem_of_fmap in Hp as ([k id] & -> & Hin%elem_of_map_to_list). by exists id. }
  assert (Hnd : NoDup ps) by (apply NoDup_filter, NoDup_fst_map_to_list).
  cut (∀ ps n t, NoDup ps → Iroh.transport_ok t → (∀ p, p ∈ ps → ∃ id c, Iroh.peers t !! p = Some id ∧ Iroh.conns t !! id = Some c ∧
      Iroh.writer c = Iroh.Running ∧ length (Iroh.queue c) < 256) → ∃ t', Registry.send_all data ps n t = Some (t', n + length ps)).
  { intros Hcut. apply (Hcut ps 0); [done|done|]. intros p Hp. destruct (Hps p Hp) as [id Hid]. destruct Hok as (Hok & _).
    destruct (Hok p id Hid) as (c & Hc & _ & _). exists id, c. split_and!; [done|done|by eapply Hfree..]. }
  clear. induction ps as [|p ps IH]; intros n t Hnd Hok Hps; [exists t; by rewrite Nat.add_0_r|].
  apply NoDup_cons in Hnd as [Hp Hnd]. destruct (Hps p ltac:(set_solver)) as (id & c & Hid & Hc & Hw & Hq). cbn [Registry.send_all].
  set (t1 := Iroh.with_conn id (Iroh.with_queue (Iroh.queue c ++ [data]) c) t).
  assert (Hs : Iroh.send p data t = Some (t1, Ok tt)).
  { unfold Iroh.send. rewrite Hid, Hc, Hw. rewrite !bool_decide_true by done. done. }
  change (t_send p data t) with (Iroh.send p data t). rewrite Hs. cbn [mbind option_bind is_ok].
  destruct (IH (n + 1) t1) as [t' Ht']; [done|by eapply Iroh.iroh_send_ok| |exists t'; rewrite Ht'; f_equal; f_equal; cbn; lia].
  intros q Hq'. destruct (Hps q ltac:(set_solver)) as (id' & c' & Hid' & Hc' & Hw' & Hql). exists id', c'. cbn. rewrite lookup_insert_ne; [done|].
  intros ->. destruct Hok as (Hok & _). destruct (Hok p id' Hid) as (x & Hx & Hxp & _). destruct (Hok q id' Hid') as (y & Hy & Hyq & _).
  assert (q = p) by congruence. set_solver.
Qed.
End instance.

(* ------------------------------------------------------------------ *)
(** ** NAT status and discovery *)

Module Nat.
Inductive NatType := Open | FullCone | RestrictedCone | PortRestricted | Symmetric | Unknown.

Definition hole_punch_likely (t : NatType) : bool :=
  match t with Open | FullCone | RestrictedCone | PortRestricted => true | Symmetric | Unknown => false end.
Definition supports_inbound (t : NatType) : bool := match t with Open | FullCone => true | _ => false end.

Record NatStatus := MkStatus { nat_type : NatType; external_addr : option str; last_check : option N; using_relay : bool }.
Definition unknown : NatStatus := MkStatus Unknown None None false.
Definition set_nat_type (now : N) (t : NatType) (s : NatStatus) : NatStatus := MkStatus t (external_addr s) (Some now) (using_relay s).
Definition set_external_addr (a : str) (s : NatStatus) : NatStatus := MkStatus (nat_type s) (Some a) (last_check s) (using_relay s).
Definition should_attempt_upgrade (s : NatStatus) : bool := using_relay s && hole_punch_likely (nat_type s).

Lemma upgrade_needs_relay s : should_attempt_upgrade s = true → using_relay s = true ∧ nat_type s ≠ Symmetric ∧ nat_type s ≠ Unknown.
Proof. unfold should_attempt_upgrade. intros [Hr Ht]%andb_true_iff. split; [done|]. by destruct (nat_type s). Qed.
End Nat.

Module Discovery.
Definition DEFAULT_BOOTSTRAP_NODES : list str := lit <$>
  ["bootstrap-eu-west.ephemera.social:4433"; "bootstrap-us-east.ephemera.social:4433"; "bootstrap-us-west.ephemera.social:4433";
   "bootstrap-ap-southeast.ephemera.social:4433"; "bootstrap-eu-east.ephemera.social:4433"]%string.

Definition default_nodes : list PeerAddr :=
  imap (λ i a, MkAddr ((N.of_nat (i + 1) mod 256)%N :: replicate 31 0%N) [a]) DEFAULT_BOOTSTRAP_NODES.

(** [discover] of both discoveries returns what they were made with. *)
Definition discover (addrs : list PeerAddr) : result TransportError (list PeerAddr) := Ok addrs.

Lemma default_nodes_distinct : NoDup (node_id <$> default_nodes) ∧ Forall (λ a, array 32 (node_id a)) default_nodes.
Proof.
  split; [by apply (bool_decide_unpack _); vm_compute|]. apply Forall_forall. intros a Ha. unfold default_nodes in Ha.
  apply elem_of_lookup_imap in Ha as (i & x & -> & Hi). split; [done|]. constructor; [apply N.mod_lt; lia|by apply Forall_replicate].
Qed.
End Discovery.

(* ------------------------------------------------------------------ *)
(** ** Witnesses *)

Section witnesses.
Import HexToy.

Definition tw_peer : bytes := replicate 32 2%N.
Definition tw_self : bytes := replicate 32 1%N.
Definition tw_other : bytes := replicate 32 3%N.

(** One peer fills the pool of one. *)
Definition tw_config : TransportConfig := MkConfig 1 60 100 4096 4096 15 [] [] 10 100.
Definition tw_pool : Pool.ConnectionManager := (Pool.add_connection 5 (MkAddr tw_peer []) (Pool.new tw_self tw_config)).1.

Lemma pool_invariant_witness : Pool.is_connected tw_peer tw_pool = true ∧ is_ok (Pool.add_connection 6 (MkAddr tw_other []) tw_pool).2 = false ∧
  (∀ now d m' r, Pool.send_to now tw_peer d tw_pool = Some (m', r) → is_ok r = false).
Proof.
  destruct (Pool.pool_invariant tw_self tw_config tw_pool) as (_ & _ & _ & _ & _ & Hadd & _ & Hsend).
  - apply rtc_once. apply Pool.step_add.
  - split; [vm_compute; reflexivity|]. split.
    + specialize (Hadd 6%N (MkAddr tw_other [])). destruct (Pool.add_connection 6 (MkAddr tw_other []) tw_pool) as [m' r] eqn:E. destruct Hadd as (Hiff & _).
      apply not_true_is_false. intros Hr. apply Hiff in Hr as [_ [Hr|Hr]]; [vm_compute in Hr; discriminate|].
      cbn in Hr. apply Nat.ltb_lt in Hr. vm_compute in Hr. discriminate.
    + intros now d m' r Hs. apply (Hsend _ _ _ _ _ Hs).
Defined.

(** A peer connected, then its connection broke. *)
Definition tw_up : Iroh.IrohTransport := Iroh.setup_connection 0 tw_peer (Iroh.new tw_self).
Definition tw_conn : Iroh.Connection := Iroh.MkConnection tw_peer [] Iroh.Running true true [] [].
Definition tw_down : Iroh.IrohTransport := Iroh.with_conn 0 (Iroh.die tw_conn) tw_up.

Lemma tw_reach : Iroh.reach tw_self tw_down.
Proof.
  eapply rtc_l; [exists None; by apply (Iroh.step_setup _ 0 tw_peer)|]. apply rtc_once. exists None. by apply (Iroh.step_die tw_up 0 tw_conn).
Qed.

Lemma transport_invariant_witness : ∃ id c, Iroh.peers tw_down !! tw_peer = Some id ∧ Iroh.conns tw_down !! id = Some c ∧ Iroh.remote c = tw_peer.
Proof.
  destruct (Iroh.transport_invariant tw_self tw_down tw_reach) as (_ & Hl & _).
  destruct (Hl tw_peer) as (id & c & H1 & H2 & H3 & _); [vm_compute; reflexivity|]. exists id, c. split; [exact H1|split; [exact H2|exact H3]].
Defined.

Lemma stale_peer_witness : Iroh.is_connected false tw_peer tw_down = true ∧ Iroh.setup_connection 7 tw_peer tw_down = tw_down.
Proof.
  destruct (Iroh.stale_peer tw_self tw_peer 0 tw_down tw_down tw_reach) as (H1 & _ & H2 & _).
  - split; [reflexivity|]. exists (Iroh.die tw_conn). split; [reflexivity|]. split; [reflexivity|]. split; [reflexivity|]. split; reflexivity.
  - apply rtc_refl.
  - split; [exact H1|apply H2].
Defined.

(** Two peers; one of them sent us what we pass on. *)
Definition tw_two : Iroh.IrohTransport := Iroh.setup_connection 1 tw_other tw_up.

Lemma tw_two_ok : Iroh.transport_ok tw_two.
Proof.
  eapply Iroh.step_ok; [|by apply (Iroh.step_setup _ 1 tw_other)]. eapply Iroh.step_ok; [|by apply (Iroh.step_setup _ 0 tw_peer)].
  apply (Iroh.reach_ok tw_self). apply rtc_refl.
Qed.

Lemma broadcast_counts_witness : ∃ t', Registry.broadcast_except [1; 2]%N tw_peer tw_two = Some (t', 1) ∧ waiting t' tw_peer = [].
Proof.
  destruct (Registry.broadcast_except [1; 2]%N tw_peer tw_two) as [[t' n]|] eqn:E; [|vm_compute in E; discriminate].
  assert (n = 1) as -> by (revert E; vm_compute; by intros [=]).
  exists t'. split; [reflexivity|].
  assert (Hv : t_valid tw_two) by exact tw_two_ok.
  destruct (Registry.broadcast_counts [1; 2]%N tw_peer tw_two t' 1 Hv E) as (served & _ & _ & Hs & Hq).
  change (waiting t' tw_peer) with (queued t' tw_peer). rewrite Hq. rewrite bool_decide_false; [reflexivity|]. intros Hin. destruct (Hs _ Hin) as [_ Hne]. exact (Hne eq_refl).
Defined.
End witnesses.
