(* ===== verification/Config.v ===== *)
(** * Configuration, start-up checks and events
    (ephemera-config lib.rs, ephemera-node startup.rs, ephemera-events lib.rs)

    Paths are strings, joined as on Unix; the TOML printer and parser are
    parameters; what the file system and the ports answer comes in as
    arguments. *)
From S2P Require Import Prelude Types Unicode.
From stdpp Require Import pretty.

(* ------------------------------------------------------------------ *)
(** ** The configuration *)

Definition DEFAULT_MAX_STORAGE_BYTES : N := 10 * 1024 * 1024 * 1024.
Definition DEFAULT_BANDWIDTH_LIMIT_BPS : N := 0.
Definition DEFAULT_GC_INTERVAL_SECS : N := 60.
Definition DEFAULT_DHT_REPLICATION : N := 5.
Definition DEFAULT_MAX_CONNECTIONS : N := 256.
Definition DEFAULT_MAX_MESSAGE_SIZE : N := 64 * 1024.
Definition DEFAULT_CONNECTION_TIMEOUT_SECS : N := 30.

Inductive ResourceProfile := Embedded | Standalone.
Inductive PrivacyTier := Stealth | Private | Fast.

Record TransportConfig := MkTransport { default_tier : PrivacyTier; max_circuits : N; relay_discovery_interval_secs : N }.
Definition default_transport : TransportConfig := MkTransport Private 4 300.

Record StorageConfig := MkStorage { max_storage_bytes : N; gc_interval_secs : N; content_dir : str; metadata_db : str }.
Definition default_storage : StorageConfig :=
  MkStorage DEFAULT_MAX_STORAGE_BYTES DEFAULT_GC_INTERVAL_SECS (lit "content") (lit "metadata.db").

Record GossipConfig := MkGossip { max_peers : N; heartbeat_interval_secs : N }.
Definition default_gossip : GossipConfig := MkGossip 8 30.

Record DhtConfig := MkDht { k : N; alpha : N; replication : N }.
Definition default_dht : DhtConfig := MkDht 20 3 DEFAULT_DHT_REPLICATION.

Record NodeConfig := MkConfig {
  data_dir : str;
  profile : ResourceProfile;
  bandwidth_limit_bps : N;
  bootstrap_nodes : list str;
  listen_addr : option str;
  max_connections : N;
  max_message_size : N;
  connection_timeout_secs : N;
  transport : TransportConfig;
  storage : StorageConfig;
  gossip : GossipConfig;
  dht : DhtConfig
}.

Definition default_for (dir : str) : NodeConfig :=
  MkConfig dir Embedded DEFAULT_BANDWIDTH_LIMIT_BPS [] None DEFAULT_MAX_CONNECTIONS DEFAULT_MAX_MESSAGE_SIZE
    DEFAULT_CONNECTION_TIMEOUT_SECS default_transport default_storage default_gossip default_dht.

(** [Path::join]: an absolute path replaces. *)
Definition slash : N := 47.
Definition join (p q : str) : str :=
  match q with
  | c :: _ => if (c =? slash)%N then q else match rev p with [] => q | d :: _ => if (d =? slash)%N then p ++ q else p ++ slash :: q end
  | [] => match rev p with [] => [] | d :: _ => if (d =? slash)%N then p else p ++ [slash] end
  end.

Definition content_path (c : NodeConfig) : str := join (data_dir c) (content_dir (storage c)).
Definition metadata_db_path (c : NodeConfig) : str := join (data_dir c) (metadata_db (storage c)).
Definition keystore_path (c : NodeConfig) : str := join (data_dir c) (lit "keystore.enc").

Class Toml := {
  to_toml : NodeConfig → result str str;
  from_toml : str → result str NodeConfig
}.
(** What was printed is parsed back. *)
Class TomlLaws `{Toml} : Prop := {
  from_to_toml c s : to_toml c = Ok s → from_toml s = Ok c
}.

Inductive ConfigFailure := IoFailed | ConfigError (reason : str).

Section files.
Context `{Toml}.

(** The files that matter here, by path. *)
Abbreviation Files := (gmap str str).

Definition load (path : str) (fs : Files) : result ConfigFailure NodeConfig :=
  match fs !! path with
  | None => Err IoFailed
  | Some content => map_err (λ e, ConfigError (lit "failed to parse config file: " ++ e)) (from_toml content)
  end.

(** [writable]: the directory can be made and the file written. *)
Definition load_or_create (writable : bool) (dir : str) : SE Files ConfigFailure NodeConfig := λ fs,
  let config_path := join dir (lit "config.toml") in
  match fs !! config_path with
  | Some _ => (fs, load config_path fs)
  | None =>
      let config := default_for dir in
      match to_toml config with
      | Err e => (fs, if writable then Err (ConfigError (lit "failed to serialize default config: " ++ e)) else Err IoFailed)
      | Ok toml_str => if writable then (<[config_path := toml_str]> fs, Ok config) else (fs, Err IoFailed)
      end
  end.
End files.

(* ------------------------------------------------------------------ *)
(** ** Start-up checks *)

Inductive StartupError :=
| InvalidConfig (reason : str)
| DataDir (reason : str)
| Keystore (reason : str)
| Storage (reason : str)
| Transport (reason : str)
| Internal (reason : str).

Definition MIN_STORAGE : N := 10 * 1024 * 1024.

Definition below (name : string) (n : N) (tail : string) : str := lit name ++ lit " (" ++ lit (pretty n) ++ lit ") is below minimum " ++ lit tail.

Definition validate_config (c : NodeConfig) : result StartupError unit :=
  if bool_decide (data_dir c = []) then Err (InvalidConfig (lit "data_dir must not be empty"))
  else if (max_storage_bytes (storage c) <? MIN_STORAGE)%N then Err (InvalidConfig (below "max_storage_bytes" (max_storage_bytes (storage c)) "10 MiB"))
  else if (gc_interval_secs (storage c) <? 5)%N then Err (InvalidConfig (below "gc_interval_secs" (gc_interval_secs (storage c)) "5"))
  else if (max_connections c =? 0)%N then Err (InvalidConfig (lit "max_connections must be at least 1"))
  else if (max_message_size c <? 1024)%N then Err (InvalidConfig (below "max_message_size" (max_message_size c) "1024 bytes"))
  else if (connection_timeout_secs c =? 0)%N then Err (InvalidConfig (lit "connection_timeout_secs must be at least 1"))
  else Ok tt.

(** What the system answers during start-up: the first failure of each
    stage, with its text. *)
Record System := MkSystem {
  data_dir_made : result str unit;
  test_written : result str unit;
  metadata_parent_made : result str unit;
  database_opened : result str unit;
  keystore_dir_made : result str unit;
  content_dir_made : result str unit;
  metadata_dir_made : result str unit;
  port_bound : str → result str unit
}.

Definition quoted (s : str) : str := lit "'" ++ s ++ lit "'".

Definition validate_data_dir (sys : System) (c : NodeConfig) : result StartupError unit :=
  let? _ := map_err (λ e, DataDir (lit "cannot create " ++ quoted (data_dir c) ++ lit ": " ++ e)) (data_dir_made sys) in
  let? _ := map_err (λ e, DataDir (quoted (data_dir c) ++ lit " is not writable: " ++ e)) (test_written sys) in
  let? _ := map_err (λ e, Storage (lit "cannot create metadata directory: " ++ e)) (metadata_parent_made sys) in
  map_err (λ e, Storage (lit "cannot open SQLite at " ++ quoted (metadata_db_path c) ++ lit ": " ++ e)) (database_opened sys).

(** [text] is what the error prints after the port. *)
Definition validate_port_available (sys : System) (addr port : str) : result StartupError unit :=
  map_err (λ e, Transport (lit "port " ++ port ++ lit " is not available: " ++ e)) (port_bound sys addr).

(** The digits after the last colon of an address. *)
Definition port_of (addr : str) : str := list.reverse ((fix go (s : str) := match s with [] => [] | c :: s' => if (c =? 58)%N then [] else c :: go s' end) (list.reverse addr)).

Definition run_startup_sequence (sys : System) (c : NodeConfig) : result StartupError unit :=
  let? _ := validate_data_dir sys c in
  let? _ := map_err Keystore (keystore_dir_made sys) in
  let? _ := map_err Storage (content_dir_made sys) in
  let? _ := map_err Storage (metadata_dir_made sys) in
  match listen_addr c with
  | Some addr => validate_port_available sys addr (port_of addr)
  | None => Ok tt
  end.

(* ------------------------------------------------------------------ *)
(** ** Events *)

Definition DEFAULT_CHANNEL_CAPACITY : nat := 1024.

Inductive Event :=
| PostReceived (content_id : ContentId) (author : bytes)
| PostCreated (content_id : ContentId)
| PostExpired (content_id : ContentId)
| ContentDeleted (content_id : ContentId)
| MessageReceived (from : bytes) (message_id : str)
| MessageSent (to : bytes) (message_id : str)
| PeerConnected (peer_id : bytes)
| PeerDisconnected (peer_id : bytes)
| NetworkStatusChanged (connected : bool) (peer_count : N)
| ConnectionRequestReceived (from : bytes)
| ConnectionEstablished (peer : bytes)
| ConnectionAccepted (peer : str)
| ReactionReceived (content_id : ContentId) (from : bytes) (reaction : str)
| MentionReceived (content_id : ContentId) (from : bytes)
| GroupChatMessageReceived (chat_id : str) (from : bytes) (message_id : str)
| HandleConflictLost (handle_name : str) (new_owner : bytes)
| GarbageCollectionCompleted (items_removed bytes_freed : N)
| StorageQuotaWarning (used_bytes max_bytes : N).

(** A bus is its subscribers and what was sent to them; with none, a send is
    refused and [emit] answers zero. *)
Record EventBus := MkBus { subscriber_count : nat; delivered : list Event }.
Definition new_bus : EventBus := MkBus 0 [].
Definition subscribe (b : EventBus) : EventBus := MkBus (S (subscriber_count b)) (delivered b).
Definition emit (e : Event) (b : EventBus) : EventBus * nat :=
  match subscriber_count b with 0 => (b, 0) | n => (MkBus n (delivered b ++ [e]), n) end.

(* ------------------------------------------------------------------ *)
(** ** Properties *)

(** When a configuration passes. *)
Definition usable (c : NodeConfig) : Prop :=
  data_dir c ≠ [] ∧ (MIN_STORAGE ≤ max_storage_bytes (storage c))%N ∧ (5 ≤ gc_interval_secs (storage c))%N ∧
  max_connections c ≠ 0%N ∧ (1024 ≤ max_message_size c)%N ∧ connection_timeout_secs c ≠ 0%N.

Lemma validate_config_iff c : validate_config c = Ok tt ↔ usable c.
Proof.
  unfold validate_config, usable. case_bool_decide as Hd; [by split; [|intros [? _]]|].
  destruct (N.ltb_spec (max_storage_bytes (storage c)) MIN_STORAGE); [split; [done|intros (_ & ? & _); lia]|].
  destruct (N.ltb_spec (gc_interval_secs (storage c)) 5); [split; [done|intros (_ & _ & ? & _); lia]|].
  destruct (N.eqb_spec (max_connections c) 0); [split; [done|intros (_ & _ & _ & ? & _); done]|].
  destruct (N.ltb_spec (max_message_size c) 1024); [split; [done|intros (_ & _ & _ & _ & ? & _); lia]|].
  destruct (N.eqb_spec (connection_timeout_secs c) 0); [split; [done|by intros (_ & _ & _ & _ & _ & ?)]|].
  by split.
Qed.

Lemma default_usable dir : dir ≠ [] → validate_config (default_for dir) = Ok tt.
Proof. intros Hd. apply validate_config_iff. split_and!; [done|..]; cbn; unfold MIN_STORAGE, DEFAULT_MAX_STORAGE_BYTES, DEFAULT_GC_INTERVAL_SECS, DEFAULT_MAX_MESSAGE_SIZE; try done; lia. Qed.

(** The first run writes the defaults, which the node accepts; every later run
    reads them back, also from a copy of the file in another directory, where
    they still name the first one. *)
Theorem config_created_once `{TomlLaws} (dir : str) (fs : gmap str str) (s : str)
    (Hdir : dir ≠ []) (Hnew : fs !! join dir (lit "config.toml") = None) (Hs : to_toml (default_for dir) = Ok s) :
  let '(fs', r) := load_or_create true dir fs in
  r = Ok (default_for dir) ∧ validate_config (default_for dir) = Ok tt ∧
  (∀ w, load_or_create w dir fs' = (fs', r)) ∧
  (∀ w dir2 fs2, fs2 !! join dir2 (lit "config.toml") = Some s →
     ∃ c, load_or_create w dir2 fs2 = (fs2, Ok c) ∧ data_dir c = dir) ∧
  (load_or_create false dir fs = (fs, Err IoFailed)).
Proof.
  unfold load_or_create at 1. rewrite Hnew, Hs. split; [done|]. split; [by apply default_usable|].
  pose proof (from_to_toml _ _ Hs) as Hp. split_and!.
  - intros w. unfold load_or_create, load. rewrite lookup_insert_eq. by rewrite Hp.
  - intros w dir2 fs2 Hf. exists (default_for dir). unfold load_or_create, load. rewrite Hf. by rewrite Hp.
  - unfold load_or_create. by rewrite Hnew, Hs.
Qed.

#[export] Instance profile_eq_dec : EqDecision ResourceProfile. Proof. solve_decision. Defined.
#[export] Instance tier_eq_dec : EqDecision PrivacyTier. Proof. solve_decision. Defined.
#[export] Instance transport_eq_dec : EqDecision TransportConfig. Proof. solve_decision. Defined.
#[export] Instance storage_eq_dec : EqDecision StorageConfig. Proof. solve_decision. Defined.
#[export] Instance gossip_eq_dec : EqDecision GossipConfig. Proof. solve_decision. Defined.
#[export] Instance dht_eq_dec : EqDecision DhtConfig. Proof. solve_decision. Defined.
#[export] Instance config_eq_dec : EqDecision NodeConfig. Proof. solve_decision. Defined.

(** A format that can only write defaults, by their directory. *)
Module TomlToy.
#[export] Instance toml : Toml := {|
  to_toml c := if bool_decide (c = default_for (data_dir c)) then Ok (data_dir c) else Err [];
  from_toml s := Ok (default_for s)
|}.
#[export] Instance toml_laws : TomlLaws.
Proof. split. intros c s. cbn. case_bool_decide as Hc; [|done]. by intros [= <-]; rewrite Hc at 2. Qed.
End TomlToy.

Section witnesses.
Import TomlToy.
Lemma config_created_once_witness :
  let dir := lit "/data" in
  let '(fs', r) := load_or_create true dir ∅ in r = Ok (default_for dir) ∧ load_or_create false dir fs' = (fs', r).
Proof.
  intros dir. assert (Hs : to_toml (default_for dir) = Ok dir) by reflexivity.
  pose proof (config_created_once dir ∅ dir ltac:(done) (lookup_empty _) Hs) as H.
  destruct (load_or_create true dir ∅) as [fs' r]. destruct H as (Hr & _ & Hl & _). split; [exact Hr|apply Hl].
Defined.
End witnesses.
