(* ===== verification/Rpc.v ===== *)
(** * JSON-RPC: values, the router and the cookie token
    (ephemera-node rpc.rs, rpc_auth.rs, debug_log.rs)

    A handler is a stateful computation over whatever its services keep; the
    router is a finite map of handlers.  The texts of the errors of [hex] and
    [serde_json] are parameters.  A request that is being served is one step
    here: interleavings of handlers are those of the components they call. *)
From S2P Require Import Prelude Unicode.
From stdpp Require Import pretty.

(* ------------------------------------------------------------------ *)
(** ** JSON values ([serde_json::Value]) *)

(** A float is kept by its bits; no accessor here returns one. *)
Inductive Number := PosInt (n : N) | NegInt (z : Z) | Float (bits : N).
Inductive Value :=
| VNull
| VBool (b : bool)
| VNumber (n : Number)
| VString (s : str)
| VArray (l : list Value)
| VObject (m : gmap str Value).

Definition get (k : string) (v : Value) : option Value := match v with VObject m => m !! lit k | _ => None end.
Definition as_str (v : Value) : option str := match v with VString s => Some s | _ => None end.
Definition as_bool (v : Value) : option bool := match v with VBool b => Some b | _ => None end.
Definition as_array (v : Value) : option (list Value) := match v with VArray l => Some l | _ => None end.
Definition as_u64 (v : Value) : option N := match v with VNumber (PosInt n) => Some n | _ => None end.
Definition as_i64 (v : Value) : option Z :=
  match v with
  | VNumber (PosInt n) => if (n <? 2 ^ 63)%N then Some (Z.of_N n) else None
  | VNumber (NegInt z) => Some z
  | _ => None
  end.

Definition get_str (k : string) (v : Value) : option str := get k v ≫= as_str.
Definition get_u64 (k : string) (v : Value) : option N := get k v ≫= as_u64.
Definition get_i64 (k : string) (v : Value) : option Z := get k v ≫= as_i64.
Definition get_bool (k : string) (v : Value) : option bool := get k v ≫= as_bool.
Definition get_array (k : string) (v : Value) : option (list Value) := get k v ≫= as_array.

(** [json!({..})], and [Map::insert] on a value that is an object. *)
Definition object (fs : list (string * Value)) : Value := VObject (list_to_map (prod_map lit id <$> fs)).
Definition insert_field (k : string) (x v : Value) : Value := match v with VObject m => VObject (<[lit k := x]> m) | _ => v end.
Definition vstr (s : string) : Value := VString (lit s).
Definition vnum (n : N) : Value := VNumber (PosInt n).

(* ------------------------------------------------------------------ *)
(** ** Requests and responses *)

Definition PARSE_ERROR : Z := -32700.
Definition INVALID_REQUEST : Z := -32600.
Definition METHOD_NOT_FOUND : Z := -32601.
Definition INVALID_PARAMS : Z := -32602.
Definition INTERNAL_ERROR : Z := -32603.
Definition NETWORK_UNAVAILABLE : Z := -1004.
Definition CONTENT_NOT_FOUND : Z := -1005.
Definition POW_FAILED : Z := -1007.

Record JsonRpcRequest := MkRequest { jsonrpc : str; method : str; params : Value; id : Value }.
Record JsonRpcError := MkError { code : Z; message : str; data : option Value }.
Record JsonRpcResponse := MkResponse { r_jsonrpc : str; r_result : option Value; r_error : option JsonRpcError; r_id : Value }.

Definition success (id result : Value) : JsonRpcResponse := MkResponse (lit "2.0") (Some result) None id.
Definition error (id : Value) (code : Z) (message : str) : JsonRpcResponse :=
  MkResponse (lit "2.0") None (Some (MkError code message None)) id.
Definition error_with_data (id : Value) (code : Z) (message : str) (data : Value) : JsonRpcResponse :=
  MkResponse (lit "2.0") None (Some (MkError code message (Some data))) id.

(** What the derived [Deserialize] takes: an object with the fields (others
    are ignored, [params] may be missing), or their array in order. *)
Definition from_value (v : Value) : option JsonRpcRequest :=
  match v with
  | VObject m =>
      j ← get_str "jsonrpc" v; t ← get_str "method" v; i ← get "id" v;
      Some (MkRequest j t (default VNull (get "params" v)) i)
  | VArray [VString j; VString t; p; i] => Some (MkRequest j t p i)
  | _ => None
  end.

(** What the derived [Serialize] writes: absent fields are skipped. *)
Definition number (z : Z) : Value := VNumber (if (z <? 0)%Z then NegInt z else PosInt (Z.to_N z)).
Definition error_value (e : JsonRpcError) : Value :=
  object ([("code", number (code e)); ("message", VString (message e))] ++ match data e with Some d => [("data", d)] | None => [] end).
Definition to_value (r : JsonRpcResponse) : Value :=
  object ([("jsonrpc", VString (r_jsonrpc r)); ("id", r_id r)] ++
    match r_result r with Some v => [("result", v)] | None => [] end ++
    match r_error r with Some e => [("error", error_value e)] | None => [] end).

(* ------------------------------------------------------------------ *)
(** ** The router *)

Definition Handler (S : Type) : Type := Value → SE S JsonRpcError Value.

Section router.
Context {S : Type}.

Record Router := MkRouter { handlers : gmap str (Handler S) }.
Definition new_router : Router := MkRouter ∅.
Definition register (m : string) (h : Handler S) (r : Router) : Router := MkRouter (<[lit m := h]> (handlers r)).
Definition method_names (r : Router) : list str := (map_to_list (handlers r)).*1.

Definition dispatch (r : Router) (request : JsonRpcRequest) (s : S) : S * JsonRpcResponse :=
  if negb (bool_decide (jsonrpc request = lit "2.0")) then (s, error (id request) INVALID_REQUEST (lit "unsupported JSON-RPC version"))
  else match handlers r !! method request with
       | None => (s, error (id request) METHOD_NOT_FOUND (lit "method not found: " ++ method request))
       | Some handler =>
           match handler (params request) s with
           | (s', Ok result) => (s', success (id request) result)
           | (s', Err rpc_err) => (s', MkResponse (lit "2.0") None (Some rpc_err) (id request))
           end
       end.
End router.
Arguments Router : clear implicits.

(* ------------------------------------------------------------------ *)
(** ** The cookie token *)

Definition RPC_TOKEN_FILENAME : str := lit "rpc_token".
Definition RPC_TOKEN_LEN : nat := 32.

Section auth.
Context `{Hex}.

(** A directory is its files by name; [writable] says whether a write
    succeeds. *)
Abbreviation Dir := (gmap str str).
Inductive IoError := CannotWrite | CannotRead | InvalidHex (text : str) | WrongLength (n : nat).

Record RpcAuth := MkAuth { token : bytes; token_path : str }.

Definition generate (random : bytes) (writable : bool) : SE Dir IoError RpcAuth := λ d,
  if writable then (<[RPC_TOKEN_FILENAME := hex_encode random]> d, Ok (MkAuth random RPC_TOKEN_FILENAME))
  else (d, Err CannotWrite).

Definition load (d : Dir) : result IoError RpcAuth :=
  match d !! RPC_TOKEN_FILENAME with
  | None => Err CannotRead
  | Some hex_str =>
      let hex_str := trim hex_str in
      match hex_decode hex_str with
      | None => Err (InvalidHex hex_str)
      | Some bytes => if negb (length bytes =? RPC_TOKEN_LEN) then Err (WrongLength (length bytes)) else Ok (MkAuth bytes RPC_TOKEN_FILENAME)
      end
  end.

(** [str::strip_prefix]. *)
Definition strip_prefix (p s : str) : option str := if starts_with p s then Some (drop (length p) s) else None.

Definition validate_bearer (header_value : str) (a : RpcAuth) : bool :=
  let stripped := default [] (strip_prefix (lit "Bearer ") header_value) in
  match hex_decode (trim stripped) with
  | None => false
  | Some candidate => if negb (length candidate =? RPC_TOKEN_LEN) then false else bool_decide (token a = candidate)
  end.

Definition token_hex (a : RpcAuth) : str := hex_encode (token a).

Definition cleanup (a : RpcAuth) (d : Dir) : Dir := delete (token_path a) d.
End auth.

(* ------------------------------------------------------------------ *)
(** ** The debug log *)

Module DebugLog.
Definition DEFAULT_CAPACITY : nat := 200.

Record LogEntry := MkEntry { level : string; target : str; message : str; timestamp : str }.

(** Oldest first. *)
Abbreviation DebugLog := (list LogEntry).

Definition read_last (n : nat) (l : DebugLog) : list LogEntry :=
  if (n =? 0) || (length l <=? n) then l else drop (length l - n) l.

Definition push (entry : LogEntry) (l : DebugLog) : DebugLog :=
  (if DEFAULT_CAPACITY <=? length l then tail l else l) ++ [entry].

(** [tracing::Level]; the more verbose level is the greater. *)
Inductive Level := ERROR | WARN | INFO | DEBUG | TRACE.
Definition verbosity (l : Level) : nat := match l with ERROR => 0 | WARN => 1 | INFO => 2 | DEBUG => 3 | TRACE => 4 end.
Definition level_str (l : Level) : string :=
  match l with ERROR => "ERROR" | WARN => "WARN" | INFO => "INFO" | DEBUG => "DEBUG" | TRACE => "TRACE" end.

(** A recorded field: its name and its value as [{:?}] prints it, or a string. *)
Inductive Field := FDebug (name printed : str) | FText (name text : str).
Definition record (message : str) (f : Field) : str :=
  let '(name, value) := match f with FDebug n v => (n, v) | FText n v => (n, v) end in
  if bool_decide (name = lit "message") then value
  else match message with [] => name ++ lit "=" ++ value | _ => message end.

Definition two_digits (n : N) : str := (if n <? 10 then [48; 48 + n] else [48 + n / 10; 48 + n mod 10])%N.
Definition clock (now : N) : str :=
  (two_digits (now mod 86400 / 3600) ++ lit ":" ++ two_digits (now mod 3600 / 60) ++ lit ":" ++ two_digits (now mod 60))%N.

Definition on_event (now : N) (l : Level) (target : str) (fields : list Field) (log : DebugLog) : DebugLog :=
  if verbosity DEBUG <? verbosity l then log
  else push (MkEntry (level_str l) target (foldl record [] fields) (clock now)) log.

(** The buffer holds the last two hundred events that pass the filter. *)
Definition last_n {A} (n : nat) (l : list A) : list A := drop (length l - n) l.

Lemma push_all (es : list LogEntry) (log : DebugLog) : length log ≤ DEFAULT_CAPACITY →
  foldl (λ l e, push e l) log es = last_n DEFAULT_CAPACITY (log ++ es).
Proof.
  revert log. induction es as [|e es IH]; intros log Hl; cbn [foldl].
  - unfold last_n. rewrite app_nil_r. by replace (length log - DEFAULT_CAPACITY) with 0 by lia.
  - assert (Hp : push e log = last_n DEFAULT_CAPACITY (log ++ [e])).
    { unfold push, last_n. rewrite length_app. cbn [length]. destruct (Nat.leb_spec DEFAULT_CAPACITY (length log)).
      - replace (length log + 1 - DEFAULT_CAPACITY) with 1 by lia. destruct log as [|x log]; [cbn in *; unfold DEFAULT_CAPACITY in *; lia|done].
      - by replace (length log + 1 - DEFAULT_CAPACITY) with 0 by lia. }
    rewrite IH, Hp.
    + unfold last_n. rewrite !length_app, length_drop, length_app. cbn [length].
      replace (log ++ e :: es) with ((log ++ [e]) ++ es) by (by rewrite <- app_assoc).
      assert (length log + 1 - DEFAULT_CAPACITY ≤ length (log ++ [e])) by (rewrite length_app; cbn; lia).
      rewrite <- (drop_app_le (log ++ [e]) es) by done. rewrite drop_drop. f_equal. lia.
    + rewrite Hp. unfold last_n. rewrite length_drop, length_app. cbn [length]. lia.
Qed.

Lemma read_last_spec n (log : DebugLog) : read_last n log = if n =? 0 then log else last_n n log.
Proof.
  unfold read_last, last_n. destruct (Nat.eqb_spec n 0); [done|]. cbn [orb].
  destruct (Nat.leb_spec (length log) n); [|done]. by replace (length log - n) with 0 by lia.
Qed.
End DebugLog.
