(* ===== verification/Server.v ===== *)
(** * The local HTTP server (ephemera-client server.rs, commands.rs)

    The routes of the desktop client: the RPC endpoint behind the cookie
    token, the stored media, and the embedded frontend.  The matching of
    paths to routes, the embedded files and the guesses of content types are
    the libraries'; a handler that panics answers nothing. *)
From S2P Require Import Prelude Types Crypto Unicode Rpc Store.
From S2P Require Posting.

(** The files of the frontend; [index_text] is the page as
    [String::from_utf8_lossy] reads it. *)
Class Frontend := {
  asset : str → option bytes;
  index_text : option str;
  guess_mime : str → option str;
  request_error : Value → str
}.

(** The routes of [build_app], as the router matched them. *)
Inductive Route :=
| PostRpc (authorization : option str) (body : Value)
| GetMedia (media_id : str)
| GetThumbnail (media_id : str)
| GetStatic (path : str)
| GetIndex.

Inductive Body := Bytes (b : bytes) | Text (s : str) | Json (v : Value).

(** The layer on top lets a page of any origin read the response. *)
Record Response := MkHttp { status : N; content_type : option str; body : Body; allow_origin : str }.
Definition any_origin : str := lit "*".
Definition reply (status : N) (content_type : option str) (b : Body) : Response := MkHttp status content_type b any_origin.

Section server.
Context `{Primitives, Hex, Frontend} {S : Type} (disk : S → Disk).

Record AppState := MkApp { router : Router S; rpc_auth : RpcAuth }.

(** [commands.rs]: the endpoint itself. *)
Definition handle_rpc (app : AppState) (authorization : option str) (body : Value) (s : S) : S * Response :=
  let authorized := match authorization with Some v => validate_bearer v (rpc_auth app) | None => false end in
  if negb authorized then
    (s, reply 401 (Some (lit "application/json"))
          (Json (to_value (error VNull (-32000) (lit "Unauthorized: missing or invalid RPC authentication token")))))
  else match from_value body with
  | None => (s, reply 200 (Some (lit "application/json")) (Json (to_value (error VNull (-32700) (lit "Parse error: " ++ request_error body)))))
  | Some request =>
      let '(s', response) := dispatch (router app) request s in
      (s', reply 200 (Some (lit "application/json")) (Json (to_value response)))
  end.

(** [str::replace] of a pattern that is not empty; [skip] characters belong to
    a match that was replaced. *)
Fixpoint replace_from (pat new : str) (skip : nat) (s : str) : str :=
  match s with
  | [] => []
  | c :: s' =>
      match skip with
      | Datatypes.S k => replace_from pat new k s'
      | O => if starts_with pat s then new ++ replace_from pat new (length pat - 1) s' else c :: replace_from pat new 0 s'
      end
  end.
Definition replace (pat new s : str) : str := replace_from pat new 0 s.

(** The quote character. *)
Definition quote : str := [34%N].

Definition inject_token_into_index (token_hex : str) : Response :=
  match index_text with
  | Some html =>
      let token_script := lit "<script>window.__EPHEMERA_RPC_TOKEN__=" ++ quote ++ token_hex ++ quote ++ lit ";</script>" in
      reply 200 (Some (lit "text/html; charset=utf-8")) (Text (replace (lit "</head>") (token_script ++ [10%N] ++ lit "</head>") html))
  | None => reply 500 (Some (lit "text/plain")) (Text (lit "index.html not found in embedded assets"))
  end.

Definition serve_index (app : AppState) : Response := inject_token_into_index (token_hex (rpc_auth app)).

Definition try_serve_file (path : str) : option Response :=
  file ← asset path;
  Some (reply 200 (Some (default (lit "application/octet-stream") (guess_mime path))) (Bytes file)).

Definition serve_static (app : AppState) (path : str) : Response :=
  match try_serve_file path with Some resp => resp | None => inject_token_into_index (token_hex (rpc_auth app)) end.

(** [hash_to_path] splits the name at byte two, or its end. *)
Definition splits_at_two (s : str) : bool :=
  match s with
  | [] => true
  | [c] => length (utf8_char c) <=? 2
  | c :: d :: _ => (length (utf8_char c) =? 2) || ((length (utf8_char c) =? 1) && (length (utf8_char d) =? 1))
  end.

Definition serve_media (media_id : str) (s : S) : option Response :=
  match Media.get_media_attachment media_id (disk s) with
  | Ok attachment =>
      let chunks := Media.list_chunks_for_media media_id (disk s) in
      Some (reply 200 (Some (lit (a_mime_type attachment))) (Bytes (concat (ck_data ∘ snd <$> chunks))))
  | Err _ =>
      if negb (splits_at_two media_id) then None
      else match Content.get media_id (content (disk s)) with
           | Ok data => Some (reply 200 (Some (default (lit "image/png") (guess_mime media_id))) (Bytes data))
           | Err _ => Some (reply 404 None (Text (lit "media not found")))
           end
  end.

Definition serve_thumbnail (media_id : str) (s : S) : option Response :=
  match Media.get_thumbnail_hash media_id (disk s) with
  | Ok (Some thumb_hash) =>
      if negb (splits_at_two thumb_hash) then None
      else match Content.get thumb_hash (content (disk s)) with
           | Ok data => Some (reply 200 (Some (lit "image/png")) (Bytes data))
           | Err _ => Some (reply 404 None (Text (lit "thumbnail blob not found")))
           end
  | Ok None => Some (reply 404 None (Text (lit "no thumbnail")))
  | Err _ => Some (reply 404 None (Text (lit "media not found")))
  end.

Definition serve (app : AppState) (r : Route) (s : S) : S * option Response :=
  match r with
  | PostRpc authorization body => let '(s', resp) := handle_rpc app authorization body s in (s', Some resp)
  | GetMedia media_id => (s, serve_media media_id s)
  | GetThumbnail media_id => (s, serve_thumbnail media_id s)
  | GetStatic path => (s, Some (serve_static app path))
  | GetIndex => (s, Some (serve_index app))
  end.
End server.
Arguments AppState : clear implicits.

(* ------------------------------------------------------------------ *)
(** ** Properties *)

Lemma starts_with_app p s : starts_with p (p ++ s) = true.
Proof. induction p as [|c p IH]; [done|]. cbn. by rewrite N.eqb_refl, IH. Qed.

Lemma starts_with_eq p s : starts_with p s = true → s = p ++ drop (length p) s.
Proof.
  revert s. induction p as [|c p IH]; intros s Hs; [done|]. destruct s as [|d s]; [done|]. cbn in Hs.
  apply andb_true_iff in Hs as [Hc Hs]. apply N.eqb_eq in Hc as ->. cbn. f_equal. by apply IH.
Qed.

Lemma contains_cons n c s : contains n s = true → contains n (c :: s) = true.
Proof. intros Hs. cbn. rewrite Hs. by rewrite orb_true_r. Qed.

Lemma contains_app_r n s1 s2 : contains n s2 = true → contains n (s1 ++ s2) = true.
Proof. intros Hs. induction s1 as [|c s1 IH]; [done|]. cbn [app]. by apply contains_cons. Qed.

Lemma starts_contains n s : starts_with n s = true → contains n s = true.
Proof. intros Hs. destruct s; cbn [contains]; by rewrite Hs. Qed.

Lemma starts_with_more n s1 s2 : starts_with n s1 = true → starts_with n (s1 ++ s2) = true.
Proof. intros ->%starts_with_eq. rewrite <- app_assoc. apply starts_with_app. Qed.

Lemma contains_app_l n s1 s2 : contains n s1 = true → contains n (s1 ++ s2) = true.
Proof.
  induction s1 as [|c s1 IH]; intros Hc; cbn [contains] in Hc; apply orb_true_iff in Hc as [Hc|Hc]; [|done| |].
  - by apply starts_contains, (starts_with_more _ []).
  - by apply starts_contains, starts_with_more.
  - cbn [app]. apply contains_cons. by apply IH.
Qed.

(** Where the pattern occurs, the replaced text has what replaces it. *)
Lemma replace_contains pat new n s : pat ≠ [] → contains pat s = true → contains n new = true → contains n (replace pat new s) = true.
Proof.
  intros Hp Hs Hn. unfold replace. induction s as [|c s IH].
  - destruct pat; [done|]. cbn in Hs. done.
  - cbn [replace_from]. destruct (starts_with pat (c :: s)) eqn:E; [by apply contains_app_l|].
    cbn [contains] in Hs. rewrite E in Hs. by apply contains_cons, IH.
Qed.

Section properties.
Context `{Primitives, Hex, !HexLaws, !HexOutput, Frontend} {S : Type} (disk : S → Disk).

(** What a header must be to be accepted. *)
Lemma validate_bearer_iff h a : length (token a) = RPC_TOKEN_LEN →
  validate_bearer h a = true ↔ ∃ w, h = lit "Bearer " ++ w ∧ hex_decode (trim w) = Some (token a).
Proof.
  intros Hl. unfold validate_bearer, strip_prefix. split.
  - destruct (starts_with (lit "Bearer ") h) eqn:E.
    + apply starts_with_eq in E. cbn [default]. intros Hv. exists (drop (length (lit "Bearer ")) h). split; [done|].
      destruct (hex_decode _) as [b|]; [|done]. destruct (negb _); [done|]. by apply bool_decide_eq_true in Hv as ->.
    + cbn [default]. change (trim []) with (@nil N).
      assert (hex_decode [] = Some []) as ->; [|done].
      rewrite <- (hex_decode_encode []) by done. f_equal. symmetry. apply length_zero_iff_nil. by rewrite length_hex_encode.
  - intros (w & -> & Hw). rewrite starts_with_app. cbn [default]. cbv zeta. rewrite drop_app_length. setoid_rewrite Hw. rewrite Hl, Nat.eqb_refl. cbn [negb].
    by apply bool_decide_eq_true.
Qed.

Lemma token_accepted a : length (token a) = RPC_TOKEN_LEN → Forall byte_ok (token a) → validate_bearer (lit "Bearer " ++ token_hex a) a = true.
Proof.
  intros Hl Hb. apply validate_bearer_iff; [done|]. exists (token_hex a). split; [done|]. unfold token_hex.
  rewrite trim_hex by done. by apply hex_decode_encode.
Qed.

(** The token file authenticates whoever reads it, and is gone afterwards. *)
Lemma cookie_file random d : length random = RPC_TOKEN_LEN → Forall byte_ok random →
  let '(d', r) := generate random true d in
  r = Ok (MkAuth random RPC_TOKEN_FILENAME) ∧ load d' = r ∧
  (∀ a, r = Ok a → cleanup a d' = delete RPC_TOKEN_FILENAME d ∧ load (cleanup a d') = Err CannotRead).
Proof.
  intros Hl Hb. unfold generate. split; [done|]. split.
  - unfold load. rewrite lookup_insert_eq, trim_hex, hex_decode_encode by done. by rewrite Hl.
  - intros a [= <-]. unfold cleanup, load. cbn. by rewrite delete_insert_eq, lookup_delete_eq.
Qed.

(** C21. The one way a request changes anything is through the endpoint, with the
    token, to a handler of the router. *)
Theorem rpc_guarded (app : AppState S) (r : Route) (s : S)
    (Hl : length (token (rpc_auth app)) = RPC_TOKEN_LEN) (Hb : Forall byte_ok (token (rpc_auth app))) :
  ((serve disk app r s).1 = s ∨
   ∃ w body request, r = PostRpc (Some (lit "Bearer " ++ w)) body ∧ hex_decode (trim w) = Some (token (rpc_auth app)) ∧
     from_value body = Some request ∧ is_Some (handlers (router app) !! method request) ∧
     (serve disk app r s).1 = (dispatch (router app) request s).1) ∧
  (∀ authorization body, r = PostRpc authorization body →
     (∀ w, authorization = Some (lit "Bearer " ++ w) → hex_decode (trim w) ≠ Some (token (rpc_auth app))) →
     ∃ resp, serve disk app r s = (s, Some resp) ∧ status resp = 401%N) ∧
  (∀ body request, r = PostRpc (Some (lit "Bearer " ++ token_hex (rpc_auth app))) body → from_value body = Some request →
     serve disk app r s = ((dispatch (router app) request s).1,
       Some (reply 200 (Some (lit "application/json")) (Json (to_value (dispatch (router app) request s).2))))).
Proof.
  split_and!.
  - destruct r as [authorization body|id|id|path|]; try (by left). cbn [serve]. unfold handle_rpc.
    destruct authorization as [h|]; [|by left]. destruct (validate_bearer h (rpc_auth app)) eqn:Ev; cbn [negb]; [|by left].
    apply validate_bearer_iff in Ev as (w & -> & Hw); [|done]. destruct (from_value body) as [request|] eqn:Ef; [|by left].
    unfold dispatch. destruct (negb _) eqn:En; [by left|]. destruct (handlers (router app) !! method request) as [h|] eqn:Eh; [|by left].
    right. exists w, body, request. split_and!; [done|done|done|done|]. rewrite En, Eh. by destruct (h _ _) as [s' [v|e]].
  - intros authorization body -> Hno. cbn [serve]. unfold handle_rpc. destruct authorization as [h|]; [|by eexists].
    destruct (validate_bearer h (rpc_auth app)) eqn:Ev; [|by eexists]. exfalso.
    apply validate_bearer_iff in Ev as (w & -> & Hw); [|done]. by eapply Hno.
  - intros body request -> Hf. cbn [serve]. unfold handle_rpc. rewrite token_accepted, Hf by done. cbn [negb].
    by destruct (dispatch _ _ _) as [s' resp].
Qed.

(** The page with the token in it is served to anyone, for any path, and any
    origin may read it; what it says opens the endpoint. *)
Theorem token_for_anyone (app : AppState S) (html path : str) (body : Value) (request : JsonRpcRequest) (s : S)
    (Hl : length (token (rpc_auth app)) = RPC_TOKEN_LEN) (Hb : Forall byte_ok (token (rpc_auth app)))
    (Hhtml : index_text = Some html) (Hhead : contains (lit "</head>") html = true)
    (Hpath : asset path = None) (Hbody : from_value body = Some request) :
  ∃ page, serve disk app (GetStatic path) s = (s, Some (reply 200 (Some (lit "text/html; charset=utf-8")) (Text page))) ∧
    serve disk app GetIndex s = serve disk app (GetStatic path) s ∧
    contains (lit "window.__EPHEMERA_RPC_TOKEN__=" ++ quote ++ token_hex (rpc_auth app) ++ quote) page = true ∧
    (∀ r resp s', serve disk app r s = (s', Some resp) → allow_origin resp = any_origin) ∧
    (serve disk app (PostRpc (Some (lit "Bearer " ++ token_hex (rpc_auth app))) body) s).1 = (dispatch (router app) request s).1.
Proof.
  set (tk := token_hex (rpc_auth app)).
  set (script := lit "<script>window.__EPHEMERA_RPC_TOKEN__=" ++ quote ++ tk ++ quote ++ lit ";</script>").
  exists (replace (lit "</head>") (script ++ [10%N] ++ lit "</head>") html). split_and!.
  - cbn [serve]. unfold serve_static, try_serve_file. rewrite Hpath. cbn. unfold inject_token_into_index. by rewrite Hhtml.
  - cbn [serve]. unfold serve_static, try_serve_file, serve_index. by rewrite Hpath.
  - apply replace_contains; [done|done|]. apply contains_app_l. unfold script.
    change (lit "<script>window.__EPHEMERA_RPC_TOKEN__=") with (lit "<script>" ++ lit "window.__EPHEMERA_RPC_TOKEN__=").
    rewrite <- !app_assoc. apply contains_app_r, starts_contains.
    rewrite !(app_assoc _ _ (_ ++ lit ";</script>")), !(app_assoc _ _ (lit ";</script>")).
    apply starts_with_app.
  - intros r resp s' Hr. destruct r as [authorization b|id|id|p|]; cbn [serve] in Hr.
    + unfold handle_rpc in Hr. destruct (negb _); [by injection Hr as <- <-|]. destruct (from_value b) as [q|]; [|by injection Hr as <- <-].
      destruct (dispatch _ _ _). by injection Hr as <- <-.
    + injection Hr as <- Hr. unfold serve_media in Hr. repeat case_match; simplify_eq; done.
    + injection Hr as <- Hr. unfold serve_thumbnail in Hr. repeat case_match; simplify_eq; done.
    + injection Hr as <- Hr. subst resp. unfold serve_static. destruct (try_serve_file p) as [x|] eqn:E.
      * unfold try_serve_file in E. destruct (asset p); [|done]. by injection E as <-.
      * unfold inject_token_into_index. by destruct index_text.
    + injection Hr as <- Hr. subst resp. unfold serve_index, inject_token_into_index. by destruct index_text.
  - cbn [serve]. unfold handle_rpc. unfold tk. rewrite token_accepted, Hbody by done. cbn [negb]. by destruct (dispatch _ _ _).
Qed.
End properties.

Section media.
Context `{PrimitiveLaws, !Posting.HashBytes, Hex, !HexLaws, !HexOutput, Frontend} {S : Type} (disk : S → Disk).

Lemma ascii_splits s : Forall (λ c, is_hex_digit c = true) s → splits_at_two s = true.
Proof.
  assert (Hw : ∀ c, is_hex_digit c = true → length (utf8_char c) = 1).
  { intros c. unfold is_hex_digit, is_ascii_digit, in_range. rewrite orb_true_iff, !andb_true_iff, !N.leb_le. intros Hc.
    unfold utf8_char. by rewrite (proj2 (N.ltb_lt c 128)) by lia. }
  intros [|c s' Hc [|d s'' Hd _]]; [done| |]; cbn [splits_at_two]; by rewrite !Hw.
Qed.

(** Every file served by name is the attachment of that name, or a blob the
    name is the hash of. *)
Lemma media_checked media_id s b t : serve_media disk media_id s = Some (reply 200 t (Bytes b)) →
  (∃ a, Media.get_media_attachment media_id (disk s) = Ok a ∧ t = Some (lit (a_mime_type a)) ∧
     b = concat (ck_data ∘ snd <$> Media.list_chunks_for_media media_id (disk s))) ∨
  (is_ok (Media.get_media_attachment media_id (disk s)) = false ∧ Content.to_hex b = media_id).
Proof.
  unfold serve_media. destruct (Media.get_media_attachment media_id (disk s)) as [a|e] eqn:Ea.
  - intros [= <- <-]. left. by exists a.
  - destruct (negb _); [done|]. destruct (Content.get _ _) as [d|e'] eqn:Eg; [|done]. intros [= <- <-]. right. split; [done|].
    by apply Content.get_sound in Eg.
Qed.

End media.

(* ------------------------------------------------------------------ *)
(** ** Witnesses *)

(** A frontend of one page and one script. *)
Module Pages.
#[export] Instance pages : Frontend := {|
  asset path := if bool_decide (path = lit "app.js") then Some [1%N] else None;
  index_text := Some (lit "<html><head></head></html>");
  guess_mime _ := None;
  request_error _ := []
|}.
End Pages.

Section witnesses.
Import Toy HexToy Pages Posting.PostToy.

(** A counter behind one method. *)
Definition vw_app : AppState nat :=
  MkApp (register "count" (λ _ n, (S n, Ok VNull)) new_router) (MkAuth (replicate 32 7%N) RPC_TOKEN_FILENAME).
Definition vw_body : Value := object [("jsonrpc", vstr "2.0"); ("method", vstr "count"); ("id", vnum 1)].
Definition vw_disk (_ : nat) : Disk := sw_disk.
Definition vw_header : str := lit "Bearer " ++ token_hex (rpc_auth vw_app).

Lemma vw_token_bytes : Forall byte_ok (token (rpc_auth vw_app)).
Proof. repeat (apply Forall_cons_2; [reflexivity|]). apply Forall_nil_2. Qed.

Lemma rpc_guarded_witness :
  (serve vw_disk vw_app (PostRpc (Some vw_header) vw_body) 0).1 = 1 ∧
  ∃ resp, serve vw_disk vw_app (PostRpc None vw_body) 0 = (0, Some resp) ∧ status resp = 401%N.
Proof.
  split.
  - destruct (rpc_guarded vw_disk vw_app (PostRpc (Some vw_header) vw_body) 0 eq_refl vw_token_bytes) as (_ & _ & Hok).
    rewrite (Hok vw_body (MkRequest (lit "2.0") (lit "count") VNull (vnum 1)) eq_refl eq_refl). reflexivity.
  - destruct (rpc_guarded vw_disk vw_app (PostRpc None vw_body) 0 eq_refl vw_token_bytes) as (_ & Hno & _).
    apply (Hno None vw_body eq_refl). intros w Hw. discriminate Hw.
Defined.

(** A page of another site asks for a path that does not exist, reads the
    token and moves the counter. *)
Lemma token_for_anyone_witness :
  ∃ page, serve vw_disk vw_app (GetStatic (lit "x")) 0 = (0, Some (reply 200 (Some (lit "text/html; charset=utf-8")) (Text page))) ∧
    contains (token_hex (rpc_auth vw_app)) page = true ∧
    (serve vw_disk vw_app (PostRpc (Some vw_header) vw_body) 0).1 = 1.
Proof.
  assert (Hi : index_text = Some (lit "<html><head></head></html>")) by reflexivity.
  assert (Ha : asset (lit "x") = None) by reflexivity.
  destruct (token_for_anyone vw_disk vw_app (lit "<html><head></head></html>") (lit "x") vw_body
    (MkRequest (lit "2.0") (lit "count") VNull (vnum 1)) 0 eq_refl vw_token_bytes Hi eq_refl Ha eq_refl) as (page & Hp & _ & _ & _ & Hs).
  eexists. split; [reflexivity|]. split; [vm_compute; reflexivity|exact Hs].
Defined.

End witnesses.
