(* ===== verification/Lifecycle.v ===== *)
(** * The life of a node (ephemera-node lib.rs, network.rs, services/mod.rs)

    [EphemeraNode] with its service container: creation, start, shutdown, the
    start of the network after an identity is there, the background tasks and
    the ingest loops with the shutdown signal they wait on.  The RPC handlers
    run beside each other, so the start of the network is two steps, before
    and after the endpoint is made; start and shutdown hold the node and are
    one step.  What the system, the endpoint and the dialled peers answer
    comes in as arguments. *)
From S2P Require Import Prelude Types Crypto Unicode Tables Metadata Keystore.
From S2P Require IdentityNode Transport Config Store.
Import IdentityNode(IdentityService, active_keypair).
Import Transport(PeerAddr, MkAddr).
Module Iroh := Transport.Iroh.

(* ------------------------------------------------------------------ *)
(** ** The state *)

Inductive RelayState := Connected | Unavailable.
Inductive Topic := PublicFeed | DirectMessages | Moderation | DhtLookup.

(** The gossip service is its subscriptions here. *)
Record NetworkSubsystem := MkNet {
  local_id : bytes;
  transport : Iroh.IrohTransport;
  subscriptions : list Topic;
  relay_state : RelayState
}.
Definition with_transport (t : Iroh.IrohTransport) (n : NetworkSubsystem) : NetworkSubsystem :=
  MkNet (local_id n) t (subscriptions n) (relay_state n).

(** What is spawned: the loops of the background, and those that read the
    subscriptions of a network; the message loop keeps the key it was given. *)
Inductive Job :=
| GcLoop (interval_secs : N)
| EpochRotationLoop
| HandleGcLoop
| DeadDropPollLoop
| ReputationDecayLoop
| DhtMaintenanceLoop
| ProfileRefreshLoop
| ContactReconnectLoop
| GossipIngestLoop (network : nat)
| MessageIngestLoop (network : nat) (our_pubkey : option bytes)
| ModerationIngestLoop (network : nat)
| DhtQueryIngestLoop (network : nat).

(** A receiver of the signal has seen the versions up to [seen]. *)
Record Task := MkTask { job : Job; seen : nat; alive : bool }.
Definition ended (t : Task) : Task := MkTask (job t) (seen t) false.

Record ServiceContainer := MkServices {
  identity : IdentityService;
  metadata : MetadataDb;
  network : option nat;
  shutdown_tx : bool;
  ingest_handles : list nat
}.
Definition with_identity i s := MkServices i (metadata s) (network s) (shutdown_tx s) (ingest_handles s).
Definition with_metadata d s := MkServices (identity s) d (network s) (shutdown_tx s) (ingest_handles s).
Definition set_network n s := MkServices (identity s) (metadata s) (Some n) (shutdown_tx s) (ingest_handles s).
Definition set_shutdown_tx s := MkServices (identity s) (metadata s) (network s) true (ingest_handles s).
Definition with_handles h s := MkServices (identity s) (metadata s) (network s) (shutdown_tx s) h.

(** [version] counts the sends on the shutdown channel; [nets] are the
    endpoints ever made, which the tasks of their gossip keep open; [pending]
    the starts of a network that wait for their endpoint. *)
Record Node := MkNode {
  config : Config.NodeConfig;
  services : ServiceContainer;
  version : nat;
  running : bool;
  own_network : option nat;
  rpc_token : bool;
  tasks : list Task;
  nets : list NetworkSubsystem;
  pending : list bytes
}.
Definition with_services s n := MkNode (config n) s (version n) (running n) (own_network n) (rpc_token n) (tasks n) (nets n) (pending n).
Definition with_own x n := MkNode (config n) (services n) (version n) (running n) x (rpc_token n) (tasks n) (nets n) (pending n).
Definition with_tasks ts n := MkNode (config n) (services n) (version n) (running n) (own_network n) (rpc_token n) ts (nets n) (pending n).
Definition with_nets l n := MkNode (config n) (services n) (version n) (running n) (own_network n) (rpc_token n) (tasks n) l (pending n).
Definition with_pending p n := MkNode (config n) (services n) (version n) (running n) (own_network n) (rpc_token n) (tasks n) (nets n) p.
Definition with_running b n := MkNode (config n) (services n) (version n) b (own_network n) (rpc_token n) (tasks n) (nets n) (pending n).

Definition spawn (j : Job) (n : Node) : Node := with_tasks (tasks n ++ [MkTask j (version n) true]) n.

(** Errors of [start_network], whose texts name the step. *)
Inductive NetworkError := IdentityNotUnlocked | TransportInitFailed (e : str) | ShutdownTxNotSet.

Section lifecycle.
Context `{Primitives, Hex, KeyFormats}.

(* ------------------------------------------------------------------ *)
(** ** The network *)

(** [NetworkSubsystem::new]: the id of the endpoint is the public key of its
    secret; the endpoint may not come up, and the relay may not answer. *)
Definition new_network (secret_key : bytes) (relay : RelayState) : NetworkSubsystem :=
  MkNet (public_key secret_key) (Iroh.new (public_key secret_key)) [] relay.
Definition subscribe (t : Topic) (n : NetworkSubsystem) : NetworkSubsystem :=
  MkNet (local_id n) (transport n) (subscriptions n ++ [t]) (relay_state n).

Definition set_pending (kp : bytes) (nd : Node) : Node := with_pending (pending nd ++ [kp]) nd.

(** [start_network] up to the endpoint: already running, or the secret key. *)
Definition start_check (nd : Node) : result NetworkError (option bytes) :=
  match network (services nd) with
  | Some _ => Ok None
  | None => match active_keypair (identity (services nd)) with Some kp => Ok (Some kp) | None => Err IdentityNotUnlocked end
  end.

(** The rest of it, up to the automatic connections. *)
Definition finish_start (secret_key : bytes) (endpoint : result str RelayState) : SE Node NetworkError unit := λ nd,
  match endpoint with
  | Err e => (nd, Err (TransportInitFailed e))
  | Ok relay =>
      let new_net := foldl (λ n t, subscribe t n) (new_network secret_key relay) [PublicFeed; DirectMessages; Moderation; DhtLookup] in
      let n := length (nets nd) in
      let nd := with_nets (nets nd ++ [new_net]) nd in
      if negb (shutdown_tx (services nd)) then (nd, Err ShutdownTxNotSet)
      else
        let our_pubkey := public_key <$> active_keypair (identity (services nd)) in
        let first := length (tasks nd) in
        let nd := spawn (GossipIngestLoop n) nd in
        let nd := spawn (MessageIngestLoop n our_pubkey) nd in
        let nd := spawn (ModerationIngestLoop n) nd in
        let nd := spawn (DhtQueryIngestLoop n) nd in
        let handles := [first; S first; S (S first); S (S (S first))] in
        (with_services (set_network n (with_handles handles (services nd))) nd, Ok tt)
  end.

(** What a dialled contact answers, or that ten seconds pass; [locked] says
    whether the table of peers is taken at the moment of a look. *)
Inductive Dial := Answer (id : nat) (key dialed : result str unit) | Timeout.
Record DialEnv := MkDial { dial : bytes → Dial; snapshot_locked : bool; look_locked : bytes → bool }.

Definition contact_pubkeys (local : bytes) (d : MetadataDb) : list bytes :=
  filter (λ b, length b = 32)
    ((λ kr, kr.1.2) <$> select_where (λ k r, bool_decide (k.1 = local) && bool_decide (c_status r = "connected")) (connections d)).

Definition connect_contact (env : DialEnv) (already_connected : list bytes) (t : Iroh.IrohTransport) (node_id : bytes) : Iroh.IrohTransport :=
  if bool_decide (node_id ∈ already_connected) then t
  else if Iroh.is_connected (look_locked env node_id) node_id t then t
  else match dial env node_id with
       | Answer id key dialed => (Iroh.connect id (MkAddr node_id []) key dialed t).1
       | Timeout => t
       end.

Definition connect_contacts (env : DialEnv) (contacts : list bytes) (t : Iroh.IrohTransport) : Iroh.IrohTransport :=
  foldl (connect_contact env (Iroh.connected_peers (snapshot_locked env) t)) t contacts.

Definition auto_connect_to_contacts (env : DialEnv) (nd : Node) : Node :=
  match active_keypair (identity (services nd)) with
  | None => nd
  | Some kp =>
      let contacts := contact_pubkeys (public_key kp) (metadata (services nd)) in
      match network (services nd) with
      | None => nd
      | Some n => with_nets (alter (λ net, with_transport (connect_contacts env contacts (transport net)) net) n (nets nd)) nd
      end
  end.

Definition start_network (endpoint : result str RelayState) (env : DialEnv) : SE Node NetworkError unit := λ nd,
  match start_check nd with
  | Err e => (nd, Err e)
  | Ok None => (nd, Ok tt)
  | Ok (Some kp) =>
      match finish_start kp endpoint nd with
      | (nd', Ok _) => (auto_connect_to_contacts env nd', Ok tt)
      | (nd', Err e) => (nd', Err e)
      end
  end.

(* ------------------------------------------------------------------ *)
(** ** The node *)

(** [ServiceContainer::new] over the files there are: locked, offline. *)
Definition open_services (keystore : option bytes) (session : option str) (d : MetadataDb) : ServiceContainer :=
  MkServices (IdentityNode.MkService keystore session None 0 None 0 []) d None false [].

(** [EphemeraNode::with_debug_log]: the checks, the token, the container.
    [token_written] and [opened] are the answers of the file system. *)
Definition new_node (c : Config.NodeConfig) (dir_made token_written opened : result str unit) (keystore : option bytes)
    (session : option str) (d : MetadataDb) : result Config.StartupError Node :=
  let? _ := Config.validate_config c in
  let? _ := map_err Config.DataDir dir_made in
  let? _ := map_err (λ e, Config.Internal (lit "failed to generate RPC auth token: " ++ e)) token_written in
  let? _ := map_err Config.Storage opened in
  Ok (MkNode c (open_services keystore session d) 0 false None true [] [] []).

Definition background (c : Config.NodeConfig) : list Job :=
  [GcLoop (Config.gc_interval_secs (Config.storage c)); EpochRotationLoop; HandleGcLoop; DeadDropPollLoop; ReputationDecayLoop;
   DhtMaintenanceLoop; ProfileRefreshLoop; ContactReconnectLoop].

Definition derive_secret_key_bytes (nd : Node) : option bytes := active_keypair (identity (services nd)).

Definition start (sys : Config.System) (endpoint : result str RelayState) (env : DialEnv) : SE Node Config.StartupError unit := λ nd,
  if running nd then (nd, Ok tt)
  else match Config.run_startup_sequence sys (config nd) with
  | Err e => (nd, Err e)
  | Ok _ =>
      let nd := with_services (set_shutdown_tx (services nd)) nd in
      let nd :=
        match derive_secret_key_bytes nd with
        | Some _ =>
            match start_network endpoint env nd with
            | (nd, Ok _) => with_own (network (services nd)) nd
            | (nd, Err _) => nd
            end
        | None => nd
        end in
      (with_running true (foldl (λ n j, spawn j n) nd (background (config nd))), Ok tt)
  end.

(** The send fails when nobody is left to receive; [NetworkSubsystem::shutdown]
    only writes to the log. *)
Definition shutdown : SE Node Config.StartupError unit := λ nd,
  if negb (running nd) then (nd, Ok tt)
  else if negb (existsb alive (tasks nd)) then (nd, Err (Config.Internal (lit "failed to send shutdown signal")))
  else (MkNode (config nd) (services nd) (S (version nd)) false None false (tasks nd) (nets nd) (pending nd), Ok tt).

(** A task leaves its loop when there is a signal it has not seen. *)
Definition signalled (nd : Node) (t : Task) : bool := alive t && (seen t <? version nd).

(** One turn of [gc_loop]. *)
Definition gc_tick (gc : Store.Gc.GcConfig) (now : Z) (d : Store.Disk) (bus : Config.EventBus) : Store.Disk * Config.EventBus :=
  let '(d, report) := Store.Gc.sweep gc now d in
  let deleted := N.of_nat (Store.Gc.posts_deleted report) in
  let purged := N.of_nat (Store.Gc.tombstones_purged report) in
  if (0 <? deleted)%N || (0 <? purged)%N then (d, (Config.emit (Config.GarbageCollectionCompleted (deleted + purged) 0) bus).1)
  else (d, bus).

(* ------------------------------------------------------------------ *)
(** ** Everything that happens *)

Inductive step (nd : Node) : Node → Prop :=
| step_identity o : step nd (with_services (with_identity (IdentityNode.step (identity (services nd)) o) (services nd)) nd)
| step_metadata d : step nd (with_services (with_metadata d (services nd)) nd)
| step_begin kp : start_check nd = Ok (Some kp) → step nd (set_pending kp nd)
| step_finish i kp endpoint : pending nd !! i = Some kp →
    step nd (finish_start kp endpoint (with_pending (delete i (pending nd)) nd)).1
| step_auto_connect env : step nd (auto_connect_to_contacts env nd)
| step_transport n net t : nets nd !! n = Some net → Iroh.any_step (transport net) t →
    step nd (with_nets (<[n := with_transport t net]> (nets nd)) nd)
| step_stop i t : tasks nd !! i = Some t → signalled nd t = true → step nd (with_tasks (<[i := ended t]> (tasks nd)) nd)
| step_start sys endpoint env : step nd (start sys endpoint env nd).1
| step_shutdown : step nd (shutdown nd).1.

(** From a node that was created. *)
Definition reach (nd : Node) : Prop :=
  ∃ c f s d nd0, new_node c (Ok tt) (Ok tt) (Ok tt) f s d = Ok nd0 ∧ rtc step nd0 nd.

(* ------------------------------------------------------------------ *)
(** ** Properties *)

Definition ingest (j : Job) : bool :=
  match j with GossipIngestLoop _ | MessageIngestLoop _ _ | ModerationIngestLoop _ | DhtQueryIngestLoop _ => true | _ => false end.
Definition listens (n : nat) (j : Job) : bool :=
  match j with GossipIngestLoop m | MessageIngestLoop m _ | ModerationIngestLoop m | DhtQueryIngestLoop m => m =? n | _ => false end.

(** What most steps leave: new tasks are ingest loops, a new network is the
    newest. *)
Record grows (nd nd' : Node) : Prop := MkGrows {
  g_config : config nd' = config nd;
  g_version : version nd' = version nd;
  g_running : running nd' = running nd;
  g_token : rpc_token nd' = rpc_token nd;
  g_tx : shutdown_tx (services nd') = shutdown_tx (services nd);
  g_tasks : ∃ ts, tasks nd' = tasks nd ++ ts ∧ Forall (λ t, ingest (job t) = true ∧ seen t = version nd) ts;
  g_nets : length (nets nd) ≤ length (nets nd');
  g_network : ∀ n, network (services nd') = Some n → network (services nd) = Some n ∨ (n < length (nets nd') ∧ shutdown_tx (services nd) = true)
}.

Lemma grows_refl nd : grows nd nd.
Proof. split; try done; [|by left]. exists []. by rewrite app_nil_r. Qed.

Lemma grows_trans a b c : grows a b → grows b c → grows a c.
Proof.
  intros [G1 G2 G3 G4 G5 (t1 & E1 & F1) G7 G8] [K1 K2 K3 K4 K5 (t2 & E2 & F2) K7 K8].
  split; [congruence..| |lia|].
  - exists (t1 ++ t2). rewrite E2, E1, app_assoc. split; [done|]. apply Forall_app. split; [done|]. by rewrite <- G2.
  - intros n [Hn|[Hn Ht]]%K8; [|right; by rewrite <- G5].
    apply G8 in Hn as [?|[? ?]]; [by left|right]. split; [lia|done].
Qed.

Lemma grows_same nd nd' : config nd' = config nd → version nd' = version nd → running nd' = running nd → rpc_token nd' = rpc_token nd →
  shutdown_tx (services nd') = shutdown_tx (services nd) → tasks nd' = tasks nd → length (nets nd') = length (nets nd) →
  network (services nd') = network (services nd) → grows nd nd'.
Proof.
  intros ? ? ? ? ? Ht Hn Hw. split; try done; [|lia|intros n; rewrite Hw; by left].
  exists []. by rewrite app_nil_r.
Qed.

Lemma grows_finish kp e nd : grows nd (finish_start kp e nd).1.
Proof.
  unfold finish_start. destruct e as [relay|e]; [|apply grows_refl].
  cbn [with_nets services]. destruct (shutdown_tx (services nd)) eqn:Htx; cbn [negb].
  - split; try done.
    + eexists [_; _; _; _]. cbn. rewrite <- !app_assoc. split; [done|]. repeat constructor.
    + cbn. rewrite length_app. lia.
    + cbn. intros n [= <-]. right. rewrite length_app. cbn. split; [lia|done].
  - split; try done; [exists []; by rewrite app_nil_r|cbn; rewrite length_app; lia|by left].
Qed.

Lemma grows_auto env nd : grows nd (auto_connect_to_contacts env nd).
Proof.
  unfold auto_connect_to_contacts. destruct (active_keypair _); [|apply grows_refl].
  destruct (network (services nd)) as [n|]; [|apply grows_refl]. apply grows_same; try done. cbn. apply length_alter.
Qed.

Lemma grows_start_network e env nd : grows nd (start_network e env nd).1.
Proof.
  unfold start_network. destruct (start_check nd) as [[kp|]|err]; [|apply grows_refl..].
  pose proof (grows_finish kp e nd) as Hg. destruct (finish_start kp e nd) as [nd' [u|err]]; [|done].
  by eapply grows_trans, grows_auto.
Qed.

(** The invariant of the node. *)
Record node_ok (nd : Node) : Prop := MkOk {
  o_seen : Forall (λ t, seen t ≤ version nd) (tasks nd);
  o_network : ∀ n, network (services nd) = Some n → n < length (nets nd) ∧ shutdown_tx (services nd) = true;
  o_running : running nd = true → shutdown_tx (services nd) = true ∧
    ∀ j, j ∈ background (config nd) → ∃ t, t ∈ tasks nd ∧ job t = j ∧ alive t = true ∧ seen t = version nd;
  o_idle : running nd = false → ∀ t, t ∈ tasks nd → seen t = version nd → ingest (job t) = true;
  o_token : rpc_token nd = bool_decide (version nd = 0);
  o_config : Config.validate_config (config nd) = Ok tt
}.

Lemma node_ok_grows nd nd' : grows nd nd' → node_ok nd → node_ok nd'.
Proof.
  intros [G1 G2 G3 G4 G5 (ts & E & F) G7 G8] [K1 K2 K3 K4 K5 K6]. split.
  - rewrite E, G2. apply Forall_app. split; [done|]. eapply Forall_impl; [exact F|]. intros t [_ Ht]. lia.
  - intros n [Hn|[Hn Ht]]%G8; rewrite G5; [|done]. apply K2 in Hn as [? ?]. split; [lia|done].
  - rewrite G3, G5, G1, G2, E. intros Hr. destruct (K3 Hr) as [Htx Hall]. split; [done|]. intros j Hj.
    destruct (Hall j Hj) as (t & Ht & ?). exists t. split; [|done]. apply elem_of_app. by left.
  - rewrite G3, E, G2. intros Hr t [Ht|Ht]%elem_of_app Hs; [by apply K4|]. rewrite Forall_forall in F. by apply F in Ht as [? _].
  - by rewrite G4, G2.
  - by rewrite G1.
Qed.

Definition spawned (v : nat) (js : list Job) : list Task := (λ j, MkTask j v true) <$> js.

Lemma spawn_all js nd : foldl (λ n j, spawn j n) nd js = with_tasks (tasks nd ++ spawned (version nd) js) nd.
Proof.
  revert nd. induction js as [|j js IH]; intros nd; cbn [foldl].
  - cbn. rewrite app_nil_r. by destruct nd.
  - rewrite IH. unfold spawn. cbn. by rewrite <- app_assoc.
Qed.

(** [start] on a node that is stopped: what it has before the background. *)
Definition online (e : result str RelayState) (env : DialEnv) (nd : Node) : Node :=
  let nd := with_services (set_shutdown_tx (services nd)) nd in
  match derive_secret_key_bytes nd with
  | Some _ => match start_network e env nd with (nd, Ok _) => with_own (network (services nd)) nd | (nd, Err _) => nd end
  | None => nd
  end.

Lemma start_eq sys e env nd : running nd = false → Config.run_startup_sequence sys (config nd) = Ok tt →
  start sys e env nd = (with_running true (foldl (λ n j, spawn j n) (online e env nd) (background (config (online e env nd)))), Ok tt).
Proof. intros Hr Hs. unfold start. by rewrite Hr, Hs. Qed.

Lemma start_kept sys e env nd : running nd = true ∨ is_ok (Config.run_startup_sequence sys (config nd)) = false → (start sys e env nd).1 = nd.
Proof.
  intros [Hr|Hs]; unfold start; [by rewrite Hr|]. destruct (running nd); [done|]. by destruct (Config.run_startup_sequence sys (config nd)).
Qed.

Lemma grows_online e env nd : grows (with_services (set_shutdown_tx (services nd)) nd) (online e env nd).
Proof.
  unfold online. set (nd0 := with_services _ nd). destruct (derive_secret_key_bytes nd0); [|apply grows_refl].
  pose proof (grows_start_network e env nd0) as Hg. destruct (start_network e env nd0) as [nd1 [u|err]]; [|done].
  eapply grows_trans; [exact Hg|]. by apply grows_same.
Qed.

Lemma node_ok_start sys e env nd : node_ok nd → node_ok (start sys e env nd).1.
Proof.
  intros Hok. destruct (running nd) eqn:Hr; [rewrite start_kept; [done|by left]|].
  destruct (Config.run_startup_sequence sys (config nd)) as [[]|err] eqn:Hs; [|rewrite start_kept; [done|right; by rewrite Hs]].
  rewrite (start_eq sys e env nd Hr Hs), spawn_all. pose proof (grows_online e env nd) as Hg. set (o := online e env nd) in *.
  assert (Ho : node_ok o).
  { apply (node_ok_grows _ _ Hg). destruct Hok as [K1 K2 K3 K4 K5 K6]. split; try done.
    - intros n Hn. cbn in Hn. apply K2 in Hn as [? _]. done.
    - cbn. intros Hr'. by rewrite Hr in Hr'. }
  destruct Hg as [G1 G2 G3 G4 G5 _ _ _]. destruct Ho as [K1 K2 K3 K4 K5 K6].
  split; cbn [tasks with_running with_tasks version services running rpc_token config nets fst]; try done.
  - apply Forall_app. split; [done|]. unfold spawned. apply Forall_fmap, Forall_forall. intros j _. cbn. lia.
  - intros _. split; [by rewrite G5|]. intros j Hj. exists (MkTask j (version o) true). split; [|done].
    apply elem_of_app. right. unfold spawned. apply list_elem_of_fmap. by exists j.
Qed.

Lemma node_ok_shutdown nd : node_ok nd → node_ok (shutdown nd).1.
Proof.
  intros Hok. unfold shutdown. destruct (running nd) eqn:Hr; cbn [negb]; [|done]. destruct (negb _); [done|].
  destruct Hok as [K1 K2 K3 K4 K5 K6]. split; cbn [fst tasks version services running rpc_token config nets]; try done.
  - eapply Forall_impl; [exact K1|]. cbn. intros t Ht. lia.
  - intros _ t Ht Hs. rewrite Forall_forall in K1. apply K1 in Ht. lia.
Qed.

Lemma node_ok_stop nd i t : tasks nd !! i = Some t → signalled nd t = true → node_ok nd → node_ok (with_tasks (<[i := ended t]> (tasks nd)) nd).
Proof.
  intros Hi Hs [K1 K2 K3 K4 K5 K6]. unfold signalled in Hs. apply andb_true_iff in Hs as [Ha Hs]. apply Nat.ltb_lt in Hs.
  split; cbn [tasks version services running rpc_token config nets with_tasks]; try done.
  - apply Forall_insert; [done|cbn; lia].
  - intros Hr. destruct (K3 Hr) as [Htx Hall]. split; [done|]. intros j Hj. destruct (Hall j Hj) as (t' & Ht' & Hj' & Ha' & Hs').
    exists t'. split; [|done]. apply list_elem_of_lookup in Ht' as [k Hk]. apply list_elem_of_lookup. exists k.
    rewrite list_lookup_insert_ne; [done|]. intros <-. rewrite Hi in Hk. injection Hk as <-. lia.
  - intros Hr t' Ht' Hs'. apply list_elem_of_lookup in Ht' as [k Hk]. destruct (decide (k = i)) as [->|Hne].
    + rewrite list_lookup_insert_eq in Hk by by eapply lookup_lt_Some. injection Hk as <-. cbn in *. lia.
    + rewrite list_lookup_insert_ne in Hk by done. apply (K4 Hr); [by eapply list_elem_of_lookup_2|done].
Qed.

Lemma node_ok_step nd nd' : step nd nd' → node_ok nd → node_ok nd'.
Proof.
  intros Hst Hok. destruct Hst.
  - eapply node_ok_grows, Hok. by apply grows_same.
  - eapply node_ok_grows, Hok. by apply grows_same.
  - eapply node_ok_grows, Hok. by apply grows_same.
  - eapply node_ok_grows, Hok. eapply grows_trans, grows_finish. by apply grows_same.
  - eapply node_ok_grows, Hok. apply grows_auto.
  - eapply node_ok_grows, Hok. apply grows_same; try done. cbn. apply length_insert.
  - by apply node_ok_stop.
  - by apply node_ok_start.
  - by apply node_ok_shutdown.
Qed.

Lemma node_reach_ok nd : reach nd → node_ok nd.
Proof.
  intros (c & f & s & d & nd0 & Hn & Hs). assert (Hok : node_ok nd0).
  { unfold new_node in Hn. destruct (Config.validate_config c) as [[]|] eqn:Ec; [|done]. cbn in Hn. injection Hn as <-.
    split; try done. cbn. intros _ t Ht. by apply not_elem_of_nil in Ht. }
  clear Hn. induction Hs as [|x y z Hxy Hyz IH]; [done|]. apply IH. by eapply node_ok_step.
Qed.

(** *** The network, once set *)

(** What stays of a network, while no start of another is under way: the
    loops that read it are those of [base]. *)
Record fixed (n : nat) (lid : bytes) (base : list Job) (nd : Node) : Prop := MkFixed {
  f_network : network (services nd) = Some n;
  f_pending : pending nd = [];
  f_id : local_id <$> nets nd !! n = Some lid;
  f_loops : ∀ t, t ∈ tasks nd → listens n (job t) = true → job t ∈ base
}.

Lemma fixed_check n l b nd : fixed n l b nd → start_check nd = Ok None.
Proof. intros [G1 _ _ _]. unfold start_check. by rewrite G1. Qed.

Lemma fixed_start_network n l b e env nd : fixed n l b nd → start_network e env nd = (nd, Ok tt).
Proof. intros Hf. unfold start_network. by rewrite (fixed_check _ _ _ _ Hf). Qed.

Lemma auto_nets env nd m : local_id <$> nets (auto_connect_to_contacts env nd) !! m = local_id <$> nets nd !! m.
Proof.
  unfold auto_connect_to_contacts. destruct (active_keypair _); [|done]. destruct (network (services nd)) as [k|]; [|done].
  cbn. rewrite list_lookup_alter. case_decide; [subst|done]. by destruct (nets nd !! m).
Qed.

Lemma auto_same env nd : let nd' := auto_connect_to_contacts env nd in
  services nd' = services nd ∧ pending nd' = pending nd ∧ tasks nd' = tasks nd ∧ version nd' = version nd.
Proof.
  unfold auto_connect_to_contacts. destruct (active_keypair _); [|done]. by destruct (network (services nd)).
Qed.

(** The background has no loop that reads a network. *)
Lemma background_deaf n c : Forall (λ j, listens n j = false) (background c).
Proof. repeat constructor. Qed.

(** A start of a node whose network is set adds the background and nothing else. *)
Lemma start_fixed sys e env n l b nd : fixed n l b nd → let nd' := (start sys e env nd).1 in
  network (services nd') = Some n ∧ pending nd' = [] ∧ nets nd' = nets nd ∧ version nd' = version nd ∧
  ∃ ts, tasks nd' = tasks nd ++ ts ∧ Forall (λ t, listens n (job t) = false) ts.
Proof.
  intros Hf nd'. assert (Hkeep : nd' = nd → network (services nd') = Some n ∧ pending nd' = [] ∧ nets nd' = nets nd ∧ version nd' = version nd ∧
    ∃ ts, tasks nd' = tasks nd ++ ts ∧ Forall (λ t, listens n (job t) = false) ts).
  { intros ->. destruct Hf as [G1 G2 G3 G4]. split_and!; try done. exists []. by rewrite app_nil_r. }
  destruct (running nd) eqn:Hr; [apply Hkeep, start_kept; by left|].
  destruct (Config.run_startup_sequence sys (config nd)) as [[]|err] eqn:Hs; [|apply Hkeep, start_kept; right; by rewrite Hs].
  clear Hkeep. subst nd'. rewrite (start_eq sys e env nd Hr Hs), spawn_all.
  set (o := online e env nd). assert (Ho : services o = set_shutdown_tx (services nd) ∧ pending o = pending nd ∧ nets o = nets nd ∧
    version o = version nd ∧ tasks o = tasks nd).
  { unfold o, online. set (nd0 := with_services _ nd). destruct (derive_secret_key_bytes nd0); [|done].
    assert (Hf0 : fixed n l b nd0) by (destruct Hf; by split). by rewrite (fixed_start_network _ _ _ _ _ _ Hf0). }
  destruct Ho as (E1 & E2 & E3 & E4 & E5). destruct Hf as [G1 G2 G3 G4].
  cbn [fst with_running with_tasks services pending nets version tasks]. rewrite E1, E2, E3, E4, E5. split_and!; [done..|].
  eexists. split; [done|]. unfold spawned. apply Forall_fmap. apply background_deaf.
Qed.

Lemma fixed_step n l b nd nd' : fixed n l b nd → step nd nd' → fixed n l b nd'.
Proof.
  intros Hf Hst. pose proof Hf as [G1 G2 G3 G4]. destruct Hst as [o|d|kp Hk|i kp e Hk|env|m net t Hm Ht|i t Hi Hs|sys e env|].
  - by split.
  - by split.
  - rewrite (fixed_check _ _ _ _ Hf) in Hk. done.
  - rewrite G2 in Hk. done.
  - destruct (auto_same env nd) as (E1 & E2 & E3 & _). split; [by rewrite E1|by rewrite E2|by rewrite auto_nets|by rewrite E3].
  - split; [done|done| |done]. cbn. destruct (decide (n = m)) as [->|Hne].
    + rewrite list_lookup_insert_eq by by eapply lookup_lt_Some. rewrite Hm in G3. exact G3.
    + by rewrite list_lookup_insert_ne.
  - split; [done|done|done|]. cbn. intros t' Ht' Hl. apply list_elem_of_lookup in Ht' as [k Hk]. destruct (decide (k = i)) as [->|Hne].
    + rewrite list_lookup_insert_eq in Hk by by eapply lookup_lt_Some. injection Hk as <-. cbn in *. apply (G4 t); [by eapply list_elem_of_lookup_2|done].
    + rewrite list_lookup_insert_ne in Hk by done. apply (G4 t'); [by eapply list_elem_of_lookup_2|done].
  - destruct (start_fixed sys e env n l b nd Hf) as (E1 & E2 & E3 & _ & ts & E4 & E5). split; [done|done|by rewrite E3|].
    rewrite E4. intros t [Ht|Ht]%elem_of_app Hl; [by apply G4|]. rewrite Forall_forall in E5. apply E5 in Ht. congruence.
  - unfold shutdown. destruct (negb (running nd)); [done|]. destruct (negb _); [done|]. by split.
Qed.

Lemma fixed_steps n l b nd nd' : fixed n l b nd → rtc step nd nd' → fixed n l b nd'.
Proof. intros Hf Hs. induction Hs as [|x y z Hxy Hyz IH]; [done|]. apply IH. by eapply fixed_step. Qed.

(** Once there is a network, nothing replaces it: locking, importing or
    switching to another identity, a shutdown and a restart leave the endpoint
    with its id, and its loops with the keys they were given. *)
Theorem network_never_replaced (nd nd' : Node) (n : nat) (net : NetworkSubsystem)
    (Hp : pending nd = []) (Hn : network (services nd) = Some n) (Hnet : nets nd !! n = Some net) (Hs : rtc step nd nd') :
  network (services nd') = Some n ∧ (∃ net', nets nd' !! n = Some net' ∧ local_id net' = local_id net) ∧
  (∀ endpoint env, start_network endpoint env nd' = (nd', Ok tt)) ∧
  (∀ t', t' ∈ tasks nd' → listens n (job t') = true → ∃ t, t ∈ tasks nd ∧ job t = job t').
Proof.
  set (b := job <$> tasks nd). assert (Hf : fixed n (local_id net) b nd).
  { split; [done|done|by rewrite Hnet|]. intros t Ht _. apply list_elem_of_fmap. by exists t. }
  assert (Hf' : fixed n (local_id net) b nd') by by eapply fixed_steps.
  destruct (Hf') as [G1 G2 G3 G4]. split_and!; [done| | |].
  - destruct (nets nd' !! n) as [net'|] eqn:E; [|done]. injection G3 as G3. by exists net'.
  - intros e env. by eapply fixed_start_network.
  - intros t' Ht' Hl. apply (G4 t' Ht') in Hl. apply list_elem_of_fmap in Hl as (t & Hj & Ht). by exists t.
Qed.

(** *** Restarting *)

(** Every task that has the signal leaves its loop. *)
Definition settle (nd : Node) (t : Task) : Task := if signalled nd t then ended t else t.

Lemma stop_all nd : rtc step nd (with_tasks (settle nd <$> tasks nd) nd).
Proof.
  assert (Hgo : ∀ l2 l1, rtc step (with_tasks (l1 ++ l2) nd) (with_tasks (l1 ++ (settle nd <$> l2)) nd)).
  { induction l2 as [|t l2 IH]; intros l1; cbn [fmap list_fmap]; [reflexivity|].
    etransitivity; [|rewrite (cons_middle (settle nd t)), app_assoc; apply IH]. unfold settle at 1.
    destruct (signalled nd t) eqn:E; [|by rewrite <- app_assoc].
    apply rtc_once. pose proof (step_stop (with_tasks (l1 ++ t :: l2) nd) (length l1) t) as Hst. cbn in Hst.
    rewrite insert_app_r_alt, Nat.sub_diag in Hst by lia. cbn in Hst. rewrite <- app_assoc. apply Hst; [by apply list_lookup_middle|exact E]. }
  specialize (Hgo (tasks nd) []). cbn in Hgo. by destruct nd.
Qed.

(** The loops that read the network have had the signal, or are gone. *)
Definition deaf (n : nat) (nd : Node) : Prop := ∀ t, t ∈ tasks nd → listens n (job t) = true → alive t = true → seen t < version nd.
Definition silent (n : nat) (nd : Node) : Prop := ∀ t, t ∈ tasks nd → listens n (job t) = true → alive t = false.

(** Neither of the two ends. *)
Lemma loops_step (P : nat → Node → Prop) n l b nd nd' : (P = deaf ∨ P = silent) → fixed n l b nd → P n nd → step nd nd' → P n nd'.
Proof.
  intros HP Hf Hd Hst. destruct Hst as [o|d|kp Hk|i kp e Hk|env|m net t Hm Ht|i t Hi Hs|sys e env|].
  - by destruct HP as [->| ->].
  - by destruct HP as [->| ->].
  - by destruct HP as [->| ->].
  - destruct Hf as [_ G2 _ _]. by rewrite G2 in Hk.
  - destruct (auto_same env nd) as (_ & _ & E3 & E4). destruct HP as [->| ->]; intros t Ht; rewrite E3 in Ht; [rewrite E4|]; by apply Hd.
  - by destruct HP as [->| ->].
  - assert (Hin : ∀ t', t' ∈ <[i := ended t]> (tasks nd) → t' ∈ tasks nd ∨ t' = ended t).
    { intros t' Ht'. apply list_elem_of_lookup in Ht' as [k Hk]. destruct (decide (k = i)) as [->|Hne].
      - rewrite list_lookup_insert_eq in Hk by by eapply lookup_lt_Some. injection Hk as <-. by right.
      - rewrite list_lookup_insert_ne in Hk by done. left. by eapply list_elem_of_lookup_2. }
    destruct HP as [->| ->]; intros t' [Ht'| ->]%Hin Hl; [by apply Hd|done|by apply Hd|done].
  - destruct (start_fixed sys e env n l b nd Hf) as (_ & _ & _ & E4 & ts & E5 & E6). rewrite Forall_forall in E6.
    destruct HP as [->| ->]; intros t; rewrite E5; intros [Ht|Ht]%elem_of_app Hl; [rewrite E4; by apply Hd|by rewrite E6 in Hl|by apply Hd|by rewrite E6 in Hl].
  - unfold shutdown. destruct (negb (running nd)); [done|]. destruct (negb _); [done|].
    destruct HP as [->| ->]; intros t Ht Hl; [|by apply Hd]. intros Ha. specialize (Hd t Ht Hl Ha). cbn in *. lia.
Qed.

Lemma loops_steps (P : nat → Node → Prop) n l b nd nd' : (P = deaf ∨ P = silent) → fixed n l b nd → P n nd → rtc step nd nd' →
  fixed n l b nd' ∧ P n nd'.
Proof.
  intros HP Hf Hd Hs. induction Hs as [|x y z Hxy Hyz IH]; [done|]. apply IH; [by eapply fixed_step|by eapply loops_step].
Qed.

(** *** Connecting to the contacts *)

Lemma connect_contact_peers env snap t c p id :
  Iroh.peers t !! p = Some id → Iroh.peers (connect_contact env snap t c) !! p = Some id.
Proof.
  intros Hp. unfold connect_contact. repeat case_match; try done. unfold Iroh.connect. cbn [fst Transport.node_id].
  repeat case_match; try done. cbn [fst]. unfold Iroh.setup_connection. case_bool_decide as Hb; [done|]. cbn.
  rewrite lookup_insert_ne; [done|]. intros ->. rewrite Hp in Hb. by destruct Hb.
Qed.

Definition dialled (env : DialEnv) (p : bytes) : Prop := ∃ id u v, dial env p = Answer id (Ok u) (Ok v).

Lemma connect_contact_some env snap t c p : (∀ q, q ∈ snap → is_Some (Iroh.peers t !! q)) →
  is_Some (Iroh.peers (connect_contact env snap t c) !! p) ↔ is_Some (Iroh.peers t !! p) ∨ (p = c ∧ dialled env p).
Proof.
  intros Hsnap. destruct (Iroh.peers t !! p) as [id|] eqn:Hp.
  { rewrite (connect_contact_peers env snap t c p id) by done. split; [by left|done]. }
  assert (Hnone : is_Some (@None nat) ↔ False) by (split; [by intros [? ?]|done]). rewrite Hnone.
  unfold connect_contact. case_bool_decide as Hin.
  { rewrite Hp, Hnone. split; [done|]. intros [[]|[-> _]]. apply Hsnap in Hin. rewrite Hp in Hin. by apply Hnone. }
  destruct (Iroh.is_connected _ c t) eqn:Ec.
  { rewrite Hp, Hnone. split; [done|]. intros [[]|[-> _]]. unfold Iroh.is_connected in Ec. destruct (look_locked env c); [done|].
    apply bool_decide_eq_true in Ec. rewrite Hp in Ec. by apply Hnone. }
  destruct (dial env c) as [id key dialed|] eqn:Ed; cycle 1.
  { rewrite Hp, Hnone. split; [done|]. intros [[]|[-> (id & u & v & Hd)]]. congruence. }
  unfold Iroh.connect. cbn [Transport.node_id]. case_bool_decide as Hb; cbn [fst].
  { rewrite Hp, Hnone. split; [done|]. intros [[]|[-> _]]. rewrite Hp in Hb. by apply Hnone. }
  destruct key as [u|e1]; cbn [fst]; cycle 1.
  { rewrite Hp, Hnone. split; [done|]. intros [[]|[-> (? & ? & ? & Hd)]]. congruence. }
  destruct dialed as [v|e2]; cbn [fst]; cycle 1.
  { rewrite Hp, Hnone. split; [done|]. intros [[]|[-> (? & ? & ? & Hd)]]. congruence. }
  unfold Iroh.setup_connection. rewrite bool_decide_false by done. cbn. destruct (decide (p = c)) as [->|Hne].
  - rewrite lookup_insert_eq. split; [|done]. intros _. right. split; [done|]. by exists id, u, v.
  - rewrite lookup_insert_ne, Hp, Hnone by done. naive_solver.
Qed.

Lemma connect_contacts_some env contacts t p :
  is_Some (Iroh.peers (connect_contacts env contacts t) !! p) ↔ is_Some (Iroh.peers t !! p) ∨ (p ∈ contacts ∧ dialled env p).
Proof.
  unfold connect_contacts. set (snap := Iroh.connected_peers _ t).
  assert (Hsnap : ∀ q, q ∈ snap → is_Some (Iroh.peers t !! q)).
  { intros q. unfold snap, Iroh.connected_peers. destruct (snapshot_locked env); [by intros ?%not_elem_of_nil|].
    intros ([q' i] & -> & Hq)%list_elem_of_fmap. apply elem_of_map_to_list in Hq. cbn. by exists i. }
  clearbody snap. revert t Hsnap. induction contacts as [|c cs IH]; intros t Hsnap; cbn [foldl].
  { split; [by left|]. intros [?|[?%not_elem_of_nil _]]; done. }
  rewrite IH; [|intros q Hq; apply connect_contact_some; auto]. rewrite connect_contact_some by done. rewrite elem_of_cons. tauto.
Qed.

(** Connecting to the contacts dials exactly the connected contacts of the
    active identity that are not peers yet, keeps every peer there is, and
    changes nothing else. *)
Theorem contacts_connected (env : DialEnv) (nd : Node) (n : nat) (net : NetworkSubsystem) (kp : bytes)
    (Hk : active_keypair (identity (services nd)) = Some kp) (Hn : network (services nd) = Some n) (Hnet : nets nd !! n = Some net) :
  ∃ net', nets (auto_connect_to_contacts env nd) !! n = Some net' ∧
    (∀ p, is_Some (Iroh.peers (transport net') !! p) ↔ is_Some (Iroh.peers (transport net) !! p) ∨
       (length p = 32 ∧ (∃ r, connections (metadata (services nd)) !! (public_key kp, p) = Some r ∧ c_status r = "connected") ∧ dialled env p)) ∧
    local_id net' = local_id net ∧ services (auto_connect_to_contacts env nd) = services nd ∧
    ∀ m, m ≠ n → nets (auto_connect_to_contacts env nd) !! m = nets nd !! m.
Proof.
  unfold auto_connect_to_contacts. rewrite Hk, Hn. cbn [with_nets nets services]. rewrite list_lookup_alter_eq, Hnet. cbn [fmap option_fmap option_map].
  eexists. split; [done|]. split; [|split; [done|split; [done|]]].
  - intros p. cbn [transport with_transport]. rewrite connect_contacts_some. unfold contact_pubkeys.
    rewrite list_elem_of_filter, list_elem_of_fmap.
    assert (Hrow : (∃ y, p = y.1.2 ∧ y ∈ select_where (λ k r, bool_decide (k.1 = public_key kp) && bool_decide (c_status r = "connected"))
      (connections (metadata (services nd)))) ↔ ∃ r, connections (metadata (services nd)) !! (public_key kp, p) = Some r ∧ c_status r = "connected").
    { split.
      - intros ([[l q] r] & -> & Hin). apply elem_of_select_where in Hin as [Hl Hp]. apply andb_true_iff in Hp as [Hp Hs].
        apply bool_decide_eq_true in Hp, Hs. cbn in *. subst l. by exists r.
      - intros (r & Hl & Hs). exists ((public_key kp, p), r). split; [done|]. apply elem_of_select_where. split; [done|].
        cbn. rewrite Hs. by rewrite !bool_decide_true. }
    rewrite Hrow. tauto.
  - intros m Hm. by apply list_lookup_alter_ne.
Qed.

(** *** Corners *)

(** Two requests that start the network at the same time start two, under one
    id, each with its loops; the later one counts. *)
Lemma two_networks nd kp r1 r2 : start_check nd = Ok (Some kp) → shutdown_tx (services nd) = true → pending nd = [] →
  let n := length (nets nd) in
  ∃ nd' a b, rtc step nd nd' ∧ network (services nd') = Some (S n) ∧ nets nd' !! n = Some a ∧ nets nd' !! S n = Some b ∧
    local_id a = public_key kp ∧ local_id b = public_key kp ∧ r1 = relay_state a ∧ r2 = relay_state b ∧
    ∀ m, m = n ∨ m = S n → ∃ t, t ∈ tasks nd' ∧ job t = GossipIngestLoop m ∧ alive t = true ∧ seen t = version nd'.
Proof.
  intros Hc Htx Hp n. set (nd1 := set_pending kp (set_pending kp nd)).
  assert (Hp1 : pending nd1 = [kp; kp]) by (cbn; by rewrite Hp).
  set (nd2 := (finish_start kp (Ok r1) (with_pending [kp] nd1)).1). set (nd3 := (finish_start kp (Ok r2) (with_pending [] nd2)).1).
  assert (E2 : nets nd2 = nets nd ++ [foldl (λ n t, subscribe t n) (new_network kp r1) [PublicFeed; DirectMessages; Moderation; DhtLookup]] ∧
    shutdown_tx (services nd2) = true ∧ pending nd2 = [kp] ∧ version nd2 = version nd ∧ MkTask (GossipIngestLoop n) (version nd) true ∈ tasks nd2).
  { unfold nd2, finish_start. cbn -[n]. rewrite Htx. cbn -[n]. split_and!; try done. rewrite <- !app_assoc. apply elem_of_app. right. left. }
  destruct E2 as (En2 & Et2 & Ep2 & Ev2 & Ein2).
  assert (E3 : nets nd3 = nets nd2 ++ [foldl (λ n t, subscribe t n) (new_network kp r2) [PublicFeed; DirectMessages; Moderation; DhtLookup]] ∧
    network (services nd3) = Some (S n) ∧ version nd3 = version nd ∧
    (∃ ts, tasks nd3 = tasks nd2 ++ ts) ∧ MkTask (GossipIngestLoop (S n)) (version nd) true ∈ tasks nd3).
  { assert (El : length (nets nd2) = S n) by (rewrite En2, length_app; cbn; lia).
    unfold nd3, finish_start. cbn -[nd2]. rewrite Et2. cbn -[nd2]. rewrite El, Ev2. split_and!; try done.
    - rewrite <- !app_assoc. by eexists.
    - rewrite <- !app_assoc. apply elem_of_app. right. left. }
  destruct E3 as (En3 & Ew3 & Ev3 & (ts & Ets) & Ein3).
  exists nd3. do 2 eexists. split_and!.
  - eapply rtc_l; [by apply (step_begin nd kp)|]. eapply rtc_l; [by apply (step_begin (set_pending kp nd) kp)|].
    eapply rtc_l; [apply (step_finish nd1 0 kp (Ok r1)); by rewrite Hp1|]. rewrite Hp1. cbn [delete list_delete].
    apply rtc_once. pose proof (step_finish nd2 0 kp (Ok r2)) as Hst. rewrite Ep2 in Hst. by apply Hst.
  - done.
  - rewrite En3, En2, <- app_assoc. by apply list_lookup_middle.
  - rewrite En3. apply list_lookup_middle. rewrite En2, length_app. cbn. lia.
  - done.
  - done.
  - done.
  - done.
  - rewrite Ev3. intros m [->| ->].
    + exists (MkTask (GossipIngestLoop n) (version nd) true). split; [rewrite Ets; apply elem_of_app; by left|done].
    + by exists (MkTask (GossipIngestLoop (S n)) (version nd) true).
Qed.

(** The first start finds the identity locked: it starts no network. *)
Lemma first_start_offline c f s d nd sys e env : new_node c (Ok tt) (Ok tt) (Ok tt) f s d = Ok nd →
  nets (start sys e env nd).1 = [] ∧ network (services (start sys e env nd).1) = None.
Proof.
  unfold new_node. destruct (Config.validate_config c) as [[]|]; [|done]. cbn. intros [= <-].
  unfold start. cbn [running config]. by destruct (Config.run_startup_sequence sys c) as [[]|].
Qed.

(** *** The command line client (ephemera-cli main.rs) *)

Definition cli_config (listen connect : option str) (bootstrap : list str) (c : Config.NodeConfig) : Config.NodeConfig :=
  let nodes := Config.bootstrap_nodes c ++ match connect with Some a => [a] | None => [] end in
  Config.MkConfig (Config.data_dir c) (Config.profile c) (Config.bandwidth_limit_bps c)
    (foldl (λ l a, if bool_decide (a ∈ l) then l else l ++ [a]) nodes bootstrap)
    (match listen with Some a => Some a | None => Config.listen_addr c end)
    (Config.max_connections c) (Config.max_message_size c) (Config.connection_timeout_secs c) (Config.transport c) (Config.storage c)
    (Config.gossip c) (Config.dht c).

(** [main] builds a second container over the same files for its router. *)
Definition cli_services (nd : Node) : ServiceContainer :=
  open_services (IdentityNode.keystore_file (identity (services nd))) (IdentityNode.session_file (identity (services nd))) (metadata (services nd)).

(** It is locked, and has no sender to hand to a network. *)
Lemma cli_locked nd : active_keypair (identity (cli_services nd)) = None ∧ shutdown_tx (cli_services nd) = false.
Proof. done. Qed.

Lemma cli_same_checks listen connect bootstrap c : Config.validate_config (cli_config listen connect bootstrap c) = Config.validate_config c.
Proof. done. Qed.
End lifecycle.

(* ------------------------------------------------------------------ *)
(** ** Witnesses *)

Section witnesses.
Import Toy HexToy KeyToy.
#[local] Existing Instance toy.

Definition lw_system : Config.System := Config.MkSystem (Ok tt) (Ok tt) (Ok tt) (Ok tt) (Ok tt) (Ok tt) (Ok tt) (λ _, Ok tt).
Definition lw_config : Config.NodeConfig := Config.default_for (lit "/data").
Definition lw_bob : bytes := replicate 32 2%N.
Definition lw_env : DialEnv := MkDial (λ _, Answer 0 (Ok tt) (Ok tt)) false (λ _, false).

(** Created, started, given an identity, and online. *)
Definition lw_new : Node := MkNode lw_config (open_services None None
  (with_connections {[ (public_key kw_master, lw_bob) := MkConn "connected" 1 1 None None ]} empty_db)) 0 false None true [] [] [].
Definition lw_started : Node := (start lw_system (Ok Connected) lw_env lw_new).1.
Definition lw_identity : IdentityNode.op := IdentityNode.OCreate kw_master (replicate 32 9%N) kw_salt kw_nonce (lit "correct horse").
Definition lw_unlocked : Node :=
  with_services (with_identity (IdentityNode.step (identity (services lw_started)) lw_identity) (services lw_started)) lw_started.
Definition lw_kp : bytes := default [] (active_keypair (identity (services lw_unlocked))).
Definition lw_starting : Node := set_pending lw_kp lw_unlocked.
Definition lw_online : Node := (finish_start lw_kp (Ok Connected) (with_pending (delete 0 (pending lw_starting)) lw_starting)).1.

Lemma lw_check : start_check lw_unlocked = Ok (Some lw_kp).
Proof. vm_compute. reflexivity. Qed.

Lemma lw_reach : reach lw_online.
Proof.
  exists lw_config, None, None. eexists _, lw_new. split; [reflexivity|].
  eapply rtc_l; [apply (step_start lw_new lw_system (Ok Connected) lw_env)|].
  eapply rtc_l; [apply (step_identity lw_started lw_identity)|].
  eapply rtc_l; [apply (step_begin lw_unlocked lw_kp lw_check)|]. apply rtc_once.
  exact (step_finish lw_starting 0 lw_kp (Ok Connected) eq_refl).
Qed.


(** The node locks its identity, and stays online under it. *)
Lemma network_never_replaced_witness :
  let nd' := with_services (with_identity (IdentityNode.step (identity (services lw_online)) (IdentityNode.OLock true)) (services lw_online)) lw_online in
  active_keypair (identity (services nd')) = None ∧ network (services nd') = Some 0 ∧ start_network (Ok Connected) lw_env nd' = (nd', Ok tt).
Proof.
  intros nd'.
  destruct (network_never_replaced lw_online nd' 0 (foldl (λ n t, subscribe t n) (new_network lw_kp Connected) [PublicFeed; DirectMessages; Moderation; DhtLookup])
    eq_refl eq_refl eq_refl (rtc_once _ _ (step_identity lw_online (IdentityNode.OLock true)))) as (Hn & _ & Hs & _).
  split; [vm_compute; reflexivity|]. split; [exact Hn|apply Hs].
Defined.


(** A node online as the contact's friend dials the contact. *)
Definition lw_friend : Node := MkNode lw_config (MkServices (IdentityNode.MkService None None (Some kw_master) 0 (Some kw_master) 1 [])
  (metadata (services lw_new)) (Some 0) true []) 0 true None true [] [new_network kw_master Connected] [].

Lemma contacts_connected_witness : ∃ net', nets (auto_connect_to_contacts lw_env lw_friend) !! 0 = Some net' ∧
  is_Some (Iroh.peers (transport net') !! lw_bob).
Proof.
  destruct (contacts_connected lw_env lw_friend 0 (new_network kw_master Connected) kw_master eq_refl eq_refl eq_refl) as (net' & Hn & Hp & _).
  exists net'. split; [exact Hn|]. apply Hp. right. split; [reflexivity|]. split.
  - exists (MkConn "connected" 1 1 None None). split; [apply lookup_singleton_eq|reflexivity].
  - exists 0, tt, tt. reflexivity.
Defined.
End witnesses.
