(* ===== verification/Api.v ===== *)
(** * The handlers of the API (ephemera-node api/mod.rs, content.rs,
    social.rs, dht.rs, network.rs, meta.rs)

    What a handler does between the request and the service: it takes its
    parameters apart, calls one method of a service (a [Call]), and turns the
    answer into a result or an error.  The services themselves are behind the
    class [Backend]; a poisoned lock is left out. *)
From S2P Require Import Prelude Types Unicode Rpc Config.
From stdpp Require Import pretty.

(* ------------------------------------------------------------------ *)
(** ** What the handlers ask of the services *)

Record MediaFile := MkMedia { m_data : bytes; m_filename : str }.

(** One constructor for every method the handlers call, with its arguments. *)
Inductive Call :=
| IdentityCreate (passphrase : str)
| IdentityUnlock (passphrase : str) (remember : bool)
| IdentityLock (forget : bool)
| IdentityAutoUnlock
| IdentityGetActive
| IdentityListPseudonyms
| IdentitySwitchPseudonym (index : N)
| IdentityBackupMnemonic (passphrase : str)
| IdentityExportMnemonic
| IdentityExportQr
| IdentityInviteQr
| IdentityExportBackup (passphrase : str)
| IdentityImportMnemonic (words : list str) (passphrase : str)
| IdentityImportBackup (data backup_passphrase new_passphrase : str)
| IdentityImportQr (qr_hex passphrase : str)
| IdentityRegisterDevice (name platform : str)
| IdentityListDevices
| IdentityRevokeDevice (device_id : str)
| StartNetwork
| HandleRegisterAndPublish (name : str)
| HandleLookup (name : str)
| HandleRenew (name : str)
| HandleRelease (name : str)
| HandleMine
| HandleCheckStatus
| DhtStoreProfile (pubkey_hex : str) (profile : Value)
| DhtPut (key value : bytes) (ttl : N)
| DhtRecordCount
| PostCreate (body : str) (media : list MediaFile) (ttl : option N) (parent : option str)
| PostGet (hash : str)
| PostDelete (hash : str)
| PostListByAuthor (author : str) (limit : N)
| PostReplies (parent : str) (limit : N)
| FeedConnections (limit : N) (cursor : option Z)
| FeedDiscover (limit : N)
| FeedSearchTags (tag : str) (limit : N)
| MediaMetadata (media_id : str)
| MediaChunk (chunk_hash : str)
| MediaThumbnail (media_id : str)
| MediaListForPost (hash : str)
| SocialConnect (target message : str)
| SocialAccept (from : str)
| SocialReject (from : str)
| SocialDisconnect (target : str)
| SocialCancel (target : str)
| SocialResend (target message : str)
| SocialListConnections (status : str)
| SocialFollow (target : str)
| SocialUnfollow (target : str)
| SocialReact (hash emoji action : str)
| SocialReactions (hash : str)
| NotificationInsert (kind : string) (from : option bytes) (from_name : option str) (content : option string)
| NotificationList (limit : N)
| NotificationCount
| NotificationMarkRead (id : str)
| NotificationMarkAllRead
| MessageSend (recipient body : str) (ttl : option N)
| MessageListConversations
| MessageThread (conversation_id : str) (limit : N)
| MessageMarkRead (conversation_id : str)
| ProfileGet (pubkey : str)
| ProfileUpdate (display_name bio : option str)
| ProfileMine
| ProfileUpdateAvatar (data : bytes) (filename : str)
| ModerationReport (hash reason : str)
| ModerationBlock (target : str)
| ModerationUnblock (target : str)
| ModerationMute (target : str) (duration_hours : option N)
| ModerationUnmute (target : str)
| TopicCreate (name : str) (description : option str)
| TopicJoin (topic_id : str)
| TopicLeave (topic_id : str)
| TopicList
| TopicFeed (topic_id : str) (limit : N)
| TopicPost (topic_id hash : str)
| GroupCreate (name : str) (description : option str) (visibility : str)
| GroupRegisterHandle (group_id handle : str)
| GroupJoin (group_id : str)
| GroupInvite (group_id target : str)
| GroupLeave (group_id : str)
| GroupSetRole (group_id target role : str)
| GroupKick (group_id target : str)
| GroupBan (group_id target : str) (reason : option str)
| GroupPost (group_id hash : str)
| GroupFeed (group_id : str) (limit : N)
| GroupListMine
| GroupSearch (query : str)
| GroupInfo (group_id : str)
| GroupDelete (group_id : str)
| GroupTransfer (group_id target : str)
| GroupDeletePost (group_id hash : str)
| ChatCreatePrivate (name : option str) (members : list str)
| ChatCreateLinked (group_id : str)
| ChatAddMember (chat_id member : str)
| ChatLeave (chat_id : str)
| ChatSend (chat_id body : str)
| ChatMessages (chat_id : str) (limit : N)
| ChatListMine
| MentionList (limit : N)
| NetworkConnect (node_id : bytes) (addresses : list str)
| NetworkDisconnect (node_id : bytes).

(** The methods that may find nothing; a record is queried under the hash of
    its kind and its name. *)
Inductive Query :=
| QueryNetwork (key : bytes)
| QueryRecord (kind : string) (name : str)
| LookupHandle (name : str)
| LookupPrekey (pubkey : str)
| LookupProfile (pubkey : str).

(** What the handlers see of the network. *)
Record NetView := MkView { v_node_id : str; v_peers : list bytes; v_relay_connected : bool }.

(** The services over a state: the calls answer with a value or a text; the
    rest is read.  [handle_of] and [search_handles] leave out expired handles;
    [handle_task] is the panic of the blocking task, if it has one. *)
Class Backend (S : Type) := {
  call : Call → S → S * result str Value;
  query : Query → S → S * result str (option Value);
  emit : Event → S → S;
  net_view : S → option NetView;
  handle_of : bytes → S → option str;
  search_handles : str → S → list (str * bytes);
  signing_pubkey : S → option bytes;
  profile_row : bytes → S → option (option str * option str * option bytes);
  has_session : S → bool;
  has_keystore : S → bool;
  uptime_secs : S → N;
  dht_limits : S → N * N * N;
  handle_task : S → option str;
  lowercase : str → str;
  hex_error : str → str
}.

Section api.
Context `{Hex} {S : Type} `{Backend S}.

(* ------------------------------------------------------------------ *)
(** ** Parameters and errors *)

Definition invalid_params (message : str) : JsonRpcError := MkError INVALID_PARAMS message None.

Definition extract_str (params : Value) (key : string) : result JsonRpcError str :=
  ok_or (get_str key params) (invalid_params (lit "missing or invalid parameter: " ++ lit key)).
Definition extract_u64 (params : Value) (key : string) : result JsonRpcError N :=
  ok_or (get_u64 key params) (invalid_params (lit "missing or invalid parameter: " ++ lit key)).
Definition extract_opt_u64 (params : Value) (key : string) : option N := get_u64 key params.
Definition internal_error (msg : str) : JsonRpcError := MkError INTERNAL_ERROR msg None.

(** [as u32]. *)
Definition as_u32 (n : N) : N := n mod 2 ^ 32.
Definition limit_of (params : Value) : N := default 50%N (get_u64 "limit" params).
Definition limit_u32 (params : Value) : N := as_u32 (limit_of params).

Notation HM := (SE S JsonRpcError Value).
Definition svc (c : Call) : HM := se_map_err internal_error (call c).
Definition ask (q : Query) : SE S JsonRpcError (option Value) := se_map_err internal_error (query q).
(** A call whose failure is logged and forgotten. *)
Definition attempt (c : Call) : SE S JsonRpcError unit := λ s, ((call c s).1, Ok tt).
Definition str_arg (params : Value) (key : string) : SE S JsonRpcError str := se_lift (extract_str params key).
Definition publish (e : Event) : SE S JsonRpcError unit := se_modify (emit e).
Definition answer (v : Value) : HM := se_ret v.
Definition opt (o : option str) : Value := match o with Some x => VString x | None => VNull end.

(** A text outside ASCII. *)
Definition text (s : string) : str := default [] (from_utf8 (bstr s)).

(** Thirty-two bytes in hexadecimal, or nothing. *)
Definition key_of (hex : str) : option bytes :=
  match hex_decode hex with Some b => if length b =? 32 then Some b else None | None => None end.

(* ------------------------------------------------------------------ *)
(** ** [identity.*] *)

Definition identity_create (params : Value) : HM :=
  let! passphrase := str_arg params "passphrase" in
  let! result := svc (IdentityCreate passphrase) in
  let! _ := attempt StartNetwork in
  answer result.

(** The profile goes to the DHT after an unlock, if there is something in it. *)
Definition publish_own_profile : SE S JsonRpcError unit := λ s,
  match signing_pubkey s with
  | None => (s, Ok tt)
  | Some pubkey =>
      match profile_row pubkey s with
      | Some (name, bio, _) =>
          if bool_decide (is_Some name) || bool_decide (is_Some bio) then
            let pubkey_hex := hex_encode pubkey in
            attempt (DhtStoreProfile pubkey_hex (object [("pubkey", VString pubkey_hex); ("display_name", opt name); ("bio", opt bio)])) s
          else (s, Ok tt)
      | None => (s, Ok tt)
      end
  end.

Definition identity_unlock (params : Value) : HM :=
  let! passphrase := str_arg params "passphrase" in
  let remember := default false (get_bool "remember" params) in
  let! result := svc (IdentityUnlock passphrase remember) in
  let! _ := attempt StartNetwork in
  let! _ := publish_own_profile in
  answer result.

Definition identity_lock (params : Value) : HM := svc (IdentityLock (default false (get_bool "forget" params))).

Definition identity_auto_unlock (_ : Value) : HM :=
  let! result := svc IdentityAutoUnlock in
  let! _ := (if bool_decide (get_bool "auto_unlocked" result = Some true) then attempt StartNetwork else se_ret tt) in
  answer result.

Definition identity_has_session (_ : Value) : HM := λ s, (s, Ok (object [("has_session", VBool (has_session s))])).
Definition identity_has_keystore (_ : Value) : HM := λ s, (s, Ok (object [("exists", VBool (has_keystore s))])).

(** The profile and the handle are added to what the identity says. *)
Definition enrich_profile (result : Value) (s : S) : Value :=
  match get_str "pubkey" result ≫= hex_decode with
  | None => result
  | Some pubkey =>
      match profile_row pubkey s with
      | Some (display_name, bio, avatar_cid) =>
          insert_field "avatar_url" (opt ((λ cid, lit "/media/" ++ hex_encode cid) <$> avatar_cid))
            (insert_field "bio" (opt bio) (insert_field "display_name" (opt display_name) result))
      | None => insert_field "avatar_url" VNull (insert_field "bio" VNull (insert_field "display_name" VNull result))
      end
  end.

Definition identity_get_active (_ : Value) : HM :=
  let! result := svc IdentityGetActive in
  let! s := se_get in
  let result := enrich_profile result s in
  λ s, match call HandleMine s with
       | (s', Ok VNull) => (s', Ok (insert_field "handle" VNull result))
       | (s', Ok handle_result) => (s', Ok (insert_field "handle" (default VNull (get "handle" handle_result)) result))
       | (s', Err _) => (s', Ok result)
       end.

Definition identity_list_pseudonyms (_ : Value) : HM := svc IdentityListPseudonyms.
Definition identity_switch_pseudonym (params : Value) : HM :=
  let! index := se_lift (extract_u64 params "index") in svc (IdentitySwitchPseudonym index).
Definition identity_backup_mnemonic (params : Value) : HM :=
  let! passphrase := str_arg params "passphrase" in svc (IdentityBackupMnemonic passphrase).
Definition identity_export_mnemonic (_ : Value) : HM := svc IdentityExportMnemonic.
Definition identity_export_qr (_ : Value) : HM := svc IdentityExportQr.
Definition identity_invite_qr (_ : Value) : HM := svc IdentityInviteQr.
Definition identity_export_backup (params : Value) : HM :=
  let! passphrase := str_arg params "passphrase" in svc (IdentityExportBackup passphrase).

Fixpoint words_of (l : list Value) : result JsonRpcError (list str) :=
  match l with
  | [] => Ok []
  | v :: l =>
      let? w := ok_or (as_str v) (invalid_params (lit "each word must be a string")) in
      let? ws := words_of l in Ok (w :: ws)
  end.

Definition identity_import_mnemonic (params : Value) : HM :=
  let! words_val := se_lift (ok_or (get "words" params) (invalid_params (lit "missing parameter: words"))) in
  let! arr := se_lift (ok_or (as_array words_val) (invalid_params (lit "words must be an array of strings"))) in
  let! words := se_lift (words_of arr) in
  let! passphrase := str_arg params "passphrase" in
  let! result := svc (IdentityImportMnemonic words passphrase) in
  let! _ := attempt StartNetwork in
  answer result.

Definition identity_import_backup (params : Value) : HM :=
  let! data := str_arg params "data" in
  let! backup_passphrase := str_arg params "backup_passphrase" in
  let! new_passphrase := str_arg params "new_passphrase" in
  let! result := svc (IdentityImportBackup data backup_passphrase new_passphrase) in
  let! _ := attempt StartNetwork in
  answer result.

Definition identity_import_qr (params : Value) : HM :=
  let! qr_hex := str_arg params "qr_hex" in
  let! passphrase := str_arg params "passphrase" in
  let! result := svc (IdentityImportQr qr_hex passphrase) in
  let! _ := attempt StartNetwork in
  answer result.

Definition identity_register_device (params : Value) : HM :=
  let! name := str_arg params "name" in
  let! platform := str_arg params "platform" in
  svc (IdentityRegisterDevice name platform).
Definition identity_list_devices (_ : Value) : HM := svc IdentityListDevices.
Definition identity_revoke_device (params : Value) : HM :=
  let! device_id := str_arg params "device_id" in svc (IdentityRevokeDevice device_id).

(** *** Handles *)

(** The mining runs on a thread of its own, which may panic. *)
Definition identity_register_handle (params : Value) : HM :=
  let! name := str_arg params "name" in
  λ s, match handle_task s with
       | Some e => (s, Err (MkError POW_FAILED (lit "handle registration task failed: " ++ e) None))
       | None => svc (HandleRegisterAndPublish name) s
       end.
Definition identity_lookup_handle (params : Value) : HM :=
  let! name := str_arg params "name" in svc (HandleLookup name).
Definition identity_renew_handle (params : Value) : HM :=
  let! name := str_arg params "name" in svc (HandleRenew name).
Definition identity_release_handle (params : Value) : HM :=
  let! name := str_arg params "name" in svc (HandleRelease name).
Definition identity_my_handle (_ : Value) : HM := svc HandleMine.
Definition identity_check_handle_status (_ : Value) : HM := svc HandleCheckStatus.
Definition identity_check_handle_available (params : Value) : HM :=
  let! name := str_arg params "name" in
  let! result := svc (HandleLookup name) in
  answer (match result with
          | VNull => object [("available", VBool true); ("name", VString name)]
          | _ => object [("available", VBool false); ("name", VString name); ("reason", vstr "already taken")]
          end).

(* ------------------------------------------------------------------ *)
(** ** [posts.*], [feed.*], [media.*], [discover.*] *)

Definition media_file (item : Value) : option MediaFile :=
  data_hex ← get_str "data_hex" item; filename ← get_str "filename" item; data ← hex_decode data_hex; Some (MkMedia data filename).
Definition extract_media_files (params : Value) : list MediaFile :=
  match get_array "media" params with Some l => omap media_file l | None => [] end.

(** An array in a result, item by item. *)
Definition map_array (k : string) (f : Value → Value) (v : Value) : Value :=
  match get_array k v with Some l => insert_field k (VArray (f <$> l)) v | None => v end.
(** An item gets the handle of the identity under [owner]. *)
Definition add_handle (owner out : string) (s : S) (item : Value) : Value :=
  match get_str owner item ≫= key_of with
  | Some k => match handle_of k s with Some name => insert_field out (VString name) item | None => item end
  | None => item
  end.
Definition enrich_posts_with_handles (result : Value) (s : S) : Value := map_array "posts" (add_handle "author" "author_handle" s) result.

Definition announce_post (result : Value) : SE S JsonRpcError unit :=
  match get_str "content_hash" result ≫= key_of with Some k => publish (PostCreated (from_digest k)) | None => se_ret tt end.

Definition posts_create (params : Value) : HM :=
  let! body := str_arg params "body" in
  let ttl := get_u64 "ttl_seconds" params in
  let parent := get_str "parent" params in
  let audience := default (lit "public") (get_str "audience" params) in
  let media_files := extract_media_files params in
  let! result := svc (PostCreate body media_files ttl parent) in
  let! _ := announce_post result in
  let! _ := match Rpc.strip_prefix (lit "topic:") audience, get_str "content_hash" result with
            | Some topic_name, Some hash_hex => attempt (TopicPost topic_name hash_hex)
            | _, _ => se_ret tt
            end in
  answer (insert_field "audience" (VString audience) result).

Definition posts_get (params : Value) : HM :=
  let! hash := str_arg params "content_hash" in
  se_map_err (λ _, MkError CONTENT_NOT_FOUND (lit "post not found") None) (call (PostGet hash)).

Definition posts_delete (params : Value) : HM :=
  let! hash := str_arg params "content_hash" in svc (PostDelete hash).
Definition posts_list_by_author (params : Value) : HM :=
  let! author := str_arg params "author" in svc (PostListByAuthor author (limit_of params)).
Definition posts_replies (params : Value) : HM :=
  let! parent := str_arg params "parent_hash" in svc (PostReplies parent (limit_of params)).

Definition posts_reply (params : Value) : HM :=
  let! body := str_arg params "body" in
  let! parent := str_arg params "parent" in
  let ttl := get_u64 "ttl_seconds" params in
  let media_files := extract_media_files params in
  let! result := svc (PostCreate body media_files ttl (Some parent)) in
  let! _ := announce_post result in
  answer result.

Definition feed_connections (params : Value) : HM :=
  let! result := svc (FeedConnections (limit_of params) (get_i64 "after" params)) in
  let! s := se_get in answer (enrich_posts_with_handles result s).
Definition feed_discover (params : Value) : HM :=
  let! result := svc (FeedDiscover (limit_of params)) in
  let! s := se_get in answer (enrich_posts_with_handles result s).
Definition feed_topic (params : Value) : HM :=
  let! room_id := str_arg params "room_id" in svc (TopicFeed room_id (limit_u32 params)).
Definition feed_search_tags (params : Value) : HM :=
  let! tag := str_arg params "tag" in svc (FeedSearchTags tag (limit_of params)).
Definition feed_profile (params : Value) : HM :=
  let! pubkey := str_arg params "pubkey" in svc (PostListByAuthor pubkey (limit_of params)).
Definition feed_own (params : Value) : HM :=
  let! active := svc IdentityGetActive in
  let! pubkey := se_lift (ok_or (get_str "pubkey" active) (internal_error (lit "identity not available"))) in
  svc (PostListByAuthor pubkey (limit_of params)).

Definition media_get_metadata (params : Value) : HM :=
  let! media_id := str_arg params "media_id" in svc (MediaMetadata media_id).
Definition media_get_chunk (params : Value) : HM :=
  let! chunk_hash := str_arg params "chunk_hash" in svc (MediaChunk chunk_hash).
Definition media_get_thumbnail (params : Value) : HM :=
  let! media_id := str_arg params "media_id" in svc (MediaThumbnail media_id).
Definition media_list_for_post (params : Value) : HM :=
  let! post_hash := str_arg params "content_hash" in svc (MediaListForPost post_hash).

Definition handle_entry (h : str * bytes) : Value := object [("handle", VString (lit "@" ++ h.1)); ("owner", VString (hex_encode h.2))].
Definition topic_matches (query_lower : str) (t : Value) : bool :=
  match get_str "name" t with Some n => contains query_lower (lowercase n) | None => false end.

Definition discover_search (params : Value) : HM :=
  let! query := str_arg params "query" in
  let query_lower := lowercase query in
  let! s := se_get in
  let handles := handle_entry <$> take 20 (search_handles query_lower s) in
  λ s, let '(s', all) := call TopicList s in
       let all_topics := match all with Ok v => v | Err _ => object [("topics", VArray [])] end in
       let topics := take 20 (filter (λ t, topic_matches query_lower t = true) (default [] (get_array "topics" all_topics))) in
       (s', Ok (object [("handles", VArray handles); ("topics", VArray topics)])).

(* ------------------------------------------------------------------ *)
(** ** [social.*], [messages.*], [profiles.*], [moderation.*] *)

Definition message_of (params : Value) : str := default [] (get_str "message" params).

Definition social_connect (params : Value) : HM :=
  let! target := str_arg params "target" in svc (SocialConnect target (message_of params)).

Definition social_accept (params : Value) : HM :=
  let! from := str_arg params "from" in
  let! result := svc (SocialAccept from) in
  let display_name := get_str "display_name" result in
  let! _ := attempt (NotificationInsert "connection_accepted" (hex_decode from) display_name (Some "You accepted a connection request")) in
  let! _ := publish (ConnectionAccepted from) in
  answer result.

Definition social_reject (params : Value) : HM :=
  let! from := str_arg params "from" in svc (SocialReject from).
Definition social_disconnect (params : Value) : HM :=
  let! target := str_arg params "target" in svc (SocialDisconnect target).
Definition social_cancel_request (params : Value) : HM :=
  let! target := str_arg params "target" in svc (SocialCancel target).
Definition social_resend_request (params : Value) : HM :=
  let! target := str_arg params "target" in svc (SocialResend target (message_of params)).

Definition social_list_connections (params : Value) : HM :=
  let status := default (lit "all") (get_str "status" params) in
  let! result := svc (SocialListConnections status) in
  let! s := se_get in answer (map_array "connections" (add_handle "pseudonym_id" "handle" s) result).

Definition social_follow (params : Value) : HM :=
  let! target := str_arg params "target" in svc (SocialFollow target).
Definition social_unfollow (params : Value) : HM :=
  let! target := str_arg params "target" in svc (SocialUnfollow target).
Definition social_react (params : Value) : HM :=
  let! hash := str_arg params "content_hash" in
  let! emoji := str_arg params "emoji" in
  svc (SocialReact hash emoji (default (lit "add") (get_str "action" params))).
Definition social_get_reactions (params : Value) : HM :=
  let! hash := str_arg params "content_hash" in svc (SocialReactions hash).

Definition messages_send (params : Value) : HM :=
  let! recipient := str_arg params "recipient" in
  let! body := str_arg params "body" in
  let ttl := get_u64 "ttl_seconds" params in
  let! result := svc (MessageSend recipient body ttl) in
  let! _ := match get_str "message_hash" result, key_of recipient with
            | Some msg_hash, Some k => publish (MessageSent k msg_hash)
            | _, _ => se_ret tt
            end in
  answer result.

Definition messages_list_conversations (_ : Value) : HM :=
  let! result := svc MessageListConversations in
  let! s := se_get in answer (map_array "conversations" (add_handle "peer" "peer_handle" s) result).
Definition messages_get_thread (params : Value) : HM :=
  let! conv_id := str_arg params "conversation_id" in svc (MessageThread conv_id (limit_of params)).
Definition messages_mark_read (params : Value) : HM :=
  let! conv_id := str_arg params "conversation_id" in svc (MessageMarkRead conv_id).

Definition profiles_get (params : Value) : HM :=
  let! pubkey := str_arg params "pubkey" in svc (ProfileGet pubkey).
Definition profiles_update (params : Value) : HM := svc (ProfileUpdate (get_str "display_name" params) (get_str "bio" params)).
Definition profiles_get_mine (_ : Value) : HM := svc ProfileMine.
Definition profiles_update_avatar (params : Value) : HM :=
  let! data_hex := str_arg params "data_hex" in
  let! filename := str_arg params "filename" in
  let! data := se_lift (ok_or (hex_decode data_hex) (invalid_params (lit "invalid hex data: " ++ hex_error data_hex))) in
  svc (ProfileUpdateAvatar data filename).

Definition moderation_report (params : Value) : HM :=
  let! hash := str_arg params "content_hash" in
  let! reason := str_arg params "reason" in
  svc (ModerationReport hash reason).
Definition moderation_block (params : Value) : HM :=
  let! target := str_arg params "target" in svc (ModerationBlock target).
Definition moderation_unblock (params : Value) : HM :=
  let! target := str_arg params "target" in svc (ModerationUnblock target).
Definition moderation_mute (params : Value) : HM :=
  let! target := str_arg params "target" in svc (ModerationMute target (get_u64 "duration_hours" params)).
Definition moderation_unmute (params : Value) : HM :=
  let! target := str_arg params "target" in svc (ModerationUnmute target).

(* ------------------------------------------------------------------ *)
(** ** [topics.*], [groups.*], [group_chats.*], [mentions.*], [notifications.*] *)

Definition topics_create (params : Value) : HM :=
  let! name := str_arg params "name" in svc (TopicCreate name (get_str "description" params)).
Definition topics_join (params : Value) : HM :=
  let! tid := str_arg params "topic_id" in svc (TopicJoin tid).
Definition topics_leave (params : Value) : HM :=
  let! tid := str_arg params "topic_id" in svc (TopicLeave tid).
Definition topics_list (_ : Value) : HM := svc TopicList.
Definition topics_feed (params : Value) : HM :=
  let! tid := str_arg params "topic_id" in svc (TopicFeed tid (limit_u32 params)).
Definition topics_post (params : Value) : HM :=
  let! tid := str_arg params "topic_id" in
  let! ch := str_arg params "content_hash" in
  svc (TopicPost tid ch).

Definition groups_create (params : Value) : HM :=
  let! name := str_arg params "name" in
  svc (GroupCreate name (get_str "description" params) (default (lit "public") (get_str "visibility" params))).
Definition groups_register_handle (params : Value) : HM :=
  let! gid := str_arg params "group_id" in
  let! handle := str_arg params "handle" in
  svc (GroupRegisterHandle gid handle).
Definition groups_join (params : Value) : HM :=
  let! gid := str_arg params "group_id" in svc (GroupJoin gid).
Definition groups_invite (params : Value) : HM :=
  let! gid := str_arg params "group_id" in
  let! target := str_arg params "target" in
  svc (GroupInvite gid target).
Definition groups_leave (params : Value) : HM :=
  let! gid := str_arg params "group_id" in svc (GroupLeave gid).
Definition groups_set_role (params : Value) : HM :=
  let! gid := str_arg params "group_id" in
  let! target := str_arg params "target" in
  let! role := str_arg params "role" in
  svc (GroupSetRole gid target role).
Definition groups_kick (params : Value) : HM :=
  let! gid := str_arg params "group_id" in
  let! target := str_arg params "target" in
  svc (GroupKick gid target).
Definition groups_ban (params : Value) : HM :=
  let! gid := str_arg params "group_id" in
  let! target := str_arg params "target" in
  svc (GroupBan gid target (get_str "reason" params)).
Definition groups_post (params : Value) : HM :=
  let! gid := str_arg params "group_id" in
  let! ch := str_arg params "content_hash" in
  svc (GroupPost gid ch).
Definition groups_feed (params : Value) : HM :=
  let! gid := str_arg params "group_id" in svc (GroupFeed gid (limit_u32 params)).
Definition groups_list (_ : Value) : HM := svc GroupListMine.
Definition groups_search (params : Value) : HM :=
  let! query := str_arg params "query" in svc (GroupSearch query).
Definition groups_info (params : Value) : HM :=
  let! gid := str_arg params "group_id" in svc (GroupInfo gid).
Definition groups_delete (params : Value) : HM :=
  let! gid := str_arg params "group_id" in svc (GroupDelete gid).
Definition groups_transfer_ownership (params : Value) : HM :=
  let! gid := str_arg params "group_id" in
  let! target := str_arg params "target" in
  svc (GroupTransfer gid target).
Definition groups_delete_post (params : Value) : HM :=
  let! gid := str_arg params "group_id" in
  let! ch := str_arg params "content_hash" in
  svc (GroupDeletePost gid ch).

Definition group_chats_create_private (params : Value) : HM :=
  let name := get_str "name" params in
  let members := match get_array "members" params with Some arr => omap as_str arr | None => [] end in
  svc (ChatCreatePrivate name members).
Definition group_chats_create_linked (params : Value) : HM :=
  let! gid := str_arg params "group_id" in svc (ChatCreateLinked gid).
Definition group_chats_add_member (params : Value) : HM :=
  let! cid := str_arg params "chat_id" in
  let! member := str_arg params "member" in
  svc (ChatAddMember cid member).
Definition group_chats_leave (params : Value) : HM :=
  let! cid := str_arg params "chat_id" in svc (ChatLeave cid).
Definition group_chats_send (params : Value) : HM :=
  let! cid := str_arg params "chat_id" in
  let! body := str_arg params "body" in
  svc (ChatSend cid body).
Definition group_chats_messages (params : Value) : HM :=
  let! cid := str_arg params "chat_id" in svc (ChatMessages cid (limit_u32 params)).
Definition group_chats_list (_ : Value) : HM := svc ChatListMine.

Definition mentions_list (params : Value) : HM := svc (MentionList (limit_u32 params)).

Definition notifications_list (params : Value) : HM := svc (NotificationList (limit_u32 params)).
Definition notifications_count (_ : Value) : HM := svc NotificationCount.
Definition notifications_mark_read (params : Value) : HM :=
  let! id := str_arg params "notification_id" in svc (NotificationMarkRead id).
Definition notifications_mark_all_read (_ : Value) : HM := svc NotificationMarkAllRead.

(* ------------------------------------------------------------------ *)
(** ** [dht.*] *)

(** A key of thirty-two bytes, in hexadecimal. *)
Definition dht_key_arg (key_hex : str) : result JsonRpcError bytes :=
  match hex_decode key_hex with
  | None => Err (invalid_params (lit "invalid key hex: " ++ hex_error key_hex))
  | Some key_bytes =>
      if negb (length key_bytes =? 32) then
        Err (invalid_params (lit "key must be 32 bytes (64 hex chars), got " ++ lit (pretty (length key_bytes)) ++ lit " bytes"))
      else Ok key_bytes
  end.

Definition dht_put (params : Value) : HM :=
  let! key_hex := str_arg params "key" in
  let! value_str := str_arg params "value" in
  let ttl := as_u32 (default (30 * 24 * 60 * 60)%N (extract_opt_u64 params "ttl_seconds")) in
  let! key := se_lift (dht_key_arg key_hex) in
  let! _ := svc (DhtPut key (as_bytes value_str) ttl) in
  answer (object [("ok", VBool true); ("key", VString key_hex)]).

Definition dht_get (params : Value) : HM :=
  let! key_hex := str_arg params "key" in
  let! key := se_lift (dht_key_arg key_hex) in
  let! val := ask (QueryNetwork key) in
  answer (match val with
          | None => object [("found", VBool false); ("key", VString key_hex)]
          | Some v => object [("found", VBool true); ("key", VString key_hex); ("value", v)]
          end).

(** First what is stored here, then the network. *)
Definition here_or_network (here net : Query) : HM :=
  let! result := ask here in
  match result with
  | Some v => answer v
  | None => let! found := ask net in answer (default VNull found)
  end.

Definition dht_lookup_handle (params : Value) : HM :=
  let! name := str_arg params "name" in here_or_network (LookupHandle name) (QueryRecord "handle" name).
Definition dht_lookup_prekey (params : Value) : HM :=
  let! pubkey := str_arg params "pubkey" in here_or_network (LookupPrekey pubkey) (QueryRecord "prekey" pubkey).
Definition dht_lookup_profile (params : Value) : HM :=
  let! pubkey := str_arg params "pubkey" in here_or_network (LookupProfile pubkey) (QueryRecord "profile" pubkey).
Definition dht_status (_ : Value) : HM :=
  let! count := svc DhtRecordCount in
  λ s, let '(entries, max_records, k) := dht_limits s in
       (s, Ok (object [("records", count); ("routing_table_entries", vnum entries); ("max_records", vnum max_records); ("k", vnum k)])).

(* ------------------------------------------------------------------ *)
(** ** [network.*], [meta.*] *)

Definition get_net (s : S) : result JsonRpcError NetView :=
  ok_or (net_view s) (MkError NETWORK_UNAVAILABLE (text "network not available — unlock identity first") None).
Definition peer_count (n : NetView) : Value := vnum (N.of_nat (length (v_peers n))).
Definition relay_status (n : NetView) : Value := vstr (if v_relay_connected n then "connected" else "unavailable").

Definition network_info (_ : Value) : HM :=
  let! s := se_get in
  let! net := se_lift (get_net s) in
  answer (object [("transport", vstr "iroh"); ("node_id", VString (v_node_id net)); ("peer_count", peer_count net)]).

Definition network_status (_ : Value) : HM := λ s,
  match net_view s with
  | Some net =>
      (s, Ok (object [("transport", vstr "iroh"); ("node_id", VString (v_node_id net)); ("peer_count", peer_count net);
                      ("iroh_available", VBool true); ("relay_status", relay_status net); ("error", VNull)]))
  | None =>
      (s, Ok (object [("transport", vstr "none"); ("node_id", VNull); ("peer_count", vnum 0); ("iroh_available", VBool false);
                      ("relay_status", vstr "not_applicable"); ("error", VString (text "network not started — unlock identity"))]))
  end.

(** Thirty-two bytes in hexadecimal under a name of their own. *)
Definition node_arg (bad short : string) (hex : str) : result JsonRpcError bytes :=
  match hex_decode hex with
  | None => Err (invalid_params (lit bad ++ hex_error hex))
  | Some b => if negb (length b =? 32) then Err (invalid_params (lit short ++ lit " must be 32 bytes, got " ++ lit (pretty (length b)))) else Ok b
  end.
Definition failed (code : Z) (what : string) (e : str) : JsonRpcError := MkError code (lit what ++ e) None.

Definition network_connect (params : Value) : HM :=
  let! s := se_get in
  let! _ := se_lift (get_net s) in
  let addr := get_str "addr" params in
  match get_str "node_id" params with
  | Some nid =>
      let! b := se_lift (node_arg "bad node_id hex: " "node_id" nid) in
      let! _ := se_map_err (failed INTERNAL_ERROR "connect failed: ") (call (NetworkConnect b (option_list addr))) in
      answer (object [("connected", VBool true); ("node_id", VString nid)])
  | None =>
      match addr with
      | Some a =>
          let! _ := se_map_err (failed INTERNAL_ERROR "connect failed: ") (call (NetworkConnect (replicate 32 0%N) [a])) in
          answer (object [("connected", VBool true); ("addr", VString a)])
      | None => se_lift (Err (invalid_params (lit "provide addr or node_id")))
      end
  end.

Definition network_peers (_ : Value) : HM :=
  let! s := se_get in
  let! net := se_lift (get_net s) in
  answer (object [("peers", VArray ((λ p, object [("node_id", VString (hex_encode p))]) <$> v_peers net)); ("count", peer_count net)]).

Definition network_disconnect (params : Value) : HM :=
  let! s := se_get in
  let! _ := se_lift (get_net s) in
  let! peer_id_hex := str_arg params "peer_id" in
  let! b := se_lift (node_arg "invalid peer_id hex: " "peer_id" peer_id_hex) in
  let! _ := se_map_err (failed NETWORK_UNAVAILABLE "disconnect failed: ") (call (NetworkDisconnect b)) in
  answer (object [("ok", VBool true); ("peer_id", VString peer_id_hex)]).

Definition meta_capabilities (names : list str) (_ : Value) : HM :=
  answer (object [("protocol_version", vnum 1); ("api_version", vstr "0.1.0"); ("methods", VArray (VString <$> names));
    ("capabilities", VArray (vstr <$> ["identity"; "posts"; "feed"; "social"; "messages"; "profiles"; "moderation"; "meta"; "discover"]))]).

Definition meta_status (_ : Value) : HM := λ s,
  let '(node_id, count, tier, status, relay) :=
    match net_view s with
    | Some net => (VString (v_node_id net), peer_count net, "T1", "connected", relay_status net)
    | None => (vstr "not-yet-assigned", vnum 0, "offline", "waiting_for_unlock", vstr "not_applicable")
    end in
  (s, Ok (object [("node_id", node_id); ("uptime_seconds", vnum (uptime_secs s)); ("peer_count", count); ("connected_relays", vnum 0);
    ("transport_tier", vstr tier); ("storage_used_bytes", vnum 0); ("storage_cap_bytes", vnum 524288000);
    ("network_status", vstr status); ("relay_status", relay); ("sync_status", vstr "idle")])).

Definition meta_set_transport_tier (params : Value) : HM :=
  let! _ := str_arg params "tier" in answer (object [("ok", VBool true)]).

Definition log_entry (e : DebugLog.LogEntry) : Value :=
  object [("level", vstr (DebugLog.level e)); ("target", VString (DebugLog.target e)); ("message", VString (DebugLog.message e));
          ("timestamp", VString (DebugLog.timestamp e))].

(** [log] reads the shared buffer, if the router was given one. *)
Definition meta_debug_log (log : option (S → list DebugLog.LogEntry)) (params : Value) : HM := λ s,
  let count := N.to_nat (default 50%N (get_u64 "count" params)) in
  let logs := match log with Some h => log_entry <$> DebugLog.read_last count (h s) | None => [] end in
  let network_status :=
    match net_view s with
    | Some n => object [("transport", vstr "iroh"); ("node_id", VString (v_node_id n)); ("relay", VNull); ("relay_status", relay_status n);
                        ("peer_count", peer_count n); ("iroh_active", VBool true)]
    | None => object [("transport", vstr "none"); ("node_id", VNull); ("relay", VNull); ("relay_status", vstr "not_applicable");
                      ("peer_count", vnum 0); ("iroh_active", VBool false)]
    end in
  (s, Ok (object [("logs", VArray logs); ("network_status", network_status)])).
End api.
