(* ===== verification/ApiRouter.v ===== *)
(** * The router of the API (ephemera-node api/mod.rs)

    Which handler every method name has, the list the node advertises, and
    what a response can say whatever the services do: the theorems hold for
    every [Backend]. *)
From S2P Require Import Prelude Unicode Rpc Config Api.

(* ------------------------------------------------------------------ *)
(** ** Registration *)

Section registration.
Context `{Hex} {S : Type} `{Backend S}.

Abbreviation Methods := (list (string * Handler S)).

Definition register_all (ms : Methods) (r : Router S) : Router S := foldl (λ r m, register m.1 m.2 r) r ms.

Definition register_identity : Methods :=
  [("identity.create", identity_create); ("identity.unlock", identity_unlock); ("identity.lock", identity_lock);
   ("identity.auto_unlock", identity_auto_unlock); ("identity.has_session", identity_has_session);
   ("identity.has_keystore", identity_has_keystore); ("identity.get_active", identity_get_active);
   ("identity.list_pseudonyms", identity_list_pseudonyms); ("identity.switch_pseudonym", identity_switch_pseudonym);
   ("identity.backup_mnemonic", identity_backup_mnemonic); ("identity.export_mnemonic", identity_export_mnemonic);
   ("identity.export_qr", identity_export_qr); ("identity.invite_qr", identity_invite_qr);
   ("identity.export_backup", identity_export_backup); ("identity.import_mnemonic", identity_import_mnemonic);
   ("identity.import_backup", identity_import_backup); ("identity.import_qr", identity_import_qr);
   ("identity.register_device", identity_register_device); ("identity.list_devices", identity_list_devices);
   ("identity.revoke_device", identity_revoke_device)].
Definition register_handles : Methods :=
  [("identity.register_handle", identity_register_handle); ("identity.lookup_handle", identity_lookup_handle);
   ("identity.renew_handle", identity_renew_handle); ("identity.release_handle", identity_release_handle);
   ("identity.my_handle", identity_my_handle); ("identity.check_handle_status", identity_check_handle_status);
   ("identity.check_handle_available", identity_check_handle_available)].
Definition register_posts : Methods :=
  [("posts.create", posts_create); ("posts.get", posts_get); ("posts.delete", posts_delete);
   ("posts.list_by_author", posts_list_by_author); ("posts.replies", posts_replies); ("posts.reply", posts_reply)].
Definition register_media : Methods :=
  [("media.get_metadata", media_get_metadata); ("media.get_chunk", media_get_chunk);
   ("media.get_thumbnail", media_get_thumbnail); ("media.list_for_post", media_list_for_post)].
Definition register_feed : Methods :=
  [("feed.connections", feed_connections); ("feed.discover", feed_discover); ("feed.topic", feed_topic);
   ("feed.search_tags", feed_search_tags); ("feed.profile", feed_profile); ("feed.own", feed_own)].
Definition register_social : Methods :=
  [("social.connect", social_connect); ("social.accept", social_accept); ("social.reject", social_reject);
   ("social.disconnect", social_disconnect); ("social.cancel_request", social_cancel_request);
   ("social.resend_request", social_resend_request); ("social.list_connections", social_list_connections);
   ("social.follow", social_follow); ("social.unfollow", social_unfollow); ("social.react", social_react);
   ("social.get_reactions", social_get_reactions)].
Definition register_messages : Methods :=
  [("messages.send", messages_send); ("messages.list_conversations", messages_list_conversations);
   ("messages.get_thread", messages_get_thread); ("messages.mark_read", messages_mark_read)].
Definition register_profiles : Methods :=
  [("profiles.get", profiles_get); ("profiles.update", profiles_update); ("profiles.get_mine", profiles_get_mine);
   ("profiles.update_avatar", profiles_update_avatar)].
Definition register_moderation : Methods :=
  [("moderation.report", moderation_report); ("moderation.block", moderation_block); ("moderation.unblock", moderation_unblock);
   ("moderation.mute", moderation_mute); ("moderation.unmute", moderation_unmute)].
Definition register_topics : Methods :=
  [("topics.create", topics_create); ("topics.join", topics_join); ("topics.leave", topics_leave); ("topics.list", topics_list);
   ("topics.feed", topics_feed); ("topics.post", topics_post)].
Definition register_groups : Methods :=
  [("groups.create", groups_create); ("groups.register_handle", groups_register_handle); ("groups.join", groups_join);
   ("groups.invite", groups_invite); ("groups.leave", groups_leave); ("groups.set_role", groups_set_role);
   ("groups.kick", groups_kick); ("groups.ban", groups_ban); ("groups.post", groups_post); ("groups.feed", groups_feed);
   ("groups.list", groups_list); ("groups.search", groups_search); ("groups.info", groups_info); ("groups.delete", groups_delete);
   ("groups.transfer_ownership", groups_transfer_ownership); ("groups.delete_post", groups_delete_post)].
Definition register_group_chats : Methods :=
  [("group_chats.create_private", group_chats_create_private); ("group_chats.create_linked", group_chats_create_linked);
   ("group_chats.add_member", group_chats_add_member); ("group_chats.leave", group_chats_leave);
   ("group_chats.send", group_chats_send); ("group_chats.messages", group_chats_messages); ("group_chats.list", group_chats_list)].
Definition register_mentions : Methods := [("mentions.list", mentions_list)].
Definition register_notifications : Methods :=
  [("notifications.list", notifications_list); ("notifications.count", notifications_count);
   ("notifications.mark_read", notifications_mark_read); ("notifications.mark_all_read", notifications_mark_all_read)].
Definition register_discover : Methods := [("discover.search", discover_search)].
Definition register_dht : Methods :=
  [("dht.put", dht_put); ("dht.get", dht_get); ("dht.lookup_handle", dht_lookup_handle);
   ("dht.lookup_prekey", dht_lookup_prekey); ("dht.lookup_profile", dht_lookup_profile); ("dht.status", dht_status)].
Definition register_network_dynamic : Methods :=
  [("network.info", network_info); ("network.status", network_status); ("network.connect", network_connect);
   ("network.peers", network_peers); ("network.disconnect", network_disconnect)].
Definition register_meta (names : list str) (debug_log : option (S → list DebugLog.LogEntry)) : Methods :=
  [("meta.capabilities", meta_capabilities names); ("meta.status", meta_status);
   ("meta.set_transport_tier", meta_set_transport_tier); ("meta.debug_log", meta_debug_log debug_log)].

(** Everything but [meta.*], in the order of registration. *)
Definition services_methods : Methods :=
  register_identity ++ register_handles ++ register_posts ++ register_media ++ register_feed ++ register_social ++
  register_messages ++ register_profiles ++ register_moderation ++ register_topics ++ register_groups ++
  register_group_chats ++ register_mentions ++ register_notifications ++ register_discover ++ register_dht ++
  register_network_dynamic.

(** Names that are not in the list yet. *)
Definition add_names (extra : list string) (names : list str) : list str :=
  foldl (λ ns m, if bool_decide (lit m ∈ ns) then ns else ns ++ [lit m]) names extra.

Definition advertised (router : Router S) : list str :=
  let names := add_names ["meta.capabilities"; "meta.status"; "meta.set_transport_tier"; "meta.debug_log"] (method_names router) in
  let names := add_names ["network.info"; "network.connect"; "network.peers"; "network.disconnect"; "network.status"] names in
  stable_sort bytes_leb names.

Definition build_router_with_network (debug_log : option (S → list DebugLog.LogEntry)) : Router S :=
  let router := register_all services_methods new_router in
  register_all (register_meta (advertised router) debug_log) router.

Definition build_router : Router S := build_router_with_network None.

(* ------------------------------------------------------------------ *)
(** ** The names *)

Lemma register_all_dom ms r m : m ∈ dom (handlers (register_all ms r)) ↔ m ∈ dom (handlers r) ∨ m ∈ (lit ∘ fst) <$> ms.
Proof.
  revert r. induction ms as [|[k h] ms IH]; intros r.
  - cbn. rewrite elem_of_nil. tauto.
  - change (register_all ((k, h) :: ms) r) with (register_all ms (register k h r)). rewrite IH. cbn. rewrite dom_insert_L, elem_of_union, elem_of_singleton, elem_of_cons. tauto.
Qed.

Lemma register_all_lookup ms r k h : NoDup ((lit ∘ fst) <$> ms) → (k, h) ∈ ms → handlers (register_all ms r) !! lit k = Some h.
Proof.
  revert r. induction ms as [|[k' h'] ms IH]; intros r Hn Hm; [by apply elem_of_nil in Hm|].
  cbn in Hn. apply NoDup_cons in Hn as [Hk Hn]. apply elem_of_cons in Hm as [[= <- <-]|Hm]; [|by apply IH].
  cbn. clear IH. assert (Hl : handlers (register k h r) !! lit k = Some h) by (cbn; apply lookup_insert_eq).
  revert Hl. generalize (register k h r). clear r Hn. induction ms as [|[k' h'] ms IH]; intros r Hl; [done|]. cbn in *.
  apply not_elem_of_cons in Hk as [Hne Hk]. apply IH; [done|]. cbn. by rewrite lookup_insert_ne.
Qed.

Lemma method_names_spec (r : Router S) m : m ∈ method_names r ↔ m ∈ dom (handlers r).
Proof.
  unfold method_names. rewrite list_elem_of_fmap, elem_of_dom. split.
  - intros ([k h] & -> & He). exists h. by apply elem_of_map_to_list in He.
  - intros [h He]. exists (m, h). by rewrite elem_of_map_to_list.
Qed.

Lemma add_names_spec extra ns : NoDup ns → NoDup (add_names extra ns) ∧ ∀ m, m ∈ add_names extra ns ↔ m ∈ ns ∨ m ∈ lit <$> extra.
Proof.
  revert ns. induction extra as [|e extra IH]; intros ns Hn; cbn.
  - split; [done|]. intros m. rewrite elem_of_nil. tauto.
  - destruct (bool_decide_reflect (lit e ∈ ns)) as [He|He].
    + destruct (IH ns Hn) as [H1 H2]. split; [done|]. intros m. fold (add_names extra ns). rewrite H2, elem_of_cons. naive_solver.
    + destruct (IH (ns ++ [lit e])) as [H1 H2].
      { apply NoDup_app. split; [done|]. split; [|apply NoDup_singleton]. intros x Hx ->%list_elem_of_singleton. done. }
      split; [done|]. intros m. fold (add_names extra (ns ++ [lit e])). rewrite H2, elem_of_app, list_elem_of_singleton, elem_of_cons. tauto.
Qed.

Lemma services_names_nodup : NoDup ((lit ∘ fst) <$> services_methods).
Proof. apply (bool_decide_unpack (NoDup _)). vm_compute. exact I. Qed.
Lemma meta_names_nodup names debug_log : NoDup ((lit ∘ fst) <$> services_methods ++ register_meta names debug_log).
Proof. apply (bool_decide_unpack (NoDup _)). vm_compute. exact I. Qed.

Lemma build_dom debug_log m :
  m ∈ dom (handlers (build_router_with_network debug_log)) ↔ m ∈ (lit ∘ fst) <$> services_methods ++ register_meta [] None.
Proof.
  unfold build_router_with_network. rewrite !register_all_dom, fmap_app, elem_of_app. cbn [handlers new_router].
  rewrite dom_empty_L, elem_of_empty. cbn [register_meta fmap list_fmap compose fst]. tauto.
Qed.

Lemma advertised_spec debug_log names : names = advertised (register_all services_methods new_router) →
  StronglySorted (λ a b, bytes_leb a b = true) names ∧ NoDup names ∧
  ∀ m, m ∈ names ↔ m ∈ dom (handlers (build_router_with_network debug_log)).
Proof.
  intros ->. unfold advertised. set (r0 := register_all services_methods new_router).
  assert (Hn : NoDup (method_names r0)) by apply NoDup_fst_map_to_list.
  destruct (add_names_spec ["meta.capabilities"; "meta.status"; "meta.set_transport_tier"; "meta.debug_log"] _ Hn) as [Hn1 Hm1].
  destruct (add_names_spec ["network.info"; "network.connect"; "network.peers"; "network.disconnect"; "network.status"] _ Hn1) as [Hn2 Hm2].
  split; [apply stable_sort_sorted; [apply bytes_leb_total|apply bytes_leb_trans]|].
  split; [by rewrite stable_sort_perm|]. intros m. rewrite stable_sort_perm, Hm2, Hm1, method_names_spec, build_dom.
  unfold r0. rewrite register_all_dom, fmap_app, elem_of_app. cbn [handlers new_router]. rewrite dom_empty_L, elem_of_empty.
  split; [|tauto]. intros [[[[]|?]|?]|Hm]; [tauto|tauto|]. left. revert m Hm. apply Forall_forall, (bool_decide_unpack (Forall _ _)). vm_compute. exact I.
Qed.
End registration.

(* ------------------------------------------------------------------ *)
(** ** What can go wrong

    [checks m]: [m] leaves the state alone.  [acts m]: once the services have
    been called, a failure is not blamed on the parameters.  [fine m]: a
    failure blamed on the parameters is one before anything happened. *)
Definition action_codes : list Z := [INTERNAL_ERROR; NETWORK_UNAVAILABLE; CONTENT_NOT_FOUND; POW_FAILED].
Definition handler_codes : list Z := INVALID_PARAMS :: action_codes.
Definition rejections : list Z := [INVALID_REQUEST; METHOD_NOT_FOUND; INVALID_PARAMS].

Definition plain (codes : list Z) (e : JsonRpcError) : Prop := code e ∈ codes ∧ data e = None.

Create HintDb rpc.

Section outcomes.
Context {S : Type}.
Implicit Types (T U : Type).

Definition checks {T} (m : SE S JsonRpcError T) : Prop :=
  ∀ s, (m s).1 = s ∧ ∀ e, (m s).2 = Err e → plain handler_codes e.
Definition acts {T} (m : SE S JsonRpcError T) : Prop := ∀ s e, (m s).2 = Err e → plain action_codes e.
Definition fine {T} (m : SE S JsonRpcError T) : Prop :=
  ∀ s e, (m s).2 = Err e → plain handler_codes e ∧ (code e = INVALID_PARAMS → (m s).1 = s).

Lemma plain_action e : plain action_codes e → plain handler_codes e ∧ code e ≠ INVALID_PARAMS.
Proof.
  intros [Hc Hd]. split; [split; [by right|done]|]. intros He. rewrite He in Hc. revert Hc.
  unfold action_codes. rewrite !elem_of_cons, elem_of_nil. unfold INVALID_PARAMS, INTERNAL_ERROR, NETWORK_UNAVAILABLE, CONTENT_NOT_FOUND, POW_FAILED. lia.
Qed.

Lemma fine_checks {T} (m : SE S JsonRpcError T) : checks m → fine m.
Proof. intros Hm s e He. destruct (Hm s) as [Hs Hp]. auto. Qed.
Lemma fine_acts {T} (m : SE S JsonRpcError T) : acts m → fine m.
Proof. intros Hm s e He. apply Hm, plain_action in He as [? ?]. done. Qed.

Lemma fine_bind {T U} (m : SE S JsonRpcError T) (k : T → SE S JsonRpcError U) : checks m → (∀ t, fine (k t)) → fine (se_bind m k).
Proof.
  intros Hm Hk s e. unfold se_bind. destruct (Hm s) as [Hs Hp]. destruct (m s) as [s1 [t|e1]]; cbn in *.
  - subst s1. apply Hk.
  - intros [= <-]. split; [by apply Hp|done].
Qed.
Lemma checks_bind {T U} (m : SE S JsonRpcError T) (k : T → SE S JsonRpcError U) : checks m → (∀ t, checks (k t)) → checks (se_bind m k).
Proof.
  intros Hm Hk s. unfold se_bind. destruct (Hm s) as [Hs Hp]. destruct (m s) as [s1 [t|e1]]; cbn in *.
  - subst s1. apply Hk.
  - split; [done|]. intros e [= <-]. by apply Hp.
Qed.
Lemma acts_bind {T U} (m : SE S JsonRpcError T) (k : T → SE S JsonRpcError U) : acts m → (∀ t, acts (k t)) → acts (se_bind m k).
Proof.
  intros Hm Hk s e. unfold se_bind. destruct (m s) as [s1 [t|e1]] eqn:Em; cbn in *; [apply Hk|].
  intros [= <-]. apply (Hm s). by rewrite Em.
Qed.

Lemma checks_lift {T} (r : result JsonRpcError T) : (∀ e, r = Err e → plain handler_codes e) → checks (se_lift r).
Proof. intros Hr s. by split. Qed.
Lemma acts_lift {T} (r : result JsonRpcError T) : (∀ e, r = Err e → plain action_codes e) → acts (se_lift r).
Proof. intros Hr s. apply Hr. Qed.
Lemma acts_ok {T} (f : S → S * result JsonRpcError T) : (∀ s, is_ok (f s).2 = true) → acts f.
Proof. intros Hf s e He. specialize (Hf s). by rewrite He in Hf. Qed.
Lemma checks_get : checks (se_get (S := S)).
Proof. by intros s. Qed.
Lemma acts_get : acts (se_get (S := S)).
Proof. by apply acts_ok. Qed.
Lemma acts_ret {T} (t : T) : acts (se_ret (S := S) t).
Proof. by apply acts_ok. Qed.
Lemma acts_modify f : acts (se_modify (S := S) f).
Proof. by apply acts_ok. Qed.
Lemma acts_map_err {T E} (f : E → JsonRpcError) (m : SE S E T) : (∀ e, plain action_codes (f e)) → acts (se_map_err f m).
Proof. intros Hf s e. unfold se_map_err. destruct (m s) as [s1 [t|e1]]; cbn; [done|]. intros [= <-]. apply Hf. Qed.

Lemma plain_invalid msg : plain handler_codes (invalid_params msg).
Proof. split; [by left|done]. Qed.
Lemma plain_internal msg : plain action_codes (internal_error msg).
Proof. split; [by left|done]. Qed.
Lemma ok_or_err {T} (o : option T) e codes : plain codes e → ∀ e', ok_or o e = Err e' → plain codes e'.
Proof. intros Hp e'. destruct o; [done|]. by intros [= <-]. Qed.
End outcomes.

#[export] Hint Resolve checks_get acts_get acts_ret acts_modify plain_invalid plain_internal : rpc.

Section handlers.
Context `{Hex} {S : Type} `{Backend S}.

Lemma acts_svc c : acts (svc c).
Proof. apply acts_map_err. apply plain_internal. Qed.
Lemma acts_ask q : acts (ask q).
Proof. apply acts_map_err. apply plain_internal. Qed.
Lemma acts_attempt c : acts (attempt c).
Proof. by apply acts_ok. Qed.
Lemma acts_publish e : acts (publish e).
Proof. by apply acts_ok. Qed.
Lemma acts_answer v : acts (answer (S := S) v).
Proof. by apply acts_ok. Qed.
Lemma checks_str_arg p k : checks (str_arg (S := S) p k).
Proof. apply checks_lift, ok_or_err, plain_invalid. Qed.
Lemma acts_publish_own_profile : acts publish_own_profile.
Proof. apply acts_ok. intros s. unfold publish_own_profile. by repeat case_match. Qed.
Lemma acts_announce_post v : acts (announce_post v).
Proof. unfold announce_post. case_match; by intros s. Qed.
Lemma acts_here_or_network a b : acts (here_or_network a b).
Proof.
  apply acts_bind; [apply acts_ask|]. intros [v|]; [apply acts_answer|]. apply acts_bind; [apply acts_ask|]. intros t. apply acts_answer.
Qed.
Lemma checks_get_net s : checks (se_lift (S := S) (get_net s)).
Proof. apply checks_lift, ok_or_err. split; [right; right; by left|done]. Qed.
Lemma checks_words l : checks (se_lift (S := S) (words_of l)).
Proof.
  apply checks_lift. induction l as [|v l IH]; [done|]. intros e. cbn [words_of].
  destruct (as_str v); cbn; [|by intros [= <-]; apply plain_invalid]. destruct (words_of l); [done|]. intros [= <-]. by apply IH.
Qed.
Lemma checks_key hex : checks (se_lift (S := S) (dht_key_arg hex)).
Proof. apply checks_lift. unfold dht_key_arg. intros e. repeat case_match; try done; intros [= <-]; apply plain_invalid. Qed.
Lemma checks_node a b hex : checks (se_lift (S := S) (node_arg a b hex)).
Proof. apply checks_lift. unfold node_arg. intros e. repeat case_match; try done; intros [= <-]; apply plain_invalid. Qed.
Lemma acts_mining name : acts (λ s, match handle_task s with
  | Some e => (s, Err (MkError POW_FAILED (lit "handle registration task failed: " ++ e) None))
  | None => svc (HandleRegisterAndPublish name) s end).
Proof.
  intros s e. cbn beta. case_match; [|apply acts_svc]. intros [= <-]. split; [|done]. unfold action_codes. rewrite !elem_of_cons. tauto.
Qed.
Lemma acts_failed {T} c w (m : SE S str T) : c ∈ action_codes → acts (se_map_err (failed c w) m).
Proof. intros Hc. by apply acts_map_err. Qed.
End handlers.

#[export] Hint Resolve acts_svc acts_ask acts_attempt acts_publish acts_answer checks_str_arg acts_publish_own_profile
  acts_announce_post acts_here_or_network checks_get_net checks_words checks_key checks_node acts_mining : rpc.

(** A handler is its checks followed by its calls. *)
Ltac code_in := unfold action_codes; rewrite ?elem_of_cons; tauto.
Ltac outcome :=
  lazymatch goal with
  | |- ∀ _, _ => intros ?; outcome
  | |- fine (se_bind _ _) => first [apply fine_bind; [by outcome|outcome] | apply fine_acts; outcome]
  | |- checks (se_bind _ _) => apply checks_bind; outcome
  | |- acts (se_bind _ _) => apply acts_bind; outcome
  | |- acts (se_map_err (failed _ _) _) => apply acts_failed; code_in
  | |- acts (se_map_err (λ _, _) _) => apply acts_map_err; intros _; split; [code_in|done]
  | |- checks (se_lift (ok_or _ _)) => apply checks_lift, ok_or_err, plain_invalid
  | |- checks (se_lift (extract_u64 _ _)) => apply checks_lift, ok_or_err, plain_invalid
  | |- checks (se_lift (Err _)) => apply checks_lift; intros ? [= <-]; apply plain_invalid
  | |- checks _ => solve [eauto with rpc]
  | |- acts (se_lift (ok_or _ _)) => apply acts_lift, ok_or_err, plain_internal
  | |- acts (match ?x with _ => _ end) => destruct x; outcome
  | |- acts _ => first [solve [eauto with rpc] | apply acts_ok; intros ?; repeat case_match; done]
  | |- fine (match ?x with _ => _ end) => destruct x; outcome
  | |- fine (se_lift _) => apply fine_checks; outcome
  | |- fine _ => apply fine_acts; outcome
  end.

Section responses.
Context `{Hex} {S : Type} `{Backend S}.

Definition all_fine (ms : list (string * Handler S)) : Prop := Forall (λ m, ∀ params, fine (m.2 params)) ms.

Ltac each := repeat apply List.Forall_cons; [..|apply List.Forall_nil]; intros params; cbn [snd];
  match goal with |- fine ?h => let h' := eval red in h in change (fine h') end; outcome.

Lemma fine_identity : all_fine register_identity.
Proof. unfold all_fine, register_identity. each. Qed.
Lemma fine_handles : all_fine register_handles.
Proof. unfold all_fine, register_handles. each. Qed.
Lemma fine_posts : all_fine register_posts.
Proof. unfold all_fine, register_posts. each. Qed.
Lemma fine_media : all_fine register_media.
Proof. unfold all_fine, register_media. each. Qed.
Lemma fine_feed : all_fine register_feed.
Proof. unfold all_fine, register_feed. each. Qed.
Lemma fine_social : all_fine register_social.
Proof. unfold all_fine, register_social. each. Qed.
Lemma fine_messages : all_fine register_messages.
Proof. unfold all_fine, register_messages. each. Qed.
Lemma fine_profiles : all_fine register_profiles.
Proof. unfold all_fine, register_profiles. each. Qed.
Lemma fine_moderation : all_fine register_moderation.
Proof. unfold all_fine, register_moderation. each. Qed.
Lemma fine_topics : all_fine register_topics.
Proof. unfold all_fine, register_topics. each. Qed.
Lemma fine_groups : all_fine register_groups.
Proof. unfold all_fine, register_groups. each. Qed.
Lemma fine_group_chats : all_fine register_group_chats.
Proof. unfold all_fine, register_group_chats. each. Qed.
Lemma fine_mentions : all_fine register_mentions.
Proof. unfold all_fine, register_mentions. each. Qed.
Lemma fine_notifications : all_fine register_notifications.
Proof. unfold all_fine, register_notifications. each. Qed.
Lemma fine_discover : all_fine register_discover.
Proof. unfold all_fine, register_discover. each. Qed.
Lemma fine_dht : all_fine register_dht.
Proof. unfold all_fine, register_dht. each. Qed.
Lemma fine_network_dynamic : all_fine register_network_dynamic.
Proof. unfold all_fine, register_network_dynamic. each. Qed.
Lemma fine_meta names log : all_fine (register_meta names log).
Proof. unfold all_fine, register_meta. each. Qed.

Lemma fine_handlers debug_log m h : handlers (build_router_with_network debug_log) !! m = Some h → ∀ params, fine (h params).
Proof.
  assert (Hall : ∀ ms r, all_fine ms → (∀ m h, handlers r !! m = Some h → ∀ params, fine (h params)) →
    ∀ m h, handlers (register_all ms r) !! m = Some h → ∀ params, fine (h params)).
  { clear. induction ms as [|[k h'] ms IH]; intros r Hms Hr; [done|]. apply Forall_cons in Hms as [Hk Hms].
    change (register_all ((k, h') :: ms) r) with (register_all ms (register k h' r)). apply IH; [done|].
    intros m h. cbn. intros [[_ <-]|[_ Hm]]%lookup_insert_Some; [done|by eapply Hr]. }
  apply Hall; [apply fine_meta|]. apply Hall; [|done]. unfold all_fine, services_methods. rewrite !Forall_app.
  split_and!; [apply fine_identity|apply fine_handles|apply fine_posts|apply fine_media|apply fine_feed|apply fine_social|apply fine_messages|apply fine_profiles|apply fine_moderation|apply
    fine_topics|apply fine_groups|apply fine_group_chats|apply fine_mentions|apply fine_notifications|apply fine_discover|apply fine_dht|apply fine_network_dynamic].
Qed.

Lemma dispatch_found (r : Router S) m h p i s : handlers r !! m = Some h →
  dispatch r (MkRequest (lit "2.0") m p i) s =
    match h p s with (s', Ok v) => (s', success i v) | (s', Err e) => (s', MkResponse (lit "2.0") None (Some e) i) end.
Proof.
  intros Hm. unfold dispatch. cbn [jsonrpc method params]. rewrite bool_decide_true by done. cbn [negb]. destruct (handlers r !! m) as [h'|] eqn:Eh.
  - by injection Hm as ->.
  - done.
Qed.

(** Every name of the source has the handler of the source: none is taken twice. *)
Lemma router_complete debug_log names k h : (k, h) ∈ services_methods ++ register_meta names debug_log →
  names = advertised (register_all services_methods new_router) →
  handlers (build_router_with_network debug_log) !! lit k = Some h.
Proof.
  intros Hk ->. unfold build_router_with_network, register_all. rewrite <- foldl_app. by apply register_all_lookup; [apply meta_names_nodup|].
Qed.

(** So a request by name is answered by its handler. *)
Lemma dispatch_service debug_log m h p i s : (m, h) ∈ services_methods →
  dispatch (build_router_with_network debug_log) (MkRequest (lit "2.0") (lit m) p i) s =
    match h p s with (s', Ok v) => (s', success i v) | (s', Err e) => (s', MkResponse (lit "2.0") None (Some e) i) end.
Proof. intros Hm. erewrite dispatch_found; [done|]. eapply router_complete; [apply elem_of_app; left; exact Hm|done]. Qed.

(** C10. the error behaviour of the API, whatever the services do.  Every
    request is answered under its own id, in version 2.0, with exactly one of
    a result and an error.  An error has one of seven codes and no data; a
    request that is refused (a bad version, an unknown method, bad
    parameters) leaves the node exactly as it was, in every handler. *)
Theorem rpc_errors debug_log req s :
  let '(s', resp) := dispatch (build_router_with_network debug_log) req s in
  r_jsonrpc resp = lit "2.0" ∧ r_id resp = Rpc.id req ∧
  match r_result resp, r_error resp with
  | Some _, None => jsonrpc req = lit "2.0"
  | None, Some e => plain (INVALID_REQUEST :: METHOD_NOT_FOUND :: handler_codes) e ∧ (code e ∈ rejections → s' = s)
  | _, _ => False
  end.
Proof.
  pose proof (fine_handlers debug_log) as Hf. revert Hf. generalize (build_router_with_network debug_log) as r. intros r Hf.
  unfold dispatch. case_bool_decide as Hv; cbn [negb].
  2: { cbn. split_and!; try done. split; [by left|done]. }
  destruct (handlers _ !! method req) as [h|] eqn:Eh.
  2: { cbn. split_and!; try done. split; [right; by left|done]. }
  specialize (Hf _ _ Eh (params req) s). clear Eh. destruct (h (params req) s) as [s' [v|e]]; cbn in *; [done|].
  destruct (Hf e eq_refl) as [[Hc Hd] Hs]. split_and!; try done; [split; [by do 2 right|done]|].
  intros Hr. apply Hs. revert Hc Hr. unfold rejections, handler_codes, action_codes. rewrite !elem_of_cons, !elem_of_nil.
  unfold INVALID_REQUEST, METHOD_NOT_FOUND, INVALID_PARAMS, INTERNAL_ERROR, NETWORK_UNAVAILABLE, CONTENT_NOT_FOUND, POW_FAILED. lia.
Qed.

(** C24. [meta.capabilities] tells the truth.  It answers with a sorted list
    of names without repetition, and a name is in the list exactly if a
    request for it is not answered "method not found", whatever its
    parameters. *)
Theorem capabilities_exact debug_log s i p :
  let r := build_router_with_network debug_log in
  ∃ names : list str,
    dispatch r (MkRequest (lit "2.0") (lit "meta.capabilities") p i) s =
      (s, success i (object [("protocol_version", vnum 1); ("api_version", vstr "0.1.0"); ("methods", VArray (VString <$> names));
        ("capabilities", VArray (vstr <$> ["identity"; "posts"; "feed"; "social"; "messages"; "profiles"; "moderation"; "meta"; "discover"]))])) ∧
    StronglySorted (λ a b, bytes_leb a b = true) names ∧ NoDup names ∧ length names = 117 ∧
    ∀ m p' i', m ∈ names ↔ code <$> r_error (dispatch r (MkRequest (lit "2.0") m p' i') s).2 ≠ Some METHOD_NOT_FOUND.
Proof.
  cbv zeta. destruct (advertised_spec debug_log _ eq_refl) as (Hs & Hn & Hm). pose proof (fine_handlers debug_log) as Hf.
  assert (Hl : length (advertised (register_all services_methods new_router)) = 117).
  { transitivity (length ((lit ∘ fst) <$> services_methods ++ register_meta [] None)); [|by vm_compute].
    apply Permutation_length, list.NoDup_Permutation; [done|apply meta_names_nodup|]. intros m. by rewrite Hm, build_dom. }
  assert (Hc : handlers (build_router_with_network debug_log) !! lit "meta.capabilities"
    = Some (meta_capabilities (advertised (register_all services_methods new_router)) : Handler S)).
  { eapply router_complete; [|done]. apply elem_of_app. right. by left. }
  revert Hs Hn Hm Hf Hl Hc. generalize (advertised (register_all services_methods new_router)) as names.
  generalize (build_router_with_network debug_log) as r. intros r names Hs Hn Hm Hf Hl Hc. exists names.
  split; [by rewrite (dispatch_found _ _ _ _ _ _ Hc)|].
  split_and!; [done..|]. intros m p' i'. rewrite Hm, elem_of_dom. unfold dispatch. cbn [jsonrpc method params].
  rewrite bool_decide_true by done. cbn [negb]. destruct (handlers r !! m) as [h|] eqn:Eh; cbn; [|split; [by intros []|intros Hx; by destruct Hx]].
  split; [|done]. intros _. specialize (Hf _ _ Eh p' s). destruct (h p' s) as [s' [v|e]]; cbn in *; [done|].
  destruct (Hf e eq_refl) as [[Hcode _] _]. intros [= He]. rewrite He in Hcode. revert Hcode. unfold handler_codes, action_codes.
  rewrite !elem_of_cons, elem_of_nil.
  unfold METHOD_NOT_FOUND, INVALID_PARAMS, INTERNAL_ERROR, NETWORK_UNAVAILABLE, CONTENT_NOT_FOUND, POW_FAILED. lia.
Qed.
End responses.

(** A limit is cut to its low 32 bits: 2^32 asks for nothing. *)
Lemma limit_wraps : limit_u32 (object [("limit", vnum (2 ^ 32))]) = 0%N ∧ limit_of (object [("limit", vnum (2 ^ 32))]) = (2 ^ 32)%N.
Proof. split; vm_compute; reflexivity. Qed.
