(* ===== verification/ApiPosts.v ===== *)
(** * The posts API over the posts of the node (ephemera-node api/content.rs
    with services/post.rs)

    The [posts.*] calls of the API, answered by [Posting]: what [PostService]
    returns as JSON, and the composition from a request to the row of the
    post and back.  The other services are behind a [Backend] of their own. *)
From S2P Require Import Prelude Types Crypto Unicode Epoch Post Tables Ingest Abuse Moderation Store Paging Posting Feeds Rpc Config Api ApiRouter.

(** What else one call of the post service needs: the clocks and the random
    bytes, the processed media, whether the node has a network, and the
    texts of the errors. *)
Class PostContext (S : Type) := {
  node_of : S → Posting.Node;
  with_node : Posting.Node → S → S;
  env_of : S → Posting.Env;
  delete_clocks : S → N * N;
  process : S → Api.MediaFile → Posting.MediaFile;
  post_error : Posting.PostFailure → str
}.
Class PostContextLaws S `{PostContext S, Backend S} : Prop := {
  node_with n s : node_of (with_node n s) = n;
  node_own s : with_node (node_of s) s = s;
  node_emit e s : node_of (emit e s) = node_of s;
  (** A row of [topic_posts] is not a post. *)
  node_topic t h s : node_of (call (TopicPost t h) s).1 = node_of s
}.

Section posts.
Context `{Primitives, Hex, Canonical, PostJson, CharClass, Ingest.Json} {S : Type} `{PostContext S}.

(* ------------------------------------------------------------------ *)
(** ** [PostService], as JSON *)

Definition created_json (c : Posting.Created) : Value :=
  object [("content_hash", VString (Posting.created_hash c)); ("blob_hash", VString (Posting.created_blob c));
          ("created_at", number (Posting.created_at c)); ("expires_at", number (Posting.created_expires_at c));
          ("media_count", number (Posting.created_media_count c))].
Definition view_json (v : Posting.PostView) : Value :=
  object [("content_hash", VString (v_hash v)); ("author", VString (v_author v)); ("body_preview", opt (v_body_preview v));
          ("created_at", number (v_created_at v)); ("expires_at", number (v_expires_at v)); ("media_count", number (v_media_count v))].
Definition line_json (l : Posting.PostLine) : Value :=
  object ([("content_hash", VString (l_hash l)); ("body_preview", opt (l_body_preview l)); ("created_at", number (l_created_at l))] ++
    match l_expires_at l with Some x => [("expires_at", number x)] | None => [] end).
Definition lines_json (ls : list Posting.PostLine) : Value :=
  object [("posts", VArray (line_json <$> ls)); ("has_more", VBool false)].
Definition deleted_json (hash_hex : str) : Value := object [("deleted", VBool true); ("content_hash", VString hash_hex)].

(** A method of the post service; a failure becomes its text. *)
Definition on_node {A} (json : A → Value) (m : SE Posting.Node Posting.PostFailure A) : S → S * result str Value := λ s,
  let '(n, r) := m (node_of s) in (with_node n s, map_err post_error (result_map json r)).

(** [PostService] for the [posts.*] calls, the [rest] for the others. *)
Definition with_posts (rest : Backend S) : Backend S := {|
  call c s :=
    match c with
    | PostCreate body media ttl parent =>
        on_node created_json (create (env_of s) body (process s <$> media) ttl parent) s
    | PostGet hash => on_node view_json (λ n, (n, Posting.get hash n)) s
    | PostDelete hash =>
        let '(t, t') := delete_clocks s in
        on_node (λ _, deleted_json hash) (delete_and_propagate t t' (bool_decide (is_Some (net_view s))) hash) s
    | PostListByAuthor author limit => on_node lines_json (λ n, (n, list_by_author author limit n)) s
    | PostReplies parent limit => on_node lines_json (λ n, (n, replies parent limit n)) s
    | _ => Api.call c s
    end;
  query := Api.query; emit := Api.emit; net_view := Api.net_view; handle_of := Api.handle_of; search_handles := Api.search_handles;
  signing_pubkey := Api.signing_pubkey; profile_row := Api.profile_row; has_session := Api.has_session;
  has_keystore := Api.has_keystore; uptime_secs := Api.uptime_secs; dht_limits := Api.dht_limits; handle_task := Api.handle_task;
  lowercase := Api.lowercase; hex_error := Api.hex_error
|}.

(** A request to the node whose posts are [Posting]. *)
Definition rpc (rest : Backend S) (m : string) (p i : Value) (s : S) : S * JsonRpcResponse :=
  dispatch (@build_router_with_network _ _ (with_posts rest) None) (MkRequest (lit "2.0") (lit m) p i) s.
Definition hash_param (hash : str) : Value := object [("content_hash", VString hash)].
Definition not_found (i : Value) : JsonRpcResponse := error i CONTENT_NOT_FOUND (lit "post not found").

(* ------------------------------------------------------------------ *)
(** ** From a request to the service *)

Lemma rpc_handler rest m h p i s : (m, h) ∈ @services_methods _ _ (with_posts rest) →
  rpc rest m p i s = match h p s with (s', Ok v) => (s', success i v) | (s', Err e) => (s', MkResponse (lit "2.0") None (Some e) i) end.
Proof. exact (@dispatch_service _ _ (with_posts rest) _ _ _ _ _ _). Qed.

Lemma in_posts (rest : Backend S) m h : (m, h) ∈ @register_posts _ _ (with_posts rest) → (m, h) ∈ @services_methods _ _ (with_posts rest).
Proof. intros Hm. unfold services_methods. rewrite !elem_of_app. tauto. Qed.
Lemma hash_param_str hash : get_str "content_hash" (hash_param hash) = Some hash.
Proof. reflexivity. Qed.

Context {rest : Backend S} {Hlaws : PostContextLaws S}.

Lemma rpc_get hash i s :
  rpc rest "posts.get" (hash_param hash) i s =
    (s, match Posting.get hash (node_of s) with Ok v => success i (view_json v) | Err _ => not_found i end).
Proof.
  rewrite (rpc_handler _ _ (@posts_get _ (with_posts rest))) by (apply in_posts; right; by left).
  unfold posts_get, str_arg, extract_str. rewrite hash_param_str. unfold se_bind, se_lift, se_map_err. cbn. unfold on_node.
  rewrite node_own. by destruct (Posting.get hash (node_of s)).
Qed.

Lemma announced v s : node_of (@announce_post _ S (with_posts rest) v s).1 = node_of s ∧
  is_ok (@announce_post _ S (with_posts rest) v s).2 = true.
Proof. unfold announce_post. case_match; [|done]. split; [exact (@node_emit S _ rest Hlaws _ _)|done]. Qed.

Lemma on_node_ok {A} (json : A → Value) m s s' v : se_map_err internal_error (on_node json m) s = (s', Ok v) →
  ∃ n' a, m (node_of s) = (n', Ok a) ∧ s' = with_node n' s ∧ v = json a.
Proof.
  intros Hm%se_map_err_ok. unfold on_node in Hm. destruct (m (node_of s)) as [n' [a|e]]; [|done].
  injection Hm as <- <-. by exists n', a.
Qed.

(** A post that is created is one [create] of the service, whose result
    comes back with the audience. *)
Lemma rpc_create_inv p i s v : r_result (rpc rest "posts.create" p i s).2 = Some v →
  ∃ body n' c, get_str "body" p = Some body ∧
    create (env_of s) body (process s <$> extract_media_files p) (get_u64 "ttl_seconds" p) (get_str "parent" p) (node_of s) = (n', Ok c) ∧
    node_of (rpc rest "posts.create" p i s).1 = n' ∧
    v = insert_field "audience" (VString (default (lit "public") (get_str "audience" p))) (created_json c).
Proof.
  rewrite (rpc_handler _ _ (@posts_create _ _ (with_posts rest))) by (apply in_posts; by left). intros Hr.
  assert (Hm : ∃ s', @posts_create _ _ (with_posts rest) p s = (s', Ok v)).
  { destruct (posts_create p s) as [s' [w|e]]; [|done]. injection Hr as ->. by exists s'. }
  destruct Hm as [s' Hm]. rewrite Hm. cbn [fst]. clear Hr. revert Hm. unfold posts_create.
  intros (s1 & body & [-> Hb]%se_lift_ok & Hm)%se_bind_ok. unfold extract_str in Hb. destruct (get_str "body" p) as [b|]; [|done].
  injection Hb as ->. apply se_bind_ok in Hm as (s1 & w & Hc%on_node_ok & Hm). destruct Hc as (n' & c & Hc & -> & ->).
  exists body, n', c. split; [done|]. split; [exact Hc|].
  apply se_bind_ok in Hm as (s2 & [] & Ha & Hm). apply se_bind_ok in Hm as (s3 & [] & Ht & Hm). injection Hm as <- <-. split; [|done].
  pose proof (announced (created_json c) (with_node n' s)) as [Hn _]. rewrite Ha, node_with in Hn. cbn [fst] in Hn.
  rewrite <- Hn. revert Ht. destruct (Rpc.strip_prefix _ _) as [topic|]; [|by intros [= <-]].
  intros [= <-]. exact (@node_topic S _ rest Hlaws _ _ _).
Qed.

Lemma deleted_unread t t' network hash n : ∃ e, Posting.get hash (delete_and_propagate t t' network hash n).1 = Err e.
Proof.
  assert (Hd : ∃ e, Posting.get hash (delete_post t hash n).1 = Err e).
  { unfold delete_post, Posting.get. destruct (parse_hash _ hash) as [c|e] eqn:Ep; cbn; rewrite ?Ep; [|by exists e].
    exists Posting.PostNotFound. cbn. rewrite lookup_alter_eq. by destruct (posts _ !! _). }
  destruct Hd as [e He]. exists e. rewrite <- He. unfold delete_and_propagate, se_bind.
  destruct (delete_post t hash n) as [n1 [[]|]]; [|done]. destruct network; [|done]. unfold signing_keypair, se_bind, se_lift, se_get, ok_or.
  destruct (signing_seed n1); [|done]. cbn. by destruct (object_to_vec _).
Qed.

Lemma rpc_delete hash j k s : let s' := (rpc rest "posts.delete" (hash_param hash) j s).1 in
  rpc rest "posts.get" (hash_param hash) k s' = (s', not_found k).
Proof.
  cbv zeta. rewrite rpc_get. f_equal.
  rewrite (rpc_handler _ _ (@posts_delete _ (with_posts rest))) by (apply in_posts; right; right; by left).
  assert (Hs : ∃ t t', node_of (@posts_delete _ (with_posts rest) (hash_param hash) s).1 =
    (delete_and_propagate t t' (bool_decide (is_Some (@net_view S rest s))) hash (node_of s)).1).
  { unfold posts_delete, str_arg, extract_str. rewrite hash_param_str. unfold se_bind, se_lift, svc. cbn [ok_or].
    destruct (delete_clocks s) as [t t'] eqn:Et. exists t, t'. unfold Prelude.se_map_err, call, with_posts. cbn beta iota. rewrite Et. unfold on_node.
    destruct (delete_and_propagate _ _ _ _ _) as [n' r]. cbn. apply node_with. }
  destruct Hs as (t & t' & Hs). destruct (deleted_unread t t' (bool_decide (is_Some (@net_view S rest s))) hash (node_of s)) as [e He].
  rewrite <- Hs in He. destruct (posts_delete _ _) as [s1 [w|e1]]; cbn [fst] in *; by rewrite He.
Qed.

Context `{!PrimitiveLaws, !HexLaws, !HashBytes, !PostJsonLaws}.

(** C13. a post made through the API.  When [posts.create] answers with a
    result, its hash was unknown before and [posts.get] reads it back at
    once: the active identity is the author, the preview the first 280
    characters of the text, and it expires its lifetime after it was stored;
    once [posts.delete] was asked for it, it is not found.  But the post
    stays here: nothing has been handed to the network. *)
Theorem rpc_post_roundtrip (p i : Value) (s : S) (v : Value)
    (Hok : Content.blobs_ok (content (disk (node_of s)))) (Hnonce : length (blob_nonce (env_of s)) = NONCE_LEN)
    (Hnow : (stored_at (env_of s) < 2 ^ 62)%N) (Hmedia : get_array "media" p = None)
    (Hr : r_result (rpc rest "posts.create" p i s).2 = Some v) :
  let s' := (rpc rest "posts.create" p i s).1 in
  let now := Z.of_N (stored_at (env_of s)) in
  let secs := default 86400%N (get_u64 "ttl_seconds" p) in
  ∃ seed body hash, signing_seed (node_of s) = Some seed ∧ get_str "body" p = Some body ∧ get_str "content_hash" v = Some hash ∧
    (∀ j, rpc rest "posts.get" (hash_param hash) j s = (s, not_found j)) ∧
    (∀ j, rpc rest "posts.get" (hash_param hash) j s' = (s', success j (object
       [("content_hash", VString hash); ("author", VString (hex_encode (public_key seed))); ("body_preview", VString (take 280 body));
        ("created_at", number now); ("expires_at", number (now + Z.of_N secs)); ("media_count", number 0)]))) ∧
    (∀ j k, let s'' := (rpc rest "posts.delete" (hash_param hash) j s').1 in
       rpc rest "posts.get" (hash_param hash) k s'' = (s'', not_found k)) ∧
    published (node_of s') = published (node_of s).
Proof.
  destruct (rpc_create_inv _ _ _ _ Hr) as (body & n' & c & Hb & Hc & Hn & ->).
  assert (Hf : process s <$> extract_media_files p = []) by (unfold extract_media_files; by rewrite Hmedia). rewrite Hf in Hc. clear Hf.
  pose proof (create_inv _ _ _ _ _ _ _ Hc) as (seed0 & t & ph & q & n1 & _ & _ & _ & _ & _ & _ & Hp & Hs).
  apply store_created_inv in Hs as (_ & _ & _ & _ & _ & _ & _ & _ & _ & _ & Hpub). rewrite Hp in Hpub.
  destruct (created_post_read _ _ _ _ _ _ _ Hok Hnonce Hnow Hc) as (seed & Hseed & _ & Hbefore & Hafter & Hat & Hexp & _).
  intros s' now secs. exists seed, body, (Posting.created_hash c). split; [done|]. split; [done|]. split; [reflexivity|].
  split; [intros j; by rewrite rpc_get, Hbefore|]. split.
  - intros j. rewrite rpc_get. unfold s'. rewrite Hn, Hafter. unfold view_json. cbn [v_hash v_author v_body_preview v_created_at v_expires_at v_media_count].
    unfold now, secs. by rewrite Hat, Hexp.
  - split; [intros j k; apply rpc_delete|]. unfold s'. by rewrite Hn, Hpub.
Qed.
End posts.

(** A post whose audience is a topic is filed under the topic's name, while
    the feed of a topic is read under the hash of its name. *)
Lemma topic_audience_misses `{Primitives, Hex} (name : str) (content_hash : bytes) (at_ : Z) (cursor : option FeedCursor) (limit : nat) (d : SocialDb) :
  topic_id_from_name name ≠ name →
  get_topic_feed (topic_id_from_name name) cursor limit (post_to_topic name content_hash at_ d).1 =
  get_topic_feed (topic_id_from_name name) cursor limit d.
Proof.
  intros Hne. unfold get_topic_feed, topic_rows, post_to_topic, se_modify. cbn [fst]. f_equal. f_equal.
  change (join_post (with_topic_posts _ d)) with (join_post d). f_equal. unfold select_where. f_equal. cbn [topic_posts with_topic_posts].
  apply map_eq. intros k. apply option_eq. intros x. rewrite !lookup_rows_where, lookup_insert_or_ignore.
  destruct (decide ((name, content_hash) = k)) as [<-|]; [|done]. cbn [fst]. rewrite bool_decide_false by congruence. naive_solver.
Qed.

Section witnesses.
Import Toy HexToy JsonToy AsciiClass PostToy.
#[local] Existing Instance Post.demo_canonical.

(** A node whose other services answer nothing. *)
#[local] Instance aw_rest : Backend Posting.Node := {
  call _ s := (s, Ok VNull); query _ s := (s, Ok None); emit _ s := s; net_view _ := None; handle_of _ _ := None;
  search_handles _ _ := []; signing_pubkey s := public_key <$> signing_seed s; profile_row _ _ := None; has_session _ := false;
  has_keystore _ := true; uptime_secs _ := 0%N; dht_limits _ := (0, 0, 0)%N; handle_task _ := None; lowercase s := s; hex_error _ := []
}.
#[local] Instance aw_context : PostContext Posting.Node := {
  node_of s := s; with_node n _ := n; env_of _ := pw_env; delete_clocks _ := (1000, 1000)%N;
  process _ f := Posting.MkMedia (m_filename f) (Err "no codec") [] 0; post_error _ := lit "failed"
}.
#[local] Instance aw_laws : PostContextLaws Posting.Node.
Proof. by split. Defined.

Definition aw_params : Value := object [("body", VString pw_body); ("audience", vstr "public")].
Definition aw_response : JsonRpcResponse := (rpc aw_rest "posts.create" aw_params (vnum 1) pw_alice).2.
Definition aw_result : Value := default VNull (r_result aw_response).

Lemma rpc_post_roundtrip_witness :
  ∃ hash, let s' := (rpc aw_rest "posts.create" aw_params (vnum 1) pw_alice).1 in
    get_str "content_hash" aw_result = Some hash ∧
    rpc aw_rest "posts.get" (hash_param hash) (vnum 2) pw_alice = (pw_alice, not_found (vnum 2)) ∧
    published s' = [].
Proof.
  assert (Hn : node_of pw_alice = pw_node (Some pw_seed)) by reflexivity.
  assert (Hok : Content.blobs_ok (content (disk (node_of pw_alice)))) by (rewrite Hn; apply pw_blobs). clear Hn.
  destruct (rpc_post_roundtrip aw_params (vnum 1) pw_alice aw_result Hok eq_refl eq_refl eq_refl)
    as (seed & body & hash & _ & _ & Hh & Hb & _ & _ & Hp).
  - unfold aw_result, aw_response. destruct (r_result _) eqn:E; [done|]. exfalso. revert E. vm_compute. discriminate.
  - exists hash. split; [exact Hh|]. split; [apply Hb|exact Hp].
Defined.
End witnesses.
