(* ===== verification/ApiMessages.v ===== *)
(** * The messages API over the messages of the node (ephemera-node
    api/social.rs with services/social.rs)

    The [messages.*] calls of the API and the calls that block and mute,
    answered by [Ingest] and [Threads]: what the services return as JSON, and
    the composition from a request of one client, over the network, to the
    answer to another.  The other services are behind a [Backend] of their
    own. *)
From S2P Require Import Prelude Types Crypto Unicode Ratchet Tables Metadata Messages Connections Dht Ingest Delivery Post Posting Feeds Threads Rpc Config Api ApiRouter.

(** What else the calls need: who is unlocked, the profiles, the random draws
    and clocks, and the texts of the errors.  Whether there is a network is
    what the [Backend] sees of it. *)
Class MessageContext (S : Type) := {
  mnode_of : S → Ingest.Node;
  with_mnode : Ingest.Node → S → S;
  seed_of : S → option bytes;
  profiles_of : S → option SocialDb;
  draws_of : S → SendDraws;
  mute_clocks : S → N * N;
  request_error : ThreadFailure → str;
  send_error : NodeError → str
}.
Class MessageContextLaws S `{MessageContext S, Backend S} : Prop := {
  mnode_with n s : mnode_of (with_mnode n s) = n;
  mnode_own s : with_mnode (mnode_of s) s = s;
  seed_with n s : seed_of (with_mnode n s) = seed_of s;
  mnode_emit e s : mnode_of (emit e s) = mnode_of s;
  seed_emit e s : seed_of (emit e s) = seed_of s
}.

Section messages.
Context `{Primitives, KeyConversion, Hex, Ingest.Json} {S : Type} `{MessageContext S}.

(* ------------------------------------------------------------------ *)
(** ** The services, as JSON *)

Definition sent_json (c : Sent) : Value :=
  object [("sent", VBool true); ("message_hash", VString (hex_encode (message_hash c)));
          ("conversation_id", VString (hex_encode (Ingest.conversation_id c))); ("dead_drop", VBool true);
          ("published_gossip", VBool (published_gossip c)); ("published_dht", VBool (published_dht c))].
Definition conversation_json (c : ConversationItem) : Value :=
  object [("conversation_id", VString (ci_conversation_id c)); ("peer", VString (ci_peer c)); ("their_pubkey", VString (ci_peer c));
          ("peer_display_name", opt (ci_display_name c)); ("peer_avatar_url", opt (ci_avatar_url c));
          ("last_message_at", match ci_last_message_at c with Some t => number t | None => VNull end);
          ("last_message_preview", opt (ci_preview c)); ("unread_count", number (ci_unread c)); ("is_request", VBool (ci_is_request c))].
Definition conversations_json (cs : list ConversationItem) : Value := object [("conversations", VArray (conversation_json <$> cs))].
Definition thread_item_json (m : ThreadItem) : Value :=
  object [("message_id", VString (ti_message_id m)); ("sender", VString (ti_sender m)); ("sender_pubkey", VString (ti_sender m));
          ("body", opt (ti_body m)); ("body_preview", opt (ti_body m)); ("created_at", number (ti_received_at m));
          ("received_at", number (ti_received_at m)); ("expires_at", number (ti_expires_at m)); ("is_own", VBool (ti_is_own m));
          ("is_read", VBool (ti_is_read m)); ("is_encrypted", VBool (ti_is_encrypted m)); ("status", vstr (ti_status m))].
Definition thread_json (t : list ThreadItem * bool) : Value :=
  object [("messages", VArray (thread_item_json <$> t.1)); ("has_more", VBool t.2)].
Definition flag_json (k : string) : Value := object [(k, VBool true)].

(** A failure becomes its text. *)
Definition failure_text (e : SendFailure) : str :=
  match e with RequestFailed e => request_error e | SendFailed e => send_error e end.
Definition on_db (k : string) (m : SE MetadataDb ThreadFailure unit) (s : S) : S * result str Value :=
  let '(d, r) := m (db (mnode_of s)) in
  (with_mnode (with_db d (mnode_of s)) s, map_err request_error (result_map (λ _, flag_json k) r)).
Definition shown {A} (json : A → Value) (r : result ThreadFailure A) (s : S) : S * result str Value :=
  (s, map_err request_error (result_map json r)).

(** The messages of the node for the [messages.*] calls and those of
    [ModerationService] that hand over to [SocialService], the [rest] for the
    others.  The DHT is always there. *)
Definition with_messages_api (rest : Backend S) : Backend S := {|
  call c s :=
    match c with
    | MessageSend to body ttl =>
        let '(n, r) := send_as (draws_of s) (bool_decide (is_Some (net_view s))) true (seed_of s) to body ttl (mnode_of s) in
        (with_mnode n s, map_err failure_text (result_map sent_json r))
    | MessageListConversations => shown conversations_json (Threads.list_conversations (seed_of s) (profiles_of s) (db (mnode_of s))) s
    | MessageThread conv limit => shown thread_json (get_thread conv limit (seed_of s) (db (mnode_of s))) s
    | MessageMarkRead conv => on_db "ok" (read_conversation conv) s
    | ModerationBlock target => on_db "blocked" (Threads.block (mute_clocks s).2 (seed_of s) target) s
    | ModerationUnblock target => on_db "unblocked" (Threads.unblock (seed_of s) target) s
    | ModerationMute target hours => on_db "muted" (Threads.mute (mute_clocks s).1 (mute_clocks s).2 (seed_of s) target hours) s
    | ModerationUnmute target => on_db "unmuted" (Threads.unmute (seed_of s) target) s
    | SocialDisconnect target => on_db "disconnected" (Threads.disconnect (seed_of s) target) s
    | SocialUnfollow target => on_db "unfollowed" (Threads.unfollow (seed_of s) target) s
    | _ => Api.call c s
    end;
  query := Api.query; emit := Api.emit; net_view := Api.net_view; handle_of := Api.handle_of; search_handles := Api.search_handles;
  signing_pubkey := Api.signing_pubkey; profile_row := Api.profile_row; has_session := Api.has_session;
  has_keystore := Api.has_keystore; uptime_secs := Api.uptime_secs; dht_limits := Api.dht_limits; handle_task := Api.handle_task;
  lowercase := Api.lowercase; hex_error := Api.hex_error
|}.

(** A request to the node whose messages are these. *)
Definition rpc (rest : Backend S) (m : string) (p i : Value) (s : S) : S * JsonRpcResponse :=
  dispatch (@build_router_with_network _ _ (with_messages_api rest) None) (MkRequest (lit "2.0") (lit m) p i) s.
Definition send_params (recipient body : str) : Value := object [("recipient", VString recipient); ("body", VString body)].
Definition thread_params (conv : str) : Value := object [("conversation_id", VString conv)].

(* ------------------------------------------------------------------ *)
(** ** From a request to the service *)

Lemma messages_handler rest m h p i s : (m, h) ∈ @register_messages _ _ (with_messages_api rest) →
  rpc rest m p i s = match h p s with (s', Ok v) => (s', success i v) | (s', Err e) => (s', MkResponse (lit "2.0") None (Some e) i) end.
Proof.
  intros Hm. apply (@dispatch_service _ _ (with_messages_api rest)). unfold services_methods. rewrite !elem_of_app. tauto.
Qed.

Lemma send_params_to to body : get_str "recipient" (send_params to body) = Some to.
Proof. reflexivity. Qed.
Lemma send_params_body to body : get_str "body" (send_params to body) = Some body.
Proof. reflexivity. Qed.
Lemma thread_params_str conv : get_str "conversation_id" (thread_params conv) = Some conv.
Proof. reflexivity. Qed.
Lemma thread_params_limit conv : limit_of (thread_params conv) = 50%N.
Proof. reflexivity. Qed.

Context {rest : Backend S} {Hlaws : MessageContextLaws S}.

Lemma rpc_thread conv j s t : get_thread conv 50 (seed_of s) (db (mnode_of s)) = Ok t →
  rpc rest "messages.get_thread" (thread_params conv) j s = (s, success j (thread_json t)).
Proof.
  intros Ht. rewrite (messages_handler _ _ (@messages_get_thread _ (with_messages_api rest))) by (right; right; by left).
  unfold messages_get_thread, str_arg, extract_str. rewrite thread_params_str, thread_params_limit.
  unfold se_bind, se_lift, svc, se_map_err, call, with_messages_api, shown. cbn [ok_or]. by rewrite Ht.
Qed.

(** A message that is sent is one [send_as] of the service, whose answer is
    the result. *)
Lemma rpc_send_inv to body i s v : r_result (rpc rest "messages.send" (send_params to body) i s).2 = Some v →
  ∃ c, send_as (draws_of s) (bool_decide (is_Some (net_view s))) true (seed_of s) to body None (mnode_of s) =
      (mnode_of (rpc rest "messages.send" (send_params to body) i s).1, Ok c) ∧
    seed_of (rpc rest "messages.send" (send_params to body) i s).1 = seed_of s ∧ v = sent_json c.
Proof.
  rewrite (messages_handler _ _ (@messages_send _ _ (with_messages_api rest))) by by left. intros Hr.
  assert (Hm : ∃ s', @messages_send _ _ (with_messages_api rest) (send_params to body) s = (s', Ok v)).
  { destruct (messages_send _ s) as [s' [w|e]]; [|done]. injection Hr as ->. by exists s'. }
  destruct Hm as [s' Hm]. rewrite Hm. cbn [fst]. clear Hr. revert Hm. unfold messages_send.
  intros (s1 & r & [-> Hrec]%se_lift_ok & Hm)%se_bind_ok. apply se_bind_ok in Hm as (s1 & b & [-> Hb]%se_lift_ok & Hm).
  unfold extract_str in Hrec, Hb. rewrite send_params_to in Hrec. rewrite send_params_body in Hb.
  injection Hrec as <-. injection Hb as <-.
  apply se_bind_ok in Hm as (s1 & w & Hc%se_map_err_ok & Hm). revert Hc. unfold call, with_messages_api. cbn beta iota.
  change (get_u64 "ttl_seconds" (send_params to body)) with (@None N).
  destruct (send_as _ _ _ _ _ _ _ _) as [n [c|e]]; [|done]. intros [= <- <-]. exists c.
  apply se_bind_ok in Hm as (s2 & [] & Hp & Hm). injection Hm as <- <-.
  revert Hp. destruct (Rpc.get_str "message_hash" (sent_json c)) as [h|], (key_of to) as [k|];
    unfold publish, se_modify, se_ret; intros [= <-]; try by rewrite mnode_with, seed_with.
  rewrite (@mnode_emit S _ rest Hlaws), (@seed_emit S _ rest Hlaws). by rewrite mnode_with, seed_with.
Qed.

Context `{!PrimitiveLaws, !KeyConversionLaws, !HexLaws, !JsonLaws, !HashBytes}.

(** A send that succeeds is of a body that is not among the messages. *)
Lemma send_fresh fresh nonce now t1 t2 t3 net on local recipient to body ttl x st c :
  (Ingest.send fresh nonce now t1 t2 t3 net on local recipient to body ttl x st).2 = Ok c →
  messages (db st) !! blake3_hash (as_bytes body) = None.
Proof.
  unfold Ingest.send. destruct x as [key|]; [|done]. rewrite send_db_eq.
  destruct (MessageEncryption.encrypt_message _ _ _ _); [|done]. cbv zeta.
  destruct (messages (db st) !! _); done.
Qed.

Lemma parties_hex seed key : key_ok key → parties (Some seed) (hex_encode key) = Ok (ed25519_public seed, key).
Proof.
  intros [Hl Hb]. unfold parties, parse_pubkey. cbn. rewrite hex_decode_encode by done. cbn. by rewrite Hl.
Qed.

(** C14. A message from one client to another.  When [messages.send] answers
    with a result, the sender's node has handed two payloads to the network;
    the conversation of the answer names the thread of both ends.  In the
    sender's, [messages.get_thread] shows the message first; once the other
    node has taken in the first payload it shows it first there too, with
    the sender's key, unread: the first hundred characters of the body, to
    both, and of the rest nothing. *)
Theorem rpc_message_roundtrip (body : str) (i j : Value) (sa sb : S) (ka kb : bytes) (v : Value) (now' t1' t3' x : N)
  (Hsa : seed_of sa = Some ka) (Hsb : seed_of sb = Some kb)
  (Ha : key_ok (ed25519_public ka)) (Hb : key_ok (ed25519_public kb)) (Hne : ed25519_public ka ≠ ed25519_public kb)
  (Hf : length (sd_fresh (draws_of sa)) = 32) (Hn : length (sd_nonce (draws_of sa)) = NONCE_LEN)
  (Hnow : (sd_now (draws_of sa) < 2 ^ 63 - 1)%N) (Hnow' : (now' + 86400 < 2 ^ 63)%N) (Hnet : is_Some (net_view sa))
  (Hla : ∀ k m, messages (db (mnode_of sa)) !! k = Some m → (m_received_at m < Z.of_N (sd_now (draws_of sa)))%Z)
  (Hlb : ∀ k m, messages (db (mnode_of sb)) !! k = Some m → (m_received_at m < Z.of_N (sd_now (draws_of sa)))%Z)
  (Hr : r_result (rpc rest "messages.send" (send_params (hex_encode (ed25519_public kb)) body) i sa).2 = Some v) :
  let alice := hex_encode (ed25519_public ka) in
  let bob := ed25519_public kb in
  let now := sd_now (draws_of sa) in
  let sa' := (rpc rest "messages.send" (send_params (hex_encode bob) body) i sa).1 in
  let shows := λ id mine expires s conv, ∃ others more,
    rpc rest "messages.get_thread" (thread_params conv) j s = (s, success j (thread_json
      (MkThreadItem id alice (Some (take 100 body)) (Z.of_N now) expires mine mine mine (if mine then "read" else "delivered")
         :: others, more))) in
  ∃ conv clear sealed, get_str "conversation_id" v = Some conv ∧ get_bool "published_gossip" v = Some true ∧
    outbox (mnode_of sa') = outbox (mnode_of sa) ++ [clear; sealed] ∧
    shows (hex_encode (blake3_hash (as_bytes body))) true (add_i64 (Z.of_N now) 86400) sa' conv ∧
    (length clear ≤ MAX_ENVELOPE_SIZE → messages (db (mnode_of sb)) !! dm_id alice body now = None →
     shows (hex_encode (dm_id alice body now)) false (Z.of_N now' + 86400)%Z
       (with_mnode (Ingest.ingest x t1' now' t3' (Some bob) clear (mnode_of sb)) sb) conv).
Proof.
  intros alice bob now sa' shows.
  destruct (rpc_send_inv _ _ _ _ _ Hr) as (c & Hs & Hseed & ->). fold bob sa' in Hs, Hseed.
  rewrite Hsa in Hs, Hseed. rewrite bool_decide_true in Hs by done. unfold send_as in Hs. rewrite parties_hex in Hs by done.
  apply se_bind_ok in Hs as (n0 & ? & [-> [= <-]]%se_lift_ok & Hs%se_map_err_ok). cbn [fst snd] in Hs. fold bob in Hs.
  assert (Hnew : messages (db (mnode_of sa)) !! blake3_hash (as_bytes body) = None).
  { eapply send_fresh. by rewrite Hs. }
  set (conv := hex_encode (Service.compute_conversation_id (ed25519_public ka) bob)).
  assert (Hconv : hex_decode conv = Some (Service.compute_conversation_id (ed25519_public ka) bob)).
  { apply hex_decode_encode. apply blake3_bytes. }
  destruct (thread_roundtrip now (sd_t_conv (draws_of sa)) (sd_t_drop (draws_of sa)) (sd_t_dht (draws_of sa)) now' t1' t3' x 50 true
    ka kb (sd_fresh (draws_of sa)) (sd_nonce (draws_of sa)) conv body None (mnode_of sa) (mnode_of sb) Ha Hb Hne Hf Hn Hnew Hnow Hnow') as
    ((in_dht & Hc) & clear & sealed & Ho & (ra & ma & Hta) & Htb & _); [by vm_compute|exact Hconv|by eauto..|].
  fold bob in Hc, Ho, Hta, Htb. unfold now in Hc, Ho, Hta. rewrite Hs in Hc, Ho, Hta. cbn [fst snd] in Hc, Ho, Hta. injection Hc as ->.
  exists conv, clear, sealed. split_and!; [reflexivity|reflexivity|exact Ho| |].
  - exists ra, ma. apply rpc_thread. rewrite Hseed. exact Hta.
  - intros Hl Hid. destruct (Htb Hl Hid) as [(rb & mb & Htb') _]. exists rb, mb. apply rpc_thread.
    rewrite seed_with, mnode_with, Hsb. exact Htb'.
Qed.
End messages.

(* ------------------------------------------------------------------ *)
(** ** Witnesses *)

Section witnesses.
Import Toy PostToy HexToy JsonToy ConversionToy.

(** Nodes with their seeds, whose other services answer nothing. *)
Definition client : Type := Ingest.Node * bytes.
#[local] Instance mw_rest : Backend client := {
  call _ s := (s, Ok VNull); query _ s := (s, Ok None); emit _ s := s; net_view _ := Some (MkView [] [] false); handle_of _ _ := None;
  search_handles _ _ := []; signing_pubkey s := Some s.2; profile_row _ _ := None; has_session _ := false;
  has_keystore _ := true; uptime_secs _ := 0%N; dht_limits _ := (0, 0, 0)%N; handle_task _ := None; lowercase s := s; hex_error _ := []
}.
#[local] Instance mw_context : MessageContext client := {
  mnode_of := fst; with_mnode n s := (n, s.2); seed_of s := Some s.2; profiles_of _ := None;
  draws_of _ := MkDraws v_fresh v_nonce 1000 1000 1000 1000; mute_clocks _ := (1000, 1000)%N;
  request_error _ := lit "refused"; send_error _ := lit "failed"
}.
#[local] Instance mw_laws : MessageContextLaws client.
Proof. split; intros; try done. by destruct s. Defined.

Definition mw_alice : client := (iw_node, iw_alice).
Definition mw_bob : client := (iw_node, iw_bob).
Definition mw_result : Value :=
  default VNull (r_result (rpc mw_rest "messages.send" (send_params (hex_encode iw_bob) v_hi) (vnum 1) mw_alice).2).

Lemma rpc_message_roundtrip_witness :
  ∃ conv others more, get_str "conversation_id" mw_result = Some conv ∧
    let s' := (rpc mw_rest "messages.send" (send_params (hex_encode iw_bob) v_hi) (vnum 1) mw_alice).1 in
    rpc mw_rest "messages.get_thread" (thread_params conv) (vnum 2) s' = (s', success (vnum 2) (thread_json
      (MkThreadItem (hex_encode (blake3_hash (as_bytes v_hi))) (hex_encode iw_alice) (Some v_hi) 1000 87400 true true true "read" :: others, more))).
Proof.
  destruct (rpc_message_roundtrip v_hi (vnum 1) (vnum 2) mw_alice mw_bob iw_alice iw_bob mw_result 1010 0 0 0)
    as (conv & clear & sealed & Hc & _ & _ & (others & more & Ht) & _).
  - reflexivity.
  - reflexivity.
  - apply v_alice_ok.
  - apply v_bob_ok.
  - by vm_compute.
  - reflexivity.
  - reflexivity.
  - reflexivity.
  - reflexivity.
  - by eexists.
  - intros k m Hk. exfalso. revert Hk. apply lookup_empty_Some.
  - intros k m Hk. exfalso. revert Hk. apply lookup_empty_Some.
  - unfold mw_result. destruct (r_result _) eqn:E; [done|]. exfalso. revert E. vm_compute. discriminate.
  - exists conv, others, more. split; [exact Hc|exact Ht].
Defined.
End witnesses.
